(* ===== verification/_CoqProject ===== *)
-Q . S2P
Prelude.v
Bytes.v
Crypto.v
Transcript.v
ShardGate.v
Json.v
ShardMap.v
ShardStore.v
Drain.v
Storage.v
RoomState.v
AttestApi.v
Room.v
RoomSteps.v
RoomFacts.v
Scenario.v
RoomSlots.v
RoomTickets.v
RoomLimits.v
RoomStore.v
RoomPending.v
RoomDelete.v
RoomProof.v
RoomAlarm.v
RoomCycles.v
Utf8.v
Cbor.v
Attestation.v
Runtime.v
Host.v
ShardFetch.v
Reshard.v
Monitor.v
MonitorFleet.v
MonitorProbe.v
MonitorPush.v
Metrics.v
HostServer.v
Launch.v
HostMetrics.v
Process.v
MonitorCore.v
MonitorPaging.v
MonitorServer.v
MonitorHealth.v
MonitorStore.v
Html.v
MonitorPage.v
MonitorShell.v
DashParse.v
DashScrape.v
DashStore.v
DashSeries.v
DashTiles.v
DashServer.v
DashPage.v
Watch.v
Defenses.v
Service.v
DashDb.v
DashShell.v
HostWire.v
MonitorMain.v
