(* ===== verification/Prelude.v ===== *)
(** * The companion relay, verified

    The relay splices two parties, a [mac] and a [phone], that share a secret
    room name, and forwards their (already encrypted) frames.  This library
    models the server side of the program: the room, its storage and event loop,
    the App Attest verification that guards pairing, the process that hosts the
    rooms, the sharding that spreads the rooms over several boxes, and the tools
    that watch them: metrics, the monitor, the dashboard and the watcher.

    ** How the program is put together

    A WebSocket upgrade or an HTTP request reaches the host ([host/server.js]),
    which identifies the client, applies rate limits and caps, checks the room
    name ([src/index.js]) and, when sharded, that this box owns the room's bucket
    ([src/sharding/admission.js]).  It then takes the room's context from the
    runtime ([host/runtime.js]), which builds one [Room] ([src/room.js]) per name,
    serialises the frames of each socket, and evicts the context when it is idle.
    A room keeps everything that must survive eviction in its storage
    ([host/storage.js], one SQLite database for every room) and in the
    attachments of its sockets.  A poller ([src/sharding/shardMapPoller.js])
    fetches the shard map; a change of ownership is handed to the drain scheduler
    ([src/sharding/drainScheduler.js]), which closes relinquished rooms at a
    bounded rate.

    Every box counts what it does ([host/metrics.js]) and serves the counts to
    local scrapes, or pushes them ([host/metricspush.js]).  The monitor
    ([monitor/src/]) receives or pulls them, probes each box from outside with a
    handshake in a room the box owns, mails alerts and shows a page; a dashboard
    beside the box ([dashboard/]) scrapes it into a table and draws its history;
    a watcher ([ops/watch/tick.mjs]) probes all of them and the push relays from
    a third place.

    ** Files

    - Prelude: the tactics, hints and generic lemmas; the [result] type with its
      [let!] notation; the effect type [Eff] (a state, and values or exceptions).
    - Bytes, Crypto, Transcript: hexadecimal and base64, the length-prefixed
      encoding [canon], the cryptography as the class [Crypto] with its laws
      [CryptoLaws] and a concrete instance for the witnesses; the transcripts a
      join, a deletion and an attestation sign ([src/room.js],
      [src/sharding/room.js]).
    - Json: [JSON.parse] on text, with numbers as IEEE doubles.
    - ShardGate: entry gate, bucket, mode, origin, ownership, parameters, wire
      codes (the small files of [src/sharding/] and [src/index.js]).
    - ShardMap, ShardStore, ShardFetch: the shard map ([shardMap.js],
      [ownedSet.js]), the store and poller ([shardMapStore.js],
      [shardMapPoller.js]), the fetch with retries of [host/server.js].
    - Drain: the drain scheduler, against the interface [Rooms] that file Runtime
      implements.
    - Storage: [host/storage.js]: the shared tables, and the single-room storage
      they refine.
    - RoomState, Room, RoomSteps: a room's state, its handlers as effects, and
      the room under its event loop as a step function ([step], [run]).
      AttestApi is the interface of App Attest the room is written against.
    - RoomFacts, RoomProof, Scenario: shared lemmas, the case analysis of a proof
      frame, and concrete runs.  RoomSlots, RoomTickets, RoomLimits, RoomStore,
      RoomPending, RoomDelete, RoomAlarm, RoomCycles: the properties of the room.
    - Utf8, Cbor, Attestation: [TextDecoder], [src/cbor.js], [src/appattest.js],
      with the instance of AttestApi's class.
    - Runtime: the registry of contexts, eviction, [closeRoom], the chunked timer.
    - Host: client address, rate limiters, upgrade gates and socket counters of
      [host/server.js].
    - Reshard: a box in distributed mode: the poller's adoptions, the drain
      passes they cause, the ownership gate of upgrades and the boot
      ([createRelay] of [host/server.js]), over ShardStore, Drain and Runtime.
    - Metrics, HostServer, HostMetrics: [host/metrics.js]; the HTTP handler,
      keepalive, the outbound push ([host/metricspush.js]) and the constructor's
      checks; and what every event of a host adds to the counters.
    - Process: the gates and counters of the host over the registry of rooms,
      with the handshakes and bodies under way between a gate and what it lets in.
    - Service: the relay from boot to shutdown ([createRelay], [listen], [close]):
      file Process with the boot's map fetches, the polls, drain passes, keepalive
      sweeps and pushes that its timers start, in distributed mode or not.
    - HostWire: the bytes of a refused upgrade, read back by a reader of HTTP/1.1.
    - Launch: [bin/relay.js]: the configuration read from the environment, what
      is refused and warned about, the limits the host runs with, the start up to
      the listening port, the signals.
    - Monitor, MonitorFleet, MonitorPush, MonitorCore, MonitorPaging: the monitor
      ([monitor/src/monitor.js], [monitor/src/core.js]): configuration, alert
      rules and cooldown; owned rooms, streaks and the probe's handshake; the
      metrics pages it scrapes; one tick ([run]) and the pulls; sequences of ticks.
      MonitorProbe runs its handshake against the room of file Room.
    - MonitorServer, MonitorHealth, MonitorStore: its HTTP side with the secrets
      and the live refresh ([monitor/src/server.js]), the tick seen from the
      dashboard, the file store ([monitor/src/store.js]).
    - Html, MonitorPage: a specification of the HTML tokenizer, and the page
      [renderDashboard] writes.  MonitorShell: the probe's socket adapter and
      deadline, the requests' verdicts, the settings file.  MonitorMain: the
      process ([main]), its timers, the ticks and the pulls under way.
    - DashParse, DashScrape, DashStore, DashDb, DashSeries, DashTiles, DashServer,
      DashPage, DashShell: the dashboard ([dashboard/]): parsing a scrape ([parse.js]) and
      what it reads of a page that file Metrics rendered; the tables and the
      collectors, alone and together ([db.js], [collector.js]); tiles, charts and alerts
      ([series.js]) and the events they count; the password, the routes and the
      configuration ([auth.js], [server.js], [bin/dashboard.js]); the page: what
      its script draws, its markup, buttons, loads and pointer ([page.js]).
    - Watch: the watcher ([ops/watch/tick.mjs]).
    - Defenses: the defence probe ([tools/probe-defenses.mjs]) driven into the rooms
      of file RoomSteps.

    ** What the theorems show

    - Room.  In every interleaving of connections, frames, requests, resumed
      signature checks, alarms and restarts: one live socket per role
      ([one_socket_per_role]); in an established room only a socket that signed
      this room's nonce, role, name and origin is admitted
      ([established_admission_is_signed]); tickets are used once
      ([tickets_single_use]); the verifier is neither replaced nor wiped without
      authority ([verifier_changes_only_after_wipe],
      [established_room_wiped_only_by_deletion_or_idleness]); frames go to the
      peer only ([frames_reach_only_the_peer]); the pairing cycles, quota,
      pre-auth sockets and rate limits are bounded; alarms sweep and re-arm
      ([alarm_sweeps]).  The places where the code does less than it means to are
      theorems as well ([registration_check_races],
      [lapsed_alarm_never_rearmed], [refused_mac_resets_budget]).
    - Attestation.  What an accepted attestation or assertion proves, and that
      one attestation answers one challenge; the CBOR codec round-trips and its
      decoder is total.
    - Storage.  The shared database gives each room the storage it would have
      alone; [list] is exact and sorted.
    - Runtime and host.  One live context per room name, with the frame that
      breaks it ([late_frame_splits_brain]); timers fire, never early; the
      limiter, client address and counters.
    - Sharding.  A map is accepted exactly when its ranges partition the buckets;
      a bucket has one owner; the poller refines "keep the newest valid map";
      retries are exact; draining is deferred, rate-limited, and completes.
    - Resharding.  From boot, in any order of polls, drain passes, upgrades and
      room events, a box closes only rooms it must give up and admits only what
      it owns ([reshard_safe]); after the last map it settles
      ([resharding_completes]).
    - The process.  Each counter is the number of events it names, and the page a
      monitor or a dashboard scrapes reads those numbers ([relay_metrics_exact]);
      from boot to shutdown the caps on sockets and rooms hold up to the
      operations under way, and nothing passes the gates unowned
      ([service_holds]); a shutdown closes every socket and the storage, and ends
      ([shutdown_clean]); a refused client reads the refusal
      ([refusals_readable]); when exactly the executable serves, and with what it
      then runs ([launch_exact]).
    - Monitor.  A silent relay is mailed about and a reporting one is not
      by the process with its ticks, pulls and pushes in any order
      ([silent_relay_is_mailed]), and a pull before the first tick is [pullRelays]
      ([first_pull_then_tick]); mail is paced and an active alert never left
      unmailed for longer ([alert_mail_paced]); nothing is stored or shown
      without its secret ([requests_need_their_secret]); the dashboard shows the
      tick's verdicts ([dashboard_shows_tick_verdicts]) and its HTML is the
      intended page whatever the texts contain ([page_reads_as_intended]); the
      probe uses a room the host owns ([probe_room_is_owned]), succeeds on the
      modelled room ([probe_succeeds_on_fresh_room]), and has one verdict, by its
      deadline ([probe_verdict_exact]); a stopped [put] leaves the old value or
      the new one ([put_is_atomic]).
    - Dashboard.  The tiles count the relay's events across restarts
      ([tiles_count_events]), the charts are the rates, means and shares of their
      slots and add up to the tiles ([charts_agree_with_tiles]), both histories are exact within their retention
      ([histories_exact]), nothing is told without the password
      ([dashboard_needs_password]), the page draws what it is sent,
      for the relay and the push relay ([page_draws_the_payload]), and shows and
      asks for the range last pressed ([page_follows_its_buttons]).
    - Watcher.  Each verdict means what it says of the hosts, the push relays and
      the controls ([watch_verdict_exact]).
    - Defence probe.  Against these rooms, within their windows, the tool reports
      every attack stopped ([defenses_held]).
    - Defects.  Where modelling showed the code doing less than its comments say,
      a lemma says so: besides those of the room and the runtime,
      [null_snapshot_stops_the_monitor], [overlapping_puts_tear],
      [inherited_range_is_empty], [watch_well_unprobed],
      [fractional_hops_lose_the_address], [flap_share_exceeds_one],
      [area_crosses_the_gap], [pointer_ignores_the_margin],
      [refusal_reported_as_attack], [closed_before_bound],
      [late_answer_shows_the_old_range], [overlapping_ticks_mail_twice],
      [interval_with_unit] and the examples
      [close_in_between] and [slow_link_gets_through].

    ** Modelling decisions

    - A handler is atomic up to an await on real asynchronous work (WebCrypto).
      The storage calls are synchronous underneath, so awaiting them yields only
      to microtasks, and the per-socket chains and pins keep other handlers of
      the room out, as [host/storage.js] and [host/runtime.js] explain.  At a
      WebCrypto await a handler is a value of [suspended] that the event loop
      resumes, in any order, with any other step in between.
    - In file Runtime a frame pins its context when it arrives; [_dispatch] pins in
      the run that is chained after the socket's earlier frames.
    - Each segment of a handler takes the time [now] and its random bytes as
      arguments; two readings of the clock within a segment are one.
    - Strings are their UTF-8 bytes, times and counts are [Z] (JavaScript
      integers far below 2^53); JSON numbers are doubles; token buckets are
      rationals.  Stored values are a tagged union instead of JSON text.  The
      contents of a binary frame are read as text the way [TextDecoder] does
      where it matters (App Attest); a relayed frame is opaque.
    - Packages and platform services are parameters: SHA-256, ECDSA, X.509
      parsing, [fetch], timers.  Each law assumed of them is a field of
      [CryptoLaws] or a named hypothesis, and is met by the instance the
      witnesses use.
    - The numbers of a configuration are the exact values of their decimals (Q),
      as are sums and quotients of the dashboard and the coordinates it draws,
      rounded where the code rounds.  Alerts keep what they found instead of
      their text.
    - What the network, the disk and the platform's parsers answer is an argument
      (a tick's [deps], the events of a probe's socket, the decoder of base64);
      the order of [localeCompare], local times and the text of a number with a
      fraction are arguments too.  A directory is names over inodes, so that
      files can be renamed while open; a table is a map from row ids.
    - An upgrade is one step of a box in file Reshard (the runtime pins the
      context across it); in file Runtime its parts interleave.
    - Log lines that depend on [RELAY_LOG] and the wording of some error messages
      are left out; lifecycle log lines and every reply to a client are modelled.

    ** Bounds and fuel

    Recursions that are not structural carry fuel, with a lemma or theorem that
    the fuel given by the caller is enough: [JSON.parse] takes twice the length of
    the text ([JSON_parse_fuel]); the CBOR reader twice the number of bytes plus one ([decode_total]);
    the chunked timer one hop per [MAX_DELAY] of the delay ([armTimer_fires]).
    Everything else is structural, or iterates over a list.

    ** Not modelled

    The wording of alerts and mail bodies, log lines and the printed report of
    the watcher.  The style sheet of the dashboard's page and the colors of its
    lines.  The start of the monitor and the dashboard beyond what files DashDb
    and MonitorMain have of it: the binding of their ports.  Disk errors, apart from the
    monitor's file store.  Shell scripts and unit files.  Direct mode and an
    injected map store in file Reshard (there is nothing to drain there).  The
    handlers of the rooms inside files Process and Service: there a room is its
    context in the registry, and file RoomSteps has what it does. *)

From stdpp Require Export base gmap sets list strings sorting.
From Stdlib Require Export ZArith Lia.
From Stdlib Require Import Ascii.

#[global] Open Scope Z_scope.

(** ** Tactics shared by every file *)

Ltac invert H := inversion H; subst; try clear H.

(** Split every [match]/[if] on the way to the goal, keeping the equations. *)
Ltac split_goal :=
  repeat match goal with
  | |- context [match ?x with _ => _ end] => destruct x eqn:?; simplify_eq/=
  end.

Ltac split_hyp H :=
  repeat match type of H with
  | context [match ?x with _ => _ end] => destruct x eqn:?; simplify_eq/=
  end.

(** Turn boolean comparisons of the code into propositions. *)
Ltac to_prop :=
  repeat match goal with
  | H : (_ && _)%bool = true |- _ => apply andb_true_iff in H as [? ?]
  | H : (_ || _)%bool = false |- _ => apply orb_false_iff in H as [? ?]
  | H : negb _ = true |- _ => apply negb_true_iff in H
  | H : negb _ = false |- _ => apply negb_false_iff in H
  | H : (_ <? _) = true |- _ => apply Z.ltb_lt in H
  | H : (_ <? _) = false |- _ => apply Z.ltb_ge in H
  | H : (_ <=? _) = true |- _ => apply Z.leb_le in H
  | H : (_ <=? _) = false |- _ => apply Z.leb_gt in H
  | H : (_ =? _) = true |- _ => apply Z.eqb_eq in H
  | H : (_ =? _) = false |- _ => apply Z.eqb_neq in H
  | H : String.eqb _ _ = true |- _ => apply String.eqb_eq in H
  | H : String.eqb _ _ = false |- _ => apply String.eqb_neq in H
  | H : bool_decide _ = true |- _ => apply bool_decide_eq_true in H
  | H : bool_decide _ = false |- _ => apply bool_decide_eq_false in H
  end.

(** [lia] with division and remainder. *)
Ltac dlia := Z.to_euclidean_division_equations; lia.

(** ** Results: a value, or the error the code throws *)

Inductive result (E A : Type) : Type :=
| Ok (a : A)
| Err (e : E).
Arguments Ok {E A} _.
Arguments Err {E A} _.

Declare Scope result_scope.
Delimit Scope result_scope with res.

Definition rbind {E A B : Type} (m : result E A) (k : A -> result E B) : result E B :=
  match m with Ok a => k a | Err e => Err e end.

Notation "'let!' x ':=' m 'in' k" := (rbind m (fun x => k))
  (at level 10, x pattern, m at level 100, k at level 200) : result_scope.
Notation "'guard!' b 'else' e 'in' k" := (if b then k else Err e)
  (at level 10, b at level 100, e at level 100, k at level 200) : result_scope.

Definition is_ok {E A : Type} (r : result E A) : bool :=
  match r with Ok _ => true | Err _ => false end.

Lemma rbind_ok {E A B : Type} (m : result E A) (k : A -> result E B) b :
  rbind m k = Ok b <-> exists a, m = Ok a /\ k a = Ok b.
Proof. destruct m; simpl; naive_solver. Qed.

(** ** Stateful handlers: state passing with exceptions

    An [Eff S A] is a handler that reads and writes a state [S] and returns an
    [A] or throws, as an [async] function of the code does between two real
    suspensions.  A throw keeps the writes made before it. *)

Inductive outcome (A : Type) : Type :=
| Done (a : A)
| Throw (message : string).
Arguments Done {A} _.
Arguments Throw {A} _.

Definition Eff (S A : Type) : Type := S -> outcome A * S.

Declare Scope eff_scope.
Delimit Scope eff_scope with eff.

Section Eff.
Context {S : Type}.

Definition eret {A} (a : A) : Eff S A := fun s => (Done a, s).
Definition ethrow {A} (m : string) : Eff S A := fun s => (Throw m, s).
Definition ebind {A B} (m : Eff S A) (k : A -> Eff S B) : Eff S B :=
  fun s => match m s with
           | (Done a, s') => k a s'
           | (Throw e, s') => (Throw e, s')
           end.
Definition eget {A} (f : S -> A) : Eff S A := fun s => (Done (f s), s).
Definition emod (f : S -> S) : Eff S unit := fun s => (Done tt, f s).
Definition ewhen (b : bool) (m : Eff S unit) : Eff S unit := if b then m else eret tt.

Fixpoint eforeach {A} (l : list A) (f : A -> Eff S unit) : Eff S unit :=
  match l with
  | [] => eret tt
  | x :: l' => ebind (f x) (fun _ => eforeach l' f)
  end.

(** The state a handler leaves. *)
Definition exec {A} (m : Eff S A) (s : S) : S := snd (m s).

(** [within R m]: whatever [m] does, it moves the state inside [R]. *)
Definition within {A} (R : S -> S -> Prop) (m : Eff S A) : Prop :=
  forall s, R s (exec m s).

Section Within.
Context (R : S -> S -> Prop) `{!PreOrder R}.

Lemma within_ret {A} (a : A) : within R (eret a).
Proof. intros s. reflexivity. Qed.

Lemma within_throw {A} e : within R (ethrow (A := A) e).
Proof. intros s. reflexivity. Qed.

Lemma within_get {A} (f : S -> A) : within R (eget f).
Proof. intros s. reflexivity. Qed.

Lemma within_mod f : (forall s, R s (f s)) -> within R (emod f).
Proof. intros H s. apply H. Qed.

Lemma within_bind {A B} (m : Eff S A) (k : A -> Eff S B) :
  within R m -> (forall a, within R (k a)) -> within R (ebind m k).
Proof.
  intros Hm Hk s. unfold exec, ebind. specialize (Hm s). unfold exec in Hm.
  destruct (m s) as [[a|e] s']; simpl in *; [|done].
  etransitivity; [exact Hm|apply Hk].
Qed.

Lemma within_when b m : within R m -> within R (ewhen b m).
Proof. destruct b; simpl; [done|intros; apply within_ret]. Qed.

Lemma within_foreach {A} (l : list A) (f : A -> Eff S unit) :
  (forall x, within R (f x)) -> within R (eforeach l f).
Proof.
  intros Hf. induction l as [|x l IH]; simpl; [apply within_ret|].
  apply within_bind; [apply Hf|done].
Qed.

Lemma within_if {A} (b : bool) (m n : Eff S A) :
  within R m -> within R n -> within R (if b then m else n).
Proof. by destruct b. Qed.
End Within.

(** Preserving an invariant is moving inside [preserving I]. *)
Definition preserving (I : S -> Prop) : S -> S -> Prop := fun s s' => I s -> I s'.

#[global] Instance preserving_preorder (I : S -> Prop) : PreOrder (preserving I).
Proof. split; unfold preserving; [intros s; done|intros s1 s2 s3; auto]. Qed.

(** A projection of the state is left alone. *)
Definition same {A} (f : S -> A) : S -> S -> Prop := fun s s' => f s' = f s.

#[global] Instance same_preorder {A} (f : S -> A) : PreOrder (same f).
Proof. split; unfold same; [intros s; done|intros s1 s2 s3; congruence]. Qed.

(** Hoare triples: from [P], [m] returns in [Q] or throws in [X]. *)
Definition hoare {A} (P : S -> Prop) (m : Eff S A) (Q : A -> S -> Prop) (X : S -> Prop) : Prop :=
  forall s, P s -> match m s with (Done a, s') => Q a s' | (Throw _, s') => X s' end.

Lemma hoare_ret {A} (P : S -> Prop) (a : A) (Q : A -> S -> Prop) X :
  (forall s, P s -> Q a s) -> hoare P (eret a) Q X.
Proof. intros HP s Hs. simpl. auto. Qed.

Lemma hoare_mod (P : S -> Prop) f (Q : unit -> S -> Prop) X :
  (forall s, P s -> Q tt (f s)) -> hoare P (emod f) Q X.
Proof. intros HP s Hs. simpl. auto. Qed.

Lemma hoare_bind {A B} P (m : Eff S A) (k : A -> Eff S B) Q R X :
  hoare P m Q X -> (forall a, hoare (Q a) (k a) R X) -> hoare P (ebind m k) R X.
Proof.
  intros Hm Hk s Hs. specialize (Hm s Hs). unfold ebind. destruct (m s) as [[a|e] s']; [|done].
  by apply Hk.
Qed.

(** Reading the state: its value is known where it is used. *)
Lemma hoare_get {A B} (P : S -> Prop) (f : S -> A) (k : A -> Eff S B) R X :
  (forall a, hoare (fun s => P s /\ f s = a) (k a) R X) -> hoare P (ebind (eget f) k) R X.
Proof. intros Hk s Hs. unfold ebind, eget. by apply Hk. Qed.

Lemma hoare_within {A} (I : S -> Prop) (m : Eff S A) :
  within (preserving I) m -> hoare I m (fun _ => I) I.
Proof. intros Hm s Hs. specialize (Hm s Hs). unfold exec in Hm. by destruct (m s) as [[a|e] s']. Qed.

Lemma within_hoare {A} (I : S -> Prop) (m : Eff S A) :
  hoare I m (fun _ => I) I -> within (preserving I) m.
Proof. intros Hm s Hs. specialize (Hm s Hs). unfold exec. by destruct (m s) as [[a|e] s']. Qed.

Lemma hoare_weaken {A} (P P' : S -> Prop) (m : Eff S A) (Q Q' : A -> S -> Prop) (X X' : S -> Prop) :
  hoare P' m Q' X' -> (forall s, P s -> P' s) -> (forall a s, Q' a s -> Q a s) ->
  (forall s, X' s -> X s) -> hoare P m Q X.
Proof.
  intros Hm HP HQ HX s Hs. specialize (Hm s (HP s Hs)). destruct (m s) as [[a|e] s']; auto.
Qed.

Lemma hoare_exec {A} (P : S -> Prop) (m : Eff S A) (Q : S -> Prop) s :
  hoare P m (fun _ => Q) Q -> P s -> Q (exec m s).
Proof. intros Hm Hs. specialize (Hm s Hs). unfold exec. by destruct (m s) as [[a|e] s']. Qed.
End Eff.

Notation "x <- m ;; k" := (ebind m (fun x => k))
  (at level 100, m at next level, right associativity) : eff_scope.
Notation "m ;;; k" := (ebind m (fun _ => k))
  (at level 100, right associativity) : eff_scope.

Create HintDb within.
#[export] Hint Resolve within_ret within_throw within_get within_bind within_when
  within_foreach within_if : within.

(** ** Lists *)

Section ListFacts.
Context {A : Type}.

Lemma last_snoc_cases (l : list A) : l = [] \/ exists l' x, l = l' ++ [x].
Proof. destruct l using rev_ind; [by left|right; eauto]. Qed.

Lemma app_inj_length (l1 l2 k1 k2 : list A) :
  length l1 = length k1 -> l1 ++ l2 = k1 ++ k2 -> l1 = k1 /\ l2 = k2.
Proof. intros. by apply app_inj_1. Qed.

Lemma filter_length_le (P : A -> Prop) `{!forall x, Decision (P x)} (l : list A) :
  (length (filter P l) <= length l)%nat.
Proof. apply length_filter. Qed.
End ListFacts.

Lemma sublist_omap {A B} (f : A -> option B) (l k : list A) : sublist l k -> sublist (omap f l) (omap f k).
Proof. induction 1 as [|x l k _ IH|x l k _ IH]; simpl; [done|destruct (f x)..]; try done; by constructor. Qed.

(** [count P l] with a boolean predicate, the form the traces are counted in. *)
Fixpoint countb {A} (p : A -> bool) (l : list A) : nat :=
  match l with
  | [] => 0
  | x :: l' => ((if p x then 1 else 0) + countb p l')%nat
  end.

(** Membership in an explicit list. *)
Ltac member := by repeat first [apply list_elem_of_here|apply list_elem_of_further].

Lemma countb_zero {A} (p : A -> bool) l a : countb p l = O -> a ∈ l -> p a = false.
Proof.
  intros H Hin. induction Hin as [a l|a b l Hin IH]; simpl in H; [by destruct (p a)|]. apply IH. lia.
Qed.

Lemma countb_app {A} (p : A -> bool) l k :
  countb p (l ++ k) = (countb p l + countb p k)%nat.
Proof. induction l; simpl; [done|rewrite IHl; lia]. Qed.

(** ** Integer ranges, as the [for (b = low; b <= high; b++)] loops build them *)

Definition zrange (lo hi : Z) : list Z := seqZ lo (hi - lo + 1).

Lemma elem_of_zrange lo hi z : z ∈ zrange lo hi <-> lo <= z <= hi.
Proof. unfold zrange. rewrite elem_of_seqZ. lia. Qed.

(** ** Strings, with the JavaScript operations the code uses *)

Fixpoint string_drop (n : nat) (s : string) : string :=
  match n, s with
  | O, _ => s
  | S n', String _ s' => string_drop n' s'
  | S _, EmptyString => EmptyString
  end.

(** [s.startsWith(p)] *)
Fixpoint starts_with (p s : string) : bool :=
  match p, s with
  | EmptyString, _ => true
  | String a p', String b s' => Ascii.eqb a b && starts_with p' s'
  | String _ _, EmptyString => false
  end.

(** [s.includes(p)] *)
Fixpoint includes (p s : string) : bool :=
  starts_with p s || match s with EmptyString => false | String _ s' => includes p s' end.

(** [s.toLowerCase()] on the ASCII letters *)
Definition lower_char (c : ascii) : ascii :=
  let n := Ascii.nat_of_ascii c in
  if (Nat.leb 65 n && Nat.leb n 90)%bool then Ascii.ascii_of_nat (n + 32) else c.

Fixpoint lower (s : string) : string :=
  match s with
  | EmptyString => EmptyString
  | String c s' => String (lower_char c) (lower s')
  end.

(** The double-quote character of a message. *)
Definition dquote : string := String (Ascii.ascii_of_nat 34) EmptyString.

Fixpoint string_forallb (p : ascii -> bool) (s : string) : bool :=
  match s with
  | EmptyString => true
  | String c s' => p c && string_forallb p s'
  end.

(** [/[class]/.test(s)] *)
Fixpoint string_existsb (p : ascii -> bool) (s : string) : bool :=
  match s with
  | EmptyString => false
  | String c s' => p c || string_existsb p s'
  end.

Lemma string_app_nil_l s : "" +:+ s = s.
Proof. reflexivity. Qed.

Lemma string_app_cons c s t : String c s +:+ t = String c (s +:+ t).
Proof. reflexivity. Qed.

Lemma string_app_nil_r s : s +:+ "" = s.
Proof. induction s as [|c s IH]; [done|]. by rewrite string_app_cons, IH. Qed.

Lemma string_length_app s t : String.length (s +:+ t) = (String.length s + String.length t)%nat.
Proof. induction s as [|c s IH]; [done|]. rewrite string_app_cons. simpl. by rewrite IH. Qed.

Lemma string_app_assoc s t u : s +:+ t +:+ u = (s +:+ t) +:+ u.
Proof. induction s as [|c s IH]; [done|]. by rewrite !string_app_cons, IH. Qed.

Lemma string_app_inj_l s p q : s +:+ p = s +:+ q -> p = q.
Proof. induction s as [|c s IH]; [done|]. rewrite !string_app_cons. intros [= E]. by apply IH. Qed.

Lemma string_app_inj_r p q s : p +:+ s = q +:+ s -> p = q.
Proof.
  revert q. induction p as [|c p IH]; intros [|d q] E; [done| | |].
  - apply (f_equal String.length) in E. rewrite !string_length_app in E. simpl in E. lia.
  - apply (f_equal String.length) in E. rewrite !string_length_app in E. simpl in E. lia.
  - rewrite !string_app_cons in E. injection E as -> E. by rewrite (IH q E).
Qed.

Lemma starts_with_app p s : starts_with p (p +:+ s) = true.
Proof. induction p as [|a p IH]; simpl; [done|]. by rewrite Ascii.eqb_refl, IH. Qed.

Lemma starts_with_spec p s : starts_with p s = true <-> s = p +:+ string_drop (String.length p) s.
Proof.
  revert s. induction p as [|a p IH]; intros [|b s]; simpl; try done.
  rewrite andb_true_iff, Ascii.eqb_eq, IH.
  split; [intros [-> ?]; by apply (f_equal (String b))|].
  intros Heq. injection Heq as -> ?. done.
Qed.

Lemma string_drop_app p s : string_drop (String.length p) (p +:+ s) = s.
Proof. by induction p. Qed.

(** A JavaScript string used as a condition. *)
Definition truthy (s : option string) : bool :=
  match s with None | Some EmptyString => false | Some _ => true end.
