(* ===== verification/Bytes.v ===== *)
(** Byte strings: the encodings the relay computes over bytes.

    Bytes are [Z] in [0, 255]; JavaScript strings are [string], read as their
    UTF-8 bytes.  Holds the hexadecimal and base64 codecs, the domain-separated
    [canonicalEncode] of [src/room.js] and the three transcripts built on it. *)

From Stdlib Require Import Ascii String.
From S2P Require Import Prelude.

Definition is_byte (b : Z) : Prop := 0 <= b < 256.
#[export] Instance is_byte_dec b : Decision (is_byte b).
Proof. unfold is_byte. apply _. Defined.

Abbreviation bytes := (list Z) (only parsing).

(** [new TextEncoder().encode(s)] *)
Fixpoint utf8 (s : string) : bytes :=
  match s with
  | EmptyString => []
  | String c s' => Z.of_nat (nat_of_ascii c) :: utf8 s'
  end.

Fixpoint string_of_bytes (l : bytes) : string :=
  match l with
  | [] => EmptyString
  | b :: l' => String (ascii_of_nat (Z.to_nat b)) (string_of_bytes l')
  end.

Lemma utf8_is_byte s : Forall is_byte (utf8 s).
Proof.
  induction s as [|c s IH]; simpl; constructor; [|done].
  unfold is_byte. pose proof (nat_ascii_bounded c). lia.
Qed.

Lemma string_of_utf8 s : string_of_bytes (utf8 s) = s.
Proof.
  induction s as [|c s IH]; simpl; [done|].
  by rewrite Nat2Z.id, ascii_nat_embedding, IH.
Qed.

#[export] Instance utf8_inj : Inj (=) (=) utf8.
Proof. intros s t H. by rewrite <-(string_of_utf8 s), H, string_of_utf8. Qed.

Lemma length_utf8 s : length (utf8 s) = String.length s.
Proof. induction s; simpl; congruence. Qed.

(** ** Hexadecimal *)

Definition hex_digit (n : Z) : ascii :=
  if n <? 10 then ascii_of_nat (Z.to_nat (48 + n)) else ascii_of_nat (Z.to_nat (87 + n)).

(** [b.toString(16).padStart(2, "0")], joined over the bytes *)
Fixpoint hex (l : bytes) : string :=
  match l with
  | [] => EmptyString
  | b :: l' => String (hex_digit (b / 16)) (String (hex_digit (b mod 16)) (hex l'))
  end.

(** The class [[0-9a-f]] of the room-name patterns, with its digit value. *)
Definition hex_value (c : ascii) : option Z :=
  let n := Z.of_nat (nat_of_ascii c) in
  if (48 <=? n) && (n <=? 57) then Some (n - 48)
  else if (97 <=? n) && (n <=? 102) then Some (n - 87)
  else None.

(** The digits of a string all in [[0-9a-f]], or [None]. *)
Fixpoint hex_digits (s : string) : option (list Z) :=
  match s with
  | EmptyString => Some []
  | String c s' => d ← hex_value c; ds ← hex_digits s'; Some (d :: ds)
  end.

(** [parseInt(s, 16)] on hexadecimal digits *)
Definition hex_number (ds : list Z) : Z := fold_left (fun acc d => acc * 16 + d) ds 0.

Lemma hex_value_digit n : 0 <= n < 16 -> hex_value (hex_digit n) = Some n.
Proof.
  intros H. unfold hex_value, hex_digit.
  destruct (n <? 10) eqn:Hn; to_prop;
    rewrite nat_ascii_embedding by lia; rewrite Z2Nat.id by lia.
  - replace (48 <=? 48 + n) with true by (symmetry; apply Z.leb_le; lia).
    replace (48 + n <=? 57) with true by (symmetry; apply Z.leb_le; lia).
    simpl. f_equal. lia.
  - replace (87 + n <=? 57) with false by (symmetry; apply Z.leb_gt; lia).
    replace (97 <=? 87 + n) with true by (symmetry; apply Z.leb_le; lia).
    replace (87 + n <=? 102) with true by (symmetry; apply Z.leb_le; lia).
    rewrite andb_false_r. simpl. f_equal. lia.
Qed.

Lemma hex_value_range c d : hex_value c = Some d -> 0 <= d < 16.
Proof.
  unfold hex_value. intros H. split_hyp H; to_prop; lia.
Qed.

Lemma hex_digits_range s ds : hex_digits s = Some ds -> Forall (fun d => 0 <= d < 16) ds.
Proof.
  revert ds. induction s as [|c s IH]; simpl; intros ds H; [by simplify_eq|].
  destruct (hex_value c) eqn:Hc; simplify_eq/=.
  destruct (hex_digits s); simplify_eq/=. eauto using hex_value_range.
Qed.

Lemma hex_digits_hex l :
  Forall is_byte l ->
  hex_digits (hex l) = Some (flat_map (fun b => [b / 16; b mod 16]) l).
Proof.
  unfold is_byte. induction 1 as [|b l Hb Hl IH]; [done|]. simpl.
  rewrite !hex_value_digit; [|dlia..]. simpl. by rewrite IH.
Qed.

Lemma length_hex l : String.length (hex l) = (2 * length l)%nat.
Proof. induction l; simpl; lia. Qed.

Lemma length_hex_digits s ds : hex_digits s = Some ds -> length ds = String.length s.
Proof.
  revert ds. induction s as [|c s IH]; simpl; intros ds H; [by simplify_eq|].
  destruct (hex_value c); simplify_eq/=.
  destruct (hex_digits s); simplify_eq/=. f_equal. eauto.
Qed.

(** ** Big-endian 32-bit length prefixes *)

(** [n >>> 0] *)
Definition to_uint32 (n : Z) : Z := n mod 2 ^ 32.

Definition be32 (n : Z) : bytes :=
  [ Z.land (Z.shiftr (to_uint32 n) 24) 255;
    Z.land (Z.shiftr (to_uint32 n) 16) 255;
    Z.land (Z.shiftr (to_uint32 n) 8) 255;
    Z.land n 255 ].

Definition be32_value (l : bytes) : Z := fold_left (fun acc b => acc * 256 + b) l 0.

Lemma land_255 n : Z.land n 255 = n mod 256.
Proof. apply (Z.land_ones n 8). lia. Qed.

Lemma be32_arith n :
  0 <= n < 2 ^ 32 ->
  be32 n = [n / 2 ^ 24; n / 2 ^ 16 mod 256; n / 2 ^ 8 mod 256; n mod 256].
Proof.
  intros H. unfold be32, to_uint32. rewrite (Z.mod_small n) by done.
  rewrite !land_255, !Z.shiftr_div_pow2 by lia.
  rewrite (Z.mod_small (n / 2 ^ 24)); [done|].
  split; [apply Z.div_pos; lia|]. apply Z.div_lt_upper_bound; lia.
Qed.

Lemma be32_value_be32 n : 0 <= n < 2 ^ 32 -> be32_value (be32 n) = n.
Proof.
  intros H. rewrite be32_arith by done. unfold be32_value. simpl.
  change (2 ^ 24) with (256 * 256 * 256). change (2 ^ 16) with (256 * 256).
  change (2 ^ 8) with 256. rewrite <-!Z.div_div by lia.
  dlia.
Qed.

Lemma be32_is_byte n : Forall is_byte (be32 n).
Proof.
  unfold be32. repeat (constructor; [unfold is_byte; rewrite land_255; dlia|]). constructor.
Qed.

Lemma length_be32 n : length (be32 n) = 4%nat.
Proof. done. Qed.

(** Bytes combined with shifts and [|]: [x << n | y]. *)
Lemma lor_shiftl x y n :
  0 <= n -> 0 <= y < 2 ^ n -> Z.lor (Z.shiftl x n) y = x * 2 ^ n + y.
Proof.
  intros Hn Hy. rewrite Z.shiftl_mul_pow2 by done.
  enough (Hz : Z.land (x * 2 ^ n) y = 0)
    by (pose proof (Z.add_lor_land (x * 2 ^ n) y); lia).
  apply Z.bits_inj_0. intros i. rewrite Z.land_spec.
  destruct (Z.lt_ge_cases i 0); [by rewrite !Z.testbit_neg_r by lia|].
  destruct (Z.lt_ge_cases i n).
  - by rewrite Z.mul_pow2_bits_low by lia.
  - rewrite <-(Z.mod_small y (2 ^ n)) by lia.
    by rewrite Z.mod_pow2_bits_high, andb_false_r by lia.
Qed.

(** ** [canonicalEncode] (src/room.js) *)

Definition canonicalEncode (domain : string) (fields : list bytes) : bytes :=
  concat (map (fun e => be32 (Z.of_nat (length e)) ++ e) (utf8 domain :: fields)).

#[global] Arguments canonicalEncode : simpl never.

(** Elements short enough for their length prefix. *)
Definition short (e : bytes) : Prop := Z.of_nat (length e) < 2 ^ 32.

Lemma encode_elems_inj es es' :
  Forall short es -> Forall short es' ->
  concat (map (fun e => be32 (Z.of_nat (length e)) ++ e) es) =
  concat (map (fun e => be32 (Z.of_nat (length e)) ++ e) es') -> es = es'.
Proof.
  intros Hes. revert es'. induction Hes as [|e es He _ IH]; intros [|e' es'] Hes' Heq;
    [done|simpl in Heq; discriminate..|].
  apply Forall_cons in Hes' as [He' Hes'].
  cbn [map concat] in Heq. rewrite <-!app_assoc in Heq.
  apply app_inj_length in Heq as [Hlen Heq]; [|by rewrite !length_be32].
  apply (f_equal be32_value) in Hlen. unfold short in *.
  rewrite !be32_value_be32 in Hlen by lia.
  apply app_inj_length in Heq as [-> Heq]; [|lia].
  f_equal. by apply IH.
Qed.

Lemma canonicalEncode_inj d d' fs fs' :
  short (utf8 d) -> short (utf8 d') -> Forall short fs -> Forall short fs' ->
  canonicalEncode d fs = canonicalEncode d' fs' -> d = d' /\ fs = fs'.
Proof.
  intros Hd Hd' Hfs Hfs' Heq. apply encode_elems_inj in Heq; [|by constructor..].
  simplify_eq. done.
Qed.

(** The total length the code allocates before writing. *)
Lemma length_canonicalEncode d fs :
  length (canonicalEncode d fs) =
  sum_list_with (fun e => (4 + length e)%nat) (utf8 d :: fs).
Proof.
  unfold canonicalEncode. induction (utf8 d :: fs) as [|e es IH]; [done|].
  cbn [map concat sum_list_with]. rewrite !length_app, IH, length_be32. lia.
Qed.

(** ** Base64, as [btoa] and [atob] compute it *)

Definition b64_char (n : Z) : ascii :=
  ascii_of_nat (Z.to_nat (
    if n <? 26 then 65 + n else if n <? 52 then 71 + n else if n <? 62 then n - 4
    else if n =? 62 then 43 else 47)).

Definition b64_value (c : ascii) : option Z :=
  let n := Z.of_nat (nat_of_ascii c) in
  if (65 <=? n) && (n <=? 90) then Some (n - 65)
  else if (97 <=? n) && (n <=? 122) then Some (n - 71)
  else if (48 <=? n) && (n <=? 57) then Some (n + 4)
  else if n =? 43 then Some 62 else if n =? 47 then Some 63 else None.

Definition b64_pad : ascii := ascii_of_nat 61.

(** Characters of [btoa]: whole groups of three bytes, then the padded rest. *)
Fixpoint btoa_chars (l : bytes) : list ascii :=
  match l with
  | a :: b :: c :: l' =>
      b64_char (a / 4) :: b64_char (a mod 4 * 16 + b / 16)
        :: b64_char (b mod 16 * 4 + c / 64) :: b64_char (c mod 64) :: btoa_chars l'
  | [a; b] =>
      [b64_char (a / 4); b64_char (a mod 4 * 16 + b / 16); b64_char (b mod 16 * 4); b64_pad]
  | [a] => [b64_char (a / 4); b64_char (a mod 4 * 16); b64_pad; b64_pad]
  | [] => []
  end.

Definition b64 (l : bytes) : string := string_of_list_ascii (btoa_chars l).

Definition is_b64_space (c : ascii) : bool :=
  let n := nat_of_ascii c in
  (Nat.eqb n 9 || Nat.eqb n 10 || Nat.eqb n 12 || Nat.eqb n 13 || Nat.eqb n 32)%bool.

(** Forgiving base64: when the length is a multiple of four, up to two
    trailing pad characters go. *)
Definition b64_strip (l : list ascii) : list ascii :=
  if Nat.eqb (length l mod 4) 0 then
    match rev l with
    | p :: q :: r =>
        if Ascii.eqb p b64_pad then if Ascii.eqb q b64_pad then rev r else rev (q :: r) else l
    | _ => l
    end
  else l.

(** Sextets to bytes; a leftover of one sextet is an error, the spare bits of
    two or three are dropped. *)
Fixpoint sextets_bytes (l : list Z) : option bytes :=
  match l with
  | a :: b :: c :: d :: l' =>
      r ← sextets_bytes l';
      Some (a * 4 + b / 16 :: b mod 16 * 16 + c / 4 :: c mod 4 * 64 + d :: r)
  | [a; b; c] => Some [a * 4 + b / 16; b mod 16 * 16 + c / 4]
  | [a; b] => Some [a * 4 + b / 16]
  | [_] => None
  | [] => Some []
  end.

Definition atob_chars (l : list ascii) : option bytes :=
  mapM b64_value (b64_strip (List.filter (fun c => negb (is_b64_space c)) l)) ≫= sextets_bytes.

(** [b64ToBytes]: [None] is the exception [atob] throws. *)
Definition b64ToBytes (s : string) : option bytes := atob_chars (list_ascii_of_string s).

Definition sextets (l : list Z) : Prop := Forall (fun n => 0 <= n < 64) l.

Lemma b64_value_char n : 0 <= n < 64 -> b64_value (b64_char n) = Some n.
Proof.
  intros H. rewrite <-(Z2Nat.id n) by lia.
  assert (Hn : (Z.to_nat n < 64)%nat) by lia. revert Hn. generalize (Z.to_nat n) as k.
  intros k Hk. do 64 (destruct k as [|k]; [vm_compute; reflexivity|]). lia.
Qed.

Lemma b64_char_plain n :
  0 <= n < 64 -> is_b64_space (b64_char n) = false /\ Ascii.eqb (b64_char n) b64_pad = false.
Proof.
  intros H. rewrite <-(Z2Nat.id n) by lia.
  assert (Hn : (Z.to_nat n < 64)%nat) by lia. revert Hn. generalize (Z.to_nat n) as k.
  intros k Hk. do 64 (destruct k as [|k]; [vm_compute; split; reflexivity|]). lia.
Qed.

(** Sextets of the bytes, and how many pads complete the last group. *)
Fixpoint to_sextets (l : bytes) : list Z * nat :=
  match l with
  | a :: b :: c :: l' =>
      let '(s, p) := to_sextets l' in
      (a / 4 :: a mod 4 * 16 + b / 16 :: b mod 16 * 4 + c / 64 :: c mod 64 :: s, p)
  | [a; b] => ([a / 4; a mod 4 * 16 + b / 16; b mod 16 * 4], 1%nat)
  | [a] => ([a / 4; a mod 4 * 16], 2%nat)
  | [] => ([], 0%nat)
  end.

(** Induction three bytes at a time. *)
Lemma bytes_ind3 (P : bytes -> Prop) :
  P [] -> (forall a, P [a]) -> (forall a b, P [a; b]) ->
  (forall a b c l, P l -> P (a :: b :: c :: l)) -> forall l, P l.
Proof.
  intros H0 H1 H2 H3. fix IH 1. intros [|a [|b [|c l]]]; [done|apply H1|apply H2|apply H3, IH].
Qed.

Lemma btoa_chars_sextets l :
  btoa_chars l = map b64_char (fst (to_sextets l)) ++ replicate (snd (to_sextets l)) b64_pad.
Proof.
  induction l as [| | |a b c l IH] using bytes_ind3; [done..|].
  cbn [btoa_chars to_sextets]. rewrite IH. by destruct (to_sextets l).
Qed.

Lemma to_sextets_range l : Forall is_byte l -> sextets (fst (to_sextets l)).
Proof.
  unfold sextets, is_byte.
  induction l as [| | |a b c l IH] using bytes_ind3; intros H; cbn [to_sextets];
    repeat (apply Forall_cons in H as [? H]).
  - done.
  - simpl. repeat constructor; dlia.
  - simpl. repeat constructor; dlia.
  - specialize (IH H). destruct (to_sextets l). simpl in *.
    repeat (constructor; [dlia|]). done.
Qed.

Lemma to_sextets_length l :
  (snd (to_sextets l) <= 2)%nat /\ ((length (fst (to_sextets l)) + snd (to_sextets l)) mod 4 = 0)%nat.
Proof.
  induction l as [| | |a b c l [IH1 IH2]] using bytes_ind3; cbn [to_sextets]; [simpl; auto with lia..|].
  destruct (to_sextets l) as [s p]. cbn [fst snd length] in *. split; [done|].
  replace (S (S (S (S (length s)))) + p)%nat with (length s + p + 1 * 4)%nat by lia.
  by rewrite Nat.Div0.mod_add.
Qed.

Lemma sextets_bytes_to l :
  Forall is_byte l -> sextets_bytes (fst (to_sextets l)) = Some l.
Proof.
  unfold is_byte.
  induction l as [| | |a b c l IH] using bytes_ind3; intros H; cbn [to_sextets];
    repeat (apply Forall_cons in H as [? H]).
  - done.
  - simpl. do 2 f_equal. dlia.
  - simpl. repeat f_equal; dlia.
  - specialize (IH H). destruct (to_sextets l). cbn [fst sextets_bytes] in *. rewrite IH. simpl.
    repeat f_equal; dlia.
Qed.

Lemma b64_strip_pads ss p :
  sextets ss -> (p <= 2)%nat -> ((length ss + p) mod 4 = 0)%nat ->
  b64_strip (map b64_char ss ++ replicate p b64_pad) = map b64_char ss.
Proof.
  intros Hs Hp Hmod. unfold b64_strip. rewrite length_app, length_map, length_replicate.
  rewrite Hmod, Nat.eqb_refl, rev_app_distr, <-map_rev.
  assert (Hlast : forall n r, rev ss = n :: r -> Ascii.eqb (b64_char n) b64_pad = false).
  { intros n r Hr. apply b64_char_plain. unfold sextets in Hs. rewrite Forall_forall in Hs. apply Hs.
    rewrite <-(rev_involutive ss), Hr. set_solver. }
  assert (Hrev : rev (map b64_char (rev ss)) = map b64_char ss)
    by (by rewrite map_rev, rev_involutive).
  destruct p as [|[|[|p]]]; [| | |lia]; cbn [replicate rev app map].
  - rewrite app_nil_r. destruct (rev ss) as [|n [|m r]] eqn:Hr; cbn [map]; [done..|].
    by rewrite (Hlast n (m :: r)).
  - destruct (rev ss) as [|n r] eqn:Hr; cbn [map].
    + apply (f_equal (@length _)) in Hr. rewrite length_rev in Hr. simpl in Hr.
      rewrite Hr in Hmod. done.
    + rewrite (Hlast n r) by done. by rewrite <-Hrev.
  - by rewrite <-Hrev.
Qed.

Lemma filter_space_chars ss p :
  sextets ss ->
  List.filter (fun c => negb (is_b64_space c)) (map b64_char ss ++ replicate p b64_pad)
  = map b64_char ss ++ replicate p b64_pad.
Proof.
  induction 1 as [|n ss Hn Hs IH]; simpl.
  - induction p as [|p IHp]; simpl; [done|by rewrite IHp].
  - destruct (b64_char_plain n Hn) as [-> _]. simpl. by rewrite IH.
Qed.

Lemma mapM_b64_value ss : sextets ss -> mapM b64_value (map b64_char ss) = Some ss.
Proof.
  induction 1 as [|n ss Hn Hs IH]; simpl; [done|].
  rewrite b64_value_char by done. simpl. by rewrite IH.
Qed.

Lemma list_ascii_of_string_of_list l : list_ascii_of_string (string_of_list_ascii l) = l.
Proof. apply list_ascii_of_string_of_list_ascii. Qed.

(** Base64 round trip: what the relay hands out it can read back. *)
Lemma b64ToBytes_b64 l : Forall is_byte l -> b64ToBytes (b64 l) = Some l.
Proof.
  intros Hl. unfold b64ToBytes, b64, atob_chars.
  rewrite list_ascii_of_string_of_list, btoa_chars_sextets.
  destruct (to_sextets_length l) as [Hp Hmod]. pose proof (to_sextets_range l Hl) as Hs.
  rewrite filter_space_chars, b64_strip_pads, mapM_b64_value by done.
  by apply sextets_bytes_to.
Qed.

Lemma b64_inj l k : Forall is_byte l -> Forall is_byte k -> b64 l = b64 k -> l = k.
Proof.
  intros Hl Hk Heq. apply (f_equal b64ToBytes) in Heq.
  rewrite !b64ToBytes_b64 in Heq by done. by simplify_eq.
Qed.
