(* ===== verification/Crypto.v ===== *)
(** The cryptographic primitives the relay calls, as an interface.

    WebCrypto and [@peculiar/x509] are not part of the repository: [Crypto]
    collects the functions the relay calls on them, and [CryptoLaws] the
    documented facts the proofs use.  Every theorem is proved for any instance;
    [toy_crypto] is a concrete one for evaluating examples. *)

From S2P Require Import Prelude Bytes.

Class Crypto := {
  (** [crypto.subtle.digest("SHA-256", m)] *)
  sha256 : bytes -> bytes;
  (** [importKey("raw", key, Ed25519)] then [verify]; [None] when the import throws *)
  ed25519_verify : bytes -> bytes -> bytes -> option bool;
  (** [importKey("raw", key, ECDSA P-256)] then [verify] with SHA-256 over the data *)
  ecdsa_import : bytes -> bool;
  ecdsa_verify : bytes -> bytes -> bytes -> bool;
  (** X.509 certificates: parsing, validity, signature check against an
      issuer's key, public key point, extension by OID *)
  certificate : Type;
  x509_parse : bytes -> option certificate;
  x509_parse_pem : string -> option certificate;
  notBefore : certificate -> Z;
  notAfter : certificate -> Z;
  x509_verify : certificate -> certificate -> bool;
  x509_public_key : certificate -> bytes;
  x509_extension : certificate -> string -> option bytes;
}.

Class CryptoLaws (C : Crypto) := {
  sha256_length m : length (sha256 m) = 32%nat;
  sha256_bytes m : Forall is_byte (sha256 m);
}.

(** A stand-in hash: thirty padding bytes and a 16-bit sum. *)
Definition toy_sha256 (m : bytes) : bytes :=
  let n := fold_left (fun acc b => (acc * 31 + b) mod 65536) m 7 in
  replicate 30 1 ++ [n / 256 mod 256; n mod 256].

Definition toy_crypto : Crypto := {|
  sha256 := toy_sha256;
  ed25519_verify key sg msg := if decide (key = []) then None else Some (bool_decide (sg = toy_sha256 (key ++ msg)));
  ecdsa_import key := bool_decide (key <> []);
  ecdsa_verify key sg msg := bool_decide (sg = toy_sha256 (key ++ msg) ++ toy_sha256 msg);
  certificate := bytes;
  x509_parse b := Some b;
  x509_parse_pem s := Some (utf8 s);
  notBefore _ := 0;
  notAfter _ := 1000;
  x509_verify c issuer := bool_decide (last c = last issuer);
  x509_public_key c := c;
  x509_extension c _ := Some c;
|}.

#[export] Instance toy_crypto_laws : CryptoLaws toy_crypto.
Proof.
  constructor; intros m; [done|].
  change (Forall is_byte (toy_sha256 m)). unfold toy_sha256.
  set (n := fold_left _ m 7). unfold is_byte.
  apply Forall_app. split; [apply Forall_replicate; lia|].
  repeat constructor; dlia.
Qed.
