(* ===== verification/Transcript.v ===== *)
(** The signed transcripts of [src/room.js] and the room-name derivation of
    [src/sharding/room.js]: what a join, a deletion and an attestation bind. *)

From S2P Require Import Prelude Bytes Crypto.

Inductive role : Type := mac | phone.
#[export] Instance role_eq_dec : EqDecision role.
Proof. solve_decision. Defined.

Definition other_role (r : role) : role := match r with mac => phone | phone => mac end.

Definition PROTOCOL_VERSION : Z := 1.
Definition NONCE_BYTES : Z := 32.
Definition ROLE_BYTE (r : role) : Z := match r with mac => 1 | phone => 2 end.

(** The bytes a join signs. *)
Definition joinTranscript (r : role) (nonceB64 roomName origin : string) : option bytes :=
  nonce ← b64ToBytes nonceB64;
  Some (canonicalEncode "iterm2-relay-join"
    [[PROTOCOL_VERSION]; [ROLE_BYTE r]; nonce; utf8 roomName; utf8 origin]).

(** The bytes a room deletion signs. *)
Definition deleteTranscript (challengeB64 roomName origin : string) : option bytes :=
  challenge ← b64ToBytes challengeB64;
  Some (canonicalEncode "iterm2-relay-delete"
    [[PROTOCOL_VERSION]; challenge; utf8 roomName; utf8 origin]).

(** The bytes hashed into an attestation's or assertion's clientDataHash. *)
Definition attestTranscript (challengeB64 origin : string) : option bytes :=
  challenge ← b64ToBytes challengeB64;
  Some (canonicalEncode "iterm2-relay-attest" [challenge; utf8 origin]).

Section WithCrypto.
Context `{Crypto}.

(** [verifyJoin]: any exception, from base64 or from the key import, is a
    failed verification. *)
Definition verifyJoin (sigB64 : string) (transcript : bytes) (verifierB64 : string) : bool :=
  match b64ToBytes verifierB64, b64ToBytes sigB64 with
  | Some key, Some sg => default false (ed25519_verify key sg transcript)
  | _, _ => false
  end.

Definition attestClientDataHash (challengeB64 origin : string) : option bytes :=
  sha256 <$> attestTranscript challengeB64 origin.

(** [roomTag]: the first four digest bytes of the room name, in hex. *)
Definition roomTag (roomName : option string) : string :=
  match roomName with
  | None | Some EmptyString => "????????"
  | Some n => hex (take 4 (sha256 (utf8 n)))
  end.

(** [roomName(rs, pid)] of src/sharding/room.js *)
Definition roomName (rs : bytes) (pid : string) : string :=
  hex (sha256 (canonicalEncode "iterm2-room" [rs; utf8 pid])).
End WithCrypto.

(** Sizes for which the length prefixes do not wrap. *)
Definition short_string (s : string) : Prop := Z.of_nat (String.length s) < 2 ^ 32.

Create HintDb transcript.

Lemma short_utf8 s : short_string s -> short (utf8 s).
Proof. unfold short_string, short. by rewrite length_utf8. Qed.
#[export] Hint Resolve short_utf8 : transcript.

Lemma short_singleton b : short [b].
Proof. done. Qed.
#[export] Hint Resolve short_singleton Forall_nil_2 Forall_cons_2 : transcript.

Lemma short_domains : Forall short_string
  ["iterm2-relay-join"; "iterm2-relay-delete"; "iterm2-relay-attest"; "iterm2-room"]%string.
Proof. repeat constructor. Qed.

Ltac short_fields :=
  repeat (apply Forall_cons; split); try apply Forall_nil; auto with transcript.

(** Two join transcripts agree only on the same role, nonce, room and origin. *)
Lemma join_transcript_inj r r' n n' room room' o o' nb nb' t :
  b64ToBytes n = Some nb -> b64ToBytes n' = Some nb' -> short nb -> short nb' ->
  short_string room -> short_string room' -> short_string o -> short_string o' ->
  joinTranscript r n room o = Some t -> joinTranscript r' n' room' o' = Some t ->
  r = r' /\ nb = nb' /\ room = room' /\ o = o'.
Proof.
  intros Hn Hn' Hs Hs' ???? Hj Hj'. unfold joinTranscript in *.
  rewrite Hn in Hj. rewrite Hn' in Hj'. cbn in Hj, Hj'.
  apply (inj Some) in Hj as <-. apply (inj Some) in Hj'. symmetry in Hj'.
  unshelve epose proof (canonicalEncode_inj _ _ _ _ _ _ _ _ Hj') as [_ Heq];
    [apply short_utf8; reflexivity..|short_fields|short_fields|].
  injection Heq as Hr Hnb Hroom Ho.
  split_and!; [by destruct r, r'|done|by apply utf8_inj..].
Qed.

Lemma domain_separated d d' fs fs' :
  short_string d -> short_string d' -> Forall short fs -> Forall short fs' ->
  d <> d' -> canonicalEncode d fs <> canonicalEncode d' fs'.
Proof.
  intros ???? Hne Heq. apply canonicalEncode_inj in Heq as [? _]; auto with transcript.
Qed.
