(* ===== verification/ShardGate.v ===== *)
(** The cheap checks in front of a room: the shared entry gate ([src/index.js]),
    the room-name to bucket map, the deployment mode, the proof origin, the
    ownership gate, the parameter orderings and the re-resolution wire codes
    ([src/sharding/]). *)

From Stdlib Require Import QArith.
From S2P Require Import Prelude Bytes Crypto Transcript.
#[local] Open Scope Z_scope.

(** ** Room names and buckets (src/index.js, src/sharding/bucket.js) *)

Definition N_BUCKETS : Z := 65536.

(** [/^[0-9a-f]{64}$/.test(name)] *)
Definition ROOM_NAME_RE (name : string) : bool :=
  Nat.eqb (String.length name) 64 && match hex_digits name with Some _ => true | None => false end.

Definition bucketForRoomName (name : string) : option Z :=
  if ROOM_NAME_RE name then hex_number <$> hex_digits (string_drop 60 name) else None.

Section Derivation.
Context `{Crypto}.

Definition bucketFor (rs : bytes) (pid : string) : option Z :=
  bucketForRoomName (roomName rs pid).
End Derivation.

(** Request headers, by lower-case name (a Fetch [Headers] lookup). *)
Abbreviation headers := (gmap string string).
Definition hget (h : headers) (name : string) : option string := h !! lower name.

Definition ROOM_HEADER : string := "x-relay-room".

Record rejection := Rejection { status : Z; message : string }.

Definition entryReject (h : headers) : option rejection :=
  match hget h "Origin" with
  | Some _ => Some (Rejection 403 "forbidden")
  | None =>
      match hget h ROOM_HEADER with
      | Some room =>
          if negb (truthy (Some room)) || negb (ROOM_NAME_RE room)
          then Some (Rejection 400 "bad room") else None
      | None => Some (Rejection 400 "bad room")
      end
  end.

(** ** Mode and origin (src/sharding/mode.js, src/sharding/origin.js) *)

Inductive mode : Type := MODE_DIRECT | MODE_DISTRIBUTED.
#[export] Instance mode_eq_dec : EqDecision mode.
Proof. solve_decision. Defined.

Definition resolveMode (shardMapUrl selfHost : option string) : result string mode :=
  let hasUrl := truthy shardMapUrl in
  let hasHost := truthy selfHost in
  if hasUrl && hasHost then Ok MODE_DISTRIBUTED
  else if negb hasUrl && negb hasHost then Ok MODE_DIRECT
  else Err ("distributed mode requires BOTH shardMapUrl and selfHost; "
            +:+ "got shardMapUrl=" +:+ (if hasUrl then "set" else "unset")
            +:+ ", selfHost=" +:+ (if hasHost then "set" else "unset")).

Definition originForHost (host : string) : string := "https://" +:+ host.

Definition assertOriginMatches (configuredOrigin host : string) : result string unit :=
  let expected := originForHost host in
  if String.eqb configuredOrigin expected then Ok tt
  else Err ("relay origin mismatch: configured " +:+ dquote +:+ configuredOrigin +:+ dquote
            +:+ " != " +:+ dquote +:+ expected +:+ dquote +:+ " (derived from map host "
            +:+ dquote +:+ host +:+ dquote +:+ "); every signed proof would fail").

(** ** Ownership gate (src/sharding/admission.js) *)

Definition REJECT_STATUS : Z := 421.

Inductive decision : Type :=
| Admit (bucket : option Z)
| Refuse (status : Z) (reason : string) (bucket : option Z).

Definition admits (d : decision) : bool := match d with Admit _ => true | Refuse _ _ _ => false end.

Definition ownershipDecision (m : mode) (room : string) (ownsBucket : Z -> bool) : decision :=
  match m with
  | MODE_DIRECT => Admit None
  | MODE_DISTRIBUTED =>
      match bucketForRoomName room with
      | None => Refuse REJECT_STATUS "unroutable" None
      | Some bucket =>
          if ownsBucket bucket then Admit (Some bucket)
          else Refuse REJECT_STATUS "not-owner" (Some bucket)
      end
  end.

(** ** Parameter orderings (src/sharding/params.js) *)

Definition SHARDMAP_TTL_MS : Z := 5000.
Definition SHARDMAP_POLL_INTERVAL_MS : Z := 10000.
Definition RESHARD_DRAIN_DELAY_MS : Z := 20000.
Definition RESHARD_EVICTION_RATE : Q := 10.

Inductive param_error : Type := ttlNotBelowPoll | drainDelayTooShort | nonPositiveRate.

Definition validateParams (ttlMs pollMs drainDelayMs : Z) (evictionRate : Q) : result param_error unit :=
  if negb (ttlMs <? pollMs) then Err ttlNotBelowPoll
  else if negb (2 * pollMs <=? drainDelayMs) then Err drainDelayTooShort
  else if Qle_bool evictionRate 0 then Err nonPositiveRate
  else Ok tt.

(** ** Wire codes (src/sharding/wireCodes.js) *)

Definition HTTP_MISDIRECTED : Z := 421.
Definition WS_RESHARD_CODE : Z := 4421.
Definition RESHARD_SENTINEL : string := "reshard".

Definition reshardReason (owner : option string) : string :=
  match owner with
  | Some (String _ _ as o) => RESHARD_SENTINEL +:+ " " +:+ o
  | _ => RESHARD_SENTINEL
  end.

Record reshard := Reshard { isReshard : bool; owner : option string }.

Definition parseReshardReason (reason : option string) : reshard :=
  match reason with
  | None => Reshard false None
  | Some r =>
      if String.eqb r RESHARD_SENTINEL then Reshard true None
      else let prefix := RESHARD_SENTINEL +:+ " " in
           if starts_with prefix r then Reshard true (Some (string_drop (String.length prefix) r))
           else Reshard false None
  end.

Inductive Category : Type := RE_RESOLVE | RETRY_HERE | LONG_BACKOFF | FATAL.
#[export] Instance Category_eq_dec : EqDecision Category.
Proof. solve_decision. Defined.

Definition classifyWsClose (code : Z) (reason : option string) : Category :=
  let low := lower (default "" reason) in
  if (code =? WS_RESHARD_CODE) || isReshard (parseReshardReason reason) then RE_RESOLVE
  else if (code =? 1008) && includes "daily quota" low then LONG_BACKOFF
  else if (code =? 1000) && includes "displaced" low then LONG_BACKOFF
  else RETRY_HERE.

Definition classifyHttpStatus (status : Z) : Category :=
  if status =? HTTP_MISDIRECTED then RE_RESOLVE
  else if (status =? 403) || (status =? 413) then FATAL
  else RETRY_HERE.

(** ** Lemmas *)

Lemma hex_digits_drop n s ds :
  hex_digits s = Some ds -> hex_digits (string_drop n s) = Some (drop n ds).
Proof.
  revert s ds. induction n as [|n IH]; [simpl; by auto|]. intros [|c s] ds; simpl; [by intros [= <-]|].
  destruct (hex_value c); simpl; [|discriminate]. destruct (hex_digits s) eqn:E; simpl; [|discriminate].
  intros [= <-]. by apply IH.
Qed.

Lemma hex_number_app ds d : hex_number (ds ++ [d]) = hex_number ds * 16 + d.
Proof. unfold hex_number. by rewrite fold_left_app. Qed.

Lemma hex_number_range ds :
  Forall (fun d => 0 <= d < 16) ds -> 0 <= hex_number ds < 16 ^ Z.of_nat (length ds).
Proof.
  induction ds as [|d ds IH] using rev_ind; intros H; [done|].
  apply Forall_app in H as [H Hd]. apply Forall_cons in Hd as [Hd _]. specialize (IH H).
  rewrite hex_number_app, length_app, Nat2Z.inj_add, Z.pow_add_r by lia.
  change (16 ^ Z.of_nat (length [d])) with 16. lia.
Qed.

Lemma ROOM_NAME_RE_spec name :
  ROOM_NAME_RE name = true <->
  exists ds, hex_digits name = Some ds /\ length ds = 64%nat.
Proof.
  unfold ROOM_NAME_RE. rewrite andb_true_iff, Nat.eqb_eq. split.
  - intros [Hl H]. destruct (hex_digits name) as [ds|] eqn:E; [|done].
    exists ds. by rewrite (length_hex_digits _ _ E).
  - intros (ds & E & Hl). rewrite E. by rewrite <-(length_hex_digits _ _ E).
Qed.

Lemma bucketForRoomName_canonical name :
  ROOM_NAME_RE name = true ->
  exists b, bucketForRoomName name = Some b /\ 0 <= b < N_BUCKETS.
Proof.
  intros H. unfold bucketForRoomName. rewrite H.
  apply ROOM_NAME_RE_spec in H as (ds & Hds & Hl).
  rewrite (hex_digits_drop _ _ _ Hds). simpl. eexists. split; [done|].
  pose proof (hex_number_range (drop 60 ds)) as Hr. rewrite length_drop, Hl in Hr.
  apply Hr. apply Forall_drop. by eapply hex_digits_range.
Qed.

Lemma bucketForRoomName_range name b :
  bucketForRoomName name = Some b -> 0 <= b < N_BUCKETS.
Proof.
  intros Hb. destruct (ROOM_NAME_RE name) eqn:H.
  - apply bucketForRoomName_canonical in H as (b' & Hb' & ?). congruence.
  - unfold bucketForRoomName in Hb. by rewrite H in Hb.
Qed.
#[export] Hint Resolve bucketForRoomName_range : core.

Lemma bucketForRoomName_hex l :
  Forall is_byte l -> length l = 32%nat ->
  exists b30 b31, l !! 30%nat = Some b30 /\ l !! 31%nat = Some b31
    /\ ROOM_NAME_RE (hex l) = true
    /\ bucketForRoomName (hex l) = Some (Z.lor (Z.shiftl b30 8) b31).
Proof.
  intros Hb Hl.
  assert (Hre : ROOM_NAME_RE (hex l) = true).
  { unfold ROOM_NAME_RE. by rewrite length_hex, Hl, hex_digits_hex by done. }
  do 32 (destruct l as [|? l]; [done|]). destruct l; [|done].
  do 2 eexists. split; [done|]. split; [done|]. split; [done|].
  unfold bucketForRoomName. rewrite Hre, (hex_digits_drop _ _ _ (hex_digits_hex _ Hb)).
  simpl. unfold hex_number. simpl. f_equal.
  do 30 (apply Forall_cons in Hb as [_ Hb]). apply Forall_cons in Hb as [H30 Hb].
  apply Forall_cons in Hb as [H31 _]. unfold is_byte in *.
  rewrite lor_shiftl by lia. change (2 ^ 8) with 256. dlia.
Qed.

Lemma append_inj_l p s t : p +:+ s = p +:+ t -> s = t.
Proof. induction p as [|c p IH]; simpl; intros H; [done|]. injection H. auto. Qed.

Lemma parse_reshard_spec r :
  isReshard (parseReshardReason (Some r)) = true <->
  r = RESHARD_SENTINEL \/ exists o, r = RESHARD_SENTINEL +:+ " " +:+ o.
Proof.
  unfold parseReshardReason. destruct (String.eqb_spec r RESHARD_SENTINEL) as [->|Hne]; [naive_solver|].
  destruct (starts_with _ r) eqn:E; simpl.
  - split; [|done]. intros _. right. apply starts_with_spec in E. rewrite E. by eexists.
  - split; [done|]. intros [->|[o ->]]; [done|].
    change (starts_with "reshard " ("reshard " +:+ o) = false) in E. by rewrite starts_with_app in E.
Qed.

(** ** Properties *)

(** A room name derived from a room secret and pairing id passes the entry
    gate's pattern, and its bucket is the big-endian value of the digest's last
    two bytes, inside the ring. *)
Theorem bucketFor_digest `{CryptoLaws} (rs : bytes) (pid : string) :
  let digest := sha256 (canonicalEncode "iterm2-room" [rs; utf8 pid]) in
  exists b30 b31, digest !! 30%nat = Some b30 /\ digest !! 31%nat = Some b31
    /\ ROOM_NAME_RE (roomName rs pid) = true
    /\ bucketFor rs pid = Some (Z.lor (Z.shiftl b30 8) b31)
    /\ 0 <= Z.lor (Z.shiftl b30 8) b31 < N_BUCKETS.
Proof.
  intros digest. destruct (bucketForRoomName_hex digest) as (b30 & b31 & ? & ? & ? & Hb);
    [apply sha256_bytes|apply sha256_length|].
  apply bucketForRoomName_range in Hb as Hr.
  exists b30, b31. split_and!; [done..|exact Hb|apply Hr|apply Hr].
Qed.

Lemma bucketFor_digest_witness :
  exists b, @bucketFor toy_crypto [1; 2; 3] "pid" = Some b /\ 0 <= b < N_BUCKETS.
Proof.
  destruct (@bucketFor_digest toy_crypto toy_crypto_laws [1; 2; 3] "pid")
    as (b30 & b31 & _ & _ & _ & Hb & Hr).
  exists (Z.lor (Z.shiftl b30 8) b31). split; [exact Hb | exact Hr].
Defined.

(** The entry gate lets a request through exactly when it has no Origin
    header and names a room that has a bucket of the ring; behind the gate a
    distributed box therefore never answers [unroutable], and a refusal is
    always a 421 that tells the client to re-resolve. *)
Theorem entry_gate_then_ownership (h : headers) (owns : Z -> bool) :
  (entryReject h = None <->
     hget h "Origin" = None /\
     exists room b, hget h ROOM_HEADER = Some room /\ bucketForRoomName room = Some b
                    /\ 0 <= b < N_BUCKETS)
  /\ (forall room, entryReject h = None -> hget h ROOM_HEADER = Some room ->
        exists b, bucketForRoomName room = Some b /\
          ownershipDecision MODE_DIRECT room owns = Admit None /\
          ownershipDecision MODE_DISTRIBUTED room owns =
            (if owns b then Admit (Some b) else Refuse 421 "not-owner" (Some b)) /\
          classifyHttpStatus 421 = RE_RESOLVE).
Proof.
  assert (Hgate : entryReject h = None <->
    hget h "Origin" = None /\ exists room, hget h ROOM_HEADER = Some room /\ ROOM_NAME_RE room = true).
  { unfold entryReject. destruct (hget h "Origin"); [by split; [|intros [? _]]|].
    destruct (hget h ROOM_HEADER) as [room|];
      [|by split; [|intros (_ & ? & ? & _)]].
    destruct (negb _ || negb _)%bool eqn:E.
    - split; [done|]. intros (_ & ? & [= <-] & Hre). rewrite Hre in E. by destruct room.
    - split; [|done]. intros _. to_prop. eauto. }
  split.
  - rewrite Hgate. split; intros [? (room & Hroom & Hb)]; (split; [done|]).
    + destruct (bucketForRoomName_canonical _ Hb) as (b & ? & ?). eauto.
    + destruct Hb as (Hr & Hb & _). exists room. split; [done|].
      unfold bucketForRoomName in Hroom, Hb. by destruct (ROOM_NAME_RE room).
  - intros room [_ (room' & Hroom' & Hre)]%Hgate Hroom. simplify_eq.
    destruct (bucketForRoomName_canonical _ Hre) as (b & Hb & _).
    exists b. unfold ownershipDecision. by rewrite Hb.
Qed.

Lemma entry_gate_then_ownership_witness :
  let room := "00000000000000000000000000000000000000000000000000000000000000ff"%string in
  let h := <["x-relay-room"%string := room]> (∅ : headers) in
  exists b, bucketForRoomName room = Some b /\
    ownershipDecision MODE_DISTRIBUTED room (fun _ => false) = Refuse 421 "not-owner" (Some b).
Proof.
  intros room h.
  destruct (proj2 (entry_gate_then_ownership h (fun _ => false)) room) as (b & Hb & _ & Hd & _);
    [vm_compute; reflexivity | vm_compute; reflexivity |].
  exists b. split; [exact Hb | exact Hd].
Defined.

(** Exactly the reshard closes move a client to another host: a close is
    classified re-resolve when its code is 4421 or its reason is the sentinel,
    alone or followed by a space and an owner; the reason the relay emits
    parses back to the owner it names, and the two slot and quota closes of a
    room take the long backoff. *)
Theorem reshard_close_classified (code : Z) (reason owner : option string) :
  (classifyWsClose code reason = RE_RESOLVE <->
     code = WS_RESHARD_CODE \/
     exists r, reason = Some r /\
       (r = RESHARD_SENTINEL \/ exists o, r = RESHARD_SENTINEL +:+ " " +:+ o))
  /\ parseReshardReason (Some (reshardReason owner)) =
       Reshard true (if truthy owner then owner else None)
  /\ classifyWsClose code (Some (reshardReason owner)) = RE_RESOLVE
  /\ classifyWsClose 1008 (Some "daily quota exceeded"%string) = LONG_BACKOFF
  /\ classifyWsClose 1000 (Some "displaced"%string) = LONG_BACKOFF.
Proof.
  assert (Hparse : forall o, parseReshardReason (Some (reshardReason o)) =
    Reshard true (if truthy o then o else None)).
  { intros [[|c o]|]; [done| |done].
    unfold parseReshardReason, reshardReason, RESHARD_SENTINEL.
    rewrite (proj2 (String.eqb_neq _ _)) by discriminate.
    change (starts_with _ _) with (starts_with "reshard " ("reshard " +:+ String c o)).
    by rewrite starts_with_app. }
  split_and!; [|apply Hparse| |done|done].
  - unfold classifyWsClose. destruct (code =? WS_RESHARD_CODE) eqn:Hc; to_prop; simpl.
    { naive_solver. }
    destruct (isReshard (parseReshardReason reason)) eqn:Hr.
    + destruct reason as [r|]; [|done]. apply parse_reshard_spec in Hr. naive_solver.
    + split; [intros H; split_hyp H; done|]. intros [?|(r & -> & Hr')]; [done|].
      apply parse_reshard_spec in Hr'. congruence.
  - unfold classifyWsClose. rewrite Hparse. simpl. by rewrite orb_true_r.
Qed.
