(* ===== verification/Json.v ===== *)
(** [JSON.parse], executable: the inputs of the shard map, of the socket frames
    and of the request bodies are JSON text.

    Numbers are IEEE doubles ([spec_float], correctly rounded from the decimal
    literal), strings are UTF-8 ([\uXXXX] escapes are encoded, surrogate pairs
    combined, a lone surrogate kept as its three-byte form), and an object keeps
    its members in text order, the last one winning on a duplicate key. *)

From Stdlib Require Import SpecFloat Ascii.
From S2P Require Import Prelude Bytes.

Inductive json : Type :=
| JNull
| JBool (b : bool)
| JNum (x : spec_float)
| JStr (s : string)
| JArr (l : list json)
| JObj (kvs : list (string * json)).

(** ** Property reads *)

(** The last member of that name. *)
Definition jfind (k : string) (kvs : list (string * json)) : option json :=
  fold_left (fun acc kv => if String.eqb (fst kv) k then Some (snd kv) else acc) kvs None.

(** [v.k]: reading a property of [null] throws, of a primitive or an array (for
    the names the code reads) is [undefined]. *)
Definition jprop (v : json) (k : string) : result string (option json) :=
  match v with
  | JNull => Err ("Cannot read properties of null (reading '" +:+ k +:+ "')")
  | JObj kvs => Ok (jfind k kvs)
  | _ => Ok None
  end.

(** [typeof x === "string"], with the string *)
Definition jstring (v : option json) : option string :=
  match v with Some (JStr s) => Some s | _ => None end.

(** ** Numbers *)

Definition prec64 : Z := 53.
Definition emax64 : Z := 1024.

(** [m * 10^e], rounded once. *)
Definition decimal_to_float (neg : bool) (m e : Z) : spec_float :=
  let signed x := if neg then SFopp x else x in
  match m with
  | Zpos p =>
      if 400 <? e then S754_infinity neg
      else if e <? - (400 + Z.log2 m) then S754_zero neg
      else if 0 <=? e then signed (binary_normalize prec64 emax64 (m * 10 ^ e) 0 false)
      else match SFdiv_core_binary prec64 emax64 m 0 (10 ^ (- e)) 0 with
           | (q, e', l) => binary_round_aux prec64 emax64 neg q e' l
           end
  | _ => S754_zero neg
  end.

(** [Number.isInteger(x)], with the integer *)
Definition float_integer (x : spec_float) : option Z :=
  match x with
  | S754_zero _ => Some 0
  | S754_finite s m e =>
      let v :=
        match e with
        | Zneg p => if (Zpos m mod 2 ^ Zpos p =? 0) then Some (Zpos m / 2 ^ Zpos p) else None
        | _ => Some (Zpos m * 2 ^ e)
        end in
      (if s then Z.opp else id) <$> v
  | _ => None
  end.

Definition jinteger (v : option json) : option Z :=
  match v with Some (JNum x) => float_integer x | _ => None end.

(** ** The parser: each function returns the value and the rest of the text *)

Abbreviation parser A := (list ascii -> option (A * list ascii)).

Definition is_char (n : nat) (c : ascii) : bool := Nat.eqb (nat_of_ascii c) n.

Fixpoint skip_ws (l : list ascii) : list ascii :=
  match l with
  | c :: l' => if is_char 32 c || is_char 9 c || is_char 10 c || is_char 13 c then skip_ws l' else l
  | [] => []
  end.

Fixpoint expect_word (w : string) (l : list ascii) : option (list ascii) :=
  match w, l with
  | EmptyString, _ => Some l
  | String a w', c :: l' => if Ascii.eqb a c then expect_word w' l' else None
  | String _ _, [] => None
  end.

Definition digit_value (c : ascii) : option Z :=
  let n := Z.of_nat (nat_of_ascii c) in
  if (48 <=? n) && (n <=? 57) then Some (n - 48) else None.

(** Digits: their value appended to [acc], and how many there were. *)
Fixpoint read_digits (l : list ascii) (acc n : Z) : Z * Z * list ascii :=
  match l with
  | c :: l' =>
      match digit_value c with
      | Some d => read_digits l' (acc * 10 + d) (n + 1)
      | None => (acc, n, l)
      end
  | [] => (acc, n, [])
  end.

Definition read_int : parser Z := fun l =>
  match l with
  | c :: l' =>
      if is_char 48 c then Some (0, l')
      else let '(v, n, r) := read_digits l 0 0 in if n =? 0 then None else Some (v, r)
  | [] => None
  end.

(** The optional fraction: mantissa so far to mantissa and digits added. *)
Definition read_frac (m : Z) : parser (Z * Z) := fun l =>
  match l with
  | c :: l' =>
      if is_char 46 c then
        let '(v, n, r) := read_digits l' m 0 in if n =? 0 then None else Some ((v, n), r)
      else Some ((m, 0), l)
  | [] => Some ((m, 0), [])
  end.

Definition read_exp : parser Z := fun l =>
  match l with
  | c :: l' =>
      if is_char 101 c || is_char 69 c then
        let '(neg, l'') :=
          match l' with
          | s :: r => if is_char 45 s then (true, r) else if is_char 43 s then (false, r) else (false, l')
          | [] => (false, l')
          end in
        let '(v, n, r) := read_digits l'' 0 0 in
        if n =? 0 then None else Some (if neg : bool then - v else v, r)
      else Some (0, l)
  | [] => Some (0, [])
  end.

Definition read_number : parser json := fun l =>
  let '(neg, l1) := match l with
                    | c :: r => if is_char 45 c then (true, r) else (false, l)
                    | [] => (false, l)
                    end in
  '(m, l2) ← read_int l1;
  '(mf, l3) ← read_frac m l2;
  '(e, l4) ← read_exp l3;
  Some (JNum (decimal_to_float neg (fst mf) (e - snd mf)), l4).

(** ** Strings *)

Definition char_of_Z (n : Z) : ascii := ascii_of_nat (Z.to_nat n).

Definition encode_code_point (n : Z) : list ascii :=
  if n <? 128 then [char_of_Z n]
  else if n <? 2048 then [char_of_Z (192 + n / 64); char_of_Z (128 + n mod 64)]
  else if n <? 65536 then
    [char_of_Z (224 + n / 4096); char_of_Z (128 + n / 64 mod 64); char_of_Z (128 + n mod 64)]
  else [char_of_Z (240 + n / 262144); char_of_Z (128 + n / 4096 mod 64);
        char_of_Z (128 + n / 64 mod 64); char_of_Z (128 + n mod 64)].

Definition hex_any (c : ascii) : option Z := hex_value (lower_char c).

Definition read_hex4 : parser Z := fun l =>
  match l with
  | a :: b :: c :: d :: r =>
      va ← hex_any a; vb ← hex_any b; vc ← hex_any c; vd ← hex_any d;
      Some (((va * 16 + vb) * 16 + vc) * 16 + vd, r)
  | _ => None
  end.

(** The code point of a [\u] escape, a following low surrogate included. *)
Definition read_unicode : parser Z := fun l =>
  '(hi, r) ← read_hex4 l;
  if (55296 <=? hi) && (hi <? 56320) then
    match r with
    | b :: u :: r' =>
        if is_char 92 b && is_char 117 u then
          match read_hex4 r' with
          | Some (lo, r'') =>
              if (56320 <=? lo) && (lo <? 57344)
              then Some (65536 + (hi - 55296) * 1024 + (lo - 56320), r'')
              else Some (hi, r)
          | None => Some (hi, r)
          end
        else Some (hi, r)
    | _ => Some (hi, r)
    end
  else Some (hi, r).

Definition simple_escape (c : ascii) : option ascii :=
  if is_char 34 c || is_char 92 c || is_char 47 c then Some c
  else if is_char 98 c then Some (char_of_Z 8)
  else if is_char 102 c then Some (char_of_Z 12)
  else if is_char 110 c then Some (char_of_Z 10)
  else if is_char 114 c then Some (char_of_Z 13)
  else if is_char 116 c then Some (char_of_Z 9)
  else None.

(** The rest of a string after its opening quote; [acc] is reversed. *)
Fixpoint read_string (fuel : nat) (acc l : list ascii) : option (string * list ascii) :=
  match fuel, l with
  | S fuel', c :: l' =>
      if is_char 34 c then Some (String.string_of_list_ascii (rev acc), l')
      else if Nat.ltb (nat_of_ascii c) 32 then None
      else if is_char 92 c then
        match l' with
        | e :: l'' =>
            if is_char 117 e then
              match read_unicode l'' with
              | Some (n, r) => read_string fuel' (rev (encode_code_point n) ++ acc) r
              | None => None
              end
            else match simple_escape e with
                 | Some x => read_string fuel' (x :: acc) l''
                 | None => None
                 end
        | [] => None
        end
      else read_string fuel' (c :: acc) l'
  | _, _ => None
  end.

(** ** Values *)

Fixpoint read_value (fuel : nat) (l0 : list ascii) : option (json * list ascii) :=
  match fuel with
  | O => None
  | S fuel' =>
      let l := skip_ws l0 in
      match l with
      | [] => None
      | c :: r =>
          if is_char 110 c then r' ← expect_word "null" l; Some (JNull, r')
          else if is_char 116 c then r' ← expect_word "true" l; Some (JBool true, r')
          else if is_char 102 c then r' ← expect_word "false" l; Some (JBool false, r')
          else if is_char 34 c then '(s, r') ← read_string (length l) [] r; Some (JStr s, r')
          else if is_char 91 c then
            match skip_ws r with
            | e :: r' => if is_char 93 e then Some (JArr [], r')
                         else '(vs, r'') ← read_elems fuel' r; Some (JArr vs, r'')
            | [] => None
            end
          else if is_char 123 c then
            match skip_ws r with
            | e :: r' => if is_char 125 e then Some (JObj [], r')
                         else '(kvs, r'') ← read_members fuel' r; Some (JObj kvs, r'')
            | [] => None
            end
          else read_number l
      end
  end
with read_elems (fuel : nat) (l : list ascii) : option (list json * list ascii) :=
  match fuel with
  | O => None
  | S fuel' =>
      '(v, r) ← read_value fuel' l;
      match skip_ws r with
      | c :: r' =>
          if is_char 44 c then '(vs, r'') ← read_elems fuel' r'; Some (v :: vs, r'')
          else if is_char 93 c then Some ([v], r')
          else None
      | [] => None
      end
  end
with read_members (fuel : nat) (l : list ascii) : option (list (string * json) * list ascii) :=
  match fuel with
  | O => None
  | S fuel' =>
      match skip_ws l with
      | q :: l1 =>
          if is_char 34 q then
            '(k, r) ← read_string (length l) [] l1;
            match skip_ws r with
            | c :: r1 =>
                if is_char 58 c then
                  '(v, r2) ← read_value fuel' r1;
                  match skip_ws r2 with
                  | d :: r3 =>
                      if is_char 44 d then
                        '(kvs, r4) ← read_members fuel' r3; Some ((k, v) :: kvs, r4)
                      else if is_char 125 d then Some ([(k, v)], r3)
                      else None
                  | [] => None
                  end
                else None
            | [] => None
            end
          else None
      | [] => None
      end
  end.

(** [JSON.parse(text)]; [None] is the SyntaxError.  Every nested call reads at
    least one character more, so twice the length is enough fuel. *)
Definition JSON_parse (text : string) : option json :=
  let l := String.list_ascii_of_string text in
  match read_value (2 * length l + 2) l with
  | Some (v, r) => match skip_ws r with [] => Some v | _ => None end
  | None => None
  end.

(** A JSON text with single quotes for double ones, to write examples with. *)
Fixpoint requote (s : string) : string :=
  match s with
  | EmptyString => EmptyString
  | String c s' => String (if is_char 39 c then ascii_of_nat 34 else c) (requote s')
  end.

Example parse_hello :
  (JSON_parse (requote " {'v': 1, 'role':'mac'} ") ≫= fun v =>
     match jprop v "v", jprop v "role" with
     | Ok vn, Ok r => Some (jinteger vn, jstring r)
     | _, _ => None
     end) = Some (Some 1, Some "mac"%string).
Proof. vm_compute. reflexivity. Qed.

Example parse_numbers :
  (fun t => match JSON_parse t with Some (JNum x) => float_integer x | _ => None end)
    <$> ["0"; "-12"; "5.0"; "1e3"; "1.5"; "01"; "9007199254740993"; "2.5e1"]%string
  = [Some 0; Some (-12); Some 5; Some 1000; None; None; Some 9007199254740992; Some 25].
Proof. vm_compute. reflexivity. Qed.

(** ** The fuel is enough *)

(** What a reader leaves is no longer than what it was given. *)
Definition shrinks {A : Type} (l : list ascii) (o : option (A * list ascii)) : Prop :=
  match o with Some (_, r) => (length r <= length l)%nat | None => True end.

Lemma skip_ws_length l : (length (skip_ws l) <= length l)%nat.
Proof. induction l as [|c l IH]; simpl; [lia|]. destruct (_ || _); simpl; lia. Qed.

Lemma skip_ws_cons l c r : skip_ws l = c :: r -> (length r < length l)%nat.
Proof. intros E. pose proof (skip_ws_length l). rewrite E in H. simpl in H. lia. Qed.

Lemma expect_word_length w l r : expect_word w l = Some r -> (length r <= length l)%nat.
Proof.
  revert l. induction w as [|a w IH]; intros [|c l]; simpl; try by intros [= <-].
  destruct (Ascii.eqb a c); [|done]. intros E. apply IH in E. lia.
Qed.

Lemma read_digits_length l acc n v k r : read_digits l acc n = (v, k, r) -> (length r <= length l)%nat.
Proof.
  revert acc n. induction l as [|c l IH]; intros acc n; simpl; [by intros [= <- <- <-]|].
  destruct (digit_value c); [intros E; apply IH in E; lia|by intros [= <- <- <-]].
Qed.

Ltac digits :=
  match goal with
  | |- context [read_digits ?l ?a ?n] =>
      let E := fresh "E" in
      destruct (read_digits l a n) as [[? ?] ?] eqn:E; apply read_digits_length in E
  end.

Lemma read_int_shrinks l : shrinks l (read_int l).
Proof.
  destruct l as [|c l]; [done|]. unfold read_int. destruct (is_char 48 c); [simpl; lia|].
  digits. destruct (_ =? 0); [done|exact E].
Qed.

Lemma read_frac_shrinks m l : shrinks l (read_frac m l).
Proof.
  destruct l as [|c l]; [simpl; lia|]. unfold read_frac. destruct (is_char 46 c); [|simpl; lia].
  digits. destruct (_ =? 0); [done|]. simpl in *. lia.
Qed.

Lemma read_exp_shrinks l : shrinks l (read_exp l).
Proof.
  destruct l as [|c l]; [simpl; lia|]. unfold read_exp. destruct (_ || _); [|simpl; lia].
  set (p := match l with [] => _ | _ => _ end).
  assert (Hp : (length p.2 <= length l)%nat)
    by (subst p; destruct l as [|s l]; [done|]; destruct (is_char 45 s), (is_char 43 s); simpl; lia).
  destruct p as [neg l2]. digits. destruct (_ =? 0); [done|]. simpl in *. lia.
Qed.

Lemma shrinks_bind {A B : Type} (l : list ascii) (o : option (A * list ascii))
    (k : A -> list ascii -> option (B * list ascii)) :
  shrinks l o -> (forall a r, o = Some (a, r) -> shrinks r (k a r)) ->
  shrinks l ('(a, r) ← o; k a r).
Proof.
  intros Ho Hk. destruct o as [[a r]|]; [|done]. simpl in *. specialize (Hk a r eq_refl).
  unfold shrinks in *. destruct (k a r) as [[? ?]|]; [lia|done].
Qed.

Lemma read_number_shrinks l : shrinks l (read_number l).
Proof.
  unfold read_number. set (p := match l with [] => _ | _ => _ end).
  assert (Hp : (length p.2 <= length l)%nat)
    by (subst p; destruct l as [|c l]; [done|]; destruct (is_char 45 c); simpl; lia).
  destruct p as [neg l1]. simpl in Hp.
  assert (H : shrinks l1 ('(m, l2) ← read_int l1; '(mf, l3) ← read_frac m l2;
     '(e, l4) ← read_exp l3; Some (JNum (decimal_to_float neg (fst mf) (e - snd mf)), l4))).
  { apply shrinks_bind; [apply read_int_shrinks|]. intros m l2 _.
    apply shrinks_bind; [apply read_frac_shrinks|]. intros mf l3 _.
    apply shrinks_bind; [apply read_exp_shrinks|]. intros e l4 _. simpl. lia. }
  unfold shrinks in *. by destruct (_ ≫= _) as [[? ?]|]; [lia|].
Qed.

Lemma read_hex4_length l n r : read_hex4 l = Some (n, r) -> (length r < length l)%nat.
Proof.
  destruct l as [|a [|b [|c [|d l]]]]; try done. simpl.
  destruct (hex_any a), (hex_any b), (hex_any c), (hex_any d); simpl; try done. intros [= <- <-]. lia.
Qed.

Lemma read_unicode_length l n r : read_unicode l = Some (n, r) -> (length r < length l)%nat.
Proof.
  unfold read_unicode. destruct (read_hex4 l) as [[hi r0]|] eqn:E; [|done]. apply read_hex4_length in E. simpl.
  destruct (_ && _); [|by intros [= <- <-]]. destruct r0 as [|b [|u r']]; try by intros [= <- <-].
  destruct (_ && _); [|by intros [= <- <-]]. destruct (read_hex4 r') as [[lo r'']|] eqn:E2; [|by intros [= <- <-]].
  apply read_hex4_length in E2. destruct (_ && _); intros [= <- <-]; simpl in *; lia.
Qed.

Lemma read_string_shrinks f acc l : shrinks l (read_string f acc l).
Proof.
  revert acc l. induction f as [|f IH]; intros acc [|c l]; try done. simpl.
  assert (Hk : forall acc' l', (length l' <= length l)%nat -> shrinks (c :: l) (read_string f acc' l')).
  { intros acc' l' Hl. specialize (IH acc' l'). unfold shrinks in *.
    destruct (read_string f acc' l') as [[? ?]|]; simpl; [lia|done]. }
  destruct (is_char 34 c); [simpl; lia|]. destruct (Nat.ltb _ 32); [done|].
  destruct (is_char 92 c); [|by apply Hk]. destruct l as [|e l]; [done|].
  destruct (is_char 117 e); [|destruct (simple_escape e); [apply Hk; simpl; lia|done]].
  destruct (read_unicode l) as [[n r]|] eqn:E; [|done]. apply read_unicode_length in E. apply Hk. simpl. lia.
Qed.

Lemma read_string_fuel f1 f2 acc l :
  (length l <= f1)%nat -> (length l <= f2)%nat -> read_string f1 acc l = read_string f2 acc l.
Proof.
  revert f2 acc l. induction f1 as [|f1 IH]; intros [|f2] acc [|c l]; simpl; try (done || lia). intros H1 H2.
  destruct (is_char 34 c); [done|]. destruct (Nat.ltb _ 32); [done|].
  destruct (is_char 92 c); [|apply IH; lia]. destruct l as [|e l]; [done|]. simpl in *.
  destruct (is_char 117 e); [|destruct (simple_escape e); [apply IH; lia|done]].
  destruct (read_unicode l) as [[n r]|] eqn:E; [|done]. apply read_unicode_length in E. apply IH; lia.
Qed.

(** The three readers of values leave no more than they are given. *)
Lemma read_value_shrinks f :
  (forall l, shrinks l (read_value f l)) /\ (forall l, shrinks l (read_elems f l))
  /\ (forall l, shrinks l (read_members f l)).
Proof.
  induction f as [|f (IHv & IHe & IHm)]; [done|]. split_and!.
  - intros l0. cbn [read_value]. pose proof (skip_ws_length l0) as H0. destruct (skip_ws l0) as [|c r] eqn:El; [done|].
    assert (Hw : forall w (v : json), shrinks l0 (r' ← expect_word w (c :: r); Some (v, r'))).
    { intros w v. destruct (expect_word w (c :: r)) as [r'|] eqn:E; [|done].
      apply expect_word_length in E. simpl in *. lia. }
    assert (Hb : forall (A : Type) (o : option (A * list ascii)) (g : A -> json) l',
              (length l' <= length r)%nat -> shrinks l' o -> shrinks l0 ('(a, r') ← o; Some (g a, r'))).
    { intros A o g l' Hl Ho. destruct o as [[a r']|]; [|done]. simpl in *. lia. }
    destruct (is_char 110 c); [apply Hw|]. destruct (is_char 116 c); [apply Hw|].
    destruct (is_char 102 c); [apply Hw|].
    destruct (is_char 34 c); [apply (Hb _ _ JStr r); [lia|apply read_string_shrinks]|].
    pose proof (skip_ws_length r) as Hr.
    destruct (is_char 91 c).
    { destruct (skip_ws r) as [|e r'] eqn:Er; [done|]. simpl in Hr, H0.
      destruct (is_char 93 e); [simpl; lia|apply (Hb _ _ JArr r); [lia|apply IHe]]. }
    destruct (is_char 123 c).
    { destruct (skip_ws r) as [|e r'] eqn:Er; [done|]. simpl in Hr, H0.
      destruct (is_char 125 e); [simpl; lia|apply (Hb _ _ JObj r); [lia|apply IHm]]. }
    pose proof (read_number_shrinks (c :: r)) as Hn. unfold shrinks in *.
    destruct (read_number (c :: r)) as [[? ?]|]; [lia|done].
  - intros l. cbn [read_elems]. apply shrinks_bind; [apply IHv|]. intros v r _.
    destruct (skip_ws r) as [|c r'] eqn:Er; [done|]. apply skip_ws_cons in Er. destruct (is_char 44 c).
    + specialize (IHe r'). destruct (read_elems f r') as [[vs r'']|]; [|done]. simpl in *. lia.
    + destruct (is_char 93 c); [simpl; lia|done].
  - intros l. cbn [read_members]. destruct (skip_ws l) as [|q l1] eqn:El; [done|]. apply skip_ws_cons in El.
    destruct (is_char 34 q); [|done]. pose proof (read_string_shrinks (length l) [] l1) as Hs.
    destruct (read_string (length l) [] l1) as [[k r]|]; [|done]. simpl in Hs |- *.
    destruct (skip_ws r) as [|c r1] eqn:Er; [done|]. apply skip_ws_cons in Er. destruct (is_char 58 c); [|done].
    specialize (IHv r1). destruct (read_value f r1) as [[v r2]|]; [|done]. simpl in IHv |- *.
    destruct (skip_ws r2) as [|d r3] eqn:E2; [done|]. apply skip_ws_cons in E2. destruct (is_char 44 d).
    + specialize (IHm r3). destruct (read_members f r3) as [[vs r'']|]; [|done]. simpl in *. lia.
    + destruct (is_char 125 d); [simpl; lia|done].
Qed.

(** Two fuels past twice the length read the same. *)
Lemma read_value_fuel f1 : forall f2,
  (forall l, (2 * length l < f1)%nat -> (2 * length l < f2)%nat -> read_value f1 l = read_value f2 l)
  /\ (forall l, (2 * length l + 1 < f1)%nat -> (2 * length l + 1 < f2)%nat -> read_elems f1 l = read_elems f2 l)
  /\ (forall l, (2 * length l < f1)%nat -> (2 * length l < f2)%nat -> read_members f1 l = read_members f2 l).
Proof.
  induction f1 as [|f1 IH]; [intros f2; split_and!; lia|]. intros [|f2]; [split_and!; lia|].
  destruct (IH f2) as (IHv & IHe & IHm). clear IH. split_and!.
  - intros l0 H1 H2. cbn [read_value]. destruct (skip_ws l0) as [|c r] eqn:El; [done|]. apply skip_ws_cons in El.
    destruct (is_char 110 c); [done|]. destruct (is_char 116 c); [done|]. destruct (is_char 102 c); [done|].
    destruct (is_char 34 c); [done|]. rewrite (IHe r), (IHm r) by lia. done.
  - intros l H1 H2. cbn [read_elems]. rewrite (IHv l) by lia. pose proof (proj1 (read_value_shrinks f2) l) as Hv.
    destruct (read_value f2 l) as [[v r]|]; [|done]. simpl in Hv |- *.
    destruct (skip_ws r) as [|c r'] eqn:Er; [done|]. apply skip_ws_cons in Er. by rewrite (IHe r') by lia.
  - intros l H1 H2. cbn [read_members]. destruct (skip_ws l) as [|q l1] eqn:El; [done|]. apply skip_ws_cons in El.
    destruct (is_char 34 q); [|done]. pose proof (read_string_shrinks (length l) [] l1) as Hs.
    destruct (read_string (length l) [] l1) as [[k r]|]; [|done]. simpl in Hs |- *.
    destruct (skip_ws r) as [|c r1] eqn:Er; [done|]. apply skip_ws_cons in Er. destruct (is_char 58 c); [|done].
    rewrite (IHv r1) by lia. pose proof (proj1 (read_value_shrinks f2) r1) as Hv.
    destruct (read_value f2 r1) as [[v r2]|]; [|done]. simpl in Hv |- *.
    destruct (skip_ws r2) as [|d r3] eqn:E2; [done|]. apply skip_ws_cons in E2. by rewrite (IHm r3) by lia.
Qed.

(** More fuel than [JSON_parse] gives changes nothing: a refusal is never the
    model running out. *)
Lemma JSON_parse_fuel text f :
  let l := String.list_ascii_of_string text in
  (2 * length l + 2 <= f)%nat ->
  JSON_parse text = match read_value f l with
                    | Some (v, r) => match skip_ws r with [] => Some v | _ => None end
                    | None => None
                    end.
Proof.
  intros l Hf. unfold JSON_parse. fold l. rewrite (proj1 (read_value_fuel (2 * length l + 2) f) l) by lia. done.
Qed.
