(* ===== verification/ShardMap.v ===== *)
(** The shard map: parsing, validation and lookup ([src/sharding/shardMap.js]),
    and the buckets a box owns with the difference between two owned sets
    ([src/sharding/ownedSet.js]). *)

From Stdlib Require Import Ascii.
From stdpp Require Import pretty.
From S2P Require Import Prelude Bytes Json.

Definition EXPECTED_BUCKETS : Z := 65536.

Inductive ShardMapError : Type :=
| negativeVersion | emptyRanges | emptyHost | invalidHost | invalidRange | gapOrOverlap | malformed.
#[export] Instance ShardMapError_eq_dec : EqDecision ShardMapError.
Proof. solve_decision. Defined.

(** The thrown [ShardMapValidationError]. *)
Record map_error := MapError { kind : ShardMapError; detail : option string }.

Record range := Range { low : Z; high : Z; host : string }.
#[export] Instance range_eq_dec : EqDecision range.
Proof. solve_decision. Defined.

Record shard_map := ShardMap { version : Z; ranges : list range }.

(** ** Hosts *)

Definition utf8_seq (l : list Z) : string := string_of_bytes l.

(** The characters of [\s], as UTF-8. *)
Definition js_spaces : list string :=
  map utf8_seq ([[9]; [10]; [11]; [12]; [13]; [32]; [194; 160]; [225; 154; 128]]
    ++ map (fun n => [226; 128; n]) (seqZ 128 11)
    ++ [[226; 128; 168]; [226; 128; 169]; [226; 128; 175]; [226; 129; 159];
        [227; 128; 128]; [239; 187; 191]]).

Definition is_upper (c : ascii) : bool :=
  let n := nat_of_ascii c in Nat.leb 65 n && Nat.leb n 90.

Fixpoint ends_with_char (c : ascii) (s : string) : bool :=
  match s with
  | EmptyString => false
  | String a EmptyString => Ascii.eqb a c
  | String _ s' => ends_with_char c s'
  end.

Definition isBareAuthority (h : string) : bool :=
  if Nat.eqb (String.length h) 0 then false
  else if existsb (fun w => includes w h) (["/"; "@"; "?"; "#"]%string ++ js_spaces) then false
  else if string_existsb is_upper h then false
  else if ends_with_char "."%char h then false
  else true.

(** ** Parsing *)

Definition malformed_error (d : string) : map_error := MapError malformed (Some d).

Definition parse_range (r : json) : result map_error range :=
  match r with
  | JObj kvs =>
      match jinteger (jfind "low" kvs), jinteger (jfind "high" kvs), jstring (jfind "host" kvs) with
      | Some lo, Some hi, Some h => Ok (Range lo hi h)
      | _, _, _ => Err (malformed_error "bad range entry")
      end
  | JArr _ | _ => Err (malformed_error "bad range entry")
  end.

(** [ranges.map(...)], throwing at the first bad entry. *)
Fixpoint parse_ranges (l : list json) : result map_error (list range) :=
  match l with
  | [] => Ok []
  | r :: l' => (let! x := parse_range r in let! xs := parse_ranges l' in Ok (x :: xs))%res
  end.

Definition parseShardMap (text : string) : result map_error shard_map :=
  match JSON_parse text with
  | None => Err (malformed_error "invalid JSON")
  | Some (JObj kvs) =>
      match jinteger (jfind "version" kvs) with
      | None => Err (malformed_error "version must be an integer")
      | Some v =>
          match jfind "ranges" kvs with
          | Some (JArr l) => (let! rs := parse_ranges l in Ok (ShardMap v rs))%res
          | _ => Err (malformed_error "ranges must be an array")
          end
      end
  | Some _ => Err (malformed_error "not an object")
  end.

(** ** Validation *)

Definition validate_range (r : range) : result map_error unit :=
  if String.eqb (host r) "" then Err (MapError emptyHost None)
  else if negb (isBareAuthority (host r)) then Err (MapError invalidHost (Some (host r)))
  else if (high r <? low r) || (low r <? 0) || (EXPECTED_BUCKETS <=? high r)
       then Err (MapError invalidRange (Some (pretty (low r) +:+ ".." +:+ pretty (high r))))
  else Ok tt.

Fixpoint validate_ranges (l : list range) : result map_error unit :=
  match l with
  | [] => Ok tt
  | r :: l' => (let! _ := validate_range r in validate_ranges l')%res
  end.

Definition low_le (a b : range) : Prop := low a <= low b.
#[export] Instance low_le_dec : RelDecision low_le.
Proof. intros a b. unfold low_le. apply _. Defined.
#[export] Instance low_le_trans : Transitive low_le.
Proof. unfold low_le. intros ???. lia. Qed.
#[export] Instance low_le_total : Total low_le.
Proof. unfold low_le. intros ??. lia. Qed.

(** The walk over the ranges sorted by [low]: the next expected bucket. *)
Fixpoint walk (expectedNext : Z) (sorted : list range) : result map_error Z :=
  match sorted with
  | [] => Ok expectedNext
  | r :: l' =>
      if negb (low r =? expectedNext) then Err (MapError gapOrOverlap None)
      else walk (high r + 1) l'
  end.

Definition validateShardMap (m : shard_map) : result map_error unit :=
  if version m <? 0 then Err (MapError negativeVersion None)
  else if Nat.eqb (length (ranges m)) 0 then Err (MapError emptyRanges None)
  else (let! _ := validate_ranges (ranges m) in
        let! expectedNext := walk 0 (merge_sort low_le (ranges m)) in
        if negb (expectedNext =? EXPECTED_BUCKETS) then Err (MapError gapOrOverlap None)
        else Ok tt)%res.

(** ** Lookup and ownership *)

Definition covers (b : Z) (r : range) : bool := (low r <=? b) && (b <=? high r).

Definition hostForBucket (m : shard_map) (bucket : Z) : option string :=
  if (bucket <? 0) || (EXPECTED_BUCKETS <=? bucket) then None
  else host <$> List.find (covers bucket) (ranges m).

Definition add_range (selfHost : string) (owned : gset Z) (r : range) : gset Z :=
  if String.eqb (host r) selfHost
  then fold_left (fun acc b => {[ b ]} ∪ acc) (zrange (low r) (high r)) owned
  else owned.

Definition ownedBuckets (m : shard_map) (selfHost : string) : gset Z :=
  fold_left (add_range selfHost) (ranges m) ∅.

Record owned_diff := OwnedDiff { acquired : gset Z; relinquished : gset Z }.

Definition diffOwned (oldSet newSet : gset Z) : owned_diff :=
  OwnedDiff (filter (fun b => b ∉ oldSet) newSet) (filter (fun b => b ∉ newSet) oldSet).

(** A two-box fleet, the ranges listed out of order. *)
Definition two_hosts : shard_map :=
  ShardMap 3 [Range 32768 65535 "b.example"; Range 0 32767 "a.example"].

(** ** Lemmas: ownership *)

Lemma elem_of_add_all (l : list Z) (acc : gset Z) b :
  b ∈ fold_left (fun acc b => {[ b ]} ∪ acc) l acc <-> b ∈ l \/ b ∈ acc.
Proof. revert acc. induction l as [|x l IH]; intros acc; simpl; [set_solver|]. rewrite IH. set_solver. Qed.

Lemma elem_of_add_range h acc r b :
  b ∈ add_range h acc r <-> (host r = h /\ covers b r = true) \/ b ∈ acc.
Proof.
  unfold add_range, covers. destruct (String.eqb_spec (host r) h) as [Heq|Hne].
  - rewrite elem_of_add_all, elem_of_zrange, andb_true_iff, !Z.leb_le. naive_solver.
  - naive_solver.
Qed.

Lemma elem_of_ownedBuckets m h b :
  b ∈ ownedBuckets m h <-> exists r, r ∈ ranges m /\ host r = h /\ covers b r = true.
Proof.
  unfold ownedBuckets.
  enough (Hacc : forall acc, b ∈ fold_left (add_range h) (ranges m) acc <->
    (exists r, r ∈ ranges m /\ host r = h /\ covers b r = true) \/ b ∈ acc)
    by (rewrite Hacc; set_solver).
  induction (ranges m) as [|r l IH]; intros acc; simpl; [set_solver|].
  rewrite IH, elem_of_add_range. split; [|set_solver].
  intros [(r' & ? & ?)|[?|?]]; [left|left|by right]; [exists r'|exists r]; set_solver.
Qed.

Lemma elem_of_acquired old new b : b ∈ acquired (diffOwned old new) <-> b ∈ new /\ b ∉ old.
Proof. simpl. rewrite elem_of_filter. tauto. Qed.

Lemma elem_of_relinquished old new b : b ∈ relinquished (diffOwned old new) <-> b ∈ old /\ b ∉ new.
Proof. simpl. rewrite elem_of_filter. tauto. Qed.
#[export] Hint Rewrite elem_of_ownedBuckets elem_of_acquired elem_of_relinquished : shard.

(** ** Lemmas: validation *)

Definition valid_range (r : range) : Prop :=
  isBareAuthority (host r) = true /\ 0 <= low r <= high r /\ high r < EXPECTED_BUCKETS.

(** What a well-formed map is: every bucket of the ring in exactly one range. *)
Definition well_formed (m : shard_map) : Prop :=
  0 <= version m /\ Forall valid_range (ranges m) /\
  forall b, 0 <= b < EXPECTED_BUCKETS -> countb (covers b) (ranges m) = 1%nat.

Lemma validate_range_ok r : validate_range r = Ok tt <-> valid_range r.
Proof.
  unfold validate_range, valid_range. destruct (String.eqb_spec (host r) "") as [Heq|Hne].
  { rewrite Heq. split; [done|]. by intros [? _]. }
  destruct (isBareAuthority (host r)); simpl; [|naive_solver].
  destruct ((high r <? low r) || (low r <? 0) || (EXPECTED_BUCKETS <=? high r))%bool eqn:E.
  - split; [done|]. intros (_ & ? & ?). rewrite !orb_true_iff, !Z.ltb_lt, Z.leb_le in E. lia.
  - to_prop. split; [|done]. intros _. split; [done|]. lia.
Qed.

Lemma validate_ranges_ok l : validate_ranges l = Ok tt <-> Forall valid_range l.
Proof.
  induction l as [|r l IH]; simpl; [by split|].
  rewrite rbind_ok, Forall_cons, <-validate_range_ok, <-IH. split.
  - intros ([] & ? & ?). done.
  - intros [? ?]. by exists tt.
Qed.

Lemma countb_perm {A} (p : A -> bool) l k : l ≡ₚ k -> countb p l = countb p k.
Proof. induction 1; simpl; lia. Qed.

Lemma covers_spec b r : covers b r = true <-> low r <= b <= high r.
Proof. unfold covers. rewrite andb_true_iff, !Z.leb_le. done. Qed.

Lemma covers_false b r : covers b r = false <-> b < low r \/ high r < b.
Proof. unfold covers. rewrite andb_false_iff, !Z.leb_gt. done. Qed.

Lemma walk_sound e l n :
  Forall valid_range l -> walk e l = Ok n ->
  e <= n /\ Forall (fun r => e <= low r) l /\
  (forall b, e <= b < n -> countb (covers b) l = 1%nat).
Proof.
  revert e. induction l as [|r l IH]; simpl; intros e Hv Hw.
  { injection Hw as ->. split_and!; [done|done|lia]. }
  apply Forall_cons in Hv as [(_ & Hr & _) Hv].
  destruct (low r =? e) eqn:He; simpl in Hw; [|done]. to_prop.
  destruct (IH _ Hv Hw) as (Hle & Hlows & Hcov). split_and!; [lia| |].
  - constructor; [lia|]. eapply Forall_impl; [exact Hlows|]. simpl. lia.
  - intros b Hb. destruct (Z.le_gt_cases b (high r)) as [Hin|Hout].
    + rewrite (proj2 (covers_spec b r)) by lia.
      enough (countb (covers b) l = 0%nat) by lia. clear -Hlows Hin.
      induction Hlows as [|r' l Hr' _ IHl]; simpl; [done|].
      rewrite (proj2 (covers_false b r')) by lia. done.
    + rewrite (proj2 (covers_false b r)) by lia. apply Hcov. lia.
Qed.

Lemma walk_complete e l :
  Forall valid_range l -> Forall (fun r => e <= low r) l -> StronglySorted low_le l ->
  e <= EXPECTED_BUCKETS ->
  (forall b, e <= b < EXPECTED_BUCKETS -> countb (covers b) l = 1%nat) ->
  walk e l = Ok EXPECTED_BUCKETS.
Proof.
  revert e. induction l as [|r l IH]; simpl; intros e Hv Hlow Hs He Hcov.
  { destruct (Z.lt_ge_cases e EXPECTED_BUCKETS); [by specialize (Hcov e ltac:(lia))|].
    f_equal. lia. }
  apply Forall_cons in Hv as [(_ & Hr & Hhi) Hv]. apply Forall_cons in Hlow as [Hlr Hlow].
  apply StronglySorted_inv in Hs as [Hs Hsort].
  assert (low r = e) as <-.
  { destruct (Z.eq_dec (low r) e); [done|]. specialize (Hcov e ltac:(lia)).
    rewrite (proj2 (covers_false e r)) in Hcov by lia. simpl in Hcov.
    enough (countb (covers e) l = 0%nat) by lia. clear -Hsort Hlr n.
    induction Hsort as [|r' l Hr' _ IHl]; simpl; [done|]. unfold low_le in Hr'.
    rewrite (proj2 (covers_false e r')) by lia. done. }
  rewrite Z.eqb_refl. simpl. apply IH; [done| |done|lia|].
  - rewrite Forall_forall in Hlow, Hv |- *. intros r' Hin.
    destruct (Z.le_gt_cases (high r + 1) (low r')); [done|exfalso].
    specialize (Hlow r' Hin). destruct (Hv r' Hin) as (_ & ? & ?).
    specialize (Hcov (low r') ltac:(lia)).
    rewrite (proj2 (covers_spec (low r') r)) in Hcov by lia.
    apply list_elem_of_split in Hin as (l1 & l2 & ->).
    rewrite countb_app in Hcov. simpl in Hcov.
    rewrite (proj2 (covers_spec (low r') r')) in Hcov by lia. lia.
  - intros b Hb. specialize (Hcov b ltac:(lia)).
    by rewrite (proj2 (covers_false b r)) in Hcov by lia.
Qed.

Lemma sorted_ranges l : StronglySorted low_le (merge_sort low_le l).
Proof. apply (StronglySorted_merge_sort low_le). Qed.

Lemma validate_well_formed m : validateShardMap m = Ok tt <-> well_formed m.
Proof.
  unfold validateShardMap, well_formed.
  destruct (version m <? 0) eqn:Hv; to_prop; [split; [done|lia]|].
  destruct (Nat.eqb_spec (length (ranges m)) 0) as [H0|H0].
  { apply length_zero_iff_nil in H0. rewrite H0. split; [done|].
    intros (_ & _ & Hc). by specialize (Hc 0 ltac:(unfold EXPECTED_BUCKETS; lia)). }
  rewrite rbind_ok. setoid_rewrite rbind_ok.
  assert (Hp := merge_sort_Permutation low_le (ranges m)). split.
  - intros ([] & Hr & n & Hw & Hn). apply validate_ranges_ok in Hr.
    destruct (n =? EXPECTED_BUCKETS) eqn:E; [|done]. to_prop.
    split_and!; [done|done|]. intros b Hb. rewrite <-(countb_perm _ _ _ Hp).
    eapply walk_sound; [|exact Hw|lia]. by rewrite Hp.
  - intros (_ & Hr & Hc). exists tt. split; [by apply validate_ranges_ok|].
    exists EXPECTED_BUCKETS. split; [|done].
    apply walk_complete; [by rewrite Hp| |apply sorted_ranges|done|].
    + rewrite Hp. eapply Forall_impl; [exact Hr|]. intros r (_ & ? & _). lia.
    + intros b Hb. rewrite (countb_perm _ _ _ Hp). auto.
Qed.

Lemma countb_one_unique {A} (p : A -> bool) l x y :
  countb p l = 1%nat -> x ∈ l -> y ∈ l -> p x = true -> p y = true -> x = y.
Proof.
  induction l as [|z l IH]; simpl; [set_solver|]. intros Hc Hx Hy Px Py.
  assert (Hz : forall w, w ∈ l -> p w = true -> (0 < countb p l)%nat).
  { clear. intros w Hw Pw. apply list_elem_of_split in Hw as (l1 & l2 & ->).
    rewrite countb_app. simpl. rewrite Pw. lia. }
  apply elem_of_cons in Hx as [->|Hx]; apply elem_of_cons in Hy as [->|Hy]; auto;
    [rewrite Px in Hc; specialize (Hz _ Hy Py)|rewrite Py in Hc; specialize (Hz _ Hx Px)
    |specialize (Hz _ Hx Px); destruct (p z); [lia|auto]]; lia.
Qed.

Lemma countb_find {A} (p : A -> bool) l :
  (0 < countb p l)%nat -> exists x, List.find p l = Some x /\ x ∈ l /\ p x = true.
Proof.
  induction l as [|x l IH]; simpl; [lia|]. destruct (p x) eqn:E; [set_solver|].
  intros H. destruct (IH H) as (y & ? & ? & ?). exists y. set_solver.
Qed.

Lemma hostForBucket_owned m b h :
  well_formed m -> 0 <= b < EXPECTED_BUCKETS ->
  hostForBucket m b = Some h <-> b ∈ ownedBuckets m h.
Proof.
  intros (_ & _ & Hc) Hb. specialize (Hc b Hb). unfold hostForBucket.
  replace ((b <? 0) || (EXPECTED_BUCKETS <=? b))%bool with false by lia.
  destruct (countb_find (covers b) (ranges m)) as (r & Hf & Hin & Hr); [lia|].
  rewrite Hf, elem_of_ownedBuckets. simpl. split.
  - intros [= <-]. eauto.
  - intros (r' & Hin' & <- & Hr'). by rewrite (countb_one_unique _ _ _ _ Hc Hin Hin' Hr Hr').
Qed.

(** ** Properties *)

(** C13: validation accepts a map exactly when its version is not negative,
    every range is in bounds with a bare-authority host, and every bucket of
    the ring lies in exactly one range: sorting and walking decides the
    partition, whatever order the ranges are listed in. *)
Theorem validateShardMap_iff_partition (m : shard_map) :
  validateShardMap m = Ok tt <->
  0 <= version m
  /\ (forall r, r ∈ ranges m ->
        isBareAuthority (host r) = true /\ 0 <= low r <= high r /\ high r < EXPECTED_BUCKETS)
  /\ (forall b, 0 <= b < EXPECTED_BUCKETS ->
        length (List.filter (covers b) (ranges m)) = 1%nat).
Proof.
  rewrite validate_well_formed. unfold well_formed, valid_range. rewrite Forall_forall.
  enough (Hc : forall b, countb (covers b) (ranges m) = length (List.filter (covers b) (ranges m)))
    by (by setoid_rewrite Hc).
  intros b. induction (ranges m) as [|r l IH]; simpl; [done|]. rewrite IH. by destruct (covers b r).
Qed.

(** Under a validated map every bucket of the ring has exactly one owner:
    lookup finds a host, and a box owns the bucket exactly when it is that
    host, so two boxes holding the same map never both own a bucket. *)
Theorem bucket_owned_by_exactly_one_host (m : shard_map) (b : Z)
  (Hm : validateShardMap m = Ok tt) (Hb : 0 <= b < EXPECTED_BUCKETS) :
  exists h, hostForBucket m b = Some h /\
    forall h', b ∈ ownedBuckets m h' <-> h' = h.
Proof.
  apply validate_well_formed in Hm. pose proof Hm as (Hv & Hr & Hc).
  destruct (countb_find (covers b) (ranges m)) as (r & Hf & Hin & Hcov);
    [specialize (Hc b Hb); lia|].
  assert (Hlookup : hostForBucket m b = Some (host r)).
  { unfold hostForBucket. rewrite Hf.
    by replace ((b <? 0) || (EXPECTED_BUCKETS <=? b))%bool with false by lia. }
  exists (host r). split; [done|]. intros h'.
  rewrite <-(hostForBucket_owned m b h' Hm Hb), Hlookup. naive_solver.
Qed.

Lemma bucket_owned_by_exactly_one_host_witness :
  validateShardMap two_hosts = Ok tt /\ 0 <= 32768 < EXPECTED_BUCKETS /\
  exists h, hostForBucket two_hosts 32768 = Some h /\
    forall h', 32768 ∈ ownedBuckets two_hosts h' <-> h' = h.
Proof.
  assert (Hv : validateShardMap two_hosts = Ok tt) by (vm_compute; reflexivity).
  assert (Hb : 0 <= 32768 < EXPECTED_BUCKETS) by (vm_compute; split; congruence).
  split; [exact Hv|]. split; [exact Hb|].
  apply (bucket_owned_by_exactly_one_host two_hosts 32768 Hv Hb).
Defined.
