(* ===== verification/ShardStore.v ===== *)
(** The shard-map state a relay holds and the poller that feeds it
    ([src/sharding/shardMapStore.js], [src/sharding/shardMapPoller.js]), with
    the abstract specification they implement: keep the newest valid map ever
    fetched, and own exactly its buckets. *)

From S2P Require Import Prelude Json ShardMap.

(** ** The store *)

Record store := Store { selfHost : string; held : option shard_map; owned : gset Z }.

Definition new_store (self : string) : store := Store self None ∅.

Definition store_version (s : store) : Z := match held s with Some m => version m | None => -1 end.
Definition hasMap (s : store) : bool := match held s with Some _ => true | None => false end.
Definition ownedCount (s : store) : nat := size (owned s).
Definition ownsBucket (s : store) (b : Z) : bool := bool_decide (b ∈ owned s).

Record adoption := Adoption { adopted : bool; diff : owned_diff }.

Definition EMPTY_DIFF : adoption := Adoption false (OwnedDiff ∅ ∅).

Definition applyFetched (s : store) (validatedMap : shard_map) : adoption * store :=
  let adopt :=
    let newOwned := ownedBuckets validatedMap (selfHost s) in
    (Adoption true (diffOwned (owned s) newOwned), Store (selfHost s) (Some validatedMap) newOwned) in
  match held s with
  | Some m => if version validatedMap <=? version m then (EMPTY_DIFF, s) else adopt
  | None => adopt
  end.

Definition applyFetchError (s : store) : store := s.

(** ** The poller: one fetch step *)

Inductive stage : Type := fetch_stage | parse_stage.

(** What [fetchOnce] resolves to. *)
Inductive poll_result : Type :=
| PollOk (adopted : bool) (diff : owned_diff) (version : Z)
| PollFailed (at_ : stage) (error : string + map_error).

(** The callbacks it fires, in order. *)
Inductive poll_event : Type :=
| OnAdopt (m : shard_map) (d : owned_diff)
| OnOk (adopted : bool) (version : Z)
| OnError (at_ : stage)
| Log (line : string).

(** [fetched] is what [fetchText(url)] resolved to, or the error it threw. *)
Definition fetchOnce (s : store) (fetched : result string string)
    : poll_result * list poll_event * store :=
  match fetched with
  | Err e =>
      (PollFailed fetch_stage (inl e),
       [Log ("shardmap fetch failed: " +:+ e); OnError fetch_stage], applyFetchError s)
  | Ok text =>
      match (let! m := parseShardMap text in let! _ := validateShardMap m in Ok m)%res with
      | Err e =>
          (PollFailed parse_stage (inr e),
           [Log "shardmap invalid"; OnError parse_stage], applyFetchError s)
      | Ok m =>
          let '(a, s') := applyFetched s m in
          (PollOk (adopted a) (diff a) (version m),
           (if adopted a then [OnAdopt m (diff a)] else []) ++ [OnOk (adopted a) (version m)], s')
      end
  end.

Definition poll (s : store) (fetched : result string string) : store := snd (fetchOnce s fetched).
Definition poll_all (s : store) (l : list (result string string)) : store := fold_left poll l s.

(** The interval timer of [start] and [stop]. *)
Definition stop (timer : option Z) : option Z := match timer with Some _ => None | None => None end.
Definition start (timer : option Z) (intervalMs : Z) : option Z :=
  match stop timer with Some t => Some t | None => Some intervalMs end.

(** ** Specification *)

(** The valid map a fetch yields. *)
Definition fetched_map (fetched : result string string) : option shard_map :=
  match fetched with
  | Ok text =>
      match parseShardMap text with
      | Ok m => match validateShardMap m with Ok _ => Some m | Err _ => None end
      | Err _ => None
      end
  | Err _ => None
  end.

(** The first of the maps with the greatest version. *)
Fixpoint newest (l : list shard_map) : option shard_map :=
  match l with
  | [] => None
  | m :: l' =>
      match newest l' with
      | Some m' => if version m <? version m' then Some m' else Some m
      | None => Some m
      end
  end.

(** The buckets a box holding that map owns. *)
Definition spec_owned (self : string) (m : option shard_map) : gset Z :=
  match m with Some m => ownedBuckets m self | None => ∅ end.

(** A store implements the specification of its history. *)
Record implements (self : string) (history : list shard_map) (s : store) : Prop := {
  impl_self : selfHost s = self;
  impl_held : held s = newest history;
  impl_owned : owned s = spec_owned self (newest history);
}.

(** ** Lemmas *)

Lemma newest_snoc l m :
  newest (l ++ [m]) =
  match newest l with
  | Some m' => if version m <=? version m' then Some m' else Some m
  | None => Some m
  end.
Proof.
  induction l as [|x l IH]; simpl; [done|]. rewrite IH.
  destruct (newest l) as [y|];
    repeat match goal with
    | |- context [Z.leb ?a ?b] => destruct (Z.leb_spec a b)
    | |- context [Z.ltb ?a ?b] => destruct (Z.ltb_spec a b)
    end; try done; lia.
Qed.

Lemma newest_max l m : newest l = Some m -> m ∈ l /\ Forall (fun m' => version m' <= version m) l.
Proof.
  revert m. induction l as [|x l IH]; simpl; intros m H; [done|].
  destruct (newest l) as [y|] eqn:E.
  - destruct (IH y eq_refl) as [Hin Hmax].
    destruct (Z.ltb_spec (version x) (version y)); injection H as <-.
    + split; [set_solver|]. constructor; [lia|done].
    + split; [set_solver|]. constructor; [lia|]. eapply Forall_impl; [exact Hmax|]. simpl. lia.
  - injection H as <-. destruct l as [|z l]; [by repeat constructor|].
    simpl in E. destruct (newest l); [by destruct (_ <? _)|done].
Qed.

Lemma applyFetched_implements self h s m :
  implements self h s -> implements self (h ++ [m]) (snd (applyFetched s m)).
Proof.
  intros [Hself Hheld Howned]. unfold applyFetched. rewrite Hheld.
  destruct (newest h) as [m'|] eqn:Hn.
  - destruct (version m <=? version m') eqn:E; simpl;
      constructor; simpl; rewrite ?newest_snoc, ?Hn, ?E, ?Hself, ?Hheld; done.
  - constructor; simpl; rewrite ?newest_snoc, ?Hn, ?Hself; done.
Qed.

Lemma poll_fetched s f :
  poll s f = match fetched_map f with Some m => snd (applyFetched s m) | None => s end.
Proof.
  unfold poll, fetchOnce, fetched_map. destruct f as [text|e]; [|done].
  destruct (parseShardMap text) as [m|e]; simpl; [|done].
  destruct (validateShardMap m) as [[]|e]; simpl; [|done].
  by destruct (applyFetched s m).
Qed.

Lemma poll_implements self h s f :
  implements self h s ->
  implements self (h ++ match fetched_map f with Some m => [m] | None => [] end) (poll s f).
Proof.
  intros H. rewrite poll_fetched. destruct (fetched_map f); [by apply applyFetched_implements|].
  by rewrite app_nil_r.
Qed.

Lemma poll_all_implements self h s l :
  implements self h s -> implements self (h ++ omap fetched_map l) (poll_all s l).
Proof.
  revert h s. induction l as [|f l IH]; simpl; intros h s H; [by rewrite app_nil_r|].
  apply (poll_implements _ _ _ f) in H. apply IH in H.
  destruct (fetched_map f); simpl in *; by rewrite <-app_assoc in H.
Qed.

Lemma new_store_implements self : implements self [] (new_store self).
Proof. by constructor. Qed.

Lemma applyFetched_version s m :
  store_version s <= store_version (snd (applyFetched s m)) \/ held s = None.
Proof.
  unfold applyFetched, store_version. destruct (held s) as [m'|] eqn:E; [left|by right].
  destruct (Z.leb_spec (version m) (version m')); simpl; rewrite ?E; lia.
Qed.

Lemma diffOwned_exact (o n : gset Z) :
  n = (o ∖ relinquished (diffOwned o n)) ∪ acquired (diffOwned o n)
  /\ acquired (diffOwned o n) ## o /\ relinquished (diffOwned o n) ## n
  /\ relinquished (diffOwned o n) ⊆ o /\ acquired (diffOwned o n) ⊆ n.
Proof.
  split_and!; [apply leibniz_equiv| | | |]; intros b;
    rewrite ?elem_of_union, ?elem_of_difference, ?elem_of_acquired, ?elem_of_relinquished;
    destruct (decide (b ∈ o)), (decide (b ∈ n)); tauto.
Qed.

(** ** Properties *)

(** C14: refinement of the store and poller against their contract: after any
    sequence of fetches, good, malformed, invalid or failed, the relay holds
    the first of the valid maps with the greatest version and owns exactly the
    buckets that map gives it; fetch failures and stale or repeated versions
    change nothing. *)
Theorem poller_keeps_newest_valid_map (self : string) (l : list (result string string)) :
  let s := poll_all (new_store self) l in
  held s = newest (omap fetched_map l)
  /\ owned s = spec_owned self (newest (omap fetched_map l))
  /\ (forall m, m ∈ omap fetched_map l -> version m <= store_version s)
  /\ (forall f, fetched_map f = None -> poll s f = s).
Proof.
  intros s. destruct (poll_all_implements self [] (new_store self) l (new_store_implements self))
    as [_ Hheld Howned]. split_and!; [done|done| |].
  - intros m Hm. unfold store_version, s. rewrite Hheld. simpl.
    destruct (newest (omap fetched_map l)) as [m'|] eqn:E.
    + apply newest_max in E as [_ Hmax]. rewrite Forall_forall in Hmax. by apply Hmax.
    + destruct (omap fetched_map l) as [|x k]; [set_solver|]. simpl in E.
      destruct (newest k); [by destruct (_ <? _)|done].
  - intros f Hf. by rewrite poll_fetched, Hf.
Qed.

(** An adoption's difference is exact: applying it to the buckets owned
    before gives the buckets owned after, nothing acquired was owned, nothing
    relinquished stays owned; a map that is not adopted changes no bucket. *)
Theorem adoption_diff_exact (s : store) (m : shard_map) :
  let '(a, s') := applyFetched s m in
  owned s' = (owned s ∖ relinquished (diff a)) ∪ acquired (diff a)
  /\ acquired (diff a) ## owned s /\ relinquished (diff a) ## owned s'
  /\ relinquished (diff a) ⊆ owned s /\ acquired (diff a) ⊆ owned s'
  /\ (adopted a = true <-> hasMap s = false \/ store_version s < version m)
  /\ (if adopted a then held s' = Some m /\ store_version s' = version m
      else s' = s /\ acquired (diff a) = ∅ /\ relinquished (diff a) = ∅).
Proof.
  unfold applyFetched, hasMap, store_version. generalize (ownedBuckets m (selfHost s)). intros n.
  destruct (diffOwned_exact (owned s) n) as (H1 & H2 & H3 & H4 & H5).
  destruct (held s) as [h|] eqn:E; [destruct (Z.leb_spec (version m) (version h))|].
  - unfold EMPTY_DIFF. cbn [adopted diff owned held acquired relinquished].
    refine (conj _ (conj _ (conj _ (conj _ (conj _ (conj _ (conj _ (conj _ _)))))))); try reflexivity;
      try (clear; set_solver).
    split; [done|]. intros [?|?]; [done|lia].
  - cbn [adopted diff owned held selfHost]. refine (conj H1 (conj H2 (conj H3 (conj H4 (conj H5 (conj _ (conj _ _))))))); try reflexivity.
    split; [intros _; by right|reflexivity].
  - cbn [adopted diff owned held selfHost]. refine (conj H1 (conj H2 (conj H3 (conj H4 (conj H5 (conj _ (conj _ _))))))); try reflexivity.
    split; [intros _; by left|reflexivity].
Qed.
