(* ===== verification/Drain.v ===== *)
(** The drain scheduler ([src/sharding/drainScheduler.js]): gradual, deferred
    and rate-limited eviction of the live rooms of relinquished buckets.

    The live rooms and the eviction callback are an interface, [Rooms], which
    the runtime implements (file Runtime).  Tokens are exact rationals; the
    code's doubles round them. *)

From Stdlib Require Import QArith Lqa.
From S2P Require Import Prelude.

#[local] Open Scope Z_scope.

(** ** The host's rooms, as the scheduler sees them *)

Class Rooms (W : Type) := {
  liveRooms : W -> Z -> list string;
  evict : W -> string -> W;
}.

(** Every room the host lists for a bucket hashes into that bucket. *)
Class RoomsLaws (W : Type) `{Rooms W} (bucket_of : string -> Z) : Prop :=
  liveRooms_bucket : forall w b id, id ∈ liveRooms w b -> bucket_of id = b.

(** ** State *)

Record episode := Episode { deadline : Z; evicted : gset string }.

Record scheduler := Scheduler {
  drainDelayMs : Z;
  rate : Q;
  draining : list (Z * episode);
  tokens : Q;
  lastRunMs : Z;
}.

Definition Qmin' (x y : Q) : Q := if Qle_bool x y then x else y.

(** [Math.max(1, evictionRatePerSec)] *)
Definition cap (rate : Q) : Q := if Qle_bool rate 1 then 1%Q else rate.

Definition new_scheduler (drainDelayMs : Z) (rate : Q) (now : Z) : scheduler :=
  Scheduler drainDelayMs rate [] 0 now.

(** ** Operations *)

(** [Map.set]: a present key keeps its place. *)
Fixpoint map_set (b : Z) (e : episode) (l : list (Z * episode)) : list (Z * episode) :=
  match l with
  | [] => [(b, e)]
  | (b', e') :: l' => if b =? b' then (b, e) :: l' else (b', e') :: map_set b e l'
  end.

Definition map_delete (b : Z) (l : list (Z * episode)) : list (Z * episode) :=
  filter (fun p => p.1 <> b) l.

Definition relinquish (s : scheduler) (now bucket : Z) : scheduler :=
  Scheduler (drainDelayMs s) (rate s)
    (map_set bucket (Episode (now + drainDelayMs s) ∅) (draining s)) (tokens s) (lastRunMs s).

Definition reacquire (s : scheduler) (bucket : Z) : scheduler :=
  Scheduler (drainDelayMs s) (rate s) (map_delete bucket (draining s)) (tokens s) (lastRunMs s).

Section Run.
Context {W : Type} `{Rooms W}.

(** What a pass carries along: the world, the tokens left and the rooms
    evicted so far. *)
Record pass := Pass { world : W; left : Q; out : list string }.

(** The rooms of one bucket: whether the tokens ran out, and the episode's
    evicted set. *)
Fixpoint drain_rooms (p : pass) (done_ : gset string) (ids : list string)
    : bool * gset string * pass :=
  match ids with
  | [] => (false, done_, p)
  | id :: ids' =>
      if bool_decide (id ∈ done_) then drain_rooms p done_ ids'
      else if negb (Qle_bool 1 (left p)) then (true, done_, p)
      else drain_rooms (Pass (evict (world p) id) (left p - 1) (out p ++ [id]))
             ({[id]} ∪ done_) ids'
  end.

Fixpoint drain_buckets (t : Z) (p : pass) (l : list (Z * episode))
    : list (Z * episode) * pass :=
  match l with
  | [] => ([], p)
  | (b, ep) :: l' =>
      if t <? deadline ep then
        let '(r, p') := drain_buckets t p l' in ((b, ep) :: r, p')
      else
        let '(starved, done_, p') := drain_rooms p (evicted ep) (liveRooms (world p) b) in
        if starved then ((b, Episode (deadline ep) done_) :: l', p')
        else drain_buckets t p' l'
  end.

(** The tokens at the start of a pass. *)
Definition accrue (s : scheduler) (t : Z) : Q :=
  Qmin' (cap (rate s)) (tokens s + inject_Z (t - lastRunMs s) * rate s / 1000).

Definition run (s : scheduler) (t : Z) (w : W) : list string * W * scheduler :=
  let '(d, p) := drain_buckets t (Pass w (accrue s t) []) (draining s) in
  (out p, world p, Scheduler (drainDelayMs s) (rate s) d (left p) t).
End Run.
Arguments pass : clear implicits.

Definition drainingBuckets (s : scheduler) : list Z := map fst (draining s).
Definition drainingCount (s : scheduler) : nat := length (draining s).

(** ** Histories *)

Inductive op (W : Type) : Type :=
| Relinquish (bucket : Z)
| Reacquire (bucket : Z)
| Run (w : W).
Arguments Relinquish {W} _.
Arguments Reacquire {W} _.
Arguments Run {W} _.

(** What happened, with the time and, for a pass, the rooms evicted. *)
Inductive entry : Type :=
| HRelinquish (t bucket : Z)
| HReacquire (t bucket : Z)
| HRun (t : Z) (rooms : list string).

Definition entry_time (e : entry) : Z :=
  match e with HRelinquish t _ | HReacquire t _ | HRun t _ => t end.

Definition sched_step {W} `{Rooms W} (s : scheduler) (t : Z) (o : op W) : entry * scheduler :=
  match o with
  | Relinquish b => (HRelinquish t b, relinquish s t b)
  | Reacquire b => (HReacquire t b, reacquire s b)
  | Run w => let '(ids, _, s') := run s t w in (HRun t ids, s')
  end.

Fixpoint sched_run {W} `{Rooms W} (s : scheduler) (ops : list (Z * op W)) : list entry * scheduler :=
  match ops with
  | [] => ([], s)
  | (t, o) :: ops' =>
      let '(e, s1) := sched_step s t o in
      let '(h, s2) := sched_run s1 ops' in (e :: h, s2)
  end.

(** The entry starts, restarts or cancels the bucket's episode. *)
Definition touches (b : Z) (e : entry) : bool :=
  match e with
  | HRelinquish _ b' | HReacquire _ b' => b =? b'
  | HRun _ _ => false
  end.

Definition evicts (id : string) (e : entry) : bool :=
  match e with HRun _ ids => bool_decide (id ∈ ids) | _ => false end.

Definition evictions (h : list entry) : nat :=
  list_sum (map (fun e => match e with HRun _ ids => length ids | _ => 0%nat end) h).

(** A static world, for tests: the rooms of each bucket, evictions recorded. *)
Record toy_world := ToyWorld { toy_live : list (Z * string); toy_gone : list string }.
#[global] Instance toy_rooms : Rooms toy_world := {|
  liveRooms w b := map snd (filter (fun p => p.1 = b) (toy_live w));
  evict w id := ToyWorld (toy_live w) (id :: toy_gone w) |}.

Example run_ex :
  let w := ToyWorld [(7, "a"); (7, "b"); (9, "c")] [] in
  fst (sched_run (new_scheduler 20000 (1#2) 0)
    [(0, Relinquish 7); (10000, Relinquish 9); (19999, Run w); (20000, Run w); (21000, Run w);
     (22000, Run w); (24000, Run w); (31000, Run w)])
  = [HRelinquish 0 7; HRelinquish 10000 9; HRun 19999 []; HRun 20000 ["a"]; HRun 21000 [];
     HRun 22000 ["b"]; HRun 24000 []; HRun 31000 ["c"]].
Proof. vm_compute. reflexivity. Qed.

(** ** Lemmas *)

Lemma Qmin'_spec x y : (Qmin' x y <= x)%Q /\ (Qmin' x y <= y)%Q /\ (Qmin' x y = x \/ Qmin' x y = y).
Proof.
  unfold Qmin'. destruct (Qle_bool x y) eqn:E.
  - apply Qle_bool_iff in E. split_and!; [lra|lra|by left].
  - assert (~ (x <= y)%Q) by (rewrite <-Qle_bool_iff, E; done). split_and!; [lra|lra|by right].
Qed.

Lemma cap_spec r : (1 <= cap r)%Q /\ (r <= cap r)%Q.
Proof.
  unfold cap. destruct (Qle_bool r 1) eqn:E.
  - apply Qle_bool_iff in E. split; lra.
  - assert (~ (r <= 1)%Q) by (rewrite <-Qle_bool_iff, E; done). split; lra.
Qed.

Lemma inject_succ n : (inject_Z (Z.of_nat (S n)) == inject_Z (Z.of_nat n) + 1)%Q.
Proof. rewrite Nat2Z.inj_succ, <-Z.add_1_r, inject_Z_plus. reflexivity. Qed.

Lemma elem_of_map_set b e l p :
  p ∈ map_set b e l -> p = (b, e) \/ (p ∈ l /\ p.1 <> b) \/ (p ∈ l /\ exists e', (b, e') ∈ l).
Proof.
  induction l as [|[b' e'] l IH]; simpl; [set_solver|].
  destruct (Z.eqb_spec b b') as [->|Hb]; set_unfold.
  - intros [->|Hp]; [by left|]. right; right. eauto.
  - intros [->|Hp]; [by right; left; auto|]. naive_solver.
Qed.

Lemma map_set_keys b e l :
  NoDup (map fst l) ->
  NoDup (map fst (map_set b e l))
  /\ (forall p, p ∈ map_set b e l -> p = (b, e) \/ (p ∈ l /\ p.1 <> b)).
Proof.
  induction l as [|[b' e'] l IH]; simpl; intros Hnd.
  - split; [apply NoDup_singleton|set_solver].
  - apply NoDup_cons in Hnd as [Hni Hnd]. destruct (IH Hnd) as [IH1 IH2]. clear IH.
    destruct (Z.eqb_spec b b') as [->|Hb]; simpl.
    + split; [by constructor|]. intros p Hp. rewrite elem_of_cons in Hp. destruct Hp as [->|Hp]; [by left|].
      right. split; [by right|]. intros Heq. apply Hni, list_elem_of_fmap. by exists p.
    + split.
      * constructor; [|done]. rewrite list_elem_of_fmap. intros (p & Hp & Hin).
        apply IH2 in Hin as [->|[Hin ?]]; simpl in *; [done|].
        apply Hni. apply list_elem_of_fmap. eauto.
      * intros p Hp. rewrite elem_of_cons in Hp. destruct Hp as [->|Hp]; [right; split; [by left|simpl; congruence]|].
        apply IH2 in Hp as [->|[Hp ?]]; [by left|]. right. split; [by right|done].
Qed.

Lemma map_delete_keys b l :
  NoDup (map fst l) -> NoDup (map fst (map_delete b l)).
Proof.
  unfold map_delete. induction l as [|[b' e'] l IH]; simpl; intros Hnd; [constructor|].
  apply NoDup_cons in Hnd as [Hni Hnd]. rewrite filter_cons. simpl. case_decide; simpl; [|auto].
  constructor; [|auto]. rewrite list_elem_of_fmap. intros (p & Hp & Hin).
  apply list_elem_of_filter in Hin as [_ Hin]. apply Hni. apply list_elem_of_fmap. eauto.
Qed.

Section RunFacts.
Context {W : Type} `{Rooms W}.

(** What a pass over one bucket's rooms does. *)
Lemma drain_rooms_spec ids : forall (p : pass W) d st d' p',
  drain_rooms p d ids = (st, d', p') ->
  exists new, out p' = out p ++ new /\ NoDup new /\ (forall x, x ∈ new -> x ∈ ids /\ x ∉ d)
    /\ d' = list_to_set new ∪ d
    /\ (left p' == left p - inject_Z (Z.of_nat (length new)))%Q
    /\ ((0 <= left p)%Q -> (0 <= left p')%Q)
    /\ (if st then (left p' < 1)%Q else forall x, x ∈ ids -> x ∈ d').
Proof.
  induction ids as [|id ids IH]; simpl; intros p d st d' p' E.
  - injection E as <- <- <-. exists []. simpl. split_and!; try done;
      [by rewrite app_nil_r|apply NoDup_nil_2|set_solver|set_solver|ring|set_solver].
  - case_bool_decide as Hid.
    + apply IH in E as (new & ? & ? & Hn & -> & ? & ? & Hst). exists new.
      split_and!; try done; [set_solver|]. destruct st; [done|set_solver].
    + destruct (Qle_bool 1 (left p)) eqn:Hl; simpl in E.
      * apply Qle_bool_iff in Hl.
        apply IH in E as (new & Hout & Hnd & Hn & -> & Hleft & Hpos & Hst). simpl in *.
        exists (id :: new). rewrite <-app_assoc in Hout. split_and!; try done.
        -- constructor; [|done]. intros Hin. apply Hn in Hin. set_solver.
        -- intros x Hx. rewrite elem_of_cons in Hx. destruct Hx as [->|Hx]; [set_solver|].
           apply Hn in Hx as [? Hx]. set_solver.
        -- set_solver.
        -- rewrite length_cons, inject_succ, Hleft. ring.
        -- intros. apply Hpos. lra.
        -- destruct st; [done|]. set_solver.
      * injection E as <- <- <-.
        assert (~ (1 <= left p)%Q) by (rewrite <-Qle_bool_iff, Hl; done).
        exists []. simpl. split_and!; try done;
          [by rewrite app_nil_r|apply NoDup_nil_2|set_solver|set_solver|ring|lra].
Qed.

Lemma drain_buckets_tokens t l : forall (p : pass W) r p',
  drain_buckets t p l = (r, p') ->
  exists new, out p' = out p ++ new
    /\ (left p' == left p - inject_Z (Z.of_nat (length new)))%Q
    /\ ((0 <= left p)%Q -> (0 <= left p')%Q).
Proof.
  induction l as [|[b ep] l IH]; simpl; intros p r p' E.
  - injection E as <- <-. exists []. simpl. split_and!; [by rewrite app_nil_r|ring|done].
  - destruct (t <? deadline ep).
    + destruct (drain_buckets t p l) as [r' p1] eqn:E1. injection E as <- <-. eauto.
    + destruct (drain_rooms p (evicted ep) (liveRooms (world p) b)) as [[st d'] p1] eqn:Er.
      apply drain_rooms_spec in Er as (n1 & Ho & _ & _ & _ & Hl & Hp & _).
      destruct st; [injection E as <- <-; eauto|].
      apply IH in E as (n2 & Ho2 & Hl2 & Hp2). exists (n1 ++ n2).
      rewrite Ho2, Ho, app_assoc. split_and!; [done| |auto].
      rewrite length_app, Nat2Z.inj_add, inject_Z_plus, Hl2, Hl. ring.
Qed.

(** A pass keeps a subset of the episodes, each with its deadline. *)
Lemma drain_buckets_keys t l : forall (p : pass W) r p',
  drain_buckets t p l = (r, p') ->
  sublist (map fst r) (map fst l)
  /\ forall b ep', (b, ep') ∈ r -> exists ep, (b, ep) ∈ l /\ deadline ep' = deadline ep.
Proof.
  induction l as [|[b ep] l IH]; simpl; intros p r p' E.
  - injection E as <- <-. split; [done|set_solver].
  - destruct (t <? deadline ep).
    + destruct (drain_buckets t p l) as [r' p1] eqn:E1. injection E as <- <-.
      apply IH in E1 as [IH1 IH2]. split; [by constructor|]. intros b' ep' Hin. rewrite elem_of_cons in Hin.
      destruct Hin as [[= -> ->]|Hin]; [by exists ep; split; [left|]|]. apply IH2 in Hin as (e & ? & ?). exists e. split; [by right|done].
    + destruct (drain_rooms p (evicted ep) (liveRooms (world p) b)) as [[st d'] p1].
      destruct st.
      * injection E as <- <-. split; [by constructor|]. intros b' ep' Hin. rewrite elem_of_cons in Hin.
        destruct Hin as [[= -> ->]|Hin]; [by exists ep; split; [left|]|]. exists ep'. split; [by right|done].
      * apply IH in E as [IH1 IH2]. split; [by constructor|].
        intros b' ep' Hin. apply IH2 in Hin as (e & ? & ?). exists e. split; [by right|done].
Qed.

(** *** Rooms that stay evicted

    Where evicting a room takes exactly that room off the lists, a pass leaves no
    room behind without an episode that still owes its eviction. *)

Section Exact.
Context (P : W -> Prop).
Context (HP : forall w id, P w -> P (evict w id)).
Context (Hgone : forall w id b id', P w -> id' ∈ liveRooms (evict w id) b <-> id' ∈ liveRooms w b /\ id' <> id).

Lemma drain_rooms_live ids : forall (p : pass W) d st d' p',
  P (world p) -> drain_rooms p d ids = (st, d', p') ->
  exists new, out p' = out p ++ new /\ P (world p') /\ d' = list_to_set new ∪ d
    /\ (forall x, x ∈ new -> x ∈ ids)
    /\ (forall b x, x ∈ liveRooms (world p') b <-> x ∈ liveRooms (world p) b /\ x ∉ new)
    /\ (st = false -> forall x, x ∈ ids -> x ∈ d')
    /\ ((1 <= left p)%Q -> new <> [] \/ (st = false /\ (1 <= left p')%Q)).
Proof using HP Hgone.
  induction ids as [|id ids IH]; simpl; intros p d st d' p' Hw E.
  - injection E as <- <- <-. exists []. rewrite app_nil_r. split_and!; try done; set_solver.
  - case_bool_decide as Hid.
    + apply IH in E as (new & -> & Hw' & -> & Hin & Hlive & Hall & Hmore); [|done]. exists new.
      split_and!; try done; [set_solver|]. intros Hst x Hx. apply elem_of_cons in Hx as [->|Hx]; [set_solver|by apply Hall].
    + destruct (Qle_bool 1 (left p)) eqn:Hl; simpl in E.
      * apply IH in E as (new & Hout & Hw' & -> & Hin & Hlive & Hall & _); [|by apply HP]. simpl in *.
        exists (id :: new). rewrite Hout, <-app_assoc. split_and!; try done; [set_solver|set_solver| | |by left].
        -- intros b x. rewrite Hlive, (Hgone _ _ _ _ Hw). set_solver.
        -- intros Hst x Hx. apply elem_of_cons in Hx as [->|Hx]; [set_solver|]. specialize (Hall Hst x Hx). set_solver.
      * injection E as <- <- <-. exists []. rewrite app_nil_r. split_and!; try done; [set_solver|set_solver|set_solver|].
        intros H1. apply Qle_bool_iff in H1. congruence.
Qed.

Lemma drain_buckets_live t l : forall (p : pass W) r p',
  P (world p) -> drain_buckets t p l = (r, p') ->
  exists new, out p' = out p ++ new /\ P (world p')
    /\ (forall x, x ∈ new -> exists b ep, (b, ep) ∈ l /\ deadline ep <= t /\ x ∈ liveRooms (world p) b)
    /\ (forall b x, x ∈ liveRooms (world p') b <-> x ∈ liveRooms (world p) b /\ x ∉ new)
    /\ (forall b ep x, (b, ep) ∈ l -> x ∈ liveRooms (world p') b -> x ∉ evicted ep -> exists ep', (b, ep') ∈ r /\ x ∉ evicted ep')
    /\ ((1 <= left p)%Q -> new <> [] \/ Forall (fun x => t < deadline x.2) r).
Proof using HP Hgone.
  induction l as [|[b ep] l IH]; simpl; intros p r p' Hw E.
  - injection E as <- <-. exists []. rewrite app_nil_r. split_and!; try done; [set_solver|set_solver|set_solver|by right].
  - destruct (Z.ltb_spec t (deadline ep)) as [Hlt|Hge].
    + destruct (drain_buckets t p l) as [r' p1] eqn:E1. injection E as <- <-.
      destruct (IH _ _ _ Hw E1) as (new & Ho & Hw' & Hin & Hlive & Hkeep & Hmore). exists new. split_and!; try done.
      * intros x (b' & ep' & H1 & H2)%Hin. exists b', ep'. split; [by right|done].
      * intros b' e' x Hb Hx Hne. apply elem_of_cons in Hb as [[= -> ->]|Hb]; [exists ep; split; [by left|done]|].
        destruct (Hkeep _ _ _ Hb Hx Hne) as (e & ? & ?). exists e. split; [by right|done].
      * intros H1. destruct (Hmore H1); [by left|right; by constructor].
    + destruct (drain_rooms p (evicted ep) (liveRooms (world p) b)) as [[st d'] p1] eqn:Er.
      destruct (drain_rooms_live _ _ _ _ _ _ Hw Er) as (n1 & Ho1 & Hw1 & -> & Hin1 & Hlive1 & Hall1 & Hmore1). destruct st.
      * injection E as <- <-. exists n1. split_and!; try done.
        -- intros x Hx. exists b, ep. split_and!; [by left|done|by apply Hin1].
        -- intros b' e' x Hb Hx Hne. apply elem_of_cons in Hb as [[= -> ->]|Hb].
           ++ exists (Episode (deadline ep) (list_to_set n1 ∪ evicted ep)). split; [by left|]. apply Hlive1 in Hx. set_solver.
           ++ exists e'. split; [by right|done].
        -- intros H1. destruct (Hmore1 H1) as [?|[? _]]; [by left|done].
      * destruct (IH _ _ _ Hw1 E) as (n2 & Ho2 & Hw2 & Hin2 & Hlive2 & Hkeep2 & Hmore2). exists (n1 ++ n2).
        split_and!; try done.
        -- by rewrite Ho2, Ho1, app_assoc.
        -- intros x Hx. apply elem_of_app in Hx as [Hx|Hx].
           ++ exists b, ep. split_and!; [by left|done|by apply Hin1].
           ++ destruct (Hin2 x Hx) as (b' & e' & ? & ? & Hl%Hlive1). exists b', e'. split_and!; [by right|done|by apply Hl].
        -- intros b' x. rewrite Hlive2, Hlive1. set_solver.
        -- intros b' e' x Hb Hx Hne. apply elem_of_cons in Hb as [[= -> ->]|Hb]; [|by apply (Hkeep2 b' e' x)].
           exfalso. apply Hlive2 in Hx as [Hx _]. apply Hlive1 in Hx as [Hx Hn1].
           specialize (Hall1 eq_refl x Hx). set_solver.
        -- intros H1. destruct (Hmore1 H1) as [Hne|[_ Hl1]]; [left; by destruct n1|].
           destruct (Hmore2 Hl1) as [Hne|?]; [left; by destruct n1|by right].
Qed.
End Exact.

Section Buckets.
Context (bucket_of : string -> Z) `{!RoomsLaws W bucket_of}.

Lemma drain_buckets_safe t l : forall (p : pass W) r p',
  NoDup (map fst l) ->
  drain_buckets t p l = (r, p') ->
  exists new, out p' = out p ++ new /\ NoDup new
    /\ (forall id, id ∈ new -> exists ep, (bucket_of id, ep) ∈ l /\ deadline ep <= t /\ id ∉ evicted ep)
    /\ (forall b ep', (b, ep') ∈ r -> exists ep, (b, ep) ∈ l /\ deadline ep' = deadline ep
          /\ evicted ep ⊆ evicted ep'
          /\ forall id, id ∈ new -> bucket_of id = b -> id ∈ evicted ep').
Proof.
  induction l as [|[b ep] l IH]; simpl; intros p r p' Hnd E.
  - injection E as <- <-. exists []. split_and!; [by rewrite app_nil_r|apply NoDup_nil_2|by intros ? ?%not_elem_of_nil|by intros ? ? ?%not_elem_of_nil].
  - apply NoDup_cons in Hnd as [Hni Hnd].
    assert (Hkey : forall e, (b, e) ∉ l) by (intros e He; apply Hni, list_elem_of_fmap; by exists (b, e)).
    destruct (Z.ltb_spec t (deadline ep)).
    + destruct (drain_buckets t p l) as [r' p1] eqn:E1. injection E as <- <-.
      destruct (IH _ _ _ Hnd E1) as (new & Ho & Hn & Hsafe & Hkeep). exists new. split_and!; try done.
      * intros id Hid. apply Hsafe in Hid as (e & ? & ? & ?). exists e. split; [by right|done].
      * intros b' e' Hin. rewrite elem_of_cons in Hin. destruct Hin as [[= -> ->]|Hin].
        -- exists ep. split_and!; [by left|done|done|]. intros id Hid Hb.
           apply Hsafe in Hid as (e & He & _). rewrite Hb in He. by apply Hkey in He.
        -- apply Hkeep in Hin as (e & ? & ? & ? & ?). exists e. split_and!; [by right|done..].
    + destruct (drain_rooms p (evicted ep) (liveRooms (world p) b)) as [[st d'] p1] eqn:Er.
      apply drain_rooms_spec in Er as (n1 & Ho & Hn1 & Hin1 & Hd & _).
      assert (Hb1 : forall id, id ∈ n1 -> bucket_of id = b).
      { intros id Hid. eapply liveRooms_bucket. by apply Hin1. }
      destruct st.
      * injection E as <- <-. exists n1. split_and!; try done.
        -- intros id Hid. exists ep. rewrite (Hb1 id Hid). split_and!; [by left|done|by apply Hin1].
        -- intros b' e' Hin. rewrite elem_of_cons in Hin. destruct Hin as [[= -> ->]|Hin].
           ++ exists ep. simpl. split_and!; [by left|done|set_solver|set_solver].
           ++ exists e'. split_and!; [by right|done|done|]. intros id Hid <-.
              rewrite (Hb1 id Hid) in Hin. by apply Hkey in Hin.
      * destruct (IH _ _ _ Hnd E) as (n2 & Ho2 & Hn2 & Hsafe & Hkeep). exists (n1 ++ n2).
        assert (Hb2 : forall id, id ∈ n2 -> bucket_of id <> b).
        { intros id Hid Hb. apply Hsafe in Hid as (e & He & _). rewrite Hb in He. by apply Hkey in He. }
        split_and!.
        -- by rewrite Ho2, Ho, app_assoc.
        -- apply NoDup_app. split_and!; [done| |done]. intros id H1 H2. apply (Hb2 id H2). auto.
        -- intros id Hid. apply elem_of_app in Hid as [Hid|Hid].
           ++ exists ep. rewrite (Hb1 id Hid). split_and!; [by left|done|by apply Hin1].
           ++ apply Hsafe in Hid as (e & ? & ? & ?). exists e. split; [by right|done].
        -- intros b' e' Hin. apply Hkeep in Hin as (e & He & ? & ? & Hall). exists e.
           split_and!; [by right|done|done|]. intros id Hid Hb. apply elem_of_app in Hid as [Hid|Hid]; [|auto].
           exfalso. rewrite (Hb1 id Hid) in Hb. subst b'. by apply Hkey in He.
Qed.
End Buckets.
End RunFacts.

(** *** Histories *)

Section Histories.
Context {W : Type} `{Rooms W} (bucket_of : string -> Z) `{!RoomsLaws W bucket_of}.

(** Since its last relinquishment, at [t0], nothing restarted or cancelled
    the bucket's episode. *)
Definition relinquished_at (h : list entry) (b t0 : Z) (h2 : list entry) : Prop :=
  exists h1, h = h1 ++ HRelinquish t0 b :: h2 /\ Forall (fun e => touches b e = false) h2.

Definition episode_of (h : list entry) (delay : Z) (b : Z) (ep : episode) : Prop :=
  exists t0 h2, relinquished_at h b t0 h2 /\ deadline ep = t0 + delay
    /\ forall e id, e ∈ h2 -> bucket_of id = b -> evicts id e = true -> id ∈ evicted ep.

Record history_inv (h : list entry) (s : scheduler) : Prop := {
  inv_keys : NoDup (map fst (draining s));
  inv_episodes : forall b ep, (b, ep) ∈ draining s -> episode_of h (drainDelayMs s) b ep;
}.

Lemma episode_of_snoc h delay b ep ep' e :
  episode_of h delay b ep -> touches b e = false ->
  deadline ep' = deadline ep -> evicted ep ⊆ evicted ep' ->
  (forall id, bucket_of id = b -> evicts id e = true -> id ∈ evicted ep') ->
  episode_of (h ++ [e]) delay b ep'.
Proof.
  intros (t0 & h2 & (h1 & -> & Hq) & Hd & He) Ht Hd' Hsub Hnew. exists t0, (h2 ++ [e]).
  split_and!; [|congruence|].
  - exists h1. rewrite <-app_assoc. split; [done|]. apply Forall_app_2; [done|by constructor].
  - intros e' id Hin Hb Hev. apply elem_of_app in Hin as [Hin|Hin]; [set_solver|].
    apply list_elem_of_singleton in Hin as ->. auto.
Qed.

(** The rooms a pass may evict after a history. *)
Definition due_eviction (h : list entry) (delay t : Z) (id : string) : Prop :=
  exists t0 h2, relinquished_at h (bucket_of id) t0 h2 /\ t0 + delay <= t
    /\ Forall (fun e => evicts id e = false) h2.

Lemma step_inv h s t o e s' :
  history_inv h s -> sched_step s t o = (e, s') ->
  history_inv (h ++ [e]) s' /\ drainDelayMs s' = drainDelayMs s
  /\ forall t' ids, e = HRun t' ids ->
       NoDup ids /\ Forall (due_eviction h (drainDelayMs s) t') ids.
Proof.
  intros [Hkeys Heps] E. destruct o as [b|b|w]; simpl in E.
  - injection E as <- <-. split_and!; [|done|done].
    destruct (map_set_keys b (Episode (t + drainDelayMs s) ∅) _ Hkeys) as [Hk Hin].
    split; [done|]. simpl. intros b' ep' Hb. apply Hin in Hb as [[= -> ->]|[Hb Hne]]; simpl in *.
    + exists t, []. split_and!; [|done|by intros ? ? ?%not_elem_of_nil]. exists h. by split.
    + by eapply episode_of_snoc; [by apply Heps|simpl; by apply Z.eqb_neq|done..].
  - injection E as <- <-. split_and!; [|done|done]. split; [by apply map_delete_keys|]. simpl.
    intros b' ep' Hb. apply list_elem_of_filter in Hb as [Hne Hb]. simpl in Hne.
    by eapply episode_of_snoc; [by apply Heps|simpl; by apply Z.eqb_neq|done..].
  - destruct (run s t w) as [[ids w'] s1] eqn:Er. injection E as <- <-.
    unfold run in Er.
    destruct (drain_buckets t (Pass w (accrue s t) []) (draining s)) as [d p] eqn:Ed.
    injection Er as <- <- <-. simpl.
    pose proof (drain_buckets_keys _ _ _ _ _ Ed) as [Hsub _].
    pose proof (drain_buckets_safe bucket_of _ _ _ _ _ Hkeys Ed) as (new & Hout & Hnd & Hsafe & Hkeep).
    simpl in Hout. split_and!; [|done|].
    + split; [by eapply sublist_NoDup|]. simpl. intros b ep' Hb.
      apply Hkeep in Hb as (ep & Hep & Hd & Hsu & Hnew).
      eapply episode_of_snoc; [by apply Heps|done|done|done|].
      intros id Hb Hev. simpl in Hev. apply bool_decide_eq_true in Hev. rewrite Hout in Hev. auto.
    + intros t' ids [= <- <-]. rewrite Hout. split; [done|]. apply Forall_forall. intros id Hid.
      apply Hsafe in Hid as (ep & Hep & Hdl & Hne).
      destruct (Heps _ _ Hep) as (t0 & h2 & Hrel & Hd & Hev). exists t0, h2. split_and!; [done|lia|].
      apply Forall_forall. intros e He. destruct (evicts id e) eqn:Ee; [|done]. exfalso. eauto.
Qed.

Lemma history_inv_run ops : forall h0 s h s',
  history_inv h0 s -> sched_run s ops = (h, s') ->
  history_inv (h0 ++ h) s'
  /\ forall pre t ids post, h = pre ++ HRun t ids :: post ->
       NoDup ids /\ Forall (due_eviction (h0 ++ pre) (drainDelayMs s) t) ids.
Proof.
  induction ops as [|[t o] ops IH]; simpl; intros h0 s h s' Hinv E.
  - injection E as <- <-. rewrite app_nil_r. split; [done|]. intros [|] ? ? ?; done.
  - destruct (sched_step s t o) as [e s1] eqn:E1. destruct (sched_run s1 ops) as [h1 s2] eqn:E2.
    injection E as <- <-. destruct (step_inv _ _ _ _ _ _ Hinv E1) as (Hinv1 & Hd & Hrun).
    destruct (IH _ _ _ _ Hinv1 E2) as [IH1 IH2]. rewrite <-app_assoc in IH1. split; [done|].
    intros [|e' pre] t' ids post Heq; simpl in Heq; injection Heq as -> Heq.
    + rewrite app_nil_r. by apply Hrun.
    + rewrite Hd in IH2. specialize (IH2 _ _ _ _ Heq). by rewrite <-app_assoc in IH2.
Qed.
End Histories.

(** *** The rate *)

(** Times never go back and stay within [t1 .. t2]. *)
Fixpoint timed {W} (t1 t2 : Z) (ops : list (Z * op W)) : Prop :=
  match ops with
  | [] => t1 <= t2
  | (t, _) :: ops' => t1 <= t /\ timed t t2 ops'
  end.

Section Rate.
Context {W : Type} `{Rooms W}.

(** The tokens earned between two times, in exact arithmetic. *)
Definition earned (r : Q) (t1 t2 : Z) : Q := (inject_Z (t2 - t1) * r / 1000)%Q.

Lemma earned_add r t1 t2 t3 : (earned r t1 t3 == earned r t1 t2 + earned r t2 t3)%Q.
Proof.
  unfold earned. replace (t3 - t1) with (t2 - t1 + (t3 - t2)) by lia. rewrite inject_Z_plus. field.
Qed.

Lemma earned_nonneg r t1 t2 : (0 <= r)%Q -> t1 <= t2 -> (0 <= earned r t1 t2)%Q.
Proof.
  intros Hr Ht. unfold earned, Qdiv. apply Qmult_le_0_compat; [|easy].
  apply Qmult_le_0_compat; [|done]. change 0%Q with (inject_Z 0). rewrite <-Zle_Qle. lia.
Qed.

Lemma run_tokens s t (w : W) ids w' s' :
  run s t w = (ids, w', s') ->
  rate s' = rate s /\ lastRunMs s' = t
  /\ (tokens s' + inject_Z (Z.of_nat (length ids)) == accrue s t)%Q
  /\ ((0 <= accrue s t)%Q -> (0 <= tokens s')%Q).
Proof.
  unfold run. intros E.
  destruct (drain_buckets t (Pass w (accrue s t) []) (draining s)) as [d p] eqn:Ed.
  apply drain_buckets_tokens in Ed as (new & Ho & Hl & Hp). injection E as <- <- <-. simpl in *.
  split_and!; [done|done| |done]. rewrite Ho, Hl. ring.
Qed.

Lemma accrue_nonneg s t :
  (0 <= rate s)%Q -> (0 <= tokens s)%Q -> lastRunMs s <= t -> (0 <= accrue s t)%Q.
Proof.
  intros Hr Ht Hl. unfold accrue. pose proof (earned_nonneg (rate s) _ _ Hr Hl).
  pose proof (cap_spec (rate s)). unfold earned in *.
  destruct (Qmin'_spec (cap (rate s)) (tokens s + inject_Z (t - lastRunMs s) * rate s / 1000))
    as (_ & _ & [-> | ->]); lra.
Qed.

(** A token's worth of time earns a token. *)
Lemma accrue_token s t :
  (0 < rate s)%Q -> (0 <= tokens s)%Q -> (1000 <= inject_Z (t - lastRunMs s) * rate s)%Q -> (1 <= accrue s t)%Q.
Proof.
  intros Hr Ht Hgap. pose proof (cap_spec (rate s)). unfold accrue.
  destruct (Qmin'_spec (cap (rate s)) (tokens s + inject_Z (t - lastRunMs s) * rate s / 1000)) as (_ & _ & [-> | ->]); [lra|].
  assert (1 == 1000 * / 1000)%Q as Hone by reflexivity. unfold Qdiv.
  assert (1000 * / 1000 <= inject_Z (t - lastRunMs s) * rate s * / 1000)%Q; [|lra].
  by apply Qmult_le_compat_r.
Qed.

Lemma evictions_cons e h :
  evictions (e :: h) = (match e with HRun _ ids => length ids | _ => 0 end + evictions h)%nat.
Proof. done. Qed.

Lemma nat_Q_add n m : (inject_Z (Z.of_nat (n + m)) == inject_Z (Z.of_nat n) + inject_Z (Z.of_nat m))%Q.
Proof. by rewrite Nat2Z.inj_add, inject_Z_plus. Qed.

Lemma evictions_bound ops : forall s t1 t2 h s',
  (0 <= rate s)%Q -> (0 <= tokens s)%Q -> lastRunMs s <= t1 -> timed t1 t2 ops ->
  sched_run s ops = (h, s') ->
  (inject_Z (Z.of_nat (evictions h)) <= tokens s + earned (rate s) (lastRunMs s) t2)%Q.
Proof.
  induction ops as [|[t o] ops IH]; intros s t1 t2 h s' Hr Ht Hl Htimed E; cbn [sched_run timed] in *.
  - injection E as <- <-. pose proof (earned_nonneg (rate s) (lastRunMs s) t2 Hr ltac:(lia)).
    change (inject_Z _) with 0%Q. lra.
  - destruct Htimed as [Ht1 Htimed].
    destruct (sched_step s t o) as [e s1] eqn:E1. destruct (sched_run s1 ops) as [h1 s2] eqn:E2.
    injection E as <- <-. rewrite evictions_cons, nat_Q_add. destruct o as [b|b|w]; cbn [sched_step] in E1.
    + injection E1 as <- <-. eapply (IH _ t) in E2; [|done..|simpl; lia|done].
      change (inject_Z (Z.of_nat 0)) with 0%Q. simpl in E2. lra.
    + injection E1 as <- <-. eapply (IH _ t) in E2; [|done..|simpl; lia|done].
      change (inject_Z (Z.of_nat 0)) with 0%Q. simpl in E2. lra.
    + destruct (run s t w) as [[ids w'] s1'] eqn:Er. injection E1 as <- <-.
      apply run_tokens in Er as (Hrate & Hlast & Htok & Hpos).
      pose proof (accrue_nonneg s t Hr Ht ltac:(lia)) as Ha.
      eapply (IH _ t) in E2; [|by rewrite Hrate|auto|lia|done]. rewrite Hrate, Hlast in E2.
      rewrite (earned_add _ _ t). unfold accrue in Htok, Ha.
      pose proof (Qmin'_spec (cap (rate s)) (tokens s + inject_Z (t - lastRunMs s) * rate s / 1000))
        as (_ & Hmin & _).
      unfold earned in *. lra.
Qed.

Lemma window_bound ops : forall s t1 t2 h s',
  (0 <= rate s)%Q -> (0 <= tokens s)%Q -> lastRunMs s <= t1 -> timed t1 t2 ops ->
  sched_run s ops = (h, s') ->
  (inject_Z (Z.of_nat (evictions h)) <= cap (rate s) + earned (rate s) t1 t2)%Q.
Proof.
  induction ops as [|[t o] ops IH]; intros s t1 t2 h s' Hr Ht Hl Htimed E; cbn [sched_run timed] in *.
  - injection E as <- <-. pose proof (earned_nonneg (rate s) t1 t2 Hr ltac:(lia)).
    pose proof (cap_spec (rate s)). change (inject_Z _) with 0%Q. lra.
  - destruct Htimed as [Ht1 Htimed]. pose proof (earned_nonneg (rate s) t1 t Hr Ht1).
    pose proof (earned_add (rate s) t1 t t2).
    destruct (sched_step s t o) as [e s1] eqn:E1. destruct (sched_run s1 ops) as [h1 s2] eqn:E2.
    injection E as <- <-. rewrite evictions_cons, nat_Q_add. destruct o as [b|b|w]; cbn [sched_step] in E1.
    + injection E1 as <- <-. eapply (IH _ t) in E2; [|done..|simpl; lia|done].
      change (inject_Z (Z.of_nat 0)) with 0%Q. simpl in E2. lra.
    + injection E1 as <- <-. eapply (IH _ t) in E2; [|done..|simpl; lia|done].
      change (inject_Z (Z.of_nat 0)) with 0%Q. simpl in E2. lra.
    + destruct (run s t w) as [[ids w'] s1'] eqn:Er. injection E1 as <- <-.
      apply run_tokens in Er as (Hrate & Hlast & Htok & Hpos).
      pose proof (accrue_nonneg s t Hr Ht ltac:(lia)) as Ha.
      eapply (evictions_bound _ _ t) in E2; [|by rewrite Hrate|auto|lia|done].
      rewrite Hrate, Hlast in E2.
      pose proof (Qmin'_spec (cap (rate s)) (tokens s + inject_Z (t - lastRunMs s) * rate s / 1000))
        as (Hmin & _ & _).
      unfold accrue in *. lra.
Qed.

Lemma sched_run_tokens ops : forall s t1 t2 h s',
  (0 <= rate s)%Q -> (0 <= tokens s)%Q -> lastRunMs s <= t1 -> timed t1 t2 ops ->
  sched_run s ops = (h, s') ->
  rate s' = rate s /\ (0 <= tokens s')%Q /\ lastRunMs s' <= t2.
Proof.
  induction ops as [|[t o] ops IH]; intros s t1 t2 h s' Hr Ht Hl Htimed E; cbn [sched_run timed] in *.
  - injection E as <- <-. split_and!; [done|done|lia].
  - destruct Htimed as [Ht1 Htimed].
    destruct (sched_step s t o) as [e s1] eqn:E1. destruct (sched_run s1 ops) as [h1 s2] eqn:E2.
    injection E as <- <-. destruct o as [b|b|w]; cbn [sched_step] in E1.
    + injection E1 as <- <-. eapply (IH _ t) in E2; [|done..|simpl; lia|done]. done.
    + injection E1 as <- <-. eapply (IH _ t) in E2; [|done..|simpl; lia|done]. done.
    + destruct (run s t w) as [[ids w'] s1'] eqn:Er. injection E1 as <- <-.
      apply run_tokens in Er as (Hrate & Hlast & Htok & Hpos).
      pose proof (accrue_nonneg s t Hr Ht ltac:(lia)) as Ha.
      eapply (IH _ t) in E2; [|by rewrite Hrate|auto|lia|done]. by rewrite Hrate in E2.
Qed.
End Rate.

(** *** Progress *)

Section Progress.
Context {W : Type} `{Rooms W} (bucket_of : string -> Z) `{!RoomsLaws W bucket_of}.
Context (R : gset string) (Hbounded : forall w b id, id ∈ liveRooms w b -> id ∈ R).

(** The rooms an episode may still have to evict. *)
Definition owed (b : Z) (done_ : gset string) : nat :=
  size (filter (fun id => bucket_of id = b) R ∖ done_).

Definition work (l : list (Z * episode)) : nat :=
  list_sum (map (fun p => owed p.1 (evicted p.2)) l).

Lemma owed_evict b (new : list string) (d : gset string) :
  NoDup new -> (forall x, x ∈ new -> x ∈ R /\ bucket_of x = b /\ x ∉ d) ->
  (owed b (list_to_set new ∪ d) + length new = owed b d)%nat.
Proof.
  intros Hnd Hnew. unfold owed. rewrite <-(size_list_to_set (C := gset string) new) by done.
  rewrite <-size_union by set_solver. apply (f_equal size). apply leibniz_equiv. intros x.
  rewrite elem_of_union, !elem_of_difference, elem_of_union, elem_of_filter, elem_of_list_to_set.
  specialize (Hnew x). destruct (decide (x ∈ new)); naive_solver.
Qed.

Lemma drain_rooms_owed b (p : pass W) d ids st d' p' :
  ids = liveRooms (world p) b -> drain_rooms p d ids = (st, d', p') ->
  (owed b d' + length (out p') = owed b d + length (out p))%nat
  /\ (length (out p) <= length (out p'))%nat
  /\ ((1 <= left p)%Q -> (length (out p) < length (out p'))%nat \/ (st = false /\ (1 <= left p')%Q)).
Proof.
  intros -> E. apply drain_rooms_spec in E as (new & Ho & Hnd & Hnew & -> & Hl & _ & Hst).
  rewrite Ho, length_app. split_and!; [|lia|].
  - rewrite <-(owed_evict b new d); [lia|done|]. intros x Hx. apply Hnew in Hx as [Hx ?].
    split_and!; [by eapply Hbounded|by eapply liveRooms_bucket|done].
  - intros H1. destruct new as [|x new]; [right|left; simpl; lia]. change (inject_Z _) with 0%Q in Hl.
    destruct st; [lra|]. split; [done|lra].
Qed.

Lemma drain_buckets_work t l : forall (p : pass W) r p',
  drain_buckets t p l = (r, p') ->
  (work r + length (out p') <= work l + length (out p))%nat
  /\ (length (out p) <= length (out p'))%nat
  /\ ((1 <= left p)%Q ->
      (length (out p) < length (out p'))%nat \/ Forall (fun x => t < deadline x.2) r).
Proof.
  induction l as [|[b ep] l IH]; simpl; intros p r p' E.
  - injection E as <- <-. unfold work; simpl. split_and!; [lia|lia|by right].
  - destruct (Z.ltb_spec t (deadline ep)).
    + destruct (drain_buckets t p l) as [r' p1] eqn:E1. injection E as <- <-.
      apply IH in E1 as (IH1 & IH2 & IH3). unfold work in *. simpl. split_and!; [lia|lia|].
      intros Hl. destruct (IH3 Hl); [by left|right; by constructor].
    + destruct (drain_rooms p (evicted ep) (liveRooms (world p) b)) as [[st d'] p1] eqn:Er.
      apply (drain_rooms_owed b) in Er as (H1 & H2 & H3); [|done]. destruct st.
      * injection E as <- <-. unfold work. simpl. split_and!; [lia|done|].
        intros Hl. destruct (H3 Hl) as [?|[? _]]; [by left|done].
      * apply IH in E as (IH1 & IH2 & IH3). unfold work in *. simpl. split_and!; [lia|lia|].
        intros Hl. destruct (H3 Hl) as [?|[_ Hl']]; [left; lia|].
        destruct (IH3 Hl'); [left; lia|by right].
Qed.

Lemma work_nil_due s t : Forall (fun x : Z * episode => t < deadline x.2) (draining s) ->
  Forall (fun x : Z * episode => deadline x.2 <= t) (draining s) -> draining s = [].
Proof.
  intros H1 H2. destruct (draining s) as [|x l]; [done|].
  apply Forall_cons in H1 as [? _], H2 as [? _]. lia.
Qed.

(** One pass, with at least a token's worth of time since the last. *)
Lemma run_progress s t (w : W) ids w' s' :
  (0 < rate s)%Q -> (0 <= tokens s)%Q -> (1000 <= inject_Z (t - lastRunMs s) * rate s)%Q ->
  run s t w = (ids, w', s') ->
  (work (draining s') + length ids <= work (draining s))%nat
  /\ (ids <> [] \/ Forall (fun x => t < deadline x.2) (draining s')).
Proof.
  intros Hr Ht Hgap. unfold run.
  destruct (drain_buckets t (Pass w (accrue s t) []) (draining s)) as [d p] eqn:Ed.
  intros [= <- <- <-]. apply drain_buckets_work in Ed as (H1 & _ & H3). simpl in *.
  pose proof (accrue_token s t Hr Ht Hgap) as H1a.
  split; [lia|]. destruct (H3 H1a) as [?|?]; [left|by right].
  destruct (out p); [simpl in *; lia|done].
Qed.

(** Passes far enough apart for a token each, from time [last] on. *)
Fixpoint spaced (r : Q) (last : Z) (runs : list (Z * W)) : Prop :=
  match runs with
  | [] => True
  | (t, _) :: runs' => last <= t /\ (1000 <= inject_Z (t - last) * r)%Q /\ spaced r t runs'
  end.

Definition passes (runs : list (Z * W)) : list (Z * op W) := map (fun '(t, w) => (t, Run w)) runs.

Lemma run_keeps_due s t (w : W) ids w' s' T :
  run s t w = (ids, w', s') -> Forall (fun x : Z * episode => deadline x.2 <= T) (draining s) ->
  Forall (fun x : Z * episode => deadline x.2 <= T) (draining s').
Proof.
  unfold run. destruct (drain_buckets t (Pass w (accrue s t) []) (draining s)) as [d p] eqn:Ed.
  intros [= <- <- <-] Hall. apply drain_buckets_keys in Ed as [_ Hk]. simpl.
  rewrite Forall_forall in *. intros [b ep] Hin. apply Hk in Hin as (e & He & Hd).
  apply Hall in He. simpl in *. lia.
Qed.

Lemma passes_complete runs : forall s T h s',
  (0 < rate s)%Q -> (0 <= tokens s)%Q -> spaced (rate s) (lastRunMs s) runs ->
  Forall (fun x => T <= x.1) runs -> Forall (fun x : Z * episode => deadline x.2 <= T) (draining s) ->
  sched_run s (passes runs) = (h, s') ->
  (work (draining s) < length runs)%nat \/ draining s = [] ->
  draining s' = [].
Proof.
  induction runs as [|[t w] runs IH]; intros s T h s' Hr Ht Hsp HT Hdue E Hlen.
  - injection E as <- <-. simpl in Hlen. destruct Hlen; [lia|done].
  - destruct Hsp as (Hle & Hgap & Hsp). apply Forall_cons in HT as [HTt HT]. simpl in HTt.
    unfold passes in E. cbn [map sched_run sched_step] in E.
    destruct (run s t w) as [[ids w'] s1] eqn:Er.
    destruct (sched_run s1 (map (fun '(t, w) => (t, Run w)) runs)) as [h1 s2] eqn:E2.
    injection E as _ <-.
    destruct (run_progress _ _ _ _ _ _ Hr Ht Hgap Er) as [Hwork Hprog].
    pose proof (run_keeps_due _ _ _ _ _ _ _ Er Hdue) as Hdue1.
    pose proof (run_tokens _ _ _ _ _ _ Er) as (Hrate & Hlast & _ & Hpos).
    eapply (IH s1 T); eauto.
    + by rewrite Hrate.
    + apply Hpos, accrue_nonneg; [lra|done|done].
    + by rewrite Hrate, Hlast.
    + destruct Hprog as [Hne|Hall].
      * destruct ids as [|x ids]; [done|]. simpl in *. destruct Hlen as [Hlen|Hnil]; [left; lia|].
        exfalso. rewrite Hnil in Hwork. unfold work in Hwork at 2. simpl in Hwork. lia.
      * right. apply (work_nil_due _ t); [done|]. eapply Forall_impl; [exact Hdue1|]. simpl. lia.
Qed.
End Progress.

(** ** Properties *)

(** C16: whatever the order of relinquishments, re-acquisitions and passes,
    every room a pass evicts belongs to a bucket that was relinquished at
    least the drain delay before, was not re-acquired or relinquished again
    since, and was not evicted earlier in that episode; and no pass evicts a
    room twice. *)
Theorem eviction_deferred_once_per_episode {W} `{Rooms W} (bucket_of : string -> Z) `{!RoomsLaws W bucket_of}
    (delay : Z) (r : Q) (t0 : Z) (ops : list (Z * op W)) pre t ids post :
  fst (sched_run (new_scheduler delay r t0) ops) = pre ++ HRun t ids :: post ->
  NoDup ids /\ Forall (due_eviction bucket_of pre delay t) ids.
Proof.
  destruct (sched_run (new_scheduler delay r t0) ops) as [h s'] eqn:E. simpl. intros ->.
  eapply (history_inv_run bucket_of ops []) in E as [_ E]; [by apply (E pre t ids post)|].
  split; [apply NoDup_nil_2|]. by intros ? ? ?%not_elem_of_nil.
Qed.

(** C17: the eviction rate: from its construction the scheduler evicts at most
    what the rate earns, and between any two later times at most one burst
    (one second's worth, and never less than one room) more than the rate
    earns between them. *)
Theorem eviction_rate_bounded {W} `{Rooms W} (delay : Z) (r : Q) (t0 t1 t2 : Z)
    (ops1 ops2 : list (Z * op W)) :
  (0 <= r)%Q -> timed t0 t1 ops1 -> timed t1 t2 ops2 ->
  let '(h1, s) := sched_run (new_scheduler delay r t0) ops1 in
  let h2 := fst (sched_run s ops2) in
  (inject_Z (Z.of_nat (evictions h1)) <= earned r t0 t1)%Q
  /\ (inject_Z (Z.of_nat (evictions h2)) <= cap r + earned r t1 t2)%Q.
Proof.
  intros Hr T1 T2. destruct (sched_run (new_scheduler delay r t0) ops1) as [h1 s] eqn:E1.
  destruct (sched_run s ops2) as [h2 s2] eqn:E2. simpl.
  pose proof (evictions_bound _ (new_scheduler delay r t0) _ _ _ _ Hr (Qle_refl 0) (Z.le_refl _) T1 E1) as Hb. simpl in Hb.
  destruct (sched_run_tokens _ (new_scheduler delay r t0) _ _ _ _ Hr (Qle_refl 0) (Z.le_refl _) T1 E1) as (Hr1 & Ht1 & Hl1).
  split; [lra|]. simpl in Hr1. rewrite <-Hr1. by eapply window_bound; [rewrite Hr1|..].
Qed.

(** Draining finishes at every positive rate, fractional ones included:
    once every deadline has passed, passes far enough apart to earn one token
    each, one more of them than there are rooms left to evict, end every
    episode. *)
Theorem draining_completes {W} `{Rooms W} (bucket_of : string -> Z) `{!RoomsLaws W bucket_of}
    (R : gset string) (s : scheduler) (T : Z) (runs : list (Z * W)) :
  (forall w b id, id ∈ liveRooms w b -> id ∈ R) ->
  (0 < rate s)%Q -> (0 <= tokens s)%Q ->
  Forall (fun x => deadline x.2 <= T) (draining s) -> Forall (fun x => T <= x.1) runs ->
  spaced (rate s) (lastRunMs s) runs ->
  (work bucket_of R (draining s) < length runs)%nat ->
  drainingCount (snd (sched_run s (passes runs))) = 0%nat.
Proof.
  intros HR Hr Ht Hdue HT Hsp Hlen. destruct (sched_run s (passes runs)) as [h s'] eqn:E. simpl.
  unfold drainingCount. erewrite (passes_complete bucket_of R HR); eauto.
Qed.

(** ** Witnesses *)

(** A world whose bucket 7 always lists the rooms a and b. *)
#[global] Instance unit_rooms : Rooms unit := {|
  liveRooms _ b := if b =? 7 then ["a"; "b"] else []; evict w _ := w |}.
#[global] Instance unit_rooms_laws : RoomsLaws unit (fun _ => 7).
Proof. intros w b id. simpl. destruct (Z.eqb_spec b 7) as [->|]; [done|]. by intros ?%not_elem_of_nil. Qed.

Lemma eviction_deferred_once_per_episode_witness :
  NoDup ["a"] /\ Forall (due_eviction (fun _ => 7) [HRelinquish 0 7] 20000 20000) ["a"].
Proof.
  exact (eviction_deferred_once_per_episode (fun _ => 7) 20000 (1#2) 0
    [(0, Relinquish 7); (20000, Run tt)] [HRelinquish 0 7] 20000 ["a"] [] eq_refl).
Defined.

Lemma eviction_rate_bounded_witness :
  (inject_Z (Z.of_nat 1) <= earned (1#2) 0 20000)%Q /\ (inject_Z (Z.of_nat 1) <= cap (1#2) + earned (1#2) 20000 22000)%Q.
Proof.
  exact (eviction_rate_bounded 20000 (1#2) 0 20000 22000
    [(0, Relinquish 7); (20000, Run tt)] [(22000, Run tt)]
    ltac:(easy) ltac:(simpl; lia) ltac:(simpl; lia)).
Defined.

Lemma draining_completes_witness :
  drainingCount (snd (sched_run (Scheduler 0 (1#2) [(7, Episode 0 ∅)] 0 0)
    (passes [(2000, tt); (4000, tt); (6000, tt)]))) = 0%nat.
Proof.
  apply (draining_completes (fun _ => 7) {["a"; "b"]} _ 2000).
  - intros w b id. simpl. destruct (b =? 7); [set_solver|]. by intros ?%not_elem_of_nil.
  - easy.
  - easy.
  - simpl. repeat constructor. simpl. lia.
  - repeat constructor; simpl; lia.
  - simpl. repeat split; easy.
  - vm_compute. lia.
Defined.
