(* ===== verification/Storage.v ===== *)
(** Room storage ([host/storage.js]): one database for every room, scoped per
    room, and the single-room storage each [Room] relies on, which it refines.

    The two tables are finite maps on their primary keys.  SQLite's LIKE is an
    interface, [SqlLike], with its documented behaviour as laws: a percent sign
    matches any sequence, the ESCAPE character makes the next one literal, and
    letters match without regard to ASCII case. *)

From Stdlib Require Import Ascii.
From S2P Require Import Prelude.

(** ** LIKE *)

Definition backslash : ascii := ascii_of_nat 92.
Definition percent : ascii := ascii_of_nat 37.
Definition underscore : ascii := ascii_of_nat 95.

Definition is_meta (c : ascii) : bool :=
  Ascii.eqb c backslash || Ascii.eqb c percent || Ascii.eqb c underscore.

(** [key LIKE pattern ESCAPE '\'] *)
Class SqlLike := like : string -> string -> bool.

Class SqlLikeLaws (L : SqlLike) : Prop := {
  like_nil s : like "" s = String.eqb s "";
  like_percent p s :
    like (String percent p) s = true <-> exists s1 s2, s = s1 +:+ s2 /\ like p s2 = true;
  like_escape c p s : like (String backslash (String c p)) s =
    match s with
    | String d s' => Ascii.eqb (lower_char c) (lower_char d) && like p s'
    | EmptyString => false
    end;
  like_char c p s : is_meta c = false -> like (String c p) s =
    match s with
    | String d s' => Ascii.eqb (lower_char c) (lower_char d) && like p s'
    | EmptyString => false
    end;
}.

(** [likePrefix]: the metacharacters escaped, then a percent sign. *)
Fixpoint escape_like (prefix : string) : string :=
  match prefix with
  | EmptyString => EmptyString
  | String c p => if is_meta c then String backslash (String c (escape_like p))
                  else String c (escape_like p)
  end.

Definition likePrefix (prefix : string) : string := escape_like prefix +:+ String percent "".

(** What the pattern of [likePrefix] matches. *)
Definition prefix_match (prefix key : string) : bool := starts_with (lower prefix) (lower key).

(** An executable LIKE without underscore wildcards, for examples. *)
Fixpoint toy_like_ (p s : string) : bool :=
  match p with
  | EmptyString => String.eqb s ""
  | String c p' =>
      if Ascii.eqb c percent then
        (fix any (s : string) : bool :=
           toy_like_ p' s || match s with EmptyString => false | String _ s' => any s' end) s
      else if Ascii.eqb c backslash then
        match p' with
        | EmptyString => false
        | String c' p'' =>
            match s with
            | String d s' => Ascii.eqb (lower_char c') (lower_char d) && toy_like_ p'' s'
            | EmptyString => false
            end
        end
      else match s with
           | String d s' => Ascii.eqb (lower_char c) (lower_char d) && toy_like_ p' s'
           | EmptyString => false
           end
  end.
#[global] Instance toy_like : SqlLike := toy_like_.

Section Storage.
Context {V : Type}.

(** ** The shared database *)

Record backend := Backend { rows : gmap (string * string) V; alarms : gmap string Z }.

(** A key [SELECT]ed in order with its value. *)
Definition select_in_order (m : gmap string V) (p : string -> bool) : list (string * V) :=
  omap (fun k => pair k <$> m !! k)
    (merge_sort String.le (filter (fun k => p k = true) (map fst (map_to_list m)))).

(** The rows of one room. *)
Definition room_rows (b : backend) (room : string) : gmap string V :=
  list_to_map (omap (fun '((r, k), v) => if String.eqb r room then Some (k, v) else None)
                 (map_to_list (rows b))).

Definition get (b : backend) (room key : string) : option V := rows b !! (room, key).
Definition put (b : backend) (room key : string) (v : V) : backend :=
  Backend (<[(room, key) := v]> (rows b)) (alarms b).
Definition delete_key (b : backend) (room key : string) : bool * backend :=
  (bool_decide (is_Some (rows b !! (room, key))),
   Backend (delete (room, key) (rows b)) (alarms b)).
Definition deleteAll (b : backend) (room : string) : backend :=
  Backend (filter (fun p => p.1.1 <> room) (rows b)) (alarms b).
Definition list_keys `{SqlLike} (b : backend) (room prefix : string) : list (string * V) :=
  select_in_order (room_rows b room) (like (likePrefix prefix)).
Definition getAlarm (b : backend) (room : string) : option Z := alarms b !! room.
Definition setAlarm (b : backend) (room : string) (at_ : Z) : backend :=
  Backend (rows b) (<[room := at_]> (alarms b)).
Definition deleteAlarm (b : backend) (room : string) : backend :=
  Backend (rows b) (delete room (alarms b)).

(** The distinct rooms with any persisted state. *)
Definition roomsWithState (b : backend) : gset string :=
  list_to_set (map (fun p => p.1.1) (map_to_list (rows b))) ∪ dom (alarms b).

(** ** One room's storage, as [Room] sees it *)

Record rstore := RStore { kv : gmap string V; alarm : option Z }.

Definition r_delete (s : rstore) (key : string) : bool * rstore :=
  (bool_decide (is_Some (kv s !! key)), RStore (delete key (kv s)) (alarm s)).
Definition r_list (s : rstore) (prefix : string) : list (string * V) :=
  select_in_order (kv s) (prefix_match prefix).

Inductive op : Type :=
| Get (key : string) | Put (key : string) (v : V) | Delete (key : string) | DeleteAll
| List_ (prefix : string) | GetAlarm | SetAlarm (at_ : Z) | DeleteAlarm.

Inductive reply : Type :=
| RValue (v : option V) | RUnit | RBool (b : bool) | RList (l : list (string * V))
| RAlarm (a : option Z).

(** The operation on the shared database, scoped to a room; the alarm
    changes also call [onAlarmChange]. *)
Definition backend_step `{SqlLike} (b : backend) (room : string) (o : op) : reply * backend :=
  match o with
  | Get k => (RValue (get b room k), b)
  | Put k v => (RUnit, put b room k v)
  | Delete k => let '(c, b') := delete_key b room k in (RBool c, b')
  | DeleteAll => (RUnit, deleteAll b room)
  | List_ p => (RList (list_keys b room p), b)
  | GetAlarm => (RAlarm (getAlarm b room), b)
  | SetAlarm t => (RUnit, setAlarm b room t)
  | DeleteAlarm => (RUnit, deleteAlarm b room)
  end.

(** What [onAlarmChange] is told, when it is called. *)
Definition alarm_change (o : op) : option (option Z) :=
  match o with SetAlarm t => Some (Some t) | DeleteAlarm => Some None | _ => None end.

Definition room_step (s : rstore) (o : op) : reply * rstore :=
  match o with
  | Get k => (RValue (kv s !! k), s)
  | Put k v => (RUnit, RStore (<[k := v]> (kv s)) (alarm s))
  | Delete k => let '(c, s') := r_delete s k in (RBool c, s')
  | DeleteAll => (RUnit, RStore ∅ (alarm s))
  | List_ p => (RList (r_list s p), s)
  | GetAlarm => (RAlarm (alarm s), s)
  | SetAlarm t => (RUnit, RStore (kv s) (Some t))
  | DeleteAlarm => (RUnit, RStore (kv s) None)
  end.

(** Operations of many rooms, interleaved. *)
Fixpoint backend_run `{SqlLike} (b : backend) (l : list (string * op)) : list (string * reply) * backend :=
  match l with
  | [] => ([], b)
  | (room, o) :: l' =>
      let '(r, b1) := backend_step b room o in
      let '(rs, b2) := backend_run b1 l' in ((room, r) :: rs, b2)
  end.

Fixpoint room_run (s : rstore) (l : list op) : list reply * rstore :=
  match l with
  | [] => ([], s)
  | o :: l' => let '(r, s1) := room_step s o in let '(rs, s2) := room_run s1 l' in (r :: rs, s2)
  end.

(** What concerns one room. *)
Definition only {A} (room : string) (l : list (string * A)) : list A :=
  omap (fun '(r, x) => if String.eqb r room then Some x else None) l.

(** The room's part of the database is that storage. *)
Record refines (b : backend) (room : string) (s : rstore) : Prop := {
  ref_kv : forall k, rows b !! (room, k) = kv s !! k;
  ref_alarm : alarms b !! room = alarm s;
}.
End Storage.
Arguments backend : clear implicits.
Arguments rstore : clear implicits.
Arguments op : clear implicits.
Arguments reply : clear implicits.

(** ** Lemmas *)

Lemma toy_any_spec p s :
  (fix any (s : string) : bool :=
     toy_like_ p s || match s with EmptyString => false | String _ s' => any s' end) s = true
  <-> exists s1 s2, s = s1 +:+ s2 /\ toy_like_ p s2 = true.
Proof.
  induction s as [|c s IH]; cbn -[toy_like_]; rewrite orb_true_iff.
  - split; [intros [H|H]; [by exists "", ""|done]|].
    intros (s1 & s2 & H & Hl). destruct s1; [|done]. rewrite string_app_nil_l in H. subst. by left.
  - rewrite IH. split.
    + intros [H|(s1 & s2 & -> & H)]; [exists "", (String c s)|exists (String c s1), s2]; done.
    + intros ([|d s1] & s2 & H & Hl); [rewrite string_app_nil_l in H; subst; by left|].
      injection H as <- ->. right. eauto.
Qed.

#[global] Instance toy_like_laws : SqlLikeLaws toy_like.
Proof.
  split; intros; unfold like, toy_like; [done|apply toy_any_spec|done|].
  unfold is_meta in *. to_prop. simpl.
  repeat match goal with H : Ascii.eqb _ _ = false |- _ => rewrite H; clear H end. done.
Qed.

Section LikeFacts.
Context `{SqlLikeLaws}.

Lemma lower_cons c s : lower (String c s) = String (lower_char c) (lower s).
Proof. done. Qed.

Lemma like_escape_prefix prefix rest key :
  like (escape_like prefix +:+ rest) key = true
  <-> exists k1 k2, key = k1 +:+ k2 /\ lower k1 = lower prefix /\ like rest k2 = true.
Proof.
  revert key. induction prefix as [|c p IH]; intros key; simpl.
  - split; [intros Hl; by exists "", key|]. intros ([|d k1] & k2 & -> & Heq & Hl); [done|done].
  - assert (Hstep : like ((if is_meta c then String backslash (String c (escape_like p))
                           else String c (escape_like p)) +:+ rest) key =
      match key with
      | String d s' => Ascii.eqb (lower_char c) (lower_char d) && like (escape_like p +:+ rest) s'
      | EmptyString => false
      end).
    { destruct (is_meta c) eqn:E; simpl; [apply like_escape|by apply like_char]. }
    rewrite Hstep. destruct key as [|d key].
    + split; [done|]. intros ([|? k1] & k2 & Heq & Hl & _); done.
    + rewrite andb_true_iff, Ascii.eqb_eq, IH. split.
      * intros [Hc (k1 & k2 & -> & Hl & Hr)]. exists (String d k1), k2.
        rewrite !lower_cons, Hc, Hl. done.
      * intros ([|d' k1] & k2 & Heq & Hl & Hr); [done|].
        simpl in Heq. injection Heq as -> ->. simpl in Hl. injection Hl as -> Hl.
        split; [done|]. eauto.
Qed.

Lemma lower_app s t : lower (s +:+ t) = lower s +:+ lower t.
Proof. induction s as [|c s IH]; simpl; [done|by rewrite IH]. Qed.

Lemma length_lower s : String.length (lower s) = String.length s.
Proof. induction s as [|c s IH]; simpl; [done|by rewrite IH]. Qed.

Lemma lower_split s a b : lower s = a +:+ b -> exists x y, s = x +:+ y /\ lower x = a /\ lower y = b.
Proof.
  revert a b. induction s as [|c s IH]; intros a b E.
  - destruct a; [|done]. by exists "", "".
  - destruct a as [|d a]; [by exists "", (String c s)|]. simpl in E. injection E as Hc E.
    apply IH in E as (x & y & -> & <- & <-). exists (String c x), y. simpl. by rewrite Hc.
Qed.

Lemma likePrefix_spec prefix key : like (likePrefix prefix) key = prefix_match prefix key.
Proof.
  apply eq_true_iff_eq. unfold likePrefix, prefix_match.
  rewrite like_escape_prefix, starts_with_spec. split.
  - intros (k1 & k2 & -> & Hl & _). rewrite lower_app, Hl. by rewrite string_drop_app.
  - intros E. apply lower_split in E as (x & y & -> & Hx & _). exists x, y. split_and!; [done|done|].
    apply like_percent. exists y, "". split; [by rewrite string_app_nil_r|by rewrite like_nil].
Qed.
End LikeFacts.

Section Refinement.
Context {V : Type} `{SqlLikeLaws}.
Implicit Types (b : backend V) (s : rstore V).

Lemma lookup_room_rows b room k : room_rows b room !! k = rows b !! (room, k).
Proof.
  unfold room_rows. apply option_eq. intros v. rewrite <-elem_of_list_to_map.
  - rewrite list_elem_of_omap. split.
    + intros ([[r k'] v'] & Hin & E). apply elem_of_map_to_list in Hin.
      destruct (String.eqb_spec r room) as [->|]; [|done]. by injection E as -> ->.
    + intros Hv. exists ((room, k), v). rewrite String.eqb_refl. split; [|done].
      by apply elem_of_map_to_list.
  - pose proof (NoDup_map_to_list (rows b)) as Hnd.
    pose proof (NoDup_fst_map_to_list (rows b)) as Hk. clear Hnd. revert Hk.
    induction (map_to_list (rows b)) as [|[[r k'] v'] l IH]; simpl; intros Hk; [constructor|].
    apply NoDup_cons in Hk as [Hni Hk]. destruct (String.eqb_spec r room) as [->|]; [|by apply IH].
    simpl. constructor; [|by apply IH]. intros Hin. apply Hni.
    apply list_elem_of_fmap in Hin as ([k2 v2] & -> & Hin). apply list_elem_of_omap in Hin as ([[r3 k3] v3] & Hin & E).
    destruct (String.eqb_spec r3 room) as [->|]; [|done]. injection E as -> ->.
    apply list_elem_of_fmap. by exists ((room, k2), v2).
Qed.

Lemma elem_of_select_in_order (m : gmap string V) (p : string -> bool) k v :
  (k, v) ∈ select_in_order m p <-> m !! k = Some v /\ p k = true.
Proof.
  unfold select_in_order. rewrite list_elem_of_omap. split.
  - intros (k' & Hin & E). rewrite merge_sort_Permutation, list_elem_of_filter in Hin.
    destruct (m !! k') as [v'|] eqn:Em; [|done]. simpl in E. injection E as -> ->. tauto.
  - intros [Hk Hp]. exists k. rewrite Hk. split; [|done].
    rewrite merge_sort_Permutation, list_elem_of_filter. split; [done|].
    apply list_elem_of_fmap. exists (k, v). split; [done|]. by apply elem_of_map_to_list.
Qed.

Lemma select_in_order_keys (m : gmap string V) (p : string -> bool) :
  map fst (select_in_order m p)
  = merge_sort String.le (filter (fun k => p k = true) (map fst (map_to_list m))).
Proof.
  unfold select_in_order.
  assert (Hall : Forall (fun k => is_Some (m !! k))
    (merge_sort String.le (filter (fun k => p k = true) (map fst (map_to_list m))))).
  { apply Forall_forall. intros k Hk. rewrite merge_sort_Permutation, list_elem_of_filter in Hk.
    destruct Hk as [_ Hk]. apply list_elem_of_fmap in Hk as ([k' v] & -> & Hk).
    apply elem_of_map_to_list in Hk. by exists v. }
  induction Hall as [|k l [v Hv] _ IH]; [done|]. cbn. rewrite Hv. cbn. f_equal. exact IH.
Qed.

Lemma select_in_order_sorted (m : gmap string V) (p : string -> bool) :
  StronglySorted String.le (map fst (select_in_order m p)) /\ NoDup (map fst (select_in_order m p)).
Proof.
  rewrite select_in_order_keys. split; [apply StronglySorted_merge_sort; apply _|].
  rewrite merge_sort_Permutation. apply NoDup_filter, NoDup_fst_map_to_list.
Qed.

Lemma refines_rows b room s : refines b room s -> room_rows b room = kv s.
Proof. intros [Hkv _]. apply map_eq. intros k. by rewrite lookup_room_rows. Qed.

Lemma select_ext (m : gmap string V) (p q : string -> bool) :
  (forall k, p k = q k) -> select_in_order m p = select_in_order m q.
Proof.
  intros E. unfold select_in_order. f_equal. f_equal.
  apply list_filter_iff. intros k. by rewrite E.
Qed.

(** One operation on the shared database, seen from its own room ... *)
Lemma backend_step_refines b room s (o : op V) :
  refines b room s ->
  fst (backend_step b room o) = fst (room_step s o)
  /\ refines (snd (backend_step b room o)) room (snd (room_step s o)).
Proof.
  intros Href. pose proof (refines_rows _ _ _ Href) as Hrows. destruct Href as [Hkv Halarm].
  destruct o as [k|k v|k| |p| |t|]; simpl.
  - by rewrite <-Hkv.
  - split; [done|]. split; [|done]. intros k'. simpl. destruct (decide (k = k')) as [->|Hne].
    + by rewrite !lookup_insert_eq.
    + rewrite !lookup_insert_ne by congruence. apply Hkv.
  - rewrite Hkv. split; [done|]. split; [|done]. intros k'. simpl. destruct (decide (k = k')) as [->|Hne].
    + by rewrite !lookup_delete_eq.
    + rewrite !lookup_delete_ne by congruence. apply Hkv.
  - split; [done|]. split; [|done]. intros k. simpl. rewrite lookup_empty.
    apply map_lookup_filter_None. right. by intros v _ [].
  - split; [|by split]. unfold list_keys, r_list. rewrite Hrows. f_equal.
    apply select_ext. intros k. apply likePrefix_spec.
  - unfold getAlarm. by rewrite Halarm.
  - split; [done|]. split; [done|]. simpl. by rewrite lookup_insert_eq.
  - split; [done|]. split; [done|]. simpl. by rewrite lookup_delete_eq.
Qed.

(** ... and from any other. *)
Lemma backend_step_frame b room room' s (o : op V) :
  room <> room' -> refines b room' s -> refines (snd (backend_step b room o)) room' s.
Proof.
  intros Hne [Hkv Halarm]. destruct o as [k|k v|k| |p| |t|]; simpl; split; simpl; try done.
  - intros k'. rewrite lookup_insert_ne by congruence. apply Hkv.
  - intros k'. rewrite lookup_delete_ne by congruence. apply Hkv.
  - intros k. rewrite <-Hkv. apply option_eq. intros v. rewrite map_lookup_filter_Some. simpl.
    split; [tauto|]. split; [done|congruence].
  - by rewrite lookup_insert_ne.
  - by rewrite lookup_delete_ne.
Qed.

Lemma backend_run_refines room (l : list (string * op V)) : forall b s,
  refines b room s ->
  only room (fst (backend_run b l)) = fst (room_run s (only room l))
  /\ refines (snd (backend_run b l)) room (snd (room_run s (only room l))).
Proof.
  induction l as [|[r o] l IH]; intros b s Href; [done|]. cbn [backend_run only omap list_omap].
  destruct (String.eqb_spec r room) as [->|Hne].
  - pose proof (backend_step_refines b room s o Href) as [Hr Hs].
    cbn [room_run]. destruct (backend_step b room o) as [rep b1], (room_step s o) as [rep' s1].
    simpl in Hr, Hs. subst rep'. specialize (IH _ _ Hs) as [IH1 IH2]. unfold only in IH1, IH2.
    destruct (backend_run b1 l) as [rs b2]. destruct (room_run s1 _) as [rs' s2]. simpl in *.
    rewrite String.eqb_refl. split; [by f_equal|done].
  - pose proof (backend_step_frame b r room s o Hne Href) as Hs.
    destruct (backend_step b r o) as [rep b1]. simpl in Hs. specialize (IH _ _ Hs) as [IH1 IH2].
    destruct (backend_run b1 l) as [rs b2]. simpl in *.
    destruct (String.eqb_spec r room); [done|]. by split.
Qed.
End Refinement.

(** ** Properties *)

(** C15: the shared database refines the single-room storage [Room] assumes:
    however the operations of many rooms interleave, each room gets the
    replies, and ends with the keys and the alarm, that it would have had
    alone, its own operations in their order. *)
Theorem rooms_isolated {V} `{SqlLikeLaws} (l : list (string * op V)) (room : string) :
  let b0 := Backend ∅ ∅ in
  let s0 := RStore ∅ None in
  only room (fst (backend_run b0 l)) = fst (room_run s0 (only room l))
  /\ refines (snd (backend_run b0 l)) room (snd (room_run s0 (only room l))).
Proof. apply backend_run_refines. by split. Qed.

(** [list] returns exactly the room's keys that start with the prefix up
    to the ASCII case of letters, each once, in increasing order, with their
    values; in particular every key that starts with the prefix literally. *)
Theorem list_exact_and_sorted {V} `{SqlLikeLaws} (b : backend V) (room prefix : string) :
  let l := list_keys b room prefix in
  (forall k v, (k, v) ∈ l <-> get b room k = Some v /\ prefix_match prefix k = true)
  /\ StronglySorted String.le (map fst l) /\ NoDup (map fst l)
  /\ (forall k v, get b room (prefix +:+ k) = Some v -> (prefix +:+ k, v) ∈ l).
Proof.
  assert (Hl : forall k v, (k, v) ∈ list_keys b room prefix
                      <-> get b room k = Some v /\ prefix_match prefix k = true).
  { intros k v. unfold list_keys. rewrite elem_of_select_in_order, lookup_room_rows, likePrefix_spec. done. }
  split; [done|]. destruct (select_in_order_sorted (room_rows b room) (like (likePrefix prefix))) as [? ?].
  split_and!; [done|done|]. intros k v Hv. apply Hl. split; [done|].
  unfold prefix_match. rewrite lower_app. apply starts_with_app.
Qed.

(** ** Witnesses *)

Lemma rooms_isolated_witness :
  only "r1" (fst (backend_run (V := Z) (Backend ∅ ∅)
    [("r1", Put "k" 1); ("r2", Put "k" 2); ("r2", DeleteAll); ("r1", Get "k")]))
  = [RUnit; RValue (Some 1)].
Proof.
  destruct (rooms_isolated (V := Z)
    [("r1", Put "k" 1); ("r2", Put "k" 2); ("r2", DeleteAll); ("r1", Get "k")] "r1") as [E _].
  transitivity (fst (room_run (V := Z) (RStore ∅ None) [Put "k" 1; Get "k"])); [exact E|reflexivity].
Defined.

Lemma list_exact_and_sorted_witness :
  ("TICKET:x", 3) ∈ list_keys (Backend {[("r", "TICKET:x") := 3]} ∅) "r" "ticket:".
Proof.
  apply (list_exact_and_sorted (Backend {[("r", "TICKET:x") := 3]} ∅) "r" "ticket:").
  split; reflexivity.
Defined.

(** A key that does not start with the prefix is listed: LIKE ignores case. *)
Lemma list_ignores_case :
  ("TICKET:x", 3) ∈ list_keys (Backend {[("r", "TICKET:x") := 3]} ∅) "r" "ticket:"
  /\ starts_with "ticket:" "TICKET:x" = false.
Proof. split; [|done]. unfold list_keys. by apply elem_of_select_in_order. Qed.
