(* ===== verification/RoomState.v ===== *)
(** A room's state and the operations of its context: the live socket set, the
    attachments, the wrapped close ([RoomContext] of [host/runtime.js]) and the
    room's storage ([RoomStorage] of [host/storage.js]), as effects the handlers
    of file Room are written with. *)

From Stdlib Require Import Ascii SpecFloat.
From S2P Require Import Prelude Bytes Json Transcript Storage.

(** ** Data *)

Inductive sstate : Type := SHello | SChallenged | SAdmitted.
#[export] Instance sstate_eq_dec : EqDecision sstate.
Proof. solve_decision. Defined.

(** What [serializeAttachment] stores on a socket; [srole] is absent in the
    hello state, [nonce] is the challenge sent. *)
Record attachment := Att {
  state : sstate;
  srole : option role;
  nonce : string;
  roomName : string;
  tag : option string;
  nonDisplacing : bool;
  connectedAt : Z;
}.

(** The values a room stores. *)
Inductive value : Type :=
| VString (s : string)
| VNumber (n : Z)
| VQuota (dayStart bytes : Z)
| VChallenge (expiresAt : Z)
| VTicket (expiresAt : Z) (keyId publicKey : string)
| VRegToken (expiresAt : Z) (attest : option (string * string)).

Definition expiresAt (v : value) : option Z :=
  match v with
  | VChallenge e | VTicket e _ _ | VRegToken e _ => Some e
  | _ => None
  end.

(** [rec.expiresAt < now] *)
Definition expired (v : value) (now : Z) : bool :=
  match expiresAt v with Some e => e <? now | None => false end.

(** A string value used as a condition. *)
Definition truthy_value (v : option value) : option string :=
  match v with Some (VString s) => if String.eqb s "" then None else Some s | _ => None end.

(** A frame, as the socket library delivers it. *)
Record frame := Frame { binary : bool; payload : string }.

(** UTF-16 code units of a UTF-8 string. *)
Fixpoint utf16_length (s : string) : Z :=
  match s with
  | EmptyString => 0
  | String c s' =>
      let n := Z.of_nat (nat_of_ascii c) in
      (if (128 <=? n) && (n <? 192) then 0 else if 240 <=? n then 2 else 1) + utf16_length s'
  end.

(** [message.length] of a string, [message.byteLength] of a buffer. *)
Definition frame_size (f : frame) : Z :=
  if binary f then Z.of_nat (String.length (payload f)) else utf16_length (payload f).

Record window := Window { wstart : Z; wcount : Z }.

Record quota_rec := Quota { dayStart : Z; qbytes : Z }.

Inductive initiator : Type := by_relay | by_remote | by_error.

(** Sockets, by a number of their own. *)
Notation websocket := nat (only parsing).

(** What the room does to the outside, in order. *)
Inductive output : Type :=
| Sent (ws : nat) (message : json)
| Relayed (ws : nat) (message : frame)
| Closed (ws : nat) (code : Z) (reason : string)
| Replied (req : nat) (status : Z) (body : json)
| LogDisconnect (who : initiator) (att : option attachment) (code : option Z) (reason : option string)
| LogLifecycle (event : string) (tag : option string) (r : option role) (extra : string).


Record room := Room {
  sockets : list websocket;                 (* ctx._sockets *)
  attachments : gmap websocket attachment;  (* ws._attachment *)
  serverClosed : gset websocket;            (* ws._serverClosed *)
  closeFrameReceived : gset websocket;      (* ws._closeFrameReceived *)
  storage : rstore value;
  alarmAt : option Z;                       (* ctx._alarmAt: the armed timer *)
  admissionWindow : window;
  frameWindow : window;
  quota : option quota_rec;
  quotaFlushedBytes : Z;
  trace : list output;
}.

(** The constructor of [Room], on its persisted storage. *)
Definition new_room (st : rstore value) : room :=
  Room [] ∅ ∅ ∅ st None (Window 0 0) (Window 0 0) None 0 [].

(** ** Field updates *)

Definition set_sockets (l : list websocket) (s : room) : room :=
  Room l (attachments s) (serverClosed s) (closeFrameReceived s) (storage s) (alarmAt s) (admissionWindow s)
    (frameWindow s) (quota s) (quotaFlushedBytes s) (trace s).
Definition set_attachments (m : gmap websocket attachment) (s : room) : room :=
  Room (sockets s) m (serverClosed s) (closeFrameReceived s) (storage s) (alarmAt s) (admissionWindow s)
    (frameWindow s) (quota s) (quotaFlushedBytes s) (trace s).
Definition set_serverClosed (c : gset websocket) (s : room) : room :=
  Room (sockets s) (attachments s) c (closeFrameReceived s) (storage s) (alarmAt s) (admissionWindow s)
    (frameWindow s) (quota s) (quotaFlushedBytes s) (trace s).
Definition set_closeFrameReceived (c : gset websocket) (s : room) : room :=
  Room (sockets s) (attachments s) (serverClosed s) c (storage s) (alarmAt s) (admissionWindow s)
    (frameWindow s) (quota s) (quotaFlushedBytes s) (trace s).
Definition set_storage (st : rstore value) (s : room) : room :=
  Room (sockets s) (attachments s) (serverClosed s) (closeFrameReceived s) st (alarmAt s) (admissionWindow s)
    (frameWindow s) (quota s) (quotaFlushedBytes s) (trace s).
Definition set_alarmAt (a : option Z) (s : room) : room :=
  Room (sockets s) (attachments s) (serverClosed s) (closeFrameReceived s) (storage s) a
    (admissionWindow s) (frameWindow s) (quota s) (quotaFlushedBytes s) (trace s).
Definition set_admissionWindow (w : window) (s : room) : room :=
  Room (sockets s) (attachments s) (serverClosed s) (closeFrameReceived s) (storage s) (alarmAt s) w
    (frameWindow s) (quota s) (quotaFlushedBytes s) (trace s).
Definition set_frameWindow (w : window) (s : room) : room :=
  Room (sockets s) (attachments s) (serverClosed s) (closeFrameReceived s) (storage s) (alarmAt s)
    (admissionWindow s) w (quota s) (quotaFlushedBytes s) (trace s).
Definition set_quota (q : option quota_rec) (flushed : Z) (s : room) : room :=
  Room (sockets s) (attachments s) (serverClosed s) (closeFrameReceived s) (storage s) (alarmAt s)
    (admissionWindow s) (frameWindow s) q flushed (trace s).
Definition push (o : output) (s : room) : room :=
  Room (sockets s) (attachments s) (serverClosed s) (closeFrameReceived s) (storage s) (alarmAt s)
    (admissionWindow s) (frameWindow s) (quota s) (quotaFlushedBytes s) (trace s ++ [o]).

(** ** The context's operations *)

#[local] Open Scope eff_scope.

Definition getWebSockets : Eff room (list websocket) := eget sockets.
Definition deserializeAttachment (ws : websocket) : Eff room (option attachment) :=
  eget (fun s => attachments s !! ws).
Definition serializeAttachment (ws : websocket) (a : attachment) : Eff room unit :=
  emod (fun s => set_attachments (<[ws := a]> (attachments s)) s).

(** [ctx.acceptWebSocket(ws)]: a socket of the set once, at its end. *)
Definition acceptWebSocket (ws : websocket) : Eff room unit :=
  emod (fun s => set_sockets (if decide (ws ∈ sockets s) then sockets s else sockets s ++ [ws]) s).

Definition remove_socket (ws : websocket) : Eff room unit :=
  emod (fun s => set_sockets (filter (fun x => x <> ws) (sockets s)) s).

(** The wrapped [ws.close]: a server-initiated close is marked, and the socket
    leaves the routable set at once. *)
Definition ws_close (ws : websocket) (code : Z) (reason : string) : Eff room unit :=
  emod (fun s => if decide (ws ∈ closeFrameReceived s) then s
                 else set_serverClosed ({[ws]} ∪ serverClosed s) s) ;;;
  remove_socket ws ;;;
  emod (push (Closed ws code reason)).

Definition send (ws : websocket) (message : json) : Eff room unit := emod (push (Sent ws message)).
Definition log (o : output) : Eff room unit := emod (push o).

(** Room storage. *)
Definition step_storage (o : op value) : Eff room (reply value) := fun s =>
  let '(r, st) := room_step (storage s) o in (Done r, set_storage st s).

Definition sget (key : string) : Eff room (option value) :=
  r <- step_storage (Get key) ;; eret (match r with RValue v => v | _ => None end).
Definition sput (key : string) (v : value) : Eff room unit :=
  step_storage (Put key v) ;;; eret tt.
Definition sdelete (key : string) : Eff room bool :=
  r <- step_storage (Delete key) ;; eret (match r with RBool b => b | _ => false end).
Definition slist (prefix : string) : Eff room (list (string * value)) :=
  r <- step_storage (List_ prefix) ;; eret (match r with RList l => l | _ => [] end).
Definition sgetAlarm : Eff room (option Z) :=
  r <- step_storage GetAlarm ;; eret (match r with RAlarm a => a | _ => None end).
(** [_reschedule]: the storage tells the context of every alarm change. *)
Definition reschedule (o : op value) : Eff room unit :=
  match alarm_change o with Some a => emod (set_alarmAt a) | None => eret tt end.
Definition ssetAlarm (at_ : Z) : Eff room unit :=
  step_storage (SetAlarm at_) ;;; reschedule (SetAlarm at_).
Definition sdeleteAll : Eff room unit := step_storage DeleteAll ;;; eret tt.
Definition sdeleteAlarm : Eff room unit := step_storage DeleteAlarm ;;; reschedule DeleteAlarm.

(** JSON messages and bodies. *)
Definition json_ok : list (string * json) := [("ok", JBool true)].
Definition json_error (e : string) : json := JObj [("ok", JBool false); ("error", JStr e)].
