(* ===== verification/AttestApi.v ===== *)
(** The interface between the room and App Attest verification
    ([src/appattest.js]): what [verifyAttestation] and [verifyAssertion] take
    and return. *)

From S2P Require Import Prelude Bytes.

Record attested := Attested { keyId : bytes; publicKeyRaw : bytes }.

Class AppAttest := {
  (** [verifyAttestation({attestationObject, clientDataHash, appId,
      environment, trustedRootPem, now})], or the message it throws *)
  verifyAttestation : bytes -> bytes -> string -> string -> option string -> Z -> result string attested;
  (** [verifyAssertion({assertion, clientDataHash, publicKeyRaw, appId})]: the
      counter, or the message it throws *)
  verifyAssertion : bytes -> bytes -> bytes -> string -> result string Z;
}.

(** A stand-in verifier for examples: an attestation is the byte 1 and a key
    id, an assertion its counter and anything. *)
Definition toy_attest : AppAttest := {|
  verifyAttestation o _ _ _ _ _ :=
    match o with 1 :: kid => Ok (Attested kid (9 :: kid)) | _ => Err "rejected" end;
  verifyAssertion a _ _ _ := match a with c :: _ => Ok c | [] => Err "rejected" end;
|}.
