(* ===== verification/Room.v ===== *)
(** The room ([src/room.js]): every handler, as an effect on the room's state.

    A handler runs without interruption up to an await on real asynchronous
    work (WebCrypto); there it is [suspended] with what its continuation has
    captured, and the event loop resumes it later (file RoomSteps).  An await
    on storage only yields a microtask: the code relies on that (the atomicity
    comments of its [admit] and [host/storage.js]), and it is not a suspension.

    [now] is [Date.now()] in the running segment, [rnd] the bytes
    [crypto.getRandomValues] fills in (one draw per segment at most). *)

From Stdlib Require Import Ascii SpecFloat.
From S2P Require Import Prelude Bytes Crypto Json Transcript Storage RoomState AttestApi.

#[local] Open Scope eff_scope.

(** ** Constants *)

Definition REG_TOKEN_TTL_MS : Z := 5 * 60 * 1000.
Definition ATTEST_CHALLENGE_TTL_MS : Z := 5 * 60 * 1000.
Definition TICKET_TTL_MS : Z := 5 * 60 * 1000.
Definition MAX_OUTSTANDING_CHALLENGES : Z := 16.
Definition MAX_PREAUTH_SOCKETS : nat := 4.
Definition PREAUTH_DEADLINE_MS : Z := 15 * 1000.
Definition ADMISSION_WINDOW_MS : Z := 10 * 1000.
Definition MAX_ADMISSION_ATTEMPTS : Z := 40.
Definition MAX_PAIRING_CYCLES : Z := 8.
Definition MAX_FRAME_BYTES : Z := 256 * 1024.
Definition MAX_CONTROL_BYTES : Z := 8 * 1024.
Definition FRAME_WINDOW_MS : Z := 1000.
Definition MAX_FRAMES_PER_WINDOW : Z := 500.
Definition QUOTA_WINDOW_MS : Z := 24 * 60 * 60 * 1000.
Definition DEFAULT_DAILY_BYTE_QUOTA : Z := 512 * 1024 * 1024.
Definition QUOTA_FLUSH_BYTES : Z := 4 * 1024 * 1024.
Definition HOUSEKEEPING_INTERVAL_MS : Z := 15 * 1000.
Definition EPHEMERAL_PREFIXES : list string := ["ticket:"; "regtoken:"; "attestchallenge:"].
Definition DEFAULT_ESTABLISHED_IDLE_TTL_MS : Z := 30 * 24 * 60 * 60 * 1000.

(** ** Environment *)

(** The environment variables the room reads.  The idle TTL is the number the
    code makes of its variable, [None] when that is not finite. *)
Record environment := Environment {
  ATTEST_REQUIRED : option string;
  RELAY_ORIGIN : string;
  RELAY_DAILY_BYTE_QUOTA : option string;
  RELAY_ESTABLISHED_IDLE_TTL_MS : option Z;
  APP_ID : string;
  APPATTEST_ENV : string;
  APPATTEST_ROOT_PEM : option string;
}.

Definition attestationRequired (env : environment) : bool :=
  bool_decide (ATTEST_REQUIRED env <> Some "false").

(** [parseInt(s, 10)]: the digits after blanks and a sign; [None] for NaN. *)
Fixpoint leading_digits (l : list ascii) (acc : option Z) : option Z :=
  match l with
  | c :: l' =>
      match digit_value c with
      | Some d => leading_digits l' (Some (default 0 acc * 10 + d))
      | None => acc
      end
  | [] => acc
  end.

Definition parseInt10 (s : string) : option Z :=
  match skip_ws (String.list_ascii_of_string s) with
  | c :: l =>
      if Ascii.eqb c "-" then Z.opp <$> leading_digits l None
      else if Ascii.eqb c "+" then leading_digits l None
      else leading_digits (c :: l) None
  | [] => None
  end.

(** [parseInt(env.RELAY_DAILY_BYTE_QUOTA, 10) || DEFAULT_DAILY_BYTE_QUOTA] *)
Definition daily_quota (env : environment) : Z :=
  match RELAY_DAILY_BYTE_QUOTA env ≫= parseInt10 with
  | Some n => if n =? 0 then DEFAULT_DAILY_BYTE_QUOTA else n
  | None => DEFAULT_DAILY_BYTE_QUOTA
  end.

Definition establishedIdleTtlMs (env : environment) : Z :=
  match RELAY_ESTABLISHED_IDLE_TTL_MS env with
  | Some v => if 0 <? v then v else DEFAULT_ESTABLISHED_IDLE_TTL_MS
  | None => DEFAULT_ESTABLISHED_IDLE_TTL_MS
  end.

(** ** Suspended handlers *)

(** A handler awaiting WebCrypto, with the variables its continuation uses. *)
Inductive suspended : Type :=
| KUpgrade (ws : websocket) (name : string)
| KProof (ws : websocket) (r : role) (sig verifier : string) (transcript : bytes)
| KAttest (req : nat) (challenge attestationObject : string)
| KRegister (req : nat) (key verifier attestKeyId attestPublicKey challenge assertion : string)
| KDelete (req : nat) (sig verifier : string) (transcript : bytes)
| KDeleteTag (req : nat).

(** ** Helpers of the handlers *)

Definition is_admitted (a : option attachment) : bool :=
  match a with Some a => bool_decide (state a = SAdmitted) | None => false end.

(** [a && a.state === "admitted" && a.role === r] *)
Definition admitted_as (r : role) (a : option attachment) : bool :=
  match a with
  | Some a => bool_decide (state a = SAdmitted) && bool_decide (srole a = Some r)
  | None => false
  end.

(** [a && a.state === "admitted" && a.role !== r] *)
Definition admitted_other (r : option role) (a : option attachment) : bool :=
  match a with
  | Some a => bool_decide (state a = SAdmitted) && negb (bool_decide (srole a = r))
  | None => false
  end.

(** Some other live socket whose attachment satisfies the test. *)
Definition exists_other (ws : websocket) (p : option attachment -> bool) : Eff room bool :=
  eget (fun s => existsb (fun x => negb (x =? ws)%nat && p (attachments s !! x)) (sockets s)).

(** Fixed-window limiter: bump the count, report whether it now exceeds max. *)
Definition bump_window (w : window) (windowMs now : Z) : window :=
  if windowMs <? now - wstart w then Window now 1 else Window (wstart w) (wcount w + 1).

Definition rateLimited (get_w : room -> window) (set_w : window -> room -> room) (max windowMs now : Z)
    : Eff room bool :=
  emod (fun s => set_w (bump_window (get_w s) windowMs now) s) ;;;
  eget (fun s => max <? wcount (get_w s)).

Definition closeSocket (target : websocket) (code : Z) (reason : string) : Eff room unit :=
  a <- deserializeAttachment target ;;
  log (LogDisconnect by_relay a (Some code) (Some reason)) ;;;
  ws_close target code reason.

Definition reject (ws : websocket) (error : string) : Eff room unit :=
  send ws (json_error error) ;;;
  closeSocket ws 1008 error.

(** Close the other side's sockets when an admitted one goes away. *)
Definition closePeerOf (ws : websocket) : Eff room unit :=
  a <- deserializeAttachment ws ;;
  match a with
  | Some a =>
      if bool_decide (state a = SAdmitted) then
        l <- getWebSockets ;;
        eforeach l (fun peer =>
          if (peer =? ws)%nat then eret tt else
          b <- deserializeAttachment peer ;;
          ewhen (admitted_other (srole a) b) (closeSocket peer 1001 "peer gone"))
      else eret tt
  | None => eret tt
  end.

Fixpoint forward_to (l : list websocket) (ws : websocket) (a : attachment) (message : frame) : Eff room unit :=
  match l with
  | [] => eret tt
  | peer :: l' =>
      if (peer =? ws)%nat then forward_to l' ws a message else
      b <- deserializeAttachment peer ;;
      if admitted_other (srole a) b then emod (push (Relayed peer message))
      else forward_to l' ws a message
  end.

Definition forward (ws : websocket) (a : attachment) (message : frame) : Eff room unit :=
  l <- getWebSockets ;; forward_to l ws a message.

Definition teardownRoom (reason : string) : Eff room unit :=
  l <- getWebSockets ;;
  eforeach l (fun ws => closeSocket ws 1000 reason) ;;;
  sdeleteAll ;;;
  sdeleteAlarm.

Definition ensureAlarm (now : Z) : Eff room unit :=
  let soon := now + HOUSEKEEPING_INTERVAL_MS in
  existing <- sgetAlarm ;;
  match existing with
  | Some at_ => ewhen (soon <? at_) (ssetAlarm soon)
  | None => ssetAlarm soon
  end.

Definition bumpActivity (now : Z) : Eff room unit :=
  sput "lastActivity" (VNumber now) ;;;
  ensureAlarm now.

Definition older (x y : websocket * attachment) : Prop := connectedAt x.2 <= connectedAt y.2.
#[export] Instance older_dec x y : Decision (older x y).
Proof. unfold older. apply _. Defined.

(** The un-admitted live sockets, oldest first. *)
Definition pre_auth (s : room) : list (websocket * attachment) :=
  merge_sort older
    (omap (fun ws => a ← attachments s !! ws;
                     if bool_decide (state a = SAdmitted) then None else Some (ws, a)) (sockets s)).

Definition evictExcessPreAuth : Eff room unit :=
  preAuth <- eget pre_auth ;;
  eforeach (take (length preAuth - MAX_PREAUTH_SOCKETS) preAuth)
    (fun x => closeSocket x.1 1008 "too many pending").

(** ** Admission *)

(** Displace the current holder of the role, newest wins, and take its slot. *)
Definition take_slot (ws : websocket) (r : role) (prev : attachment) : Eff room unit :=
  l <- getWebSockets ;;
  eforeach l (fun other =>
    if (other =? ws)%nat then eret tt else
    a <- deserializeAttachment other ;;
    ewhen (admitted_as r a) (closeSocket other 1000 "displaced")) ;;;
  serializeAttachment ws
    (Att SAdmitted (Some r) "" (roomName prev) (tag prev) false (connectedAt prev)).

(** The checks of [admit_socket], before any socket is displaced: whether the join goes
    through, the refusals being sent here. *)
Definition admit_gate (ws : websocket) (r : role) (prev : attachment) : Eff room bool :=
  v <- sget "verifier" ;;
  let established := bool_decide (is_Some (truthy_value v)) in
  ewhen (negb established && bool_decide (r = mac)) (sput "pairingCycles" (VNumber 0)) ;;;
  go <- (if bool_decide (r = phone) then
           macParked <- exists_other ws (admitted_as mac) ;;
           if negb macParked then reject ws "mac offline" ;;; eret false
           else if established then eret true
           else
             c <- sget "pairingCycles" ;;
             let cycles := match c with Some (VNumber n) => n | _ => 0 end + 1 in
             if MAX_PAIRING_CYCLES <? cycles then teardownRoom "pairing cycle cap" ;;; eret false
             else sput "pairingCycles" (VNumber cycles) ;;; eret true
         else eret true) ;;
  if go && nonDisplacing prev then
    occupied <- exists_other ws (admitted_as r) ;;
    if occupied then reject ws "slot occupied" ;;; eret false else eret true
  else eret go.

(** The log line of an admission. *)
Definition admit_line (prev : attachment) (r : role) (via : string) (peerPresent : bool) : output :=
  LogLifecycle "admit" (tag prev) (Some r)
    ("via=" +:+ via +:+ (if peerPresent then " peer=true (spliced)" else " peer=false")).

Definition admit_socket (now : Z) (rnd : bytes) (ws : websocket) (r : role) (attest : option (string * string))
    (via : string) : Eff room unit :=
  prev_ <- deserializeAttachment ws ;;
  let prev := default (Att SHello None "" "" None false 0) prev_ in
  go <- admit_gate ws r prev ;;
  if negb go then eret tt else
  take_slot ws r prev ;;;
  peerPresent <- exists_other ws (admitted_other (Some r)) ;;
  log (admit_line prev r via peerPresent) ;;;
  if bool_decide (r = phone) then
    let token := b64 rnd in
    sput ("regtoken:" +:+ token) (VRegToken (now + REG_TOKEN_TTL_MS) attest) ;;;
    ensureAlarm now ;;;
    send ws (JObj (json_ok ++ [("registrationToken", JStr token)]))
  else send ws (JObj json_ok).

(** ** Socket messages *)

(** The quota record, loaded from storage on the first relayed frame. *)
Definition load_quota (now : Z) : Eff room unit :=
  q <- eget quota ;;
  match q with
  | None =>
      v <- sget "quota" ;;
      let q0 := match v with Some (VQuota d b) => Quota d b | _ => Quota now 0 end in
      emod (set_quota (Some q0) (qbytes q0))
  | Some _ => eret tt
  end.

(** A new day starts a new record. *)
Definition roll_quota (now : Z) : Eff room unit :=
  q <- eget (fun s => default (Quota now 0) (quota s)) ;;
  ewhen (QUOTA_WINDOW_MS <=? now - dayStart q)
    (emod (set_quota (Some (Quota now 0)) 0) ;;; sput "quota" (VQuota now 0)).

(** Charge a frame to the room's daily quota: true when the room was torn down. *)
Definition overQuota (env : environment) (now : Z) (size : Z) : Eff room bool :=
  let limit := daily_quota env in
  load_quota now ;;;
  roll_quota now ;;;
  q <- eget (fun s => default (Quota now 0) (quota s)) ;;
  let q' := Quota (dayStart q) (qbytes q + size) in
  emod (fun s => set_quota (Some q') (quotaFlushedBytes s) s) ;;;
  if limit <? qbytes q' then
    sput "quota" (VQuota (dayStart q') (qbytes q')) ;;;
    l <- getWebSockets ;;
    eforeach l (fun sock => closeSocket sock 1008 "daily quota exceeded") ;;;
    eret true
  else
    flushed <- eget quotaFlushedBytes ;;
    ewhen (QUOTA_FLUSH_BYTES <=? qbytes q' - flushed)
      (emod (set_quota (Some q') (qbytes q')) ;;; sput "quota" (VQuota (dayStart q') (qbytes q'))) ;;;
    eret false.

(** Reading a property may throw. *)
Definition lift {A : Type} (m : result string A) : Eff room A :=
  match m with Ok a => eret a | Err e => ethrow e end.

Definition parse_role (v : option json) : option role :=
  match jstring v with
  | Some s => if String.eqb s "mac" then Some mac else if String.eqb s "phone" then Some phone else None
  | None => None
  end.

Definition handleHello (rnd : bytes) (ws : websocket) (a : attachment) (message : frame) : Eff room unit :=
  match JSON_parse (payload message) with
  | None => closeSocket ws 1008 "bad hello"
  | Some hello =>
      v <- lift (jprop hello "v") ;;
      r <- lift (jprop hello "role") ;;
      nd <- lift (jprop hello "nonDisplacing") ;;
      match jinteger v, parse_role r with
      | Some version, Some r =>
          if version =? PROTOCOL_VERSION then
            serializeAttachment ws
              (Att SChallenged (Some r) (b64 rnd) (roomName a) (tag a)
                 (match nd with Some (JBool true) => true | _ => false end) (connectedAt a)) ;;;
            send ws (JObj [("nonce", JStr (b64 rnd))])
          else closeSocket ws 1008 "bad hello"
      | _, _ => closeSocket ws 1008 "bad hello"
      end
  end.

(** [if (att && att.tag === null) server.serializeAttachment({ ...att, tag })] *)
Definition backfill_tag (ws : websocket) (t : string) : Eff room unit :=
  a <- deserializeAttachment ws ;;
  match a with
  | Some a =>
      match tag a with
      | None => serializeAttachment ws
                  (Att (state a) (srole a) (nonce a) (roomName a) (Some t) (nonDisplacing a)
                     (connectedAt a))
      | Some _ => eret tt
      end
  | None => eret tt
  end.

(** The single-use consumption of a ticket, and the admission it buys. *)
Definition redeem_ticket (now : Z) (rnd : bytes) (ws : websocket) (r : role) (ticketKey : string)
    (rec : value) : Eff room unit :=
  consumed <- sdelete ticketKey ;;
  if negb consumed then reject ws "bad ticket"
  else admit_socket now rnd ws r (match rec with VTicket _ k p => Some (k, p) | _ => None end) "ticket".

Section Handlers.
Context `{Crypto} `{AppAttest} (env : environment).

Definition handleProof (now : Z) (rnd : bytes) (ws : websocket) (a : attachment) (message : frame)
    : Eff room (option suspended) :=
  let r := default mac (srole a) in
  limited <- rateLimited admissionWindow set_admissionWindow MAX_ADMISSION_ATTEMPTS
               ADMISSION_WINDOW_MS now ;;
  if limited then reject ws "rate limited" ;;; eret None else
  match JSON_parse (payload message) with
  | None => reject ws "bad proof" ;;; eret None
  | Some proof =>
      v <- sget "verifier" ;;
      match truthy_value v with
      | Some verifier =>
          sg <- lift (jprop proof "sig") ;;
          match jstring sg with
          | None => reject ws "signature required" ;;; eret None
          | Some sg =>
              match joinTranscript r (nonce a) (roomName a) (RELAY_ORIGIN env) with
              | None => ethrow "InvalidCharacterError"
              | Some t => eret (Some (KProof ws r sg verifier t))
              end
          end
      | None =>
          if attestationRequired env then
            if bool_decide (r = mac) then
              admit_socket now rnd ws r None "park(pre-auth mac)" ;;; eret None
            else
              t <- lift (jprop proof "ticket") ;;
              match jstring t with
              | None => reject ws "ticket required" ;;; eret None
              | Some ticket =>
                  let ticketKey := "ticket:" +:+ ticket in
                  ticketRec <- sget ticketKey ;;
                  match ticketRec with
                  | None => reject ws "bad ticket" ;;; eret None
                  | Some rec =>
                      if expired rec now then reject ws "bad ticket" ;;; eret None else
                      redeem_ticket now rnd ws r ticketKey rec ;;; eret None
                  end
              end
          else admit_socket now rnd ws r None "open" ;;; eret None
      end
  end.

(** After [await verifyJoin]. *)
Definition handleProof_resume (now : Z) (rnd : bytes) (ws : websocket) (r : role)
    (sg verifier : string) (transcript : bytes) : Eff room unit :=
  if verifyJoin sg transcript verifier then
    bumpActivity now ;;;
    admit_socket now rnd ws r None "signed"
  else reject ws "bad signature".

Definition webSocketMessage (now : Z) (rnd : bytes) (ws : websocket) (message : frame)
    : Eff room (option suspended) :=
  a_ <- deserializeAttachment ws ;;
  let a := default (Att SHello None "" "" None false 0) a_ in
  let size := frame_size message in
  let cap := if bool_decide (state a = SAdmitted) then MAX_FRAME_BYTES else MAX_CONTROL_BYTES in
  if cap <? size then
    closePeerOf ws ;;; closeSocket ws 1009 "frame too large" ;;; eret None
  else
  match state a with
  | SHello => handleHello rnd ws a message ;;; eret None
  | SChallenged => handleProof now rnd ws a message
  | SAdmitted =>
      limited <- rateLimited frameWindow set_frameWindow MAX_FRAMES_PER_WINDOW FRAME_WINDOW_MS now ;;
      if limited then
        closePeerOf ws ;;; closeSocket ws 1008 "frame rate exceeded" ;;; eret None
      else
        over <- overQuota env now size ;;
        if over then eret None else forward ws a message ;;; eret None
  end.

(** ** Connection events *)

(** Up to [await roomTag(roomName)]. *)
Definition handleUpgrade (now : Z) (ws : websocket) (name : string) : Eff room (option suspended) :=
  acceptWebSocket ws ;;;
  serializeAttachment ws (Att SHello None "" name None false now) ;;;
  eret (Some (KUpgrade ws name)).

Definition handleUpgrade_resume (now : Z) (ws : websocket) (name : string) : Eff room unit :=
  let t := roomTag (Some name) in
  backfill_tag ws t ;;;
  evictExcessPreAuth ;;;
  ensureAlarm now ;;;
  log (LogLifecycle "connect" (Some t) None "").

Definition webSocketClose (ws : websocket) (code : Z) (reason : string) : Eff room unit :=
  a <- deserializeAttachment ws ;;
  log (LogDisconnect by_remote a (Some code) (Some reason)) ;;;
  closePeerOf ws.

Definition webSocketError (ws : websocket) (message : string) : Eff room unit :=
  a <- deserializeAttachment ws ;;
  log (LogDisconnect by_error a None (Some message)) ;;;
  closePeerOf ws.
End Handlers.

(** ** HTTP *)

Definition respond (req : nat) (status : Z) (body : json) : Eff room unit :=
  emod (push (Replied req status body)).

(** Delete the expired records of a prefix; the number still live.  The loop of
    [pruneExpired], and of [handleAttestChallenge]. *)
Definition prune_prefix (now : Z) (prefix : string) : Eff room Z :=
  l <- slist prefix ;;
  eforeach l (fun kv => ewhen (expired kv.2 now) (sdelete kv.1 ;;; eret tt)) ;;;
  eret (Z.of_nat (countb (fun kv => negb (expired kv.2 now)) l)).

Section Http.
Context `{Crypto} `{AppAttest} (env : environment).

Definition handleAttestChallenge (now : Z) (rnd : bytes) (req : nat) : Eff room (option suspended) :=
  live <- prune_prefix now "attestchallenge:" ;;
  if MAX_OUTSTANDING_CHALLENGES <=? live then
    respond req 429 (json_error "too many outstanding challenges") ;;; eret None
  else
    let challenge := b64 rnd in
    sput ("attestchallenge:" +:+ challenge) (VChallenge (now + ATTEST_CHALLENGE_TTL_MS)) ;;;
    ensureAlarm now ;;;
    respond req 200 (JObj (json_ok ++ [("challenge", JStr challenge)])) ;;;
    eret None.

Definition handleAttest (now : Z) (req : nat) (body : string) : Eff room (option suspended) :=
  if negb (attestationRequired env) then
    respond req 400 (json_error "attestation disabled") ;;; eret None
  else
  match JSON_parse body with
  | None => respond req 400 (json_error "bad json") ;;; eret None
  | Some body =>
      c <- lift (jprop body "challenge") ;;
      o <- lift (jprop body "attestationObject") ;;
      match jstring c, jstring o with
      | Some challenge, Some attestationObject =>
          let challengeKey := "attestchallenge:" +:+ challenge in
          rec <- sget challengeKey ;;
          match rec with
          | None => respond req 403 (json_error "bad challenge") ;;; eret None
          | Some rec =>
              if expired rec now then respond req 403 (json_error "bad challenge") ;;; eret None else
              sdelete challengeKey ;;;
              match attestClientDataHash challenge (RELAY_ORIGIN env) with
              | None => ethrow "InvalidCharacterError"
              | Some _ => eret (Some (KAttest req challenge attestationObject))
              end
          end
      | _, _ => respond req 400 (json_error "missing fields") ;;; eret None
      end
  end.

(** After the digest and [verifyAttestation]. *)
Definition handleAttest_resume (now : Z) (rnd : bytes) (req : nat) (challenge attestationObject : string)
    : Eff room unit :=
  let verdict :=
    match b64ToBytes attestationObject, attestClientDataHash challenge (RELAY_ORIGIN env) with
    | Some o, Some h =>
        verifyAttestation o h (APP_ID env) (APPATTEST_ENV env) (APPATTEST_ROOT_PEM env) now
    | _, _ => Err "InvalidCharacterError"
    end in
  match verdict with
  | Err _ => respond req 403 (json_error "attestation rejected")
  | Ok attested =>
      let ticket := b64 rnd in
      sput ("ticket:" +:+ ticket)
        (VTicket (now + TICKET_TTL_MS) (b64 (keyId attested)) (b64 (publicKeyRaw attested))) ;;;
      ensureAlarm now ;;;
      respond req 200 (JObj (json_ok ++ [("ticket", JStr ticket)]))
  end.

(** The end of a registration: the token is consumed and the verifier set. *)
Definition register (now : Z) (req : nat) (key verifier : string) : Eff room unit :=
  sdelete key ;;;
  sput "verifier" (VString verifier) ;;;
  bumpActivity now ;;;
  respond req 200 (JObj json_ok).

Definition handleRegister (now : Z) (req : nat) (body : string) : Eff room (option suspended) :=
  match JSON_parse body with
  | None => respond req 400 (json_error "bad json") ;;; eret None
  | Some body =>
      t <- lift (jprop body "registrationToken") ;;
      v <- lift (jprop body "verifier") ;;
      match jstring v with
      | None => respond req 400 (json_error "missing verifier") ;;; eret None
      | Some verifier =>
      cur <- sget "verifier" ;;
      if bool_decide (is_Some (truthy_value cur)) then
        respond req 403 (json_error "already registered") ;;; eret None
      else
      match jstring t with
      | None => respond req 403 (json_error "token required") ;;; eret None
      | Some registrationToken =>
      let key := "regtoken:" +:+ registrationToken in
      rec <- sget key ;;
      match rec with
      | None => respond req 403 (json_error "bad token") ;;; eret None
      | Some rec =>
      if expired rec now then respond req 403 (json_error "bad token") ;;; eret None else
      if negb (attestationRequired env) then register now req key verifier ;;; eret None else
      match rec with
      | VRegToken _ (Some (attestKeyId, attestPublicKey)) =>
          if String.eqb attestKeyId "" || String.eqb attestPublicKey "" then
            respond req 403 (json_error "token not attested") ;;; eret None
          else
          c <- lift (jprop body "challenge") ;;
          s <- lift (jprop body "assertion") ;;
              match jstring c, jstring s with
              | Some challenge, Some assertion =>
                  let challengeKey := "attestchallenge:" +:+ challenge in
                  crec <- sget challengeKey ;;
                  match crec with
                  | None => respond req 403 (json_error "bad challenge") ;;; eret None
                  | Some crec =>
                      if expired crec now then
                        respond req 403 (json_error "bad challenge") ;;; eret None
                      else
                      sdelete challengeKey ;;;
                      match attestClientDataHash challenge (RELAY_ORIGIN env) with
                      | None => ethrow "InvalidCharacterError"
                      | Some _ =>
                          eret (Some (KRegister req key verifier attestKeyId attestPublicKey
                                        challenge assertion))
                      end
                  end
              | _, _ => respond req 403 (json_error "assertion required") ;;; eret None
              end
      | _ => respond req 403 (json_error "token not attested") ;;; eret None
      end
      end
      end
      end
  end.

(** After the digest and [verifyAssertion]. *)
Definition handleRegister_resume (now : Z) (req : nat)
    (key verifier attestKeyId attestPublicKey challenge assertion : string) : Eff room unit :=
  let verdict :=
    match b64ToBytes assertion, attestClientDataHash challenge (RELAY_ORIGIN env),
          b64ToBytes attestPublicKey with
    | Some a, Some h, Some pk => verifyAssertion a h pk (APP_ID env)
    | _, _, _ => Err "InvalidCharacterError"
    end in
  match verdict with
  | Err e => respond req 403 (json_error ("assertion rejected: " +:+ e))
  | Ok counter =>
      let counterKey := "assertcounter:" +:+ attestKeyId in
      lastCounter <- sget counterKey ;;
      if match lastCounter with Some (VNumber n) => counter <=? n | _ => false end then
        respond req 403 (json_error "stale assertion")
      else
        sput counterKey (VNumber counter) ;;;
        sput "registrantKeyId" (VString attestKeyId) ;;;
        register now req key verifier
  end.

Definition handleDelete (now : Z) (req : nat) (name body : string) : Eff room (option suspended) :=
  match JSON_parse body with
  | None => respond req 400 (json_error "bad json") ;;; eret None
  | Some body =>
      v <- sget "verifier" ;;
      match truthy_value v with
      | None => respond req 403 (json_error "not established") ;;; eret None
      | Some verifier =>
          c <- lift (jprop body "challenge") ;;
          s <- lift (jprop body "signature") ;;
          match jstring c, jstring s with
          | Some challenge, Some signature =>
              let challengeKey := "attestchallenge:" +:+ challenge in
              rec <- sget challengeKey ;;
              match rec with
              | None => respond req 403 (json_error "bad challenge") ;;; eret None
              | Some rec =>
                  if expired rec now then
                    respond req 403 (json_error "bad challenge") ;;; eret None
                  else
                  sdelete challengeKey ;;;
                  match deleteTranscript challenge name (RELAY_ORIGIN env) with
                  | None => ethrow "InvalidCharacterError"
                  | Some t => eret (Some (KDelete req signature verifier t))
                  end
              end
          | _, _ => respond req 403 (json_error "signature required") ;;; eret None
          end
      end
  end.

(** After [await verifyJoin]; the log line then awaits a digest. *)
Definition handleDelete_resume (req : nat) (sg verifier : string) (transcript : bytes)
    : Eff room (option suspended) :=
  if verifyJoin sg transcript verifier then eret (Some (KDeleteTag req))
  else respond req 403 (json_error "bad signature") ;;; eret None.

Definition handleDelete_wipe (req : nat) : Eff room unit :=
  teardownRoom "room deleted" ;;;
  respond req 200 (JObj json_ok).

Definition handleHttp (now : Z) (rnd : bytes) (req : nat) (method path name body : string)
    : Eff room (option suspended) :=
  if String.eqb method "POST" && String.eqb path "/register" then handleRegister now req body
  else if String.eqb method "POST" && String.eqb path "/attest/challenge" then
    handleAttestChallenge now rnd req
  else if String.eqb method "POST" && String.eqb path "/attest" then handleAttest now req body
  else if String.eqb method "POST" && String.eqb path "/delete" then handleDelete now req name body
  else respond req 501 (JStr "not implemented") ;;; eret None.
End Http.

(** ** Housekeeping *)

Fixpoint prune_prefixes (now : Z) (prefixes : list string) : Eff room Z :=
  match prefixes with
  | [] => eret 0
  | p :: ps => n <- prune_prefix now p ;; m <- prune_prefixes now ps ;; eret (n + m)
  end.

Definition pruneExpired (now : Z) : Eff room Z := prune_prefixes now EPHEMERAL_PREFIXES.

(** An un-admitted socket past its deadline. *)
Definition timed_out (now : Z) (a : attachment) : bool :=
  negb (connectedAt a =? 0) && (PREAUTH_DEADLINE_MS <? now - connectedAt a).

Definition sweep_pre_auth (now : Z) (l : list websocket) : Eff room Z :=
  pending <- eget (fun s => Z.of_nat (countb (fun ws =>
    match attachments s !! ws with
    | Some a => negb (bool_decide (state a = SAdmitted)) && negb (timed_out now a)
    | None => false
    end) l)) ;;
  eforeach l (fun ws =>
    a <- deserializeAttachment ws ;;
    match a with
    | Some a => ewhen (negb (bool_decide (state a = SAdmitted)) && timed_out now a)
                  (closeSocket ws 1008 "admission timeout")
    | None => eret tt
    end) ;;;
  eret pending.

(** The established room's last activity; one without a record starts its
    window now. *)
Definition read_activity (now : Z) : Eff room Z :=
  la <- sget "lastActivity" ;;
  match la with
  | Some (VNumber n) => eret n
  | _ => sput "lastActivity" (VNumber now) ;;; eret now
  end.

(** Reschedule to the nearer of the housekeeping cadence, while there is work,
    and the idle deadline. *)
Definition rearm (now : Z) (busy_ : bool) (idleDeadline : option Z) : Eff room unit :=
  let next := if busy_ then Some (now + HOUSEKEEPING_INTERVAL_MS) else None in
  let next := match idleDeadline, next with
              | Some d, Some n => Some (Z.min n d)
              | Some d, None => Some d
              | None, _ => next
              end in
  match next with Some at_ => ssetAlarm at_ | None => eret tt end.

Definition alarm (env : environment) (now : Z) : Eff room unit :=
  l <- getWebSockets ;;
  pendingPreAuth <- sweep_pre_auth now l ;;
  remainingEphemeral <- pruneExpired now ;;
  let busy_ := (0 <? pendingPreAuth) || (0 <? remainingEphemeral) in
  v <- sget "verifier" ;;
  match truthy_value v with
  | Some _ =>
      last <- read_activity now ;;
      let idleDeadline := last + establishedIdleTtlMs env in
      if idleDeadline <=? now then teardownRoom "room expired"
      else rearm now busy_ (Some idleDeadline)
  | None => rearm now busy_ None
  end.
