(* ===== verification/RoomSteps.v ===== *)
(** The room under its event loop: connections, frames, requests, resumed
    handlers, timers and restarts as the steps of a transition system, the
    dispatch of [RoomContext] ([host/runtime.js]) around the handlers of file
    Room.

    One step runs one handler segment to its next real suspension.  Frames of
    one socket go through its promise chain: the next one waits until the
    previous handler has settled.  Everything else interleaves freely. *)

From S2P Require Import Prelude Bytes Crypto Json Transcript Storage RoomState AttestApi Room.

#[local] Open Scope eff_scope.

Definition ALARM_RETRY_MS : Z := 30 * 1000.

(** A dispatched close or error event, waiting on its socket's chain. *)
Inductive callback : Type :=
| OnClose (ws : websocket) (code : Z) (reason : string)
| OnErr (ws : websocket) (message : string).

Definition callback_socket (c : callback) : websocket :=
  match c with OnClose ws _ _ | OnErr ws _ => ws end.

Record world := World { rm : room; pending : list suspended; callbacks : list callback }.

Inductive event : Type :=
| EUpgrade (ws : websocket) (name : string)
| EMessage (ws : websocket) (message : frame)
| EHttp (req : nat) (method path name body : string)
| EResume (i : nat)
| EAlarm
| ECloseFrame (ws : websocket) (code : Z) (reason : string)
| EClose (ws : websocket) (code : Z) (reason : string)
| EError (ws : websocket) (message : string)
| ECallback (i : nat)
| ECloseRoom (code : Z) (reason : string)
| ERestart.

(** The socket's chain is held by a suspended proof. *)
Definition busy (ws : websocket) (l : list suspended) : bool :=
  existsb (fun k => match k with KProof ws' _ _ _ _ => (ws' =? ws)%nat | _ => false end) l.

Section Steps.
Context `{Crypto} `{AppAttest} (env : environment).

(** The rest of a suspended handler, to its next suspension. *)
Definition resume (now : Z) (rnd : bytes) (k : suspended) : Eff room (option suspended) :=
  match k with
  | KUpgrade ws name => handleUpgrade_resume now ws name ;;; eret None
  | KProof ws r sg verifier t => handleProof_resume now rnd ws r sg verifier t ;;; eret None
  | KAttest req c o => handleAttest_resume env now rnd req c o ;;; eret None
  | KRegister req key v kid pk c a => handleRegister_resume env now req key v kid pk c a ;;; eret None
  | KDelete req sg verifier t => handleDelete_resume req sg verifier t
  | KDeleteTag req => handleDelete_wipe req ;;; eret None
  end.

(** A message handler's rejection closes its socket, and only it. *)
Definition on_throw (k : suspended + event) : Eff room unit :=
  match k with
  | inl (KProof ws _ _ _ _) | inr (EMessage ws _) => ws_close ws 1011 "internal error"
  | inl (KUpgrade ws _) => ws_close ws 1011 "internal error"
  | _ => eret tt
  end.

Definition settle (k : suspended + event) (m : Eff room (option suspended)) (w : world)
    (rest : list suspended) : world :=
  match m (rm w) with
  | (Done s, r) => World r (rest ++ option_list s) (callbacks w)
  | (Throw _, r) => World (exec (on_throw k) r) rest (callbacks w)
  end.

(** [RoomContext._fire]: a throwing alarm is retried. *)
Definition fire (now : Z) : Eff room unit := fun r =>
  match alarm env now (set_alarmAt None r) with
  | (Done _, r') => (Done tt, r')
  | (Throw _, r') => (Done tt, set_alarmAt (Some (now + ALARM_RETRY_MS)) r')
  end.

Definition run_callback (c : callback) : Eff room unit :=
  match c with
  | OnClose ws code reason => webSocketClose ws code reason
  | OnErr ws m => webSocketError ws m
  end.

(** [Runtime.closeRoom]: every socket closed together. *)
Definition closeRoom (code : Z) (reason : string) : Eff room unit :=
  l <- getWebSockets ;; eforeach l (fun ws => ws_close ws code reason).

(** A new context on the persisted storage, as after a restart or an
    eviction; [init] arms the persisted alarm. *)
Definition reload (r : room) : room :=
  Room [] ∅ ∅ ∅ (storage r) (Storage.alarm (storage r)) (Window 0 0) (Window 0 0) None 0 (trace r).

Definition in_room {A} (w : world) (m : Eff room A) : world :=
  World (exec m (rm w)) (pending w) (callbacks w).

(** One step; [None] when the event cannot happen. *)
Definition step (now : Z) (rnd : bytes) (e : event) (w : world) : option world :=
  match e with
  | EUpgrade ws name =>
      if decide (attachments (rm w) !! ws = None)
      then Some (settle (inr e) (handleUpgrade now ws name) w (pending w)) else None
  | EMessage ws f =>
      if bool_decide (is_Some (attachments (rm w) !! ws)) && negb (busy ws (pending w))
      then Some (settle (inr e) (webSocketMessage env now rnd ws f) w (pending w)) else None
  | EHttp req method path name body =>
      Some (settle (inr e) (handleHttp env now rnd req method path name body) w (pending w))
  | EResume i =>
      k ← pending w !! i;
      Some (settle (inl k) (resume now rnd k) w (delete i (pending w)))
  | EAlarm =>
      t ← alarmAt (rm w);
      if t <=? now then Some (in_room w (fire now)) else None
  | ECloseFrame ws code reason =>
      Some (in_room w
        (emod (fun s => set_closeFrameReceived ({[ws]} ∪ closeFrameReceived s) s) ;;;
         ws_close ws code reason))
  | EClose ws code reason =>
      let r := exec (remove_socket ws) (rm w) in
      Some (World r (pending w)
        (if decide (ws ∈ serverClosed r) then callbacks w else callbacks w ++ [OnClose ws code reason]))
  | EError ws message => Some (World (rm w) (pending w) (callbacks w ++ [OnErr ws message]))
  | ECallback i =>
      c ← callbacks w !! i;
      if busy (callback_socket c) (pending w) then None
      else Some (World (exec (run_callback c) (rm w)) (pending w) (delete i (callbacks w)))
  | ECloseRoom code reason => Some (in_room w (closeRoom code reason))
  | ERestart => Some (World (reload (rm w)) [] [])
  end.

(** A room that has never been used. *)
Definition initial : world := World (new_room (RStore ∅ None)) [] [].

Definition input := (Z * bytes * event)%type.

Fixpoint run (l : list input) (w : world) : option world :=
  match l with
  | [] => Some w
  | (now, rnd, e) :: l' => w' ← step now rnd e w; run l' w'
  end.

Inductive reachable : world -> Prop :=
| reach_initial : reachable initial
| reach_step now rnd e w w' : reachable w -> step now rnd e w = Some w' -> reachable w'.

Lemma run_reachable l : forall w w', reachable w -> run l w = Some w' -> reachable w'.
Proof.
  induction l as [|[[now rnd] e] l IH]; simpl; intros w w' Hw E; [congruence|].
  destruct (step now rnd e w) as [w1|] eqn:E1; [|done]. simpl in E. eauto using reach_step.
Qed.
End Steps.
