(* ===== verification/RoomFacts.v ===== *)
(** Lemmas on the room's handlers shared by its properties: a tactic that walks
    a handler down to its primitive actions, what each action leaves alone, and
    the exact effect of the closing loops. *)

From S2P Require Import Prelude Bytes Crypto Json Transcript Storage RoomState AttestApi Room RoomSteps.

#[local] Open Scope eff_scope.

Lemma filter_true {A} (P : A -> Prop) `{!forall x, Decision (P x)} (l : list A) :
  (forall x, x ∈ l -> P x) -> filter P l = l.
Proof.
  induction l as [|x l IH]; intros Hall; [done|]. rewrite filter_cons_True by (apply Hall; by left).
  f_equal. apply IH. intros y Hy. apply Hall. by right.
Qed.

Lemma filter_iff_in {A} (P Q : A -> Prop) `{!forall x, Decision (P x)} `{!forall x, Decision (Q x)} (l : list A) :
  (forall x, x ∈ l -> P x <-> Q x) -> filter P l = filter Q l.
Proof.
  induction l as [|x l IH]; intros Hiff; [done|].
  assert (Hl : filter P l = filter Q l) by (apply IH; intros y Hy; apply Hiff; by right).
  destruct (decide (P x)) as [Hp|Hp].
  - rewrite filter_cons_True by done. rewrite filter_cons_True by (apply Hiff; [by left|done]). by f_equal.
  - rewrite filter_cons_False by done. rewrite filter_cons_False by (rewrite <-Hiff; [done|by left]). done.
Qed.

(** ** Walking a handler *)

Ltac head_of t := lazymatch t with ?f _ => head_of f | _ => t end.

Lemma slist_spec p s : slist p s = (Done (r_list (storage s) p), s).
Proof. unfold slist, ebind, step_storage, eret. simpl. by destruct s. Qed.

Lemma r_list_match (st : rstore value) p (kv : string * value) : kv ∈ r_list st p -> prefix_match p kv.1 = true.
Proof. destruct kv as [k v]. unfold r_list. rewrite elem_of_select_in_order. tauto. Qed.

(** A pruning loop deletes only keys with its prefix. *)
Lemma prune_within (R : room -> room -> Prop) `{!PreOrder R} now p :
  (forall k, prefix_match p k = true -> within R (step_storage (Delete k))) ->
  within R (prune_prefix now p).
Proof.
  intros Hd s. unfold prune_prefix, exec, ebind at 1. rewrite slist_spec.
  set (l := r_list (storage s) p).
  assert (Hl : Forall (fun kv => prefix_match p kv.1 = true) l).
  { apply Forall_forall. intros kv. apply r_list_match. }
  assert (Hw : within R (eforeach l (fun kv => ewhen (expired kv.2 now) (sdelete kv.1 ;;; eret tt)))).
  { induction Hl as [|kv l Hkv _ IH]; [by apply within_ret|]. simpl.
    apply within_bind; [done| |intros _; exact IH]. apply within_when; [done|].
    apply within_bind; [done| |intros ?; by apply within_ret].
    apply within_bind; [done|by apply Hd|intros ?; by apply within_ret]. }
  apply (within_bind R _ (fun _ => eret _) Hw). intros _. by apply within_ret.
Qed.

Lemma prune_prefixes_within (R : room -> room -> Prop) `{!PreOrder R} now l :
  (forall p, p ∈ l -> within R (prune_prefix now p)) -> within R (prune_prefixes now l).
Proof.
  intros Hp. induction l as [|p l IH]; cbn [prune_prefixes]; [by apply within_ret|].
  apply within_bind; [done|apply Hp; by left|intros ?].
  apply within_bind; [done|apply IH; intros q Hq; apply Hp; by right|intros ?]. by apply within_ret.
Qed.

Lemma forward_to_within (R : room -> room -> Prop) `{!PreOrder R} l ws a f :
  (forall peer, within R (emod (push (Relayed peer f)))) -> within R (forward_to l ws a f).
Proof.
  intros Hp. induction l as [|p l IH]; cbn [forward_to]; [by apply within_ret|].
  apply within_if; [done|]. apply within_bind; [done|by apply within_get|intros ?].
  by apply within_if.
Qed.

(** Reduce [within R m] to its primitive actions; [prim] is tried first on
    each action, then its definition is unfolded. *)
Ltac walk_one prim :=
  lazymatch goal with
  | |- within _ (ebind _ _) => apply within_bind; [apply _| |intros ?]
  | |- within _ (eret _) => apply within_ret; apply _
  | |- within _ (ethrow _) => apply within_throw; apply _
  | |- within _ (eget _) => apply within_get; apply _
  | |- within _ (ewhen _ _) => apply within_when; [apply _|]
  | |- within _ (eforeach _ _) => apply within_foreach; [apply _|intros ?]
  | |- within _ (prune_prefixes _ _) => apply prune_prefixes_within; [apply _|intros ? ?]
  | |- within _ (prune_prefix _ _) => apply prune_within; [apply _|intros ? ?]
  | |- within _ (forward_to _ _ _ _) => apply forward_to_within; [apply _|intros ?]
  | |- within _ (match ?x with _ => _ end) => destruct x eqn:?
  | |- within _ (emod _) => solve [prim]
  | |- within _ (step_storage _) => solve [prim]
  | |- within _ ?m => first [solve [prim] | progress cbv beta zeta | let h := head_of m in unfold h; cbv zeta]
  end.

Ltac walk prim := repeat walk_one prim.

(** ** Handlers as [exec] *)

Lemma exec_within {A} (I : room -> Prop) (m : Eff room A) s :
  I s -> within (preserving I) m -> I (exec m s).
Proof. intros Hs Hm. by apply Hm. Qed.

Lemma exec_bind {A B} (m : Eff room A) (k : A -> Eff room B) s a s' :
  m s = (Done a, s') -> exec (ebind m k) s = exec (k a) s'.
Proof. unfold exec, ebind. by intros ->. Qed.

Lemma exec_foreach_cons {A} x (l : list A) (f : A -> Eff room unit) s s' :
  f x s = (Done tt, s') -> exec (eforeach (x :: l) f) s = exec (eforeach l f) s'.
Proof. intros E. simpl. by erewrite exec_bind. Qed.

(** ** Actions that do not move the connections *)

(** The part of the state the connections consist of. *)
Definition conn (s : room) : list websocket * gmap websocket attachment := (sockets s, attachments s).

Lemma conn_eq s l m : conn s = (l, m) <-> sockets s = l /\ attachments s = m.
Proof. unfold conn. split; [by intros [= -> ->]|by intros [-> ->]]. Qed.

Lemma step_storage_conn o : within (same conn) (step_storage o).
Proof. intros s. unfold exec, step_storage. by destruct (room_step (storage s) o). Qed.

Lemma push_conn o : within (same conn) (emod (push o)).
Proof. by intros s. Qed.

#[export] Hint Resolve step_storage_conn push_conn : within.

(** An [emod] that leaves the projection alone. *)
Ltac emod_same := lazymatch goal with |- within _ (emod _) => intros ?; reflexivity end.

(** An equation on the state an update leaves, whatever its condition. *)
Ltac same_field :=
  intros ?; cbv beta; try (match goal with |- context [decide ?P] => destruct (decide P) end); reflexivity.

Ltac walk_same := walk ltac:(first [apply step_storage_conn | emod_same]).

Lemma ensureAlarm_conn now : within (same conn) (ensureAlarm now).
Proof. walk_same. Qed.

Lemma ensureAlarm_done now s : fst (ensureAlarm now s) = Done tt.
Proof.
  unfold ensureAlarm, sgetAlarm, ssetAlarm, ewhen, ebind, step_storage. simpl.
  destruct (Storage.alarm (storage s)); simpl; [by destruct (_ <? _)|done].
Qed.

Lemma bumpActivity_conn now : within (same conn) (bumpActivity now).
Proof. walk_same. Qed.

(** ** Closing sockets *)

(** A closed socket leaves the set; nothing else of the connections moves. *)
Lemma ws_close_sockets ws code reason s :
  conn (exec (ws_close ws code reason) s) = (filter (fun x => x <> ws) (sockets s), attachments s).
Proof. unfold ws_close, remove_socket, exec, ebind, emod. simpl. by destruct (decide _). Qed.

Lemma closeSocket_eq ws code reason s :
  closeSocket ws code reason s
  = (Done tt, exec (ws_close ws code reason)
      (push (LogDisconnect by_relay (attachments s !! ws) (Some code) (Some reason)) s)).
Proof. reflexivity. Qed.

Lemma closeSocket_sockets ws code reason s :
  conn (exec (closeSocket ws code reason) s) = (filter (fun x => x <> ws) (sockets s), attachments s).
Proof. unfold exec at 1. rewrite closeSocket_eq. etransitivity; [apply ws_close_sockets|done]. Qed.

(** A loop that closes the live sockets its test selects. *)
Lemma close_loop_sockets (p : websocket -> option attachment -> bool) code reason l :
  forall s (f : websocket -> Eff room unit),
  (forall x s, f x s = (Done tt, if p x (attachments s !! x) then exec (closeSocket x code reason) s else s)) ->
  conn (exec (eforeach l f) s)
  = (filter (fun x => ~ (x ∈ l /\ p x (attachments s !! x) = true)) (sockets s), attachments s).
Proof.
  induction l as [|y l IH]; intros s f Hf.
  - unfold exec, conn. simpl. f_equal. symmetry. apply filter_true. by intros x _ [?%not_elem_of_nil _].
  - erewrite exec_foreach_cons by apply Hf. rewrite (IH _ f Hf).
    destruct (p y (attachments s !! y)) eqn:E.
    + pose proof (closeSocket_sockets y code reason s) as Hc.
      apply conn_eq in Hc as [-> ->].
      f_equal. rewrite list_filter_filter. apply list_filter_iff. intros x.
      rewrite elem_of_cons. split; [|naive_solver]. intros [Hx Hn] [[->|?] ?]; tauto.
    + f_equal. apply list_filter_iff. intros x. rewrite elem_of_cons. split; [|tauto].
      intros H [[->|?] ?]; [congruence|tauto].
Qed.

(** ** Invariants of the room alone, in every interleaving *)

Section RoomInvariant.
Context `{Crypto} `{AppAttest} (env : environment) (I : room -> Prop).

(** What the context does around every handler keeps it. *)
Record context_keeps : Prop := {
  keeps_close : forall ws code reason, within (preserving I) (ws_close ws code reason);
  keeps_remove : forall ws, within (preserving I) (remove_socket ws);
  keeps_frame : forall c, within (preserving I) (emod (set_closeFrameReceived c));
  keeps_timer : forall a, within (preserving I) (emod (set_alarmAt a));
}.

(** The handler an event runs keeps it. *)
Definition handler_keeps (now : Z) (rnd : bytes) (e : event) (w : world) : Prop :=
  match e with
  | EMessage ws f => within (preserving I) (webSocketMessage env now rnd ws f)
  | EUpgrade ws name => within (preserving I) (handleUpgrade now ws name)
  | EHttp req m p n b => within (preserving I) (handleHttp env now rnd req m p n b)
  | EResume i => forall k, pending w !! i = Some k -> within (preserving I) (resume env now rnd k)
  | EAlarm => within (preserving I) (alarm env now)
  | ECallback i => forall c, callbacks w !! i = Some c -> within (preserving I) (run_callback c)
  | ERestart => forall r, I r -> I (reload r)
  | _ => True
  end.

Context (Hctx : context_keeps).

Lemma settle_invariant k m w rest :
  within (preserving I) m -> I (rm w) -> I (rm (settle k m w rest)).
Proof.
  destruct Hctx as [Hclose _ _ _].
  intros Hm Hw. specialize (Hm (rm w) Hw). unfold settle, exec in *.
  destruct (m (rm w)) as [[s|e] r]; simpl in *; [done|].
  assert (Ht : within (preserving I) (on_throw k)).
  { unfold on_throw. destruct k as [k|e']; [destruct k|destruct e'];
      first [apply Hclose | apply within_ret; apply _]. }
  by apply Ht.
Qed.

Lemma fire_invariant now : within (preserving I) (alarm env now) -> within (preserving I) (fire env now).
Proof.
  destruct Hctx as [_ _ _ Htimer]. intros Halarm r Hr. unfold fire, exec.
  assert (Hr0 : I (set_alarmAt None r)) by (apply (Htimer None r Hr)).
  specialize (Halarm _ Hr0). unfold exec in Halarm.
  destruct (alarm env now (set_alarmAt None r)) as [[[]|e] r']; simpl in *; [done|].
  by apply (Htimer (Some (now + ALARM_RETRY_MS)) r').
Qed.

Lemma step_keeps now rnd e w w' :
  handler_keeps now rnd e w -> step env now rnd e w = Some w' -> I (rm w) -> I (rm w').
Proof.
  destruct e as [ws name|ws f|req m p n b|i| |ws code reason|ws code reason|ws msg|i|code reason|];
    cbn [step handler_keeps]; intros Hk E Hw.
  - destruct (decide _); [|done]. injection E as <-. by apply settle_invariant.
  - destruct (_ && _); [|done]. injection E as <-. by apply settle_invariant.
  - injection E as <-. by apply settle_invariant.
  - destruct (pending w !! i); [|done]. injection E as <-. apply settle_invariant; [by apply Hk|done].
  - destruct (alarmAt (rm w)) as [t|]; [|done]. simpl in E. destruct (t <=? now); [|done].
    injection E as <-. by apply fire_invariant.
  - injection E as <-. simpl. revert Hw.
    apply (within_bind (preserving I)); [|intros []; apply (keeps_close Hctx)].
    intros s Hs. by apply (keeps_frame Hctx _ s Hs).
  - injection E as <-. simpl. by apply (keeps_remove Hctx).
  - by injection E as <-.
  - destruct (callbacks w !! i) as [c|]; [|done]. simpl in E.
    destruct (busy _ _); [done|]. injection E as <-. by apply Hk.
  - injection E as <-. simpl. unfold in_room. simpl. revert Hw. unfold closeRoom.
    apply (within_bind (preserving I)); [apply within_get; apply _|]. intros l.
    apply within_foreach; [apply _|]. intros x. apply (keeps_close Hctx).
  - injection E as <-. by apply Hk.
Qed.

Lemma reachable_keeps w :
  (forall now rnd e w, handler_keeps now rnd e w) -> I (rm initial) -> reachable env w -> I (rm w).
Proof. intros Hk Hi Hr. induction Hr; [done|]. by eapply step_keeps. Qed.

Lemma run_keeps l : forall w w',
  (forall now rnd e w, handler_keeps now rnd e w) -> run env l w = Some w' -> I (rm w) -> I (rm w').
Proof.
  induction l as [|[[now rnd] e] l IH]; simpl; intros w w' Hk E Hw; [congruence|].
  destruct (step env now rnd e w) as [w1|] eqn:E1; [|done]. simpl in E.
  eapply IH; [done|exact E|]. by eapply step_keeps.
Qed.
End RoomInvariant.
