(* ===== verification/Scenario.v ===== *)
(** Concrete runs of a room, with the stand-in cryptography: a pairing in open
    mode and one under attestation, shared by the witnesses. *)

From S2P Require Import Prelude Bytes Crypto Json Transcript Storage RoomState AttestApi Room RoomSteps.

#[local] Existing Instance toy_crypto.
#[local] Existing Instance toy_attest.

Definition open_env : environment :=
  Environment (Some "false") "https://relay" None None "app" "production" None.
Definition attest_env : environment :=
  Environment None "https://relay" None None "app" "production" None.

(** A text frame; single quotes stand for double ones. *)
Definition text_frame (s : string) : frame := Frame false (requote s).

Definition room_name : string := "room".

Definition connect (t : Z) (ws : nat) (hello : string) (nonce : bytes) : list input :=
  [(t, [], EUpgrade ws room_name); (t + 1, [], EResume 0%nat); (t + 2, nonce, EMessage ws (text_frame hello))].

Definition mac_hello : string := "{'v':1,'role':'mac'}".
Definition phone_hello : string := "{'v':1,'role':'phone'}".

(** A mac parks as socket 1. *)
Definition park_mac : list input :=
  connect 1000 1 mac_hello [1; 2; 3] ++ [(1003, [], EMessage 1 (text_frame "{}"))].

(** A phone joins as socket 2 in open mode, and registers the verifier. *)
Definition pair_open : list input :=
  park_mac ++ connect 1004 2 phone_hello [4; 5; 6]
  ++ [(1007, [7; 8; 9], EMessage 2 (text_frame "{}"))].

Definition register_open : list input :=
  [(1009, [], EHttp 1 "POST" "/register" room_name
     (requote "{'registrationToken':'BwgJ','verifier':'Vw=='}"))].

(** Under attestation: a challenge (AAAA), its attestation (key id 5), a ticket
    (Dw8P), and the phone's admission on it. *)
Definition attest_ticket : list input :=
  [(1010, [0; 0; 0], EHttp 1 "POST" "/attest/challenge" room_name "");
   (1011, [], EHttp 2 "POST" "/attest" room_name
      (requote "{'challenge':'AAAA','attestationObject':'AQU='}"));
   (1012, [15; 15; 15], EResume 0%nat)].

Definition pair_attested : list input :=
  park_mac ++ attest_ticket ++ connect 1020 2 phone_hello [4; 5; 6]
  ++ [(1023, [7; 8; 9], EMessage 2 (text_frame "{'ticket':'Dw8P'}"))].

(** The observable state of a run: the live sockets and the trace. *)
Definition observe (w : option world) : option (list websocket * list output) :=
  w' ← w; Some (sockets (rm w'), trace (rm w')).

Definition run_in (env : environment) (l : list input) : option world :=
  run (H := toy_crypto) (H0 := toy_attest) env l initial.

Example pair_open_splices :
  snd <$> observe (run_in open_env (pair_open ++ [(1008, [], EMessage 2 (text_frame "abc"))]))
  = Some
    [LogLifecycle "connect" (Some "01010101") None "";
     Sent 1 (JObj [("nonce", JStr "AQID")]);
     LogLifecycle "admit" (Some "01010101") (Some mac) "via=open peer=false";
     Sent 1 (JObj [("ok", JBool true)]);
     LogLifecycle "connect" (Some "01010101") None "";
     Sent 2 (JObj [("nonce", JStr "BAUG")]);
     LogLifecycle "admit" (Some "01010101") (Some phone) "via=open peer=true (spliced)";
     Sent 2 (JObj [("ok", JBool true); ("registrationToken", JStr "BwgJ")]);
     Relayed 1 (text_frame "abc")].
Proof. vm_compute. reflexivity. Qed.

Example pair_attested_admits :
  fst <$> observe (run_in attest_env pair_attested) = Some [1%nat; 2%nat].
Proof. vm_compute. reflexivity. Qed.

(** Registration under attestation: two fresh challenges, and a registration
    with each, both suspended on [verifyAssertion]. *)
Definition register_body (verifier challenge assertion : string) : string :=
  requote ("{'registrationToken':'BwgJ','verifier':'" +:+ verifier +:+ "','challenge':'" +:+ challenge
           +:+ "','assertion':'" +:+ assertion +:+ "'}").

Definition two_registrations : list input :=
  pair_attested ++
  [(1030, [0; 0; 1], EHttp 3 "POST" "/attest/challenge" room_name "");
   (1031, [0; 0; 2], EHttp 4 "POST" "/attest/challenge" room_name "");
   (1032, [], EHttp 5 "POST" "/register" room_name (register_body "Vw==" "AAAB" "AQ=="));
   (1033, [], EHttp 6 "POST" "/register" room_name (register_body "WA==" "AAAC" "Ag=="))].

Definition register_attested : list input :=
  pair_attested ++
  [(1030, [0; 0; 1], EHttp 3 "POST" "/attest/challenge" room_name "");
   (1032, [], EHttp 5 "POST" "/register" room_name (register_body "Vw==" "AAAB" "AQ=="));
   (1034, [], EResume 0)].
