(* ===== verification/RoomSlots.v ===== *)
(** The slots of a room: one live socket per role, in every interleaving. *)

From S2P Require Import Prelude Bytes Crypto Json Transcript Storage RoomState AttestApi Room RoomSteps RoomFacts Scenario.

#[local] Open Scope eff_scope.

(** ** The invariant *)

(** No two live sockets hold the same role. *)
Definition exclusive (s : room) : Prop :=
  forall r ws1 ws2, ws1 ∈ sockets s -> ws2 ∈ sockets s ->
    admitted_as r (attachments s !! ws1) = true -> admitted_as r (attachments s !! ws2) = true ->
    ws1 = ws2.

(** Sockets only leave and nobody is admitted. *)
Definition shrinks (s s' : room) : Prop :=
  sockets s' ⊆ sockets s
  /\ forall r ws, admitted_as r (attachments s' !! ws) = true -> admitted_as r (attachments s !! ws) = true.

#[export] Instance shrinks_preorder : PreOrder shrinks.
Proof.
  split; unfold shrinks; [intros s; by split|].
  intros s1 s2 s3 [H1 H2] [H3 H4]. split; [set_solver|auto].
Qed.

Lemma shrinks_exclusive s s' : shrinks s s' -> exclusive s -> exclusive s'.
Proof. intros [Hsub Hadm] H r ws1 ws2 H1 H2 Ha1 Ha2. eapply (H r); auto. Qed.

Lemma shrinks_within {A} (m : Eff room A) : within shrinks m -> within (preserving exclusive) m.
Proof. intros Hm s Hs. eapply shrinks_exclusive; [apply Hm|exact Hs]. Qed.

Lemma conn_shrinks {A} (m : Eff room A) : within (same conn) m -> within shrinks m.
Proof.
  intros Hm s. specialize (Hm s). unfold same, conn in Hm. injection Hm as E1 E2.
  split; [by rewrite E1|]. intros r ws. by rewrite E2.
Qed.

Lemma step_storage_shrinks o : within shrinks (step_storage o).
Proof. apply conn_shrinks, step_storage_conn. Qed.

Lemma ws_close_shrinks ws code reason : within shrinks (ws_close ws code reason).
Proof.
  intros s. pose proof (ws_close_sockets ws code reason s) as E.
  apply conn_eq in E as [E1 E2]. split; [rewrite E1|intros r x; by rewrite E2].
  intros x Hx. by apply list_elem_of_filter in Hx as [_ Hx].
Qed.

Lemma serialize_shrinks ws a :
  state a <> SAdmitted -> within shrinks (serializeAttachment ws a).
Proof.
  intros Ha s. split; [done|]. intros r x. unfold exec. simpl.
  destruct (decide (ws = x)) as [->|]; [|by rewrite lookup_insert_ne].
  rewrite lookup_insert_eq. simpl. rewrite bool_decide_eq_false_2 by done. done.
Qed.

Lemma backfill_tag_shrinks ws t : within shrinks (backfill_tag ws t).
Proof.
  intros s. unfold backfill_tag, deserializeAttachment, exec, ebind, eget.
  destruct (attachments s !! ws) as [a|] eqn:E; [|done]. destruct (tag a); [done|].
  split; [done|]. intros r x. simpl. destruct (decide (ws = x)) as [->|]; [|by rewrite lookup_insert_ne].
  by rewrite lookup_insert_eq, E.
Qed.

(** The loop empties the role's slot, then the socket takes it. *)
Lemma take_slot_exclusive ws r prev : within (preserving exclusive) (take_slot ws r prev).
Proof.
  intros s Hs. unfold take_slot. erewrite exec_bind by reflexivity.
  set (f := fun other : websocket => if (other =? ws)%nat then eret tt else _).
  pose proof (close_loop_sockets (fun x a => negb (x =? ws)%nat && admitted_as r a) 1000 "displaced" (sockets s) s f)
    as Hc.
  destruct (eforeach (sockets s) f s) as [[[]|e] s1] eqn:E1.
  2:{ exfalso. revert E1. generalize (sockets s). clear. intros l. revert s.
      induction l as [|x l IH]; intros s; simpl; [done|]. unfold ebind.
      assert (exists s', f x s = (Done tt, s')) as [s' ->]; [|apply IH].
      unfold f. destruct (x =? ws)%nat; [by eexists|]. unfold ebind, deserializeAttachment, eget.
      destruct (admitted_as _ _); simpl; [rewrite closeSocket_eq|]; by eexists. }
  unfold exec in Hc. rewrite E1 in Hc. simpl in Hc. erewrite exec_bind by exact E1.
  specialize (Hc ltac:(intros x s0; unfold f; destruct (x =? ws)%nat; [done|];
    unfold ebind, deserializeAttachment, eget; simpl; destruct (admitted_as _ _); done)).
  apply conn_eq in Hc as [Hsock Hatt].
  intros r' x1 x2 H1 H2. unfold exec. simpl in *. rewrite Hsock in H1, H2. rewrite Hatt.
  apply list_elem_of_filter in H1 as [Hn1 H1], H2 as [Hn2 H2].
  assert (Hother : forall x, x ∈ sockets s -> x <> ws ->
    ~ (x ∈ sockets s /\ negb (x =? ws)%nat && admitted_as r (attachments s !! x) = true) ->
    admitted_as r (attachments s !! x) = false).
  { intros x Hx Hne Hn. destruct (admitted_as r (attachments s !! x)) eqn:Ea; [|done].
    exfalso. apply Hn. split; [done|]. rewrite (proj2 (Nat.eqb_neq x ws)) by done. done. }
  destruct (decide (ws = x1)) as [<-|N1], (decide (ws = x2)) as [<-|N2];
    rewrite ?lookup_insert_eq, ?lookup_insert_ne by done; [done| | |by apply Hs].
  - intros Ha1 Ha2. simpl in Ha1. apply bool_decide_eq_true in Ha1 as [= <-].
    rewrite Hother in Ha2 by done. done.
  - intros Ha1 Ha2. simpl in Ha2. apply bool_decide_eq_true in Ha2 as [= <-].
    rewrite Hother in Ha1 by done. done.
Qed.

Lemma remove_socket_shrinks ws : within shrinks (remove_socket ws).
Proof.
  intros s. split; [|done]. intros x Hx. by apply list_elem_of_filter in Hx as [_ Hx].
Qed.

(** ** Every handler keeps it *)

Create HintDb exclusive.
#[local] Hint Resolve take_slot_exclusive : exclusive.
#[local] Hint Extern 1 (within (preserving exclusive) _) => apply shrinks_within : exclusive.
#[local] Hint Resolve step_storage_shrinks ws_close_shrinks backfill_tag_shrinks remove_socket_shrinks : exclusive.
#[local] Hint Extern 1 (within shrinks (serializeAttachment _ _)) => apply serialize_shrinks; done : exclusive.
#[local] Hint Extern 1 (within shrinks (emod _)) => apply conn_shrinks; emod_same : exclusive.

Ltac walk_exclusive := walk ltac:(auto 3 with exclusive nocore).

Lemma closeSocket_exclusive ws c e : within (preserving exclusive) (closeSocket ws c e).
Proof. walk_exclusive. Qed.
#[local] Hint Resolve closeSocket_exclusive : exclusive.

Lemma teardownRoom_exclusive e : within (preserving exclusive) (teardownRoom e).
Proof. walk_exclusive. Qed.
#[local] Hint Resolve teardownRoom_exclusive : exclusive.

Lemma admit_exclusive now rnd ws r a via : within (preserving exclusive) (admit_socket now rnd ws r a via).
Proof. unfold admit_socket. walk_exclusive. Qed.
#[local] Hint Resolve admit_exclusive : exclusive.

Section Slots.
Context `{Crypto} `{AppAttest} (env : environment).

Lemma webSocketMessage_exclusive now rnd ws f :
  within (preserving exclusive) (webSocketMessage env now rnd ws f).
Proof. walk_exclusive. Qed.

(** A new socket is in the hello state. *)
Lemma handleUpgrade_exclusive now ws name :
  within (preserving exclusive) (handleUpgrade now ws name).
Proof.
  intros s Hs. unfold handleUpgrade, acceptWebSocket, serializeAttachment, exec, ebind, emod, eret. simpl.
  intros r x1 x2 H1 H2. simpl in *.
  assert (Hin : forall x, x ∈ (if decide (ws ∈ sockets s) then sockets s else sockets s ++ [ws]) ->
                  x = ws \/ x ∈ sockets s) by (intros x; destruct (decide _); set_solver).
  destruct (decide (ws = x1)) as [<-|N1]; [by rewrite lookup_insert_eq|].
  destruct (decide (ws = x2)) as [<-|N2]; [by rewrite lookup_insert_eq|].
  rewrite !lookup_insert_ne by done. apply Hin in H1 as [?|H1], H2 as [?|H2]; try congruence. by apply Hs.
Qed.

Lemma handleHttp_exclusive now rnd req m p n b :
  within (preserving exclusive) (handleHttp env now rnd req m p n b).
Proof. walk_exclusive. Qed.

Lemma resume_exclusive now rnd k : within (preserving exclusive) (resume env now rnd k).
Proof. walk_exclusive. Qed.

Lemma alarm_exclusive now : within (preserving exclusive) (alarm env now).
Proof. walk_exclusive. Qed.

Lemma callback_exclusive c : within (preserving exclusive) (run_callback c).
Proof. walk_exclusive. Qed.

Lemma exclusive_context : context_keeps exclusive.
Proof. split; intros; walk_exclusive. Qed.

Lemma exclusive_handlers now rnd e w : handler_keeps env exclusive now rnd e w.
Proof.
  destruct e; simpl; intros;
    first [apply webSocketMessage_exclusive | apply handleUpgrade_exclusive | apply handleHttp_exclusive
          | apply resume_exclusive | apply alarm_exclusive | apply callback_exclusive | idtac]; try done.
Qed.

Lemma reachable_exclusive w : reachable env w -> exclusive (rm w).
Proof.
  apply reachable_keeps; [apply exclusive_context|apply exclusive_handlers|].
  intros r0 ws1 ws2. simpl. set_solver.
Qed.
End Slots.

(** ** Properties *)

(** C1: at most one live socket holds each role, in every reachable state: no
    interleaving of admissions suspended on a signature check, displacements,
    evictions, timeouts, closes and restarts leaves two macs or two phones
    routable in one room. *)
Theorem one_socket_per_role `{Crypto} `{AppAttest} (env : environment) (l : list input) (w : world) :
  run env l initial = Some w -> exclusive (rm w).
Proof. intros E. by apply (reachable_exclusive env), (run_reachable env l initial), E; constructor. Qed.

(** ** Witnesses *)

Lemma one_socket_per_role_witness :
  match run_in open_env (pair_open ++ connect 1010 3 mac_hello [2] ++ [(1013, [], EMessage 3 (text_frame "{}"))]) with
  | Some w => sockets (rm w) = [2%nat; 3%nat] /\ 3%nat = 3%nat
  | None => False
  end.
Proof.
  destruct (run_in _ _) as [w|] eqn:E.
  - pose proof (one_socket_per_role (H := toy_crypto) (H0 := toy_attest) open_env _ w E) as Ht.
    revert Ht. vm_compute in E. injection E as <-. intros Ht. split; [reflexivity|].
    by apply (Ht mac 3%nat 3%nat); vm_compute; try reflexivity; right; left.
  - vm_compute in E. discriminate.
Defined.
