(* ===== verification/RoomTickets.v ===== *)
(** Single use: the pairing tickets a room mints, holds and admits on. *)

From S2P Require Import Prelude Bytes Crypto Json Transcript Storage RoomState AttestApi Room RoomSteps RoomFacts Scenario.

#[local] Open Scope eff_scope.

(** ** What is counted *)

(** An admission by ticket. *)
Definition ticket_admission (o : output) : bool :=
  match o with
  | LogLifecycle event _ _ extra => String.eqb event "admit" && starts_with "via=ticket" extra
  | _ => false
  end.

(** A reply that hands out a ticket. *)
Definition ticket_minted (o : output) : bool :=
  match o with
  | Replied _ 200 (JObj [_; (k, JStr _)]) => String.eqb k "ticket"
  | _ => false
  end.

Definition ticket_key (k : string) : bool := starts_with "ticket:" k.

(** The tickets in store. *)
Definition tickets (s : room) : nat :=
  size (filter (fun p : string * value => ticket_key p.1 = true) (kv (storage s))).

(** Admissions, stored tickets and [n] are covered by the tickets minted. *)
Definition covered (n : Z) (s : room) : Prop :=
  Z.of_nat (countb ticket_admission (trace s)) + Z.of_nat (tickets s) + n
  <= Z.of_nat (countb ticket_minted (trace s)).

(** ** Lemmas *)

Section Count.
Implicit Types m : gmap string value.

Lemma tickets_insert_other m k v :
  ticket_key k = false ->
  filter (fun p : string * value => ticket_key p.1 = true) (<[k := v]> m)
  = filter (fun p : string * value => ticket_key p.1 = true) m.
Proof.
  intros Hk. apply map_eq. intros k'. apply option_eq. intros v'.
  rewrite !map_lookup_filter_Some. simpl. destruct (decide (k = k')) as [->|Hne].
  - rewrite lookup_insert_eq. naive_solver congruence.
  - by rewrite lookup_insert_ne.
Qed.

Lemma tickets_insert_le m k v :
  (size (filter (fun p : string * value => ticket_key p.1 = true) (<[k := v]> m))
   <= S (size (filter (fun p : string * value => ticket_key p.1 = true) m)))%nat.
Proof.
  destruct (ticket_key k) eqn:E; [|by rewrite tickets_insert_other by done; apply Nat.le_succ_diag_r].
  rewrite map_filter_insert. simpl. rewrite decide_True by done.
  rewrite map_size_insert. destruct (_ !! k); [apply Nat.le_succ_diag_r|reflexivity].
Qed.

Lemma tickets_delete m k :
  size (filter (fun p : string * value => ticket_key p.1 = true) (delete k m))
  = match m !! k with
    | Some _ => if ticket_key k
                then pred (size (filter (fun p : string * value => ticket_key p.1 = true) m))
                else size (filter (fun p : string * value => ticket_key p.1 = true) m)
    | None => size (filter (fun p : string * value => ticket_key p.1 = true) m)
    end.
Proof.
  rewrite map_filter_delete, map_size_delete.
  assert (E : filter (fun p : string * value => ticket_key p.1 = true) m !! k
              = if ticket_key k then m !! k else None).
  { apply option_eq. intros v. rewrite map_lookup_filter_Some. simpl.
    destruct (ticket_key k); naive_solver. }
  rewrite E. destruct (m !! k), (ticket_key k); simpl; lia.
Qed.
End Count.

Lemma covered_weaken n m s : m <= n -> covered n s -> covered m s.
Proof. unfold covered. lia. Qed.

Lemma covered_push n o s :
  covered n s ->
  covered (n - (if ticket_admission o then 1 else 0) + (if ticket_minted o then 1 else 0)) (push o s).
Proof.
  unfold covered, tickets. intros Hs. change (trace (push o s)) with (trace s ++ [o]).
  change (storage (push o s)) with (storage s).
  rewrite !countb_app. simpl. destruct (ticket_admission o), (ticket_minted o); lia.
Qed.

(** Actions that neither admit_socket on a ticket nor hand one out or store one. *)
Lemma push_covered n o :
  ticket_admission o = false -> ticket_minted o = false -> within (preserving (covered n)) (emod (push o)).
Proof.
  intros Ha Hm s Hs. unfold exec. simpl. apply (covered_push n o) in Hs. rewrite Ha, Hm in Hs.
  by replace (n - 0 + 0) with n in Hs by lia.
Qed.

(** A storage operation that stores no ticket. *)
Definition no_ticket_put (o : op value) : bool :=
  match o with Put k _ => negb (ticket_key k) | _ => true end.

Lemma step_storage_covered n o : no_ticket_put o = true -> within (preserving (covered n)) (step_storage o).
Proof.
  intros Ho s Hs. unfold exec, step_storage, covered, tickets in *.
  destruct o as [k|k v|k| |p| |t|]; simpl in *; try done.
  - rewrite tickets_insert_other by (by apply negb_true_iff in Ho). done.
  - rewrite tickets_delete. destruct (kv (storage s) !! k); [|done]. destruct (ticket_key k); lia.
  - rewrite map_filter_empty, map_size_empty. lia.
Qed.

Lemma other_covered n f :
  (forall s, trace (f s) = trace s /\ storage (f s) = storage s) -> within (preserving (covered n)) (emod f).
Proof.
  intros Hf s Hs. unfold exec, covered, tickets in *. simpl. destruct (Hf s) as [-> ->]. done.
Qed.

Create HintDb tickets.
#[local] Hint Extern 1 (within (preserving (covered _)) (emod (push _))) =>
  apply push_covered; reflexivity : tickets.
#[local] Hint Extern 1 (within (preserving (covered _)) (step_storage _)) =>
  apply step_storage_covered; reflexivity : tickets.
#[local] Hint Extern 1 (within (preserving (covered _)) (serializeAttachment _ _)) =>
  apply other_covered; intros; split; reflexivity : tickets.
#[local] Hint Extern 1 (within (preserving (covered _)) (acceptWebSocket _)) =>
  apply other_covered; intros; split; reflexivity : tickets.
#[local] Hint Extern 1 (within (preserving (covered _)) (remove_socket _)) =>
  apply other_covered; intros; split; reflexivity : tickets.

Ltac walk_covered := walk ltac:(auto 2 with tickets nocore);
  try (apply other_covered; intros; split_goal; split; reflexivity).

Lemma closeSocket_covered n ws c e : within (preserving (covered n)) (closeSocket ws c e).
Proof. walk_covered. Qed.
#[local] Hint Resolve closeSocket_covered : tickets.

Lemma teardownRoom_covered n e : within (preserving (covered n)) (teardownRoom e).
Proof. walk_covered. Qed.
#[local] Hint Resolve teardownRoom_covered : tickets.

Lemma ensureAlarm_covered n now : within (preserving (covered n)) (ensureAlarm now).
Proof. walk_covered. Qed.
#[local] Hint Resolve ensureAlarm_covered : tickets.

Lemma admit_gate_covered n ws r prev : within (preserving (covered n)) (admit_gate ws r prev).
Proof. walk_covered. Qed.

Lemma take_slot_covered n ws r prev : within (preserving (covered n)) (take_slot ws r prev).
Proof. walk_covered. Qed.
#[local] Hint Resolve admit_gate_covered take_slot_covered : tickets.

(** An admission by another way. *)
Lemma admit_covered n now rnd ws r a via :
  starts_with "ticket" via = false -> (forall t, starts_with "ticket" (via +:+ t) = false) ->
  within (preserving (covered n)) (admit_socket now rnd ws r a via).
Proof.
  intros _ Hvia. walk_covered;
    apply push_covered; try reflexivity; unfold admit_line, ticket_admission;
    change (starts_with "via=ticket" ("via=" +:+ ?x)) with (starts_with "ticket" x); by rewrite ?Hvia.
Qed.
#[local] Hint Extern 1 (within (preserving (covered _)) (admit_socket _ _ _ _ _ ?via)) =>
  apply admit_covered; reflexivity : tickets.

(** A step that keeps what is covered, on the way to spending one. *)
Lemma covered_step {A} (m : Eff room A) :
  within (preserving (covered 1)) m -> hoare (covered 1) m (fun _ => covered 1) (covered 0).
Proof.
  intros Hm. eapply hoare_weaken; [by apply hoare_within|done|done|].
  intros s. apply covered_weaken. lia.
Qed.

(** An admission spends one of the tickets minted. *)
Lemma admit_ticket now rnd ws r a :
  hoare (covered 1) (admit_socket now rnd ws r a "ticket") (fun _ => covered 0) (covered 0).
Proof.
  unfold admit_socket.
  eapply hoare_bind; [apply covered_step, within_get; apply _|]. intros prev. cbv zeta beta.
  eapply hoare_bind; [apply covered_step, admit_gate_covered|]. intros go. cbv beta.
  destruct go; simpl; [|apply hoare_ret; intros s; apply covered_weaken; lia].
  eapply hoare_bind; [apply covered_step, take_slot_covered|]. intros u. cbv beta.
  eapply hoare_bind; [apply covered_step, within_get; apply _|]. intros peer. cbv beta.
  eapply hoare_bind with (Q := fun _ => covered 0).
  { apply hoare_mod. intros s Hs. eapply covered_weaken; [|apply covered_push, Hs]. by destruct peer. }
  intros v. apply hoare_within. destruct (bool_decide (r = phone)); walk_covered.
Qed.

Section Tickets.
Context `{Crypto} `{AppAttest} (env : environment).

(** Consuming a stored ticket gives back one of the minted ones. *)
Lemma redeem_ticket_covered now rnd ws r ticket rec :
  within (preserving (covered 0)) (redeem_ticket now rnd ws r ("ticket:" +:+ ticket) rec).
Proof.
  apply within_hoare. eapply hoare_bind with (Q := fun consumed : bool => covered (if consumed then 1 else 0)).
  - intros s Hs. unfold sdelete, step_storage, ebind, eret. simpl.
    unfold covered, tickets in *. simpl. rewrite tickets_delete.
    destruct (kv (storage s) !! ("ticket:" +:+ ticket)) as [v|] eqn:E.
    + rewrite bool_decide_eq_true_2 by done. change (ticket_key ("ticket:" +:+ ticket)) with true. simpl.
      assert (size (filter (fun p : string * value => ticket_key p.1 = true) (kv (storage s))) <> 0%nat); [|lia].
      intros Hz. apply map_size_empty_iff in Hz.
      assert (Hn : filter (fun p : string * value => ticket_key p.1 = true) (kv (storage s))
                   !! ("ticket:" +:+ ticket) = Some v) by (by apply map_lookup_filter_Some).
      by rewrite Hz in Hn.
    + rewrite bool_decide_eq_false_2 by (by intros []). lia.
  - intros [|]; simpl.
    + apply admit_ticket.
    + apply hoare_within. walk_covered.
Qed.

#[local] Hint Resolve redeem_ticket_covered : tickets.

Lemma handleProof_covered now rnd ws a f :
  within (preserving (covered 0)) (handleProof env now rnd ws a f).
Proof. unfold handleProof. walk_covered. Qed.
#[local] Hint Resolve handleProof_covered : tickets.

Lemma webSocketMessage_covered now rnd ws f :
  within (preserving (covered 0)) (webSocketMessage env now rnd ws f).
Proof. walk_covered. Qed.

(** A ticket is stored, then handed out. *)
Lemma handleAttest_resume_covered now rnd req c o :
  within (preserving (covered 0)) (handleAttest_resume env now rnd req c o).
Proof.
  unfold handleAttest_resume. cbv zeta. destruct (match b64ToBytes o with Some _ => _ | None => _ end); [|walk_covered].
  apply within_hoare. eapply hoare_bind with (Q := fun _ => covered (-1)).
  - intros s Hs. unfold sput, step_storage, ebind, eret. simpl. unfold covered, tickets in *. simpl.
    pose proof (tickets_insert_le (kv (storage s)) ("ticket:" +:+ b64 rnd)
      (VTicket (now + TICKET_TTL_MS) (b64 (keyId a)) (b64 (publicKeyRaw a)))). lia.
  - intros _. eapply hoare_bind with (Q := fun _ => covered (-1)).
    + intros s Hs. pose proof (ensureAlarm_covered (-1) now s Hs) as Hc. pose proof (ensureAlarm_done now s) as Hd.
      unfold exec in Hc. destruct (ensureAlarm now s) as [[[]|e] s']; [exact Hc|done].
    + intros _. apply hoare_mod. intros s Hs. eapply covered_weaken; [|apply covered_push, Hs]. done.
Qed.
#[local] Hint Resolve handleAttest_resume_covered : tickets.

Lemma handleHttp_covered now rnd req m p n b :
  within (preserving (covered 0)) (handleHttp env now rnd req m p n b).
Proof. walk_covered. Qed.

Lemma resume_covered now rnd k : within (preserving (covered 0)) (resume env now rnd k).
Proof. walk_covered. Qed.

Lemma covered_context : context_keeps (covered 0).
Proof. split; intros; walk_covered. Qed.

Lemma covered_handlers now rnd e w : handler_keeps env (covered 0) now rnd e w.
Proof.
  destruct e; simpl; intros;
    first [apply webSocketMessage_covered | apply handleHttp_covered | apply resume_covered | done
          | walk_covered].
Qed.

Lemma reachable_covered w : reachable env w -> covered 0 (rm w).
Proof. apply reachable_keeps; [apply covered_context|apply covered_handlers|done]. Qed.
End Tickets.

(** ** Properties *)

(** C3: tickets are single use: in every reachable state, whatever interleaving
    of sockets, requests, alarms and restarts led to it, the phones admitted
    on a ticket and the tickets still stored are no more than the tickets the
    room handed out. *)
Theorem tickets_single_use `{Crypto} `{AppAttest} (env : environment) (l : list input) (w : world) :
  run env l initial = Some w ->
  (countb ticket_admission (trace (rm w)) + tickets (rm w) <= countb ticket_minted (trace (rm w)))%nat.
Proof.
  intros E. pose proof (run_reachable env l initial w (reach_initial env) E) as Hr.
  apply reachable_covered in Hr. unfold covered in Hr. lia.
Qed.

(** ** Witnesses *)

Lemma tickets_single_use_witness :
  match run_in attest_env pair_attested with
  | Some w => (countb ticket_admission (trace (rm w)) = 1 /\ 1 + tickets (rm w) <= 1)%nat
  | None => False
  end.
Proof.
  destruct (run_in attest_env pair_attested) as [w|] eqn:E.
  - pose proof (tickets_single_use (H := toy_crypto) (H0 := toy_attest) attest_env pair_attested w E) as Ht.
    revert Ht. vm_compute in E. injection E as <-. vm_compute. auto.
  - vm_compute in E. discriminate.
Defined.
