(* ===== verification/RoomLimits.v ===== *)
(** The room's limits: the fixed-window rate limiter, the daily byte quota, the
    cap on un-admitted sockets, and where a spliced frame may go. *)

From S2P Require Import Prelude Bytes Crypto Json Transcript Storage RoomState AttestApi Room RoomSteps RoomFacts Scenario.

#[local] Open Scope eff_scope.

(** ** The rate limiter *)

(** The verdicts (true: passed) of calls at the given times. *)
Fixpoint limiter_run (w : window) (max windowMs : Z) (times : list Z) : list bool :=
  match times with
  | [] => []
  | t :: times' =>
      let w' := bump_window w windowMs t in
      (wcount w' <=? max) :: limiter_run w' max windowMs times'
  end.

Definition passed (l : list bool) : nat := countb id l.

(** [rateLimited] is that verdict, and that window. *)
Lemma rateLimited_limiter get_w set_w max windowMs now s :
  (forall w s, get_w (set_w w s) = w) ->
  rateLimited get_w set_w max windowMs now s
  = (Done (negb (wcount (bump_window (get_w s) windowMs now) <=? max)),
     set_w (bump_window (get_w s) windowMs now) s).
Proof.
  intros Hget. unfold rateLimited, ebind, emod, eget. rewrite Hget. by rewrite <-Z.ltb_antisym.
Qed.

(** Within one window no call past the budget left gets through. *)
Lemma limiter_one_window w max windowMs times :
  Forall (fun t => t - wstart w <= windowMs) times ->
  Z.of_nat (passed (limiter_run w max windowMs times)) <= Z.max 0 (max - wcount w).
Proof.
  revert w. induction times as [|t times IH]; intros w Hall; simpl; [unfold passed; simpl; lia|].
  apply Forall_cons in Hall as [Ht Hall].
  assert (E : bump_window w windowMs t = Window (wstart w) (wcount w + 1)).
  { unfold bump_window. by rewrite (proj2 (Z.ltb_ge _ _)) by lia. }
  rewrite E. specialize (IH (Window (wstart w) (wcount w + 1)) Hall). simpl in *.
  unfold passed in *. simpl. destruct (Z.leb_spec (wcount w + 1) max); simpl; lia.
Qed.

(** Over any span of one window length, at most two budgets. *)
Lemma limiter_two_windows w max windowMs t0 times :
  0 <= max -> 0 <= wcount w -> 0 <= windowMs -> StronglySorted Z.le times ->
  Forall (fun t => t0 <= t <= t0 + windowMs) times ->
  Z.of_nat (passed (limiter_run w max windowMs times)) <= Z.max 0 (max - wcount w) + max.
Proof.
  intros Hmax Hw0 Hms. revert w Hw0. induction times as [|t times IH]; intros w Hw0 Hs Hall; simpl; [unfold passed; simpl; lia|].
  apply StronglySorted_inv in Hs as [Hs Hle]. apply Forall_cons in Hall as [Ht Hall].
  destruct (Z.ltb_spec windowMs (t - wstart w)).
  - assert (E : bump_window w windowMs t = Window t 1) by (unfold bump_window; by rewrite (proj2 (Z.ltb_lt _ _))).
    rewrite E. pose proof (limiter_one_window (Window t 1) max windowMs times) as Ho. simpl in Ho.
    assert (Hin : Forall (fun t' => t' - t <= windowMs) times).
    { rewrite Forall_forall in *. intros t' Hin. specialize (Hle t' Hin). specialize (Hall t' Hin). lia. }
    specialize (Ho Hin). unfold passed in *. simpl. destruct (Z.leb_spec 1 max); simpl; lia.
  - assert (E : bump_window w windowMs t = Window (wstart w) (wcount w + 1))
      by (unfold bump_window; by rewrite (proj2 (Z.ltb_ge _ _))).
    rewrite E. specialize (IH (Window (wstart w) (wcount w + 1)) ltac:(simpl; lia) Hs Hall). simpl in *.
    unfold passed in *. simpl. destruct (Z.leb_spec (wcount w + 1) max); simpl; lia.
Qed.

(** ** The daily quota *)

(** A relayed frame, or a restart of the context. *)
Inductive quota_op : Type := QFrame (now size : Z) | QReload.

(** The bytes that got through. *)
Fixpoint quota_run (env : environment) (l : list quota_op) (s : room) : Z :=
  match l with
  | [] => 0
  | QFrame now size :: l' =>
      match overQuota env now size s with
      | (Done over, s') => (if over : bool then 0 else size) + quota_run env l' s'
      | (Throw _, s') => quota_run env l' s'
      end
  | QReload :: l' => quota_run env l' (reload s)
  end.

Definition reloads (l : list quota_op) : nat :=
  countb (fun o => match o with QReload => true | _ => false end) l.

Definition stored_quota (s : room) : option quota_rec :=
  match kv (storage s) !! "quota" with Some (VQuota d b) => Some (Quota d b) | _ => None end.

Definition stored_bytes (s : room) : Z := match stored_quota s with Some q => qbytes q | None => 0 end.

(** The bytes counted so far. *)
Definition counted (s : room) : Z :=
  match quota s with Some q => qbytes q | None => stored_bytes s end.

(** The store misses less than a flush interval of what is counted, and no
    record is older than [t0]. *)
Record quota_inv (t0 : Z) (s : room) : Prop := {
  qi_stored : forall q, stored_quota s = Some q -> t0 <= dayStart q;
  qi_nonneg : 0 <= stored_bytes s;
  qi_memory : forall q, quota s = Some q ->
    t0 <= dayStart q /\ quotaFlushedBytes s <= stored_bytes s
    /\ stored_bytes s <= qbytes q < stored_bytes s + QUOTA_FLUSH_BYTES;
}.

Lemma reload_quota t0 s : quota_inv t0 s ->
  quota_inv t0 (reload s) /\ counted s < counted (reload s) + QUOTA_FLUSH_BYTES.
Proof.
  intros [Hs Hn Hm]. split; [by split|]. unfold counted. change (quota (reload s)) with (@None quota_rec).
  change (stored_bytes (reload s)) with (stored_bytes s).
  destruct (quota s) as [q|] eqn:E; [destruct (Hm q eq_refl) as (? & ? & ?); lia|].
  unfold QUOTA_FLUSH_BYTES. lia.
Qed.

Lemma load_quota_inv t0 now s :
  t0 <= now -> quota_inv t0 s ->
  exists q s', load_quota now s = (Done tt, s') /\ quota s' = Some q /\ qbytes q = counted s
    /\ quota_inv t0 s'.
Proof.
  intros Hnow [Hs Hn Hm]. unfold load_quota, ebind, eget. destruct (quota s) as [q|] eqn:E.
  - exists q, s. unfold counted. rewrite E. split_and!; [done|done|done|split; [done|done|by rewrite E]].
  - unfold sget, step_storage, ebind, eret, emod. simpl. eexists _, _. split_and!; [done|done| |].
    + unfold counted, stored_bytes, stored_quota. rewrite E. by destruct (kv (storage s) !! "quota") as [[]|].
    + unfold stored_bytes, stored_quota in *. split; unfold stored_bytes, stored_quota; simpl in *; [done|done|].
      intros q [= <-]. destruct (kv (storage s) !! "quota") as [[]|]; simpl in *;
        unfold QUOTA_FLUSH_BYTES; split_and!; try lia. apply (Hs _ eq_refl).
Qed.

Lemma close_all_quota l code reason s :
  exists s', eforeach l (fun ws => closeSocket ws code reason) s = (Done tt, s')
    /\ storage s' = storage s /\ quota s' = quota s /\ quotaFlushedBytes s' = quotaFlushedBytes s.
Proof.
  revert s. induction l as [|x l IH]; intros s; [by eexists|]. simpl. unfold ebind.
  rewrite closeSocket_eq. destruct (IH (exec (ws_close x code reason)
    (push (LogDisconnect by_relay (attachments s !! x) (Some code) (Some reason)) s))) as (s' & E & E1 & E2 & E3).
  exists s'. rewrite E, E1, E2, E3. split; [done|]. unfold ws_close, remove_socket, exec, ebind, emod. simpl. by destruct (decide _).
Qed.

(** One frame within the day: it gets through exactly when the total stays
    within the limit. *)
Lemma overQuota_inv env t0 now size s :
  t0 <= now < t0 + QUOTA_WINDOW_MS -> 0 <= size -> quota_inv t0 s ->
  exists s', overQuota env now size s = (Done (daily_quota env <? counted s + size), s')
    /\ counted s' = counted s + size /\ quota_inv t0 s'.
Proof.
  intros Hnow Hsize Hinv. destruct (load_quota_inv t0 now s ltac:(lia) Hinv) as (q & s1 & E1 & Eq & Hc & Hinv1).
  unfold overQuota. rewrite <-Hc. unfold ebind at 1. rewrite E1. destruct Hinv1 as [Hs Hn Hm].
  destruct (Hm q Eq) as (Hq0 & Hq1 & Hq2).
  assert (E2 : roll_quota now s1 = (Done tt, s1)).
  { unfold roll_quota, ebind, eget. rewrite Eq. simpl. by rewrite (proj2 (Z.leb_gt _ _)) by lia. }
  unfold ebind at 1. rewrite E2. unfold ebind at 1, eget at 1. rewrite Eq. cbn [default dayStart qbytes from_option id].
  unfold ebind at 1, emod at 1.
  destruct (daily_quota env <? qbytes q + size) eqn:El.
  - unfold ebind, getWebSockets, eget, sput, step_storage, ebind, eret. simpl.
    edestruct close_all_quota as (s' & -> & Est & Eqq & Efl). exists s'. split; [done|].
    unfold counted, stored_bytes, stored_quota in *. rewrite Eqq. simpl. split; [done|].
    split; unfold stored_bytes, stored_quota; rewrite ?Est, ?Eqq, ?Efl; simpl; rewrite lookup_insert_eq; simpl.
    + by intros q' [= <-].
    + lia.
    + intros q' [= <-]. simpl. unfold QUOTA_FLUSH_BYTES. lia.
  - unfold ebind, eget, ewhen, emod, sput, step_storage, ebind, eret. simpl.
    destruct (QUOTA_FLUSH_BYTES <=? qbytes q + size - quotaFlushedBytes s1) eqn:Ef; simpl.
    + eexists. split; [done|]. split; [done|].
      split; unfold stored_bytes, stored_quota; simpl; rewrite lookup_insert_eq; simpl.
      * by intros q' [= <-].
      * unfold stored_bytes, stored_quota in *. lia.
      * intros q' [= <-]. simpl. unfold QUOTA_FLUSH_BYTES. lia.
    + eexists. split; [done|]. split; [done|]. unfold stored_bytes, stored_quota in *. to_prop.
      split; unfold stored_bytes, stored_quota; simpl; [done|done|]. intros q' [= <-]. simpl. lia.
Qed.

Lemma quota_run_bound env t0 l : forall s,
  quota_inv t0 s ->
  Forall (fun o => match o with QFrame now size => t0 <= now < t0 + QUOTA_WINDOW_MS /\ 0 <= size | QReload => True end) l ->
  quota_run env l s
  <= Z.max 0 (daily_quota env - counted s) + Z.of_nat (reloads l) * QUOTA_FLUSH_BYTES.
Proof.
  induction l as [|o l IH]; intros s Hinv Hall; [unfold reloads; simpl; lia|].
  apply Forall_cons in Hall as [Ho Hall]. destruct o as [now size|]; cbn [quota_run].
  - destruct Ho as [Hnow Hsize].
    destruct (overQuota_inv env t0 now size s Hnow Hsize Hinv) as (s' & -> & Hc & Hinv').
    specialize (IH s' Hinv' Hall). rewrite Hc in IH. unfold reloads in *. simpl.
    destruct (Z.ltb_spec (daily_quota env) (counted s + size)); lia.
  - destruct (reload_quota t0 s Hinv) as [Hinv' Hc]. specialize (IH (reload s) Hinv' Hall).
    unfold reloads in *. cbn [countb]. unfold QUOTA_FLUSH_BYTES in *. lia.
Qed.

(** ** Un-admitted sockets *)

(** The pre-auth list without its sorting. *)
Definition pre_auth_of (m : gmap nat attachment) (l : list nat) : list (nat * attachment) :=
  omap (fun ws => a ← m !! ws; if bool_decide (state a = SAdmitted) then None else Some (ws, a)) l.

Lemma eforeach_map {A B} (g : A -> B) l (f : B -> Eff room unit) :
  eforeach (map g l) f = eforeach l (fun x => f (g x)).
Proof. induction l as [|x l IH]; simpl; [done|by rewrite IH]. Qed.

Lemma pre_auth_of_filter m l (out : list nat) :
  pre_auth_of m (filter (fun x => x ∉ out) l) = filter (fun x => x.1 ∉ out) (pre_auth_of m l).
Proof.
  induction l as [|ws l IH]; [done|]. unfold pre_auth_of in *. rewrite filter_cons.
  destruct (decide (ws ∉ out)) as [Hin|Hin]; cbn [omap list_omap].
  - rewrite IH. destruct (m !! ws) as [a|]; simpl; [|done].
    destruct (bool_decide (state a = SAdmitted)); [done|]. by rewrite filter_cons_True.
  - rewrite IH. destruct (m !! ws) as [a|]; simpl; [|done].
    destruct (bool_decide (state a = SAdmitted)); [done|]. by rewrite filter_cons_False.
Qed.

Lemma elem_of_pre_auth_of m l ws a :
  (ws, a) ∈ pre_auth_of m l <-> ws ∈ l /\ m !! ws = Some a /\ state a <> SAdmitted.
Proof.
  unfold pre_auth_of. rewrite list_elem_of_omap. split.
  - intros (x & Hx & E). destruct (m !! x) as [b|] eqn:Em; [|done]. simpl in E.
    case_bool_decide; [done|]. by injection E as -> ->.
  - intros (Hin & Hm & Hs). exists ws. split; [done|]. rewrite Hm. simpl. by rewrite bool_decide_eq_false_2.
Qed.

Lemma evict_conn s :
  conn (exec evictExcessPreAuth s)
  = (filter (fun x => x ∉ map fst (take (length (pre_auth s) - MAX_PREAUTH_SOCKETS) (pre_auth s))) (sockets s),
     attachments s).
Proof.
  unfold evictExcessPreAuth. erewrite exec_bind by reflexivity.
  rewrite <-(eforeach_map fst _ (fun ws => closeSocket ws 1008 "too many pending")).
  rewrite (close_loop_sockets (fun _ _ => true) 1008 "too many pending");
    [|intros x s0; by rewrite closeSocket_eq].
  f_equal. apply list_filter_iff. intros x. tauto.
Qed.

Instance older_total : Total older.
Proof. intros x y. unfold older. lia. Qed.
Instance older_trans : Transitive older.
Proof. intros x y z. unfold older. lia. Qed.

Lemma pre_auth_perm s : pre_auth s ≡ₚ pre_auth_of (attachments s) (sockets s).
Proof. apply merge_sort_Permutation. Qed.

Lemma evict_pre_auth s :
  pre_auth (exec evictExcessPreAuth s)
  ≡ₚ filter (fun x => x.1 ∉ map fst (take (length (pre_auth s) - MAX_PREAUTH_SOCKETS) (pre_auth s))) (pre_auth s).
Proof.
  rewrite pre_auth_perm. pose proof (evict_conn s) as E. apply conn_eq in E as [-> ->].
  rewrite pre_auth_of_filter. apply filter_Permutation. symmetry. apply pre_auth_perm.
Qed.

Lemma filter_not_taken (l : list (nat * attachment)) k :
  filter (fun x => x.1 ∉ map fst (take k l)) l ⊆+ drop k l.
Proof.
  assert (E : filter (fun x => x.1 ∉ map fst (take k l)) l
    = filter (fun x => x.1 ∉ map fst (take k l)) (take k l)
      ++ filter (fun x => x.1 ∉ map fst (take k l)) (drop k l)) by (by rewrite <-filter_app, take_drop).
  rewrite E. clear E.
  assert (filter (fun x : nat * attachment => x.1 ∉ map fst (take k l)) (take k l) = []) as ->.
  { assert (H : forall l', (forall x, x ∈ l' -> x ∈ take k l) ->
      filter (fun x : nat * attachment => x.1 ∉ map fst (take k l)) l' = []).
    { induction l' as [|x l' IH]; intros H; [done|]. rewrite filter_cons_False.
      - apply IH. intros y Hy. apply H. by right.
      - intros Hn. apply Hn. apply list_elem_of_fmap. exists x. split; [done|]. apply H. by left. }
    by apply H. }
  simpl. apply sublist_submseteq. induction (drop k l) as [|x l' IH]; [done|].
  rewrite filter_cons. case_decide; by constructor.
Qed.

(** ** Forwarding *)

(** The frames relayed so far. *)
Definition relayed (s : room) : list (nat * frame) :=
  omap (fun o => match o with Relayed ws m => Some (ws, m) | _ => None end) (trace s).

Lemma push_relayed o :
  match o with Relayed _ _ => False | _ => True end -> within (same relayed) (emod (push o)).
Proof.
  intros Ho s. unfold same, exec, relayed. simpl. rewrite omap_app. destruct o; try done; by rewrite app_nil_r.
Qed.

Lemma relayed_push peer f s : relayed (push (Relayed peer f) s) = relayed s ++ [(peer, f)].
Proof. unfold relayed. simpl. by rewrite omap_app. Qed.

Lemma step_storage_relayed o : within (same relayed) (step_storage o).
Proof. intros s. unfold same, exec, step_storage. by destruct (room_step (storage s) o). Qed.

Create HintDb relayed.
#[local] Hint Extern 1 (within (same relayed) (emod (push _))) => apply push_relayed; exact I : relayed.
#[local] Hint Resolve step_storage_relayed : relayed.

Ltac walk_relayed := walk ltac:(auto 2 with relayed nocore);
  try (lazymatch goal with |- within _ (emod _) => intros ?; unfold same, exec, emod; cbn [snd]; try case_decide; reflexivity end).

Lemma closeSocket_relayed ws c e : within (same relayed) (closeSocket ws c e).
Proof. walk_relayed. Qed.
#[local] Hint Resolve closeSocket_relayed : relayed.

Lemma teardownRoom_relayed e : within (same relayed) (teardownRoom e).
Proof. walk_relayed. Qed.
#[local] Hint Resolve teardownRoom_relayed : relayed.

Lemma admit_relayed now rnd ws r a via : within (same relayed) (admit_socket now rnd ws r a via).
Proof. walk_relayed. Qed.
#[local] Hint Resolve admit_relayed : relayed.

Lemma overQuota_relayed env now size : within (same relayed) (overQuota env now size).
Proof. walk_relayed. Qed.
#[local] Hint Resolve overQuota_relayed : relayed.

(** The live socket a frame from [ws] goes to. *)
Definition splice_peer (s : room) (ws : nat) (a : attachment) : option nat :=
  List.find (fun peer => negb (peer =? ws)%nat && admitted_other (srole a) (attachments s !! peer)) (sockets s).

Lemma forward_to_spec l ws a m s :
  forward_to l ws a m s
  = (Done tt, match List.find (fun peer => negb (peer =? ws)%nat
                && admitted_other (srole a) (attachments s !! peer)) l with
              | Some peer => push (Relayed peer m) s
              | None => s
              end).
Proof.
  induction l as [|p l IH]; [done|]. cbn [forward_to List.find].
  destruct (p =? ws)%nat; cbn [negb andb]; [exact IH|].
  unfold ebind, deserializeAttachment, eget. by destruct (admitted_other _ _).
Qed.

Lemma forward_spec ws a m s :
  forward ws a m s = (Done tt, match splice_peer s ws a with
                               | Some peer => push (Relayed peer m) s
                               | None => s
                               end).
Proof. apply forward_to_spec. Qed.


(** Charging a frame that gets through moves no connection. *)
Lemma overQuota_conn env now size s s' :
  overQuota env now size s = (Done false, s') -> conn s' = conn s.
Proof.
  assert (Hload : within (same conn) (load_quota now)) by walk_same.
  assert (Hroll : within (same conn) (roll_quota now)) by walk_same.
  unfold overQuota. intros E. unfold ebind at 1 in E. specialize (Hload s). unfold exec in Hload.
  destruct (load_quota now s) as [[[]|e] s1]; [|done].
  unfold ebind at 1 in E. specialize (Hroll s1). unfold exec in Hroll.
  destruct (roll_quota now s1) as [[[]|e] s2]; [|done]. simpl in Hload, Hroll. unfold same in *.
  unfold ebind at 1, eget at 1 in E. unfold ebind at 1, emod at 1 in E.
  destruct (daily_quota env <? _).
  - exfalso. revert E. unfold ebind, getWebSockets, eget, sput, step_storage, ebind, eret. simpl.
    edestruct close_all_quota as (s3 & -> & _). done.
  - assert (Hrest : forall (b : bool) q f (v : value) s3,
      conn (exec (ewhen b (emod (set_quota q f) ;;; sput "quota" v)) s3) = conn s3).
    { intros b q f v s3. apply (within_when (same conn) b). walk_same. }
    revert E. set (s3 := set_quota _ _ s2). unfold ebind at 1, eget at 1.
    pose proof (Hrest (QUOTA_FLUSH_BYTES <=? qbytes (default (Quota now 0) (quota s2)) + size - quotaFlushedBytes s3)
      (Some (Quota (dayStart (default (Quota now 0) (quota s2))) (qbytes (default (Quota now 0) (quota s2)) + size)))
      (qbytes (default (Quota now 0) (quota s2)) + size)
      (VQuota (dayStart (default (Quota now 0) (quota s2))) (qbytes (default (Quota now 0) (quota s2)) + size)) s3) as Hr.
    unfold ebind at 1. unfold exec in Hr. simpl in *. destruct (ewhen _ _ s3) as [[[]|e] s4]; [|done].
    simpl in *. intros [= <-]. rewrite Hr. unfold s3. rewrite <-Hload, <-Hroll. done.
Qed.

Section Splice.
Context `{Crypto} `{AppAttest} (env : environment).

Lemma relayed_preserving {A} (m : Eff room A) R :
  within (same relayed) m -> within (preserving (fun s => relayed s = R)) m.
Proof. intros Hm s <-. apply Hm. Qed.

Lemma handleProof_relayed now rnd ws a f : within (same relayed) (handleProof env now rnd ws a f).
Proof. walk_relayed. Qed.

Lemma within_exec {A} (m : Eff room A) s : within (same relayed) m -> relayed (exec m s) = relayed s.
Proof. intros Hm. apply Hm. Qed.

(** A frame from an admitted socket: relayed to its peer, or not at all. *)
Lemma message_relayed now rnd ws f s :
  match attachments s !! ws with
  | Some a =>
      if bool_decide (state a = SAdmitted) then
        relayed (exec (webSocketMessage env now rnd ws f) s) = relayed s
        \/ exists peer, splice_peer s ws a = Some peer
             /\ relayed (exec (webSocketMessage env now rnd ws f) s) = relayed s ++ [(peer, f)]
      else relayed (exec (webSocketMessage env now rnd ws f) s) = relayed s
  | None => relayed (exec (webSocketMessage env now rnd ws f) s) = relayed s
  end.
Proof.
  assert (Hnot : forall a, default (Att SHello None "" "" None false 0) (attachments s !! ws) = a ->
    state a <> SAdmitted -> relayed (exec (webSocketMessage env now rnd ws f) s) = relayed s).
  { intros a Ha Hs. unfold webSocketMessage. erewrite exec_bind by reflexivity. cbv beta zeta.
    rewrite Ha. destruct (_ <? _); [|destruct (state a); [| |done]].
    all: apply within_exec.
    - walk_relayed.
    - walk_relayed.
    - apply handleProof_relayed. }
  destruct (attachments s !! ws) as [a|] eqn:Ea; [|by eapply Hnot].
  case_bool_decide as Hs; [|by eapply Hnot]. clear Hnot.
  unfold webSocketMessage. erewrite exec_bind by reflexivity. cbv beta zeta. rewrite Ea. cbn [default from_option id].
  rewrite Hs. destruct (_ <? _).
  { left. apply within_exec. walk_relayed. }
  erewrite exec_bind by (apply rateLimited_limiter; done).
  set (s1 := set_frameWindow _ s). destruct (negb _).
  { left. change (relayed s) with (relayed s1). apply within_exec. walk_relayed. }
  pose proof (overQuota_relayed env now (frame_size f) s1) as Hq. unfold exec in Hq |- *. unfold same in Hq.
  unfold ebind. destruct (overQuota env now (frame_size f) s1) as [[over|e] s2] eqn:Eq; [|by left].
  simpl in Hq. destruct over; [by left|]. apply overQuota_conn in Eq. apply conn_eq in Eq as [E1 E2].
  rewrite forward_spec. cbn [snd].
  assert (splice_peer s2 ws a = splice_peer s ws a) as -> by (unfold splice_peer; by rewrite E1, E2).
  destruct (splice_peer s ws a) as [peer|]; [right|by left]. exists peer. split; [done|].
  change (relayed (push (Relayed peer f) s2) = relayed s ++ [(peer, f)]). by rewrite relayed_push, Hq.
Qed.

Lemma resume_relayed now rnd k : within (same relayed) (resume env now rnd k).
Proof. walk_relayed. Qed.

Lemma other_relayed R now rnd e w :
  match e with EMessage _ _ => False | _ => True end ->
  handler_keeps env (fun s => relayed s = R) now rnd e w.
Proof.
  destruct e; simpl; intros He; try done; intros; try (apply relayed_preserving; walk_relayed).
Qed.

Lemma relayed_context R : context_keeps (fun s => relayed s = R).
Proof. split; intros; apply relayed_preserving; walk_relayed. Qed.
End Splice.

(** ** Properties *)

(** C6: a frame leaves the room only towards the other role: a step relays at
    most one frame, and then it is the unchanged frame its event brought in
    from an admitted socket, sent to the first other live socket admitted in
    another role; no handshake frame, request, alarm, close or resumed handler
    ever relays anything. *)
Theorem frames_reach_only_the_peer `{Crypto} `{AppAttest} (env : environment) now rnd e w w' :
  step env now rnd e w = Some w' ->
  relayed (rm w') = relayed (rm w)
  \/ exists ws m a peer, e = EMessage ws m /\ attachments (rm w) !! ws = Some a /\ state a = SAdmitted
       /\ splice_peer (rm w) ws a = Some peer
       /\ relayed (rm w') = relayed (rm w) ++ [(peer, m)].
Proof.
  intros E. destruct e as [| ws f | | | | | | | | |];
    try (left; refine (step_keeps env _ (relayed_context (relayed (rm w))) now rnd _ w w' _ E eq_refl);
         apply other_relayed; exact I).
  cbn [step] in E. destruct (_ && _); [|done]. injection E as <-.
  pose proof (message_relayed env now rnd ws f (rm w)) as Hm.
  assert (Hc : relayed (rm (settle (inr (EMessage ws f)) (webSocketMessage env now rnd ws f) w (pending w)))
               = relayed (exec (webSocketMessage env now rnd ws f) (rm w))).
  { unfold settle, exec at 2. destruct (webSocketMessage env now rnd ws f (rm w)) as [[k|err] r]; [done|].
    cbn [rm snd on_throw]. apply within_exec. walk_relayed. }
  rewrite Hc. destruct (attachments (rm w) !! ws) as [a|] eqn:Ea; [|by left].
  case_bool_decide; [|by left]. destruct Hm as [?|(peer & ? & ?)]; [by left|right]. by exists ws, f, a, peer.
Qed.

(** The eviction an upgrade runs leaves at most four un-admitted sockets
    live; those it closes are the oldest, no admitted socket is closed, and no
    attachment changes. *)
Theorem pre_auth_capped (s : room) :
  let s' := exec evictExcessPreAuth s in
  (length (pre_auth s') <= MAX_PREAUTH_SOCKETS)%nat
  /\ (forall x y, x ∈ pre_auth s -> x ∉ pre_auth s' -> y ∈ pre_auth s' -> connectedAt x.2 <= connectedAt y.2)
  /\ (forall ws, ws ∈ sockets s -> is_admitted (attachments s !! ws) = true -> ws ∈ sockets s')
  /\ attachments s' = attachments s.
Proof.
  intros s'. pose proof (evict_conn s) as Ec. apply conn_eq in Ec as [Es Ea].
  set (k := (length (pre_auth s) - MAX_PREAUTH_SOCKETS)%nat) in *.
  assert (Hel : forall x, x ∈ pre_auth s' <-> x ∈ pre_auth s /\ x.1 ∉ map fst (take k (pre_auth s))).
  { intros x. unfold s'. rewrite evict_pre_auth, list_elem_of_filter. tauto. }
  assert (Hatt : forall ws a, (ws, a) ∈ pre_auth s <-> ws ∈ sockets s /\ attachments s !! ws = Some a /\ state a <> SAdmitted).
  { intros ws a. rewrite pre_auth_perm. apply elem_of_pre_auth_of. }
  split_and!; [| | |exact Ea].
  - unfold s'. rewrite (Permutation_length (evict_pre_auth s)).
    pose proof (submseteq_length _ _ (filter_not_taken (pre_auth s) k)) as Hl.
    rewrite length_drop in Hl. unfold k in *. lia.
  - intros [ws a] [ws2 a2] Hx Hnx Hy. apply Hel in Hy as [Hy Hny]. 
    assert (Ht : ws ∈ map fst (take k (pre_auth s))).
    { destruct (decide (ws ∈ map fst (take k (pre_auth s)))); [done|]. exfalso. apply Hnx, Hel. done. }
    apply list_elem_of_fmap in Ht as ([ws1 a1] & -> & Ht). simpl in *.
    assert (a1 = a) as ->.
    { assert (H1 : (ws1, a1) ∈ pre_auth s) by (rewrite <-(take_drop k (pre_auth s)), elem_of_app; by left).
      apply Hatt in H1 as (_ & H1 & _), Hx as (_ & Hx & _). congruence. }
    assert (Hd : (ws2, a2) ∈ drop k (pre_auth s)).
    { rewrite <-(take_drop k (pre_auth s)), elem_of_app in Hy. destruct Hy as [Hy|]; [|done].
      exfalso. apply Hny, list_elem_of_fmap. by exists (ws2, a2). }
    assert (Hs : StronglySorted older (pre_auth s)) by (apply StronglySorted_merge_sort; apply _).
    rewrite <-(take_drop k (pre_auth s)) in Hs.
    by apply (StronglySorted_app_1_elem_of older _ _ (ws1, a) (ws2, a2) Hs).
  - intros ws Hin Had. unfold s'. rewrite Es. apply list_elem_of_filter. split; [|done].
    intros Ht. apply list_elem_of_fmap in Ht as ([ws1 a1] & -> & Ht).
    assert (H1 : (ws1, a1) ∈ pre_auth s) by (rewrite <-(take_drop k (pre_auth s)), elem_of_app; by left).
    apply Hatt in H1 as (_ & H1 & Hns). simpl in Had. rewrite H1 in Had. simpl in Had.
    apply bool_decide_eq_true in Had. done.
Qed.

(** Whatever the window the limiter starts from, calls spread over at most
    one window length get at most the window's remaining budget and one more
    full budget through: never more than twice the maximum. *)
Theorem limiter_two_budgets_per_window (w : window) (max windowMs t0 : Z) (times : list Z) :
  0 <= max -> 0 <= wcount w -> 0 <= windowMs -> StronglySorted Z.le times ->
  Forall (fun t => t0 <= t <= t0 + windowMs) times ->
  Z.of_nat (passed (limiter_run w max windowMs times)) <= 2 * max.
Proof.
  intros Hm Hw Hms Hs Ht. pose proof (limiter_two_windows w max windowMs t0 times Hm Hw Hms Hs Ht). lia.
Qed.

(** C9: the daily byte quota holds across restarts: the bytes that get through
    within one day of a fresh record are at most the limit, plus one flush
    interval for each restart of the room's context in between. *)
Theorem daily_quota_bound (env : environment) (s : room) (t0 : Z) (l : list quota_op) :
  quota s = None -> stored_quota s = None ->
  Forall (fun o => match o with
                   | QFrame now size => t0 <= now < t0 + QUOTA_WINDOW_MS /\ 0 <= size
                   | QReload => True end) l ->
  quota_run env l s <= Z.max 0 (daily_quota env) + Z.of_nat (reloads l) * QUOTA_FLUSH_BYTES.
Proof.
  intros Hq Hst Hl. assert (Hinv : quota_inv t0 s).
  { split; unfold stored_bytes; rewrite ?Hst, ?Hq; done. }
  pose proof (quota_run_bound env t0 l s Hinv Hl) as Hb. revert Hb. unfold counted, stored_bytes.
  rewrite Hq, Hst. by rewrite Z.sub_0_r.
Qed.

(** ** Witnesses *)

Lemma frames_reach_only_the_peer_witness :
  match run_in open_env pair_open with
  | Some w =>
      match step (H := toy_crypto) (H0 := toy_attest) open_env 2000 [] (EMessage 2 (text_frame "abc")) w with
      | Some w' => relayed (rm w') = [(1%nat, text_frame "abc")]
                   /\ (relayed (rm w') = relayed (rm w) \/ exists ws m a peer, EMessage 2 (text_frame "abc") = EMessage ws m
                        /\ attachments (rm w) !! ws = Some a /\ state a = SAdmitted
                        /\ splice_peer (rm w) ws a = Some peer
                        /\ relayed (rm w') = relayed (rm w) ++ [(peer, m)])
      | None => False
      end
  | None => False
  end.
Proof.
  destruct (run_in open_env pair_open) as [w|] eqn:E; [|vm_compute in E; discriminate].
  destruct (step _ _ _ _ _) as [w'|] eqn:E'.
  - split; [|exact (frames_reach_only_the_peer (H := toy_crypto) (H0 := toy_attest) open_env 2000 [] _ w w' E')].
    vm_compute in E. injection E as <-. vm_compute in E'. injection E' as <-. vm_compute. reflexivity.
  - vm_compute in E. injection E as <-. vm_compute in E'. discriminate.
Defined.

Lemma limiter_two_budgets_per_window_witness :
  Z.of_nat (passed (limiter_run (Window 0 0) 2 10 [9; 9; 9; 11; 12; 13])) = 4
  /\ Z.of_nat (passed (limiter_run (Window 0 0) 2 10 [9; 9; 9; 11; 12; 13])) <= 2 * 2.
Proof.
  split; [reflexivity|]. apply (limiter_two_budgets_per_window (Window 0 0) 2 10 9); simpl; try lia.
  - repeat constructor; lia.
  - repeat constructor; lia.
Defined.

Lemma daily_quota_bound_witness :
  quota_run (Environment None "" (Some "10") None "" "" None)
    [QFrame 5 6; QReload; QFrame 6 6; QFrame 7 6] (new_room (RStore ∅ None)) = 12
  /\ quota_run (Environment None "" (Some "10") None "" "" None)
    [QFrame 5 6; QReload; QFrame 6 6; QFrame 7 6] (new_room (RStore ∅ None)) <= 10 + 1 * QUOTA_FLUSH_BYTES.
Proof.
  split; [vm_compute; reflexivity|].
  apply (daily_quota_bound (Environment None "" (Some "10") None "" "" None) (new_room (RStore ∅ None)) 0
    [QFrame 5 6; QReload; QFrame 6 6; QFrame 7 6]); [reflexivity|reflexivity|].
  repeat constructor; vm_compute; auto; discriminate.
Defined.
