(* ===== verification/RoomStore.v ===== *)
(** What a room stores: every value has the type its key announces, and a
    registered verifier stays until an authorised wipe. *)

From S2P Require Import Prelude Bytes Crypto Json Transcript Storage RoomState AttestApi Room RoomSteps RoomFacts Scenario.

#[local] Open Scope eff_scope.

(** ** Types of stored values *)

(** The keys each kind of value is stored under. *)
Definition typed (k : string) (v : value) : bool :=
  match v with
  | VString _ => String.eqb k "verifier" || String.eqb k "registrantKeyId"
  | VNumber _ => String.eqb k "pairingCycles" || String.eqb k "lastActivity" || starts_with "assertcounter:" k
  | VQuota _ _ => String.eqb k "quota"
  | VChallenge _ => starts_with "attestchallenge:" k
  | VTicket _ _ _ => starts_with "ticket:" k
  | VRegToken _ _ => starts_with "regtoken:" k
  end.

Definition well_typed (s : room) : Prop :=
  forall k v, kv (storage s) !! k = Some v -> typed k v = true.

Lemma well_typed_storage o :
  match o with Put k v => typed k v = true | _ => True end ->
  within (preserving well_typed) (step_storage o).
Proof.
  intros Ho s Hs. unfold exec, step_storage, well_typed in *.
  destruct o as [k|k v|k| |p| |t|]; simpl in *; try done; intros k' v'.
  - destruct (decide (k = k')) as [->|]; [rewrite lookup_insert_eq; by intros [= <-]|].
    rewrite lookup_insert_ne by done. apply Hs.
  - rewrite lookup_delete_Some. intros [_ ?]. by apply Hs.
Qed.

Lemma well_typed_same f :
  (forall s, storage (f s) = storage s) -> within (preserving well_typed) (emod f).
Proof. intros Hf s Hs. unfold well_typed, exec in *. simpl. by rewrite Hf. Qed.

Create HintDb typed.
#[local] Hint Extern 1 (within (preserving well_typed) (step_storage _)) =>
  apply well_typed_storage; first [exact I | reflexivity] : typed.
#[local] Hint Extern 1 (within (preserving well_typed) (emod _)) =>
  apply well_typed_same; same_field : typed.

Ltac walk_typed := walk ltac:(auto 2 with typed nocore).

Lemma admit_typed now rnd ws r a via : within (preserving well_typed) (admit_socket now rnd ws r a via).
Proof. walk_typed. Qed.
#[local] Hint Resolve admit_typed : typed.

(** ** The verifier *)

Definition verifier_of (s : room) : option value := kv (storage s) !! "verifier".

(** An established room, with its verifier. *)
Definition locked (V : string) (s : room) : Prop := verifier_of s = Some (VString V) /\ V <> "".

Lemma locked_truthy V s : locked V s -> truthy_value (kv (storage s) !! "verifier") = Some V.
Proof. intros [E HV]. unfold verifier_of in E. rewrite E. simpl. by rewrite (proj2 (String.eqb_neq V "")). Qed.

Lemma locked_storage V o :
  match o with
  | Put k _ => k <> "verifier"
  | Delete k => k <> "verifier"
  | DeleteAll => False
  | _ => True
  end -> within (preserving (locked V)) (step_storage o).
Proof.
  intros Ho s [Hs HV]. unfold exec, step_storage, locked, verifier_of in *.
  destruct o as [k|k v|k| |p| |t|]; simpl in *; try done.
  - by rewrite lookup_insert_ne.
  - by rewrite lookup_delete_ne.
Qed.

Lemma locked_same V f :
  (forall s, storage (f s) = storage s) -> within (preserving (locked V)) (emod f).
Proof. intros Hf s Hs. unfold locked, verifier_of, exec in *. simpl. by rewrite Hf. Qed.

(** A key of a pruned prefix is none of the room's own. *)
Lemma pruned_key p k :
  p ∈ EPHEMERAL_PREFIXES -> prefix_match p k = true -> k <> "verifier" /\ k <> "lastActivity".
Proof.
  intros Hp Hk. unfold EPHEMERAL_PREFIXES in Hp.
  repeat (apply elem_of_cons in Hp as [->|Hp]; [split; intros ->; vm_compute in Hk; discriminate|]).
  by apply not_elem_of_nil in Hp.
Qed.

Create HintDb locked.
#[local] Hint Extern 1 (within (preserving (locked _)) (step_storage _)) =>
  apply locked_storage; first [exact I | discriminate
    | eapply pruned_key; [|eassumption]; first [eassumption | vm_compute; by repeat constructor]] : locked.
#[local] Hint Extern 1 (within (preserving (locked _)) (emod _)) =>
  apply locked_same; same_field : locked.

Ltac walk_locked := walk ltac:(auto 2 with locked nocore).

(** The room is established: no pairing-cycle kill. *)
Lemma admit_gate_locked V ws r prev : within (preserving (locked V)) (admit_gate ws r prev).
Proof.
  intros s Hs. unfold admit_gate. erewrite exec_bind by reflexivity. cbv beta.
  rewrite (locked_truthy V s Hs). cbv zeta. rewrite bool_decide_eq_true_2 by done.
  apply (exec_within (locked V)); [exact Hs|]. cbn [negb andb]. walk_locked.
Qed.
#[local] Hint Resolve admit_gate_locked : locked.

Lemma admit_locked V now rnd ws r a via : within (preserving (locked V)) (admit_socket now rnd ws r a via).
Proof. walk_locked. Qed.
#[local] Hint Resolve admit_locked : locked.

(** ** What a handler suspends on *)

(** Whatever it does, the handler's result satisfies [P]. *)
Definition yields {A} (P : A -> Prop) (m : Eff room A) : Prop :=
  forall s, match fst (m s) with Done a => P a | Throw _ => True end.

Lemma yields_ret {A} (P : A -> Prop) a : P a -> yields P (eret a).
Proof. by intros Ha s. Qed.

Lemma yields_throw {A} (P : A -> Prop) e : yields P (ethrow e).
Proof. by intros s. Qed.

Lemma yields_bind {A B} (P : B -> Prop) (m : Eff room A) k :
  (forall a, yields P (k a)) -> yields P (ebind m k).
Proof. intros Hk s. unfold ebind. destruct (m s) as [[a|e] s']; [apply Hk|done]. Qed.

Ltac walk_yields :=
  repeat lazymatch goal with
  | |- yields _ (ebind _ _) => apply yields_bind; intros ?
  | |- yields _ (eret _) => apply yields_ret; try exact I
  | |- yields _ (ethrow _) => apply yields_throw
  | |- yields _ (match ?x with _ => _ end) => destruct x eqn:?
  | |- yields _ ?m => let h := head_of m in unfold h; cbv beta zeta
  end.

(** No registration is in flight. *)
Definition no_register (k : suspended) : Prop :=
  match k with KRegister _ _ _ _ _ _ _ => False | _ => True end.

Definition not_register (k : option suspended) : Prop :=
  match k with Some k => no_register k | None => True end.

Section Locked.
Context `{Crypto} `{AppAttest} (env : environment) (V : string).

Lemma webSocketMessage_locked now rnd ws f :
  within (preserving (locked V)) (webSocketMessage env now rnd ws f).
Proof. walk_locked. Qed.

(** A registration is refused once a verifier is set. *)
Lemma handleRegister_locked now req b s :
  locked V s ->
  locked V (exec (handleRegister env now req b) s)
  /\ not_register (match fst (handleRegister env now req b s) with Done k => k | Throw _ => None end).
Proof.
  intros Hs. unfold handleRegister, exec. destruct (JSON_parse b) as [j|]; [|done].
  unfold lift, ebind, eret, ethrow. destruct (jprop j "registrationToken") as [t|]; [|done].
  destruct (jprop j "verifier") as [v|]; [|done]. destruct (jstring v) as [ver|]; [|done].
  unfold sget, step_storage, ebind, eret. cbn [room_step]. rewrite (locked_truthy V s Hs).
  rewrite bool_decide_eq_true_2 by done. split; [exact Hs|done].
Qed.

Lemma handleHttp_locked now rnd req m p n b : within (preserving (locked V)) (handleHttp env now rnd req m p n b).
Proof.
  unfold handleHttp. destruct (_ && _); [intros s Hs; by apply handleRegister_locked|]. walk_locked.
Qed.

Lemma handleHttp_yields now rnd req m p n b s :
  locked V s ->
  not_register (match fst (handleHttp env now rnd req m p n b s) with Done k => k | Throw _ => None end).
Proof.
  intros Hs. unfold handleHttp. destruct (_ && _); [by apply handleRegister_locked|].
  match goal with |- not_register (match fst (?m s) with _ => _ end) =>
    assert (Hy : yields not_register m) by walk_yields; specialize (Hy s);
    destruct (fst (m s)); done end.
Qed.

Lemma message_yields now rnd ws f : yields not_register (webSocketMessage env now rnd ws f).
Proof. walk_yields. Qed.

(** Every continuation but a registration's, and but the authorised wipe. *)
Lemma resume_locked now rnd k :
  no_register k -> match k with KDeleteTag _ => False | _ => True end ->
  within (preserving (locked V)) (resume env now rnd k).
Proof. destruct k; intros H1 H2; try done; walk_locked. Qed.

Lemma resume_yields now rnd k : yields not_register (resume env now rnd k).
Proof. walk_yields. Qed.

Lemma callback_locked c : within (preserving (locked V)) (run_callback c).
Proof. walk_locked. Qed.
End Locked.

(** *** Wiping *)

(** An operation leaves the verifier alone or wipes it. *)
Definition kept_or_wiped (s s' : room) : Prop := verifier_of s' = verifier_of s \/ verifier_of s' = None.

#[export] Instance kept_or_wiped_preorder : PreOrder kept_or_wiped.
Proof.
  split; unfold kept_or_wiped; [by left|]. intros s1 s2 s3 [E1|E1] [E2|E2]; rewrite ?E2, ?E1; auto.
Qed.

Lemma kept_or_wiped_storage o :
  match o with Put k _ => k <> "verifier" | _ => True end -> within kept_or_wiped (step_storage o).
Proof.
  intros Ho s. unfold exec, step_storage, kept_or_wiped, verifier_of.
  destruct o as [k|k v|k| |p| |t|]; simpl; auto.
  - left. by rewrite lookup_insert_ne.
  - destruct (decide (k = "verifier")) as [->|]; [right; by rewrite lookup_delete_eq|left; by rewrite lookup_delete_ne].
Qed.

Lemma kept_or_wiped_same f : (forall s, storage (f s) = storage s) -> within kept_or_wiped (emod f).
Proof. intros Hf s. left. unfold verifier_of, exec. simpl. by rewrite Hf. Qed.

Create HintDb wiped.
#[local] Hint Extern 1 (within kept_or_wiped (step_storage _)) =>
  apply kept_or_wiped_storage; first [exact I | discriminate] : wiped.
#[local] Hint Extern 1 (within kept_or_wiped (emod _)) =>
  apply kept_or_wiped_same; same_field : wiped.

Lemma teardown_wiped reason : within kept_or_wiped (teardownRoom reason).
Proof. walk ltac:(auto 2 with wiped nocore). Qed.

Lemma alarm_wiped env now : within kept_or_wiped (alarm env now).
Proof. walk ltac:(auto 2 with wiped nocore). Qed.

Section Steps.
Context `{Crypto} `{AppAttest} (env : environment) (V : string).

Lemma locked_context : context_keeps (locked V).
Proof. split; intros; walk_locked. Qed.

(** The established room, with no registration in flight. *)
Definition established (w : world) : Prop :=
  locked V (rm w) /\ Forall no_register (pending w).

(** The two events that may wipe it: the idle alarm, and the end of a deletion
    whose signature was verified. *)
Definition may_wipe (w : world) (e : event) : Prop :=
  e = EAlarm \/ exists i req, e = EResume i /\ pending w !! i = Some (KDeleteTag req).

Lemma may_wipe_dec w e : may_wipe w e \/ ~ may_wipe w e.
Proof.
  destruct e as [| | |i| | | | | | |]; try (right; by intros [?|(? & ? & ? & _)]); [|by left; left].
  destruct (pending w !! i) as [[]|] eqn:E;
    try (right; intros [?|(j & q & [= <-] & Hj)]; [done|congruence]).
  left. right. eauto.
Qed.

Lemma locked_handlers now rnd e w :
  Forall no_register (pending w) -> ~ may_wipe w e -> handler_keeps env (locked V) now rnd e w.
Proof.
  intros Hp Hn. destruct e; simpl; try done; intros;
    first [apply webSocketMessage_locked | apply handleHttp_locked | apply callback_locked | idtac].
  - walk_locked.
  - apply resume_locked; [|destruct k; try done; exfalso; apply Hn; right; by eauto].
    rewrite Forall_forall in Hp. apply Hp. by eapply list_elem_of_lookup_2.
  - exfalso. apply Hn. by left.
Qed.

Lemma settle_wiped k (m : Eff room (option suspended)) w rest :
  (forall s s', kept_or_wiped s s' -> kept_or_wiped s (exec (on_throw k) s')) ->
  within kept_or_wiped m -> kept_or_wiped (rm w) (rm (settle k m w rest)).
Proof.
  intros Ht Hm. specialize (Hm (rm w)). unfold settle, exec in *.
  destruct (m (rm w)) as [[s|e] r]; simpl in *; [done|by apply Ht].
Qed.

Lemma on_throw_wiped k s s' : kept_or_wiped s s' -> kept_or_wiped s (exec (on_throw k) s').
Proof.
  intros Hs. etransitivity; [exact Hs|]. assert (Hw : within kept_or_wiped (on_throw k)); [|apply Hw].
  unfold on_throw. walk ltac:(auto 2 with wiped nocore).
Qed.

Lemma step_locked now rnd e w w' :
  established w -> ~ may_wipe w e -> step env now rnd e w = Some w' -> locked V (rm w').
Proof.
  intros [Hl Hp] Hn E.
  exact (step_keeps env (locked V) locked_context now rnd e w w' (locked_handlers now rnd e w Hp Hn) E Hl).
Qed.

Lemma step_kept_or_wiped now rnd e w w' :
  established w -> step env now rnd e w = Some w' -> kept_or_wiped (rm w) (rm w').
Proof.
  intros He E. destruct (may_wipe_dec w e) as [[->|(i & req & -> & Ek)]|Hn].
  - cbn [step] in E. destruct (alarmAt (rm w)) as [t|]; [|done]. simpl in E. destruct (t <=? now); [|done].
    injection E as <-. simpl. unfold fire, exec. pose proof (alarm_wiped env now (set_alarmAt None (rm w))) as Ha.
    unfold exec in Ha. by destruct (alarm env now (set_alarmAt None (rm w))) as [[[]|err] r].
  - cbn [step] in E. rewrite Ek in E. simpl in E. injection E as <-.
    apply settle_wiped; [intros s s'; apply on_throw_wiped|].
    cbn [resume]. walk ltac:(auto 2 with wiped nocore).
  - left. pose proof (step_locked _ _ _ _ _ He Hn E) as [Hk _]. destruct He as [[Hl _] _]. congruence.
Qed.

Lemma step_no_register now rnd e w w' :
  established w -> step env now rnd e w = Some w' -> Forall no_register (pending w').
Proof.
  intros [Hl Hp] E.
  assert (Hsettle : forall k m rest, Forall no_register rest ->
    not_register (match fst (m (rm w)) with Done s => s | Throw _ => None end) ->
    Forall no_register (pending (settle k m w rest))).
  { intros k m rest Hr Hm. unfold settle. destruct (m (rm w)) as [[s|err] r]; simpl in *; [|done].
    apply Forall_app_2; [done|]. destruct s; simpl in *; [by constructor|done]. }
  assert (Hy : forall m, yields not_register m ->
    not_register (match fst (m (rm w)) with Done s => s | Throw _ => None end)).
  { intros m Hm. specialize (Hm (rm w)). by destruct (fst (m (rm w))). }
  destruct e as [ws name|ws f|req m p n b|i| |ws c r|ws c r|ws m|i|c r|]; cbn [step] in E.
  - destruct (decide _); [|done]. injection E as <-. apply Hsettle; [done|]. apply Hy. walk_yields.
  - destruct (_ && _); [|done]. injection E as <-. apply Hsettle; [done|]. apply Hy, message_yields.
  - injection E as <-. apply Hsettle; [done|]. by eapply handleHttp_yields.
  - destruct (pending w !! i) as [k|] eqn:Ek; [|done]. simpl in E. injection E as <-.
    apply Hsettle; [by apply Forall_delete|]. apply Hy, resume_yields.
  - destruct (alarmAt (rm w)) as [t|]; [|done]. simpl in E. destruct (t <=? now); [|done]. by injection E as <-.
  - by injection E as <-.
  - by injection E as <-.
  - by injection E as <-.
  - destruct (callbacks w !! i) as [c|]; [|done]. simpl in E. destruct (busy _ _); [done|]. by injection E as <-.
  - by injection E as <-.
  - injection E as <-. simpl. constructor.
Qed.

Lemma run_established l : forall w w',
  established w -> run env l w = Some w' ->
  established w' \/ exists l1 l2 w1, l = l1 ++ l2 /\ run env l1 w = Some w1 /\ verifier_of (rm w1) = None.
Proof.
  induction l as [|[[now rnd] e] l IH]; intros w w' He E; cbn [run] in E; [injection E as <-; by left|].
  destruct (step env now rnd e w) as [w1|] eqn:E1; [|done]. simpl in E.
  destruct (step_kept_or_wiped _ _ _ _ _ He E1) as [Hk|Hk].
  - assert (He1 : established w1).
    { split; [|by eapply step_no_register]. destruct He as [[Hv HV] _]. split; [congruence|done]. }
    destruct (IH _ _ He1 E) as [?|(l1 & l2 & w2 & -> & Hr & Hv)]; [by left|right].
    exists ((now, rnd, e) :: l1), l2, w2. split_and!; [done| |done]. cbn [run]. by rewrite E1.
  - right. exists [(now, rnd, e)], l, w1. split_and!; [done| |done]. cbn [run]. by rewrite E1.
Qed.

Lemma step_wipe now rnd e w w' :
  established w -> step env now rnd e w = Some w' -> verifier_of (rm w') = None -> may_wipe w e.
Proof.
  intros He E Hv. destruct (may_wipe_dec w e) as [|Hn]; [done|]. exfalso.
  destruct (step_locked _ _ _ _ _ He Hn E) as [Hk _]. congruence.
Qed.
End Steps.

(** *** The idle alarm *)

(** An established room last active at that record. *)
Definition idle_record (V : string) (L : option value) (s : room) : Prop :=
  locked V s /\ kv (storage s) !! "lastActivity" = L.

Lemma idle_storage V L o :
  match o with
  | Put k _ | Delete k => k <> "verifier" /\ k <> "lastActivity"
  | DeleteAll => False
  | _ => True
  end -> within (preserving (idle_record V L)) (step_storage o).
Proof.
  intros Ho s [[Hs HV] HL]. unfold exec, step_storage, idle_record, locked, verifier_of in *.
  destruct o as [k|k v|k| |p| |t|]; simpl in *; try done; destruct Ho.
  - by rewrite !lookup_insert_ne.
  - by rewrite !lookup_delete_ne.
Qed.

Lemma idle_same V L f :
  (forall s, storage (f s) = storage s) -> within (preserving (idle_record V L)) (emod f).
Proof. intros Hf s Hs. unfold idle_record, locked, verifier_of, exec in *. simpl. by rewrite Hf. Qed.

Create HintDb idle.
#[local] Hint Extern 1 (within (preserving (idle_record _ _)) (step_storage _)) =>
  apply idle_storage; first [exact I
    | eapply pruned_key; [|eassumption]; first [eassumption | vm_compute; by repeat constructor]] : idle.
#[local] Hint Extern 1 (within (preserving (idle_record _ _)) (emod _)) => apply idle_same; same_field : idle.

Lemma sweep_idle V L now l : within (preserving (idle_record V L)) (sweep_pre_auth now l).
Proof. walk ltac:(auto 2 with idle nocore). Qed.

Lemma prune_idle V L now : within (preserving (idle_record V L)) (pruneExpired now).
Proof. walk ltac:(auto 2 with idle nocore). Qed.

Lemma idle_ttl_positive env : 0 < establishedIdleTtlMs env.
Proof.
  unfold establishedIdleTtlMs. destruct (RELAY_ESTABLISHED_IDLE_TTL_MS env) as [v|]; [|done].
  by destruct (Z.ltb_spec 0 v).
Qed.

Lemma read_activity_locked V now : within (preserving (locked V)) (read_activity now).
Proof. walk_locked. Qed.

Lemma read_activity_value now s :
  fst (read_activity now s)
  = Done (match kv (storage s) !! "lastActivity" with Some (VNumber n) => n | _ => now end).
Proof.
  unfold read_activity, sget, step_storage, ebind, eret. simpl.
  by destruct (kv (storage s) !! "lastActivity") as [[]|].
Qed.

Lemma rearm_locked V now b d : within (preserving (locked V)) (rearm now b d).
Proof. walk_locked. Qed.

(** The end of [alarm], after its sweeps. *)
Lemma alarm_idle env now V s :
  locked V s -> verifier_of (exec (alarm env now) s) = None ->
  exists last, kv (storage s) !! "lastActivity" = Some (VNumber last)
    /\ last + establishedIdleTtlMs env <= now.
Proof.
  intros Hl. set (L := kv (storage s) !! "lastActivity").
  assert (Hs : idle_record V L s) by done. unfold alarm. erewrite exec_bind by reflexivity. cbv beta.
  pose proof (sweep_idle V L now (sockets s) s Hs) as H1. unfold exec in H1 |- *. unfold ebind at 1.
  destruct (sweep_pre_auth now (sockets s) s) as [[n|e] s1]; simpl in H1;
    [|destruct H1 as [[H1 _] _]; simpl; congruence].
  pose proof (prune_idle V L now s1 H1) as H2. unfold exec in H2. unfold ebind at 1.
  destruct (pruneExpired now s1) as [[m|e] s2]; simpl in H2; [|destruct H2 as [[H2 _] _]; simpl; congruence].
  destruct H2 as [Hl2 HL2]. cbv zeta. unfold sget at 1, step_storage, ebind, eret. cbn [room_step].
  rewrite (locked_truthy V s2 Hl2).
  assert (Hl3 : locked V (set_storage (storage s2) s2)) by exact Hl2.
  pose proof (read_activity_locked V now _ Hl3) as H4. unfold exec in H4.
  pose proof (read_activity_value now (set_storage (storage s2) s2)) as H5.
  change (kv (storage (set_storage (storage s2) s2))) with (kv (storage s2)) in H5. rewrite HL2 in H5.
  destruct (read_activity now (set_storage (storage s2) s2)) as [[last|e] s3]; simpl in H4, H5; [|done].
  injection H5 as H5. destruct (Z.leb_spec (last + establishedIdleTtlMs env) now) as [Hle|Hlt].
  - intros _. pose proof (idle_ttl_positive env). destruct L as [[]|]; try lia. subst. eauto.
  - intros Hv. pose proof (rearm_locked V now ((0 <? n) || (0 <? m)) (Some (last + establishedIdleTtlMs env)) s3 H4)
      as [H6 _]. unfold exec in H6. congruence.
Qed.

(** ** Properties *)

(** C11: the store is well typed in every reachable state: each stored value is
    of the kind its key announces, so that what a handler reads under a ticket,
    token, challenge, counter or verifier key is one. *)
Theorem store_well_typed `{Crypto} `{AppAttest} (env : environment) (l : list input) (w : world) :
  run env l initial = Some w -> well_typed (rm w).
Proof.
  intros E. apply (run_keeps env well_typed) in E; [done| | |done].
  - split; intros; walk_typed.
  - intros now rnd e w0. destruct e; simpl; intros; try done; walk_typed.
Qed.

(** C4: a registered verifier is never replaced: from an established room with
    no registration in flight, every run keeps that verifier (and starts no
    registration), or passes through a state where the room was wiped. *)
Theorem verifier_changes_only_after_wipe `{Crypto} `{AppAttest} (env : environment) (V : string)
    (l : list input) (w w' : world) :
  established V w -> run env l w = Some w' ->
  established V w' \/ exists l1 l2 w1, l = l1 ++ l2 /\ run env l1 w = Some w1 /\ verifier_of (rm w1) = None.
Proof. apply run_established. Qed.

(** Only two events wipe an established room; file RoomDelete has what is behind
    the second. *)
Lemma wiped_by_deletion_or_idleness `{Crypto} `{AppAttest} (env : environment)
    (V : string) (now : Z) (rnd : bytes) (e : event) (w w' : world) :
  established V w -> step env now rnd e w = Some w' -> verifier_of (rm w') = None ->
  (e = EAlarm /\ exists last, kv (storage (rm w)) !! "lastActivity" = Some (VNumber last)
                   /\ last + establishedIdleTtlMs env <= now)
  \/ exists i req, e = EResume i /\ pending w !! i = Some (KDeleteTag req).
Proof.
  intros He E Hv. destruct (step_wipe env V now rnd e w w' He E Hv) as [->|Hd]; [left|by right].
  split; [done|]. cbn [step] in E. destruct (alarmAt (rm w)) as [t|]; [|done]. simpl in E.
  destruct (t <=? now); [|done]. injection E as <-. destruct He as [Hl _].
  apply (alarm_idle env now V (set_alarmAt None (rm w))); [exact Hl|].
  revert Hv. simpl. unfold fire, exec. by destruct (alarm env now (set_alarmAt None (rm w))) as [[[]|err] r].
Qed.

(** The refusal of a second first-registration is not atomic: two
    registrations suspended on their assertions have both passed the check that
    no verifier is set, with one and the same single-use token; both succeed,
    and the second replaces the verifier the first has registered. *)
Theorem registration_check_races :
  match run_in attest_env two_registrations with
  | Some w =>
      verifier_of (rm w) = None
      /\ match run (H := toy_crypto) (H0 := toy_attest) attest_env
                 [(1040, [], EResume 0); (1041, [], EResume 0)] w,
               run (H := toy_crypto) (H0 := toy_attest) attest_env [(1040, [], EResume 0)] w with
         | Some w2, Some w1 =>
             verifier_of (rm w1) = Some (VString "Vw==") /\ verifier_of (rm w2) = Some (VString "WA==")
             /\ drop (length (trace (rm w))) (trace (rm w2))
                = [Replied 5 200 (JObj json_ok); Replied 6 200 (JObj json_ok)]
         | _, _ => False
         end
  | None => False
  end.
Proof. vm_compute. auto. Qed.

(** ** Witnesses *)

(** The established room of an open-mode pairing. *)
Definition established_run : list input := pair_open ++ register_open.

Lemma store_well_typed_witness :
  match run_in open_env established_run with
  | Some w => well_typed (rm w) /\ verifier_of (rm w) = Some (VString "Vw==")
  | None => False
  end.
Proof.
  destruct (run_in open_env established_run) as [w|] eqn:E; [|vm_compute in E; discriminate].
  split; [exact (store_well_typed (H := toy_crypto) (H0 := toy_attest) open_env established_run w E)|].
  vm_compute in E. injection E as <-. vm_compute. reflexivity.
Defined.

Lemma verifier_changes_only_after_wipe_witness :
  match run_in open_env established_run with
  | Some w =>
      match run (H := toy_crypto) (H0 := toy_attest) open_env
              [(1010, [], EHttp 2 "POST" "/register" room_name (requote "{'verifier':'WA==','registrationToken':'x'}"))] w with
      | Some w' => established "Vw==" w' \/ exists l1 l2 w1,
          [(1010, [], EHttp 2 "POST" "/register" room_name (requote "{'verifier':'WA==','registrationToken':'x'}"))]
          = l1 ++ l2 /\ run (H := toy_crypto) (H0 := toy_attest) open_env l1 w = Some w1 /\ verifier_of (rm w1) = None
      | None => False
      end
  | None => False
  end.
Proof.
  destruct (run_in open_env established_run) as [w|] eqn:E; [|vm_compute in E; discriminate].
  match goal with |- context [@run ?h ?h0 ?a ?b w] => destruct (@run h h0 a b w) as [w'|] eqn:E' end.
  - apply (verifier_changes_only_after_wipe (H := toy_crypto) (H0 := toy_attest) open_env "Vw==" _ w w'); [|exact E'].
    vm_compute in E. injection E as <-. split; [split; [vm_compute; reflexivity|discriminate]|constructor].
  - vm_compute in E. injection E as <-. vm_compute in E'. discriminate.
Defined.
