(* ===== verification/RoomPending.v ===== *)
(** Suspended proofs: while a signature check is in flight its socket keeps the
    challenge it answers, so that what is verified is what was asked. *)

From S2P Require Import Prelude Bytes Crypto Json Transcript Storage RoomState AttestApi Room RoomSteps RoomFacts RoomStore RoomSlots Scenario.

#[local] Open Scope eff_scope.

(** ** The invariant *)

Definition proof_socket (k : suspended) : option nat :=
  match k with KProof ws _ _ _ _ => Some ws | _ => None end.

(** The transcript in flight is the one of the socket's own challenge. *)
Definition ready (origin : string) (m : gmap nat attachment) (k : suspended) : Prop :=
  match k with
  | KProof ws r _ _ t =>
      exists a, m !! ws = Some a /\ state a = SChallenged /\ srole a = Some r
        /\ joinTranscript r (nonce a) (RoomState.roomName a) origin = Some t
  | _ => True
  end.

(** A socket past its hello has a role. *)
Definition has_role (m : gmap nat attachment) : Prop :=
  forall ws a, m !! ws = Some a -> state a <> SHello -> is_Some (srole a).

Record waiting (env : environment) (w : world) : Prop := {
  wait_ready : Forall (ready (RELAY_ORIGIN env) (attachments (rm w))) (pending w);
  wait_once : NoDup (omap proof_socket (pending w));
  wait_role : has_role (attachments (rm w));
}.

(** ** What a handler does to attachments *)

(** Only that socket's attachment may change. *)
Definition others (ws : nat) (s : room) : gmap nat attachment := delete ws (attachments s).

Lemma serialize_others ws a : within (same (others ws)) (serializeAttachment ws a).
Proof. intros s. unfold same, others, exec. simpl. by rewrite delete_insert_eq. Qed.

Lemma same_others ws f : (forall s, attachments (f s) = attachments s) -> within (same (others ws)) (emod f).
Proof. intros Hf s. unfold same, others, exec. simpl. by rewrite Hf. Qed.

Lemma step_storage_attachments o : within (same attachments) (step_storage o).
Proof. intros s. unfold same, exec, step_storage. by destruct (room_step (storage s) o). Qed.

Lemma same_attachments_others {A} ws (m : Eff room A) :
  within (same attachments) m -> within (same (others ws)) m.
Proof. intros Hm s. unfold same, others. by rewrite (Hm s). Qed.

Lemma same_attachments f : (forall s, attachments (f s) = attachments s) -> within (same attachments) (emod f).
Proof. intros Hf s. apply Hf. Qed.

Create HintDb attached.
#[export] Hint Extern 1 (within (same attachments) (step_storage _)) => apply step_storage_attachments : attached.
#[export] Hint Extern 1 (within (same attachments) (emod _)) => apply same_attachments; same_field : attached.
#[export] Hint Extern 2 (within (same (others _)) (step_storage _)) =>
  apply same_attachments_others, step_storage_attachments : attached.
#[export] Hint Extern 2 (within (same (others _)) (emod _)) => apply same_others; same_field : attached.
#[export] Hint Extern 1 (within (same (others ?ws)) (serializeAttachment ?ws _)) =>
  apply serialize_others : attached.

Ltac walk_attached := walk ltac:(auto 3 with attached nocore).

Lemma closeSocket_attached ws c e : within (same attachments) (closeSocket ws c e).
Proof. walk_attached. Qed.
#[export] Hint Resolve closeSocket_attached : attached.
#[export] Hint Extern 2 (within (same (others _)) (closeSocket _ _ _)) =>
  apply same_attachments_others, closeSocket_attached : attached.

Lemma teardownRoom_attached e : within (same attachments) (teardownRoom e).
Proof. walk_attached. Qed.
#[export] Hint Resolve teardownRoom_attached : attached.
#[export] Hint Extern 2 (within (same (others _)) (teardownRoom _)) =>
  apply same_attachments_others, teardownRoom_attached : attached.

Lemma admit_others now rnd ws r a via : within (same (others ws)) (admit_socket now rnd ws r a via).
Proof. walk_attached. Qed.
#[export] Hint Resolve admit_others : attached.

Lemma callback_attached c : within (same attachments) (run_callback c).
Proof. walk_attached. Qed.

Lemma alarm_attached env now : within (same attachments) (alarm env now).
Proof. walk_attached. Qed.

(** Roles are only ever added. *)
Lemma serialize_role ws a :
  (state a <> SHello -> is_Some (srole a)) ->
  within (preserving (fun s => has_role (attachments s))) (serializeAttachment ws a).
Proof.
  intros Ha s Hs ws' a'. unfold exec. simpl.
  destruct (decide (ws = ws')) as [->|]; [rewrite lookup_insert_eq; by intros [= <-]|].
  rewrite lookup_insert_ne by done. apply Hs.
Qed.

Lemma attachments_role {A} (m : Eff room A) :
  within (same attachments) m -> within (preserving (fun s => has_role (attachments s))) m.
Proof. intros Hm s Hs. by rewrite (Hm s). Qed.

Lemma backfill_role ws t : within (preserving (fun s => has_role (attachments s))) (backfill_tag ws t).
Proof.
  intros s Hs. unfold backfill_tag, deserializeAttachment, exec, ebind, eget.
  destruct (attachments s !! ws) as [a|] eqn:E; [|done]. destruct (tag a); [done|].
  apply (serialize_role ws _); [|done]. intros Hst. by apply (Hs ws a).
Qed.

#[export] Hint Extern 2 (within (preserving (fun s => has_role (attachments s))) (step_storage _)) =>
  apply attachments_role, step_storage_attachments : attached.
#[export] Hint Extern 2 (within (preserving (fun s => has_role (attachments s))) (emod _)) =>
  apply attachments_role, same_attachments; same_field : attached.
#[export] Hint Extern 1 (within (preserving (fun s => has_role (attachments s))) (serializeAttachment _ _)) =>
  apply serialize_role; intros; first [done | by eexists] : attached.
#[export] Hint Resolve backfill_role : attached.
#[export] Hint Extern 2 (within (preserving (fun s => has_role (attachments s))) (closeSocket _ _ _)) =>
  apply attachments_role, closeSocket_attached : attached.

Lemma admit_role now rnd ws r a via :
  within (preserving (fun s => has_role (attachments s))) (admit_socket now rnd ws r a via).
Proof. walk_attached. Qed.
#[export] Hint Resolve admit_role : attached.

(** ** What a frame suspends on *)

Section Pending.
Context `{Crypto} `{AppAttest} (env : environment).

Definition is_none {A} (o : option A) : Prop := o = None.

(** [handleProof] suspends only on the check of its own challenge's transcript,
    having changed no attachment. *)
Lemma handleProof_result now rnd ws a f s k s' :
  handleProof env now rnd ws a f s = (Done (Some k), s') ->
  attachments s' = attachments s
  /\ exists sg v t, k = KProof ws (default mac (srole a)) sg v t
       /\ truthy_value (verifier_of s) = Some v
       /\ joinTranscript (default mac (srole a)) (nonce a) (RoomState.roomName a) (RELAY_ORIGIN env) = Some t.
Proof.
  intros E. unfold handleProof in E.
  assert (Hy : forall (m : Eff room (option suspended)) s0, yields is_none m -> m s0 <> (Done (Some k), s')).
  { intros m s0 Hm Em. specialize (Hm s0). rewrite Em in Hm. done. }
  unfold ebind at 1, rateLimited, ebind at 1, emod, eget in E. cbn [fst snd] in E.
  set (s1 := set_admissionWindow _ s) in E. destruct (_ <? _).
  { exfalso. revert E. apply Hy. walk_yields; done. }
  destruct (JSON_parse (payload f)) as [proof|].
  2: { exfalso. revert E. apply Hy. walk_yields; done. }
  unfold ebind at 1, sget, ebind at 1, step_storage in E. cbn [room_step] in E. unfold eret at 1 in E.
  change (kv (storage s1)) with (kv (storage s)) in E.
  destruct (truthy_value (kv (storage s) !! "verifier")) as [v|] eqn:Ev.
  2: { exfalso. revert E. apply Hy. walk_yields; done. }
  unfold lift in E. destruct (jprop proof "sig") as [sg|e]; [|done].
  unfold ebind at 1, eret at 1 in E. destruct (jstring sg) as [sg'|].
  2: { exfalso. revert E. apply Hy. walk_yields; done. }
  destruct (joinTranscript _ _ _ _) as [t|] eqn:Et; [|done]. injection E as <- <-.
  split; [done|]. exists sg', v, t. by split_and!.
Qed.

Lemma webSocketMessage_result now rnd ws f s k s' :
  webSocketMessage env now rnd ws f s = (Done (Some k), s') ->
  attachments s' = attachments s
  /\ exists a sg v t, attachments s !! ws = Some a /\ state a = SChallenged
       /\ k = KProof ws (default mac (srole a)) sg v t
       /\ truthy_value (verifier_of s) = Some v
       /\ joinTranscript (default mac (srole a)) (nonce a) (RoomState.roomName a) (RELAY_ORIGIN env) = Some t.
Proof.
  intros E. unfold webSocketMessage in E.
  assert (Hy : forall (m : Eff room (option suspended)) s0, yields is_none m -> m s0 <> (Done (Some k), s')).
  { intros m s0 Hm Em. specialize (Hm s0). rewrite Em in Hm. done. }
  unfold ebind at 1, deserializeAttachment, eget in E. cbv beta zeta in E.
  destruct (attachments s !! ws) as [a|] eqn:Ea; cbn [default from_option id] in E; destruct (_ <? _);
    try (exfalso; revert E; apply Hy; walk_yields; done).
  destruct (state a) eqn:Es; try (exfalso; revert E; apply Hy; walk_yields; done).
  apply handleProof_result in E as (Ha & sg & v & t & -> & Hv & Ht).
  split; [done|]. by exists a, sg, v, t.
Qed.

(** No other handler suspends on a proof. *)
Definition not_proof (k : option suspended) : Prop :=
  match k with Some k => proof_socket k = None | None => True end.

Lemma handleHttp_not_proof now rnd req m p n b : yields not_proof (handleHttp env now rnd req m p n b).
Proof. walk_yields; done. Qed.

Lemma handleUpgrade_not_proof now ws name : yields not_proof (handleUpgrade now ws name).
Proof. walk_yields; done. Qed.

Lemma resume_not_proof now rnd k : yields not_proof (resume env now rnd k).
Proof. destruct k; walk_yields; done. Qed.

(** *** Keeping it *)

Lemma ready_others origin ws m m' k :
  delete ws m' = delete ws m -> proof_socket k <> Some ws -> ready origin m k -> ready origin m' k.
Proof.
  intros Hd Hk. destruct k as [|ws' r sg v t| | | |]; try done. simpl in *.
  intros (a & Ha & Hr). exists a. split; [|done]. assert (Hne : ws <> ws') by congruence.
  rewrite <-(lookup_delete_ne m' ws) by done. by rewrite Hd, lookup_delete_ne.
Qed.

Lemma ready_not_proof origin m k : proof_socket k = None -> ready origin m k.
Proof. by destruct k. Qed.

(** The events around a handler. *)
Lemma waiting_rm r w :
  attachments r = attachments (rm w) -> waiting env w -> forall cb, waiting env (World r (pending w) cb).
Proof. intros E [H1 H2 H3] cb. split; simpl; by rewrite ?E. Qed.

(** A handler that disturbs no proof in flight. *)
Lemma settle_waiting k (m : Eff room (option suspended)) w rest :
  waiting env (World (rm w) rest (callbacks w)) ->
  (forall k', k' ∈ rest -> ready (RELAY_ORIGIN env) (attachments (rm w)) k' ->
     ready (RELAY_ORIGIN env) (attachments (exec m (rm w))) k') ->
  within (preserving (fun s => has_role (attachments s))) m ->
  (forall k' r, m (rm w) = (Done (Some k'), r) ->
     ready (RELAY_ORIGIN env) (attachments r) k'
     /\ (forall ws, proof_socket k' = Some ws -> Some ws ∉ map proof_socket rest)) ->
  waiting env (settle k m w rest).
Proof.
  intros [Hr Hn Ho] Hkeep Hrole Hres. simpl in *.
  assert (Hthrow : within (same attachments) (on_throw k)) by (unfold on_throw; walk_attached).
  specialize (Hrole (rm w) Ho). unfold settle, exec in *.
  assert (Hr' : Forall (ready (RELAY_ORIGIN env) (attachments (m (rm w)).2)) rest).
  { rewrite Forall_forall in *. intros k' Hin. apply Hkeep; [done|by apply Hr]. }
  destruct (m (rm w)) as [[s|e] r]; simpl in *.
  - destruct s as [k'|]; simpl; [|by rewrite app_nil_r].
    destruct (Hres k' r eq_refl) as [Hk Hs]. split; simpl; [by apply Forall_app_2; [|constructor]| |done].
    rewrite omap_app. apply NoDup_app. split_and!; [done| |].
    + intros x Hx Hx'. simpl in Hx'. destruct (proof_socket k') as [ws|] eqn:Ek; [|by apply not_elem_of_nil in Hx'].
      apply list_elem_of_singleton in Hx' as ->. apply list_elem_of_omap in Hx as (y & Hy & E).
      apply (Hs ws eq_refl). apply list_elem_of_fmap. by exists y.
    + simpl. destruct (proof_socket k'); repeat constructor. by intros ?%not_elem_of_nil.
  - specialize (Hthrow r). unfold same, exec in Hthrow. by split; simpl; rewrite ?Hthrow.
Qed.

Lemma keep_others ws {A} (m : Eff room A) s rest :
  within (same (others ws)) m -> Some ws ∉ map proof_socket rest ->
  forall k', k' ∈ rest -> ready (RELAY_ORIGIN env) (attachments s) k' ->
    ready (RELAY_ORIGIN env) (attachments (exec m s)) k'.
Proof.
  intros Hm Hws k' Hin. eapply ready_others; [exact (Hm s)|]. intros E. apply Hws, list_elem_of_fmap. by exists k'.
Qed.

Lemma keep_attachments {A} (m : Eff room A) s k' :
  within (same attachments) m -> ready (RELAY_ORIGIN env) (attachments s) k' ->
  ready (RELAY_ORIGIN env) (attachments (exec m s)) k'.
Proof. intros Hm Hk. by rewrite (Hm s). Qed.

(** Filling in the log tag keeps the challenge. *)
Lemma upgrade_keeps_ready now ws name s k' :
  ready (RELAY_ORIGIN env) (attachments s) k' ->
  ready (RELAY_ORIGIN env) (attachments (exec (handleUpgrade_resume now ws name ;;; @eret _ (option suspended) None) s)) k'.
Proof.
  intros Hk. unfold handleUpgrade_resume. cbv zeta.
  set (rest := ebind evictExcessPreAuth _).
  assert (Hrest : within (same attachments) rest) by (unfold rest; walk_attached).
  unfold exec, ebind at 1. unfold ebind at 1.
  assert (Hb : exists s1, backfill_tag ws (roomTag (Some name)) s = (Done tt, s1)
             /\ ready (RELAY_ORIGIN env) (attachments s1) k').
  { unfold backfill_tag, deserializeAttachment, ebind, eget. destruct (attachments s !! ws) as [a|] eqn:Ea; [|by eexists].
    destruct (tag a); [by eexists|]. eexists. split; [done|]. destruct k' as [|ws' r sg v t| | | |]; try done. simpl in *.
    destruct Hk as (b & Hb & Hr). destruct (decide (ws = ws')) as [->|].
    - rewrite lookup_insert_eq. eexists. split; [done|]. rewrite Ea in Hb. injection Hb as <-. exact Hr.
    - rewrite lookup_insert_ne by done. by exists b. }
  destruct Hb as (s1 & -> & Hk1). specialize (Hrest s1). unfold same, exec in Hrest.
  destruct (rest s1) as [[[]|e] s2]; simpl in *; by rewrite Hrest.
Qed.

Lemma waiting_rest w i k :
  waiting env w -> pending w !! i = Some k ->
  waiting env (World (rm w) (delete i (pending w)) (callbacks w))
  /\ (forall ws, proof_socket k = Some ws -> Some ws ∉ map proof_socket (delete i (pending w))).
Proof.
  intros [Hr Hn Ho] Hk. split.
  - split; simpl; [by apply Forall_delete| |done]. eapply sublist_NoDup; [exact Hn|].
    apply sublist_omap, sublist_delete.
  - intros ws Ews Hin. apply list_elem_of_fmap in Hin as (k' & Ek' & Hin).
    rewrite (delete_take_drop (pending w)) in Hin.
    rewrite <-(take_drop_middle (pending w) i k Hk) in Hn. rewrite omap_app in Hn. simpl in Hn. rewrite Ews in Hn.
    apply NoDup_app in Hn as (_ & Hd & Hn). apply NoDup_cons in Hn as [Hni _].
    apply elem_of_app in Hin as [Hin|Hin].
    + apply (Hd ws); [apply list_elem_of_omap; by exists k'|by left].
    + apply Hni, list_elem_of_omap. by exists k'.
Qed.

Lemma not_proof_result (m : Eff room (option suspended)) s k' r :
  yields not_proof m -> m s = (Done (Some k'), r) ->
  ready (RELAY_ORIGIN env) (attachments r) k' /\ (forall ws, proof_socket k' = Some ws -> False).
Proof.
  intros Hy E. specialize (Hy s). rewrite E in Hy. simpl in Hy.
  split; [by apply ready_not_proof|congruence].
Qed.

Lemma initial_waiting : waiting env initial.
Proof. split; simpl; [done|apply NoDup_nil_2|by intros ? ?]. Qed.

Lemma waiting_in_room (m : Eff room unit) w :
  within (same attachments) m -> waiting env w -> waiting env (in_room w m).
Proof. intros Hm Hw. apply waiting_rm; [apply Hm|done]. Qed.

Lemma fire_attached now : within (same attachments) (fire env now).
Proof.
  intros s. unfold fire, exec, same. pose proof (alarm_attached env now (set_alarmAt None s)) as Ha.
  unfold exec, same in Ha. by destruct (alarm env now (set_alarmAt None s)) as [[[]|e] r].
Qed.

Lemma step_waiting now rnd e w w' :
  waiting env w -> step env now rnd e w = Some w' -> waiting env w'.
Proof.
  intros Hw E. destruct e as [ws name|ws f|req m p n b|i| |ws c r|ws c r|ws m|i|c r|]; cbn [step] in E.
  - destruct (decide _) as [Hfresh|]; [|done]. injection E as <-.
    apply settle_waiting; [by destruct w, Hw| |walk_attached|].
    + apply (keep_others ws); [walk_attached|]. intros Hin. apply list_elem_of_fmap in Hin as (k & Ek & Hin).
      destruct Hw as [Hr _ _]. rewrite Forall_forall in Hr. specialize (Hr k Hin).
      destruct k; try done. simpl in *. destruct Hr as (a & Ha & _). congruence.
    + intros k' r Ek. destruct (not_proof_result _ _ _ _ (handleUpgrade_not_proof now ws name) Ek) as [? Hn].
      split; [done|]. intros ws' Hws. by apply Hn in Hws.
  - destruct (_ && _) eqn:Eb; [|done]. apply andb_true_iff in Eb as [_ Eb]. apply negb_true_iff in Eb.
    injection E as <-.
    assert (Hni : Some ws ∉ map proof_socket (pending w)).
    { intros Hin. apply list_elem_of_fmap in Hin as (k & Ek & Hin). unfold busy in Eb.
      apply not_true_iff_false in Eb. apply Eb. apply existsb_exists. exists k.
      split; [by apply list_elem_of_In|]. destruct k; try done. simpl in Ek. injection Ek as ->. apply Nat.eqb_refl. }
    apply settle_waiting; [by destruct w, Hw|by apply (keep_others ws); [walk_attached|]|walk_attached|].
    intros k' r Ek. apply webSocketMessage_result in Ek as (Ea & a & sg & v & t & Hat & Hst & -> & _ & Ht).
    split; [|by intros ws' [= <-]]. simpl. rewrite Ea. exists a.
    destruct (wait_role _ _ Hw ws a Hat ltac:(by rewrite Hst)) as [ro Hro]. rewrite Hro in *. by split_and!.
  - injection E as <-. assert (Hm : within (same attachments) (handleHttp env now rnd req m p n b)) by walk_attached.
    apply settle_waiting; [by destruct w, Hw|intros k' _; by apply keep_attachments|by apply attachments_role|].
    intros k' r Ek. destruct (not_proof_result _ _ _ _ (handleHttp_not_proof now rnd req m p n b) Ek) as [? Hn].
    split; [done|]. intros ws' Hws. by apply Hn in Hws.
  - destruct (pending w !! i) as [k|] eqn:Ek; [|done]. simpl in E. injection E as <-.
    destruct (waiting_rest w i k Hw Ek) as [Hrest Hnot].
    apply settle_waiting; [done| |destruct k; walk_attached|].
    + destruct k as [ws name|ws r sg v t| | | |]; cbn [resume];
        try solve [intros k' _; apply keep_attachments; walk_attached].
      * intros k' _. apply upgrade_keeps_ready.
      * apply (keep_others ws); [walk_attached|by apply Hnot].
    + intros k' r Er. destruct (not_proof_result _ _ _ _ (resume_not_proof now rnd k) Er) as [? Hn].
      split; [done|]. intros ws' Hws. by apply Hn in Hws.
  - destruct (alarmAt (rm w)) as [t|]; [|done]. simpl in E. destruct (t <=? now); [|done]. injection E as <-.
    apply waiting_in_room; [apply fire_attached|done].
  - injection E as <-. apply waiting_in_room; [walk_attached|done].
  - injection E as <-. by apply waiting_rm.
  - injection E as <-. by apply waiting_rm.
  - destruct (callbacks w !! i) as [c|]; [|done]. simpl in E. destruct (busy _ _); [done|]. injection E as <-.
    apply waiting_rm; [apply callback_attached|done].
  - injection E as <-. apply waiting_in_room; [walk_attached|done].
  - injection E as <-. split; simpl; [done|apply NoDup_nil_2|by intros ? ?].
Qed.

Lemma run_waiting l : forall w w', waiting env w -> run env l w = Some w' -> waiting env w'.
Proof.
  induction l as [|[[now rnd] e] l IH]; simpl; intros w w' Hw E; [congruence|].
  destruct (step env now rnd e w) as [w1|] eqn:E1; [|done]. simpl in E.
  eapply IH; [|exact E]. by eapply step_waiting.
Qed.
End Pending.

(** ** Who gets admitted *)

(** Every admitted socket is one of [A]. *)
Definition admitted_in (A : nat -> Prop) (s : room) : Prop :=
  forall ws, is_admitted (attachments s !! ws) = true -> A ws.

Lemma admitted_in_attachments {B} A (m : Eff room B) :
  within (same attachments) m -> within (preserving (admitted_in A)) m.
Proof. intros Hm s Hs ws. rewrite (Hm s). apply Hs. Qed.

Lemma admitted_in_serialize A ws a :
  state a <> SAdmitted -> within (preserving (admitted_in A)) (serializeAttachment ws a).
Proof.
  intros Ha s Hs ws'. unfold exec. simpl. destruct (decide (ws = ws')) as [->|].
  - rewrite lookup_insert_eq. simpl. by rewrite bool_decide_eq_false_2.
  - rewrite lookup_insert_ne by done. apply Hs.
Qed.

Lemma admitted_in_backfill A ws t : within (preserving (admitted_in A)) (backfill_tag ws t).
Proof.
  intros s Hs. unfold backfill_tag, deserializeAttachment, exec, ebind, eget.
  destruct (attachments s !! ws) as [a|] eqn:E; [|done]. destruct (tag a); [done|].
  intros ws'. simpl. destruct (decide (ws = ws')) as [->|].
  - rewrite lookup_insert_eq. intros Ha. apply Hs. by rewrite E.
  - rewrite lookup_insert_ne by done. apply Hs.
Qed.

Create HintDb admitted_in.
#[local] Hint Extern 2 (within (preserving (admitted_in _)) (step_storage _)) =>
  apply admitted_in_attachments, step_storage_attachments : admitted_in.
#[local] Hint Extern 2 (within (preserving (admitted_in _)) (emod _)) =>
  apply admitted_in_attachments, same_attachments; same_field : admitted_in.
#[local] Hint Extern 1 (within (preserving (admitted_in _)) (serializeAttachment _ _)) =>
  apply admitted_in_serialize; done : admitted_in.
#[local] Hint Resolve admitted_in_backfill : admitted_in.

Ltac walk_admitted_in := walk ltac:(auto 2 with admitted_in nocore).

Section Signed.
Context `{Crypto} `{AppAttest} (env : environment).

(** In an established room a proof frame admits nobody by itself. *)
Lemma handleProof_established now rnd ws a f s V :
  truthy_value (verifier_of s) = Some V ->
  attachments (exec (handleProof env now rnd ws a f) s) = attachments s.
Proof.
  intros HV. unfold handleProof, exec.
  assert (Hm : forall (m : Eff room (option suspended)) s0,
    within (same attachments) m -> attachments s0 = attachments s -> attachments (m s0).2 = attachments s).
  { intros m s0 Hm <-. apply Hm. }
  unfold ebind at 1, rateLimited, ebind at 1, emod, eget. cbn [fst snd].
  set (s1 := set_admissionWindow _ s). destruct (_ <? _); [apply Hm; [walk_attached|done]|].
  destruct (JSON_parse (payload f)) as [proof|]; [|apply Hm; [walk_attached|done]].
  unfold ebind at 1, sget, ebind at 1, step_storage. cbn [room_step]. unfold eret at 1.
  change (kv (storage s1)) with (kv (storage s)). unfold verifier_of in HV. rewrite HV.
  apply Hm; [walk_attached|done].
Qed.

Lemma message_established now rnd ws f s V :
  truthy_value (verifier_of s) = Some V ->
  admitted_in (fun x => is_admitted (attachments s !! x) = true) (exec (webSocketMessage env now rnd ws f) s).
Proof.
  intros HV. set (A := fun x => _). assert (Hs : admitted_in A s) by (intros x; done).
  unfold webSocketMessage. erewrite exec_bind by reflexivity. cbv beta zeta.
  destruct (_ <? _); [apply (exec_within (admitted_in A)); [done|walk_admitted_in]|].
  destruct (state _); [apply (exec_within (admitted_in A)); [done|walk_admitted_in]| |].
  - intros x. by rewrite (handleProof_established now rnd ws _ f s V HV).
  - apply (exec_within (admitted_in A)); [done|walk_admitted_in].
Qed.

Lemma others_admitted_in A now rnd e w V :
  truthy_value (verifier_of (rm w)) = Some V ->
  match e with
  | EMessage _ _ => False
  | EResume i => match pending w !! i with Some (KProof _ _ _ _ _) => False | _ => True end
  | _ => True
  end -> handler_keeps env (admitted_in A) now rnd e w.
Proof.
  intros HV He. destruct e; simpl in *; try done; try (intros; walk_admitted_in; done).
  intros k Hk. rewrite Hk in He. destruct k; try done; walk_admitted_in.
Qed.

Lemma admitted_in_context A : context_keeps (admitted_in A).
Proof. split; intros; walk_admitted_in. Qed.

Lemma on_throw_attached k : within (same attachments) (on_throw k).
Proof. unfold on_throw. walk_attached. Qed.
End Signed.

(** ** Properties *)

(** C2: an established room admits on signatures only: when a step admits a
    socket in a room with a registered verifier, the step is the end of that
    socket's signature check, the check succeeded, and the signed bytes are
    the join transcript of the role claimed, the nonce this room sent that very
    socket, the room's name and the relay's origin. *)
Theorem established_admission_is_signed `{Crypto} `{AppAttest} (env : environment) (l : list input)
    (w w' : world) (V : string) now rnd e ws :
  run env l initial = Some w -> truthy_value (verifier_of (rm w)) = Some V ->
  step env now rnd e w = Some w' ->
  is_admitted (attachments (rm w') !! ws) = true -> is_admitted (attachments (rm w) !! ws) = false ->
  exists i r sg v t a, e = EResume i /\ pending w !! i = Some (KProof ws r sg v t)
    /\ verifyJoin sg t v = true
    /\ attachments (rm w) !! ws = Some a /\ state a = SChallenged /\ srole a = Some r
    /\ joinTranscript r (nonce a) (RoomState.roomName a) (RELAY_ORIGIN env) = Some t.
Proof.
  intros Hrun HV E Hnew Hold. set (A := fun x => is_admitted (attachments (rm w) !! x) = true).
  assert (Hs : admitted_in A (rm w)) by (intros x; done).
  assert (Hcontra : ~ admitted_in A (rm w')) by (intros Hc; specialize (Hc ws Hnew); unfold A in Hc; congruence).
  destruct e as [|ws0 f| |i| | | | | | |];
    try (exfalso; apply Hcontra;
         refine (step_keeps env (admitted_in A) (admitted_in_context A) now rnd _ w w' _ E Hs);
         apply (others_admitted_in env A now rnd _ w V HV); exact I).
  - exfalso. apply Hcontra. cbn [step] in E. destruct (_ && _); [|done]. injection E as <-.
    pose proof (message_established env now rnd ws0 f (rm w) V HV) as Hm. unfold settle. unfold exec in Hm.
    destruct (webSocketMessage env now rnd ws0 f (rm w)) as [[k|err] r]; [exact Hm|].
    intros x. cbn [rm]. rewrite (on_throw_attached _ r). apply Hm.
  - destruct (pending w !! i) as [k|] eqn:Ek; [|cbn [step] in E; by rewrite Ek in E].
    destruct k as [|ws1 r sg v t| | | |];
      try (exfalso; apply Hcontra;
         refine (step_keeps env (admitted_in A) (admitted_in_context A) now rnd _ w w' _ E Hs);
         apply (others_admitted_in env A now rnd _ w V HV); by rewrite Ek).
    cbn [step] in E. rewrite Ek in E. cbn [mbind option_bind] in E. injection E as <-.
    assert (Hbad : verifyJoin sg t v = true).
    { destruct (verifyJoin sg t v) eqn:Ev; [done|]. exfalso. apply Hcontra. unfold settle. cbn [resume].
      unfold handleProof_resume. rewrite Ev.
      assert (Hw : within (preserving (admitted_in A)) (reject ws1 "bad signature" ;;; @eret _ (option suspended) None))
        by walk_admitted_in.
      specialize (Hw (rm w) Hs). unfold exec in Hw.
      destruct ((reject ws1 "bad signature" ;;; eret None) (rm w)) as [[k'|err] r']; [exact Hw|].
      intros x. cbn [rm]. rewrite (on_throw_attached _ r'). apply Hw. }
    assert (ws = ws1) as ->.
    { destruct (decide (ws = ws1)) as [|Hne]; [done|]. exfalso.
      assert (Hw : within (same (others ws1)) (resume env now rnd (KProof ws1 r sg v t))) by walk_attached.
      specialize (Hw (rm w)). unfold same, others in Hw.
      assert (Heq : attachments (exec (resume env now rnd (KProof ws1 r sg v t)) (rm w)) !! ws = attachments (rm w) !! ws).
      { rewrite <-(lookup_delete_ne _ ws1 ws) by done. by rewrite Hw, lookup_delete_ne. }
      revert Hnew. unfold settle. unfold exec in Heq. cbn [resume] in Heq |- *.
      destruct ((_ ;;; _) (rm w)) as [[k'|err] r']; cbn [rm].
      - cbn [snd] in Heq. rewrite Heq. congruence.
      - rewrite (on_throw_attached _ r'). cbn [snd] in Heq. rewrite Heq. congruence. }
    destruct (run_waiting env l _ _ (initial_waiting env) Hrun) as [Hr _ _].
    rewrite Forall_forall in Hr. pose proof (Hr _ (list_elem_of_lookup_2 _ _ _ Ek)) as (a & Ha & Hst & Hro & Ht).
    by exists i, r, sg, v, t, a.
Qed.

(** A paired room that a mac rejoins with its signature. *)
Definition rejoin : list input :=
  pair_open ++ register_open ++ connect 1020 3 mac_hello [9; 9; 9]
  ++ [(1023, [], EMessage 3 (text_frame "{'sig':'AQEBAQEBAQEBAQEBAQEBAQEBAQEBAQEBAQEBAQEBjsU='}"))].

Lemma established_admission_is_signed_witness :
  exists w w' a, run_in open_env rejoin = Some w
    /\ step (H := toy_crypto) (H0 := toy_attest) open_env 1024 [] (EResume 0) w = Some w'
    /\ is_admitted (attachments (rm w') !! 3%nat) = true
    /\ attachments (rm w) !! 3%nat = Some a /\ nonce a = "CQkJ".
Proof.
  destruct (run_in open_env rejoin) as [w|] eqn:Ew; [|by vm_compute in Ew].
  destruct (step (H := toy_crypto) (H0 := toy_attest) open_env 1024 [] (EResume 0) w) as [w'|] eqn:E1.
  2: { vm_compute in Ew. injection Ew as <-. by vm_compute in E1. }
  assert (HV : truthy_value (verifier_of (rm w)) = Some "Vw==") by (by vm_compute in Ew; injection Ew as <-).
  assert (Ho : is_admitted (attachments (rm w) !! 3%nat) = false) by (by vm_compute in Ew; injection Ew as <-).
  assert (Hn : is_admitted (attachments (rm w') !! 3%nat) = true).
  { vm_compute in Ew. injection Ew as <-. vm_compute in E1. by injection E1 as <-. }
  destruct (established_admission_is_signed (H := toy_crypto) (H0 := toy_attest) open_env rejoin w w' "Vw==" 1024 []
              (EResume 0) 3 Ew HV E1 Hn Ho) as (i & r & sg & v & t & a & He & Hp & _ & Ha & _).
  exists w, w', a. split_and!; [done|done|done|done|].
  vm_compute in Ew. injection Ew as <-. vm_compute in Ha. by injection Ha as <-.
Defined.
