(* ===== verification/RoomDelete.v ===== *)
(** Deletions: what was verified before the room of a deletion is wiped
    ([handleDelete] of [src/room.js]), over whole runs, as the wipe is two
    suspensions away from the request that asks for it. *)

From S2P Require Import Prelude Bytes Crypto Json Transcript Storage RoomState AttestApi Room RoomSteps RoomFacts RoomStore Scenario.

#[local] Open Scope eff_scope.

(** ** The history of a deletion *)

Section History.
Context `{Crypto} `{AppAttest} (env : environment).

(** Some request [req] of the run [l] asked for the room's deletion: the room had
    verifier [v], the challenge was on record and not expired, and [t] is the
    deletion of this challenge, for this room and relay. *)
Definition deletion_requested (l : list input) (req : nat) (sg v : string) (t : bytes) : Prop :=
  exists l1 l2 now rnd name body w j challenge r,
    l = l1 ++ (now, rnd, EHttp req "POST" "/delete" name body) :: l2
    /\ run env l1 initial = Some w
    /\ JSON_parse body = Some j
    /\ jprop j "challenge" = Ok (Some (JStr challenge)) /\ jprop j "signature" = Ok (Some (JStr sg))
    /\ truthy_value (verifier_of (rm w)) = Some v
    /\ kv (storage (rm w)) !! ("attestchallenge:" +:+ challenge) = Some r /\ expired r now = false
    /\ deleteTranscript challenge name (RELAY_ORIGIN env) = Some t.

(** The signature it came with is one of the room's verifier. *)
Definition deletion_verified (l : list input) (req : nat) : Prop :=
  exists sg v t key signature, deletion_requested l req sg v t
    /\ b64ToBytes v = Some key /\ b64ToBytes sg = Some signature /\ ed25519_verify key signature t = Some true.

Lemma requested_later l l' req sg v t : deletion_requested l req sg v t -> deletion_requested (l ++ l') req sg v t.
Proof.
  intros (l1 & l2 & now & rnd & name & body & w & j & c & r & -> & Hr).
  exists l1, (l2 ++ l'), now, rnd, name, body, w, j, c, r. split; [by rewrite <-app_assoc|done].
Qed.

(** What a suspended handler has behind it. *)
Definition behind (l : list input) (k : suspended) : Prop :=
  match k with
  | KDelete req sg v t => deletion_requested l req sg v t
  | KDeleteTag req => deletion_verified l req
  | _ => True
  end.

Lemma behind_later l l' k : behind l k -> behind (l ++ l') k.
Proof.
  destruct k; simpl; try done; [apply requested_later|].
  intros (sg & v & t & key & b & Hr & Hv). exists sg, v, t, key, b. split; [by apply requested_later|done].
Qed.

Lemma verifyJoin_sound sg t v :
  verifyJoin sg t v = true ->
  exists key signature, b64ToBytes v = Some key /\ b64ToBytes sg = Some signature
    /\ ed25519_verify key signature t = Some true.
Proof.
  unfold verifyJoin. intros E. destruct (b64ToBytes v) as [key|]; [|done]. destruct (b64ToBytes sg) as [b|]; [|done].
  exists key, b. split_and!; [done|done|]. by destruct (ed25519_verify key b t) as [[]|].
Qed.

(** ** What suspends on a deletion *)

Definition not_deletion (k : option suspended) : Prop :=
  match k with Some (KDelete _ _ _ _ | KDeleteTag _) => False | _ => True end.

Lemma handleDelete_result now req name body s k s' :
  handleDelete env now req name body s = (Done (Some k), s') ->
  exists j challenge sg v r t, k = KDelete req sg v t /\ JSON_parse body = Some j
    /\ jprop j "challenge" = Ok (Some (JStr challenge)) /\ jprop j "signature" = Ok (Some (JStr sg))
    /\ truthy_value (verifier_of s) = Some v
    /\ kv (storage s) !! ("attestchallenge:" +:+ challenge) = Some r /\ expired r now = false
    /\ deleteTranscript challenge name (RELAY_ORIGIN env) = Some t.
Proof.
  intros E. unfold handleDelete in E.
  assert (Hy : forall (m : Eff room (option suspended)) s0, yields (fun a => a = None) m -> m s0 <> (Done (Some k), s')).
  { intros m s0 Hm Em. specialize (Hm s0). rewrite Em in Hm. done. }
  destruct (JSON_parse body) as [j|]; [|exfalso; revert E; apply Hy; walk_yields; done].
  unfold ebind at 1, sget at 1, ebind at 1, step_storage in E. cbn [room_step] in E. unfold eret at 1 in E.
  destruct (truthy_value (kv (storage s) !! "verifier")) as [v|] eqn:Ev; [|exfalso; revert E; apply Hy; walk_yields; done].
  unfold lift in E. destruct (jprop j "challenge") as [c|e] eqn:Ec; [|done]. unfold ebind at 1, eret at 1 in E.
  destruct (jprop j "signature") as [sg|e] eqn:Es; [|done]. unfold ebind at 1, eret at 1 in E.
  destruct c as [[| | |c| |]|]; try (exfalso; revert E; apply Hy; walk_yields; done).
  destruct sg as [[| | |sg| |]|]; try (exfalso; revert E; apply Hy; walk_yields; done).
  cbn [jstring] in E. unfold ebind at 1, sget at 1, ebind at 1, step_storage in E. cbn [room_step] in E. unfold eret at 1 in E.
  cbn [storage set_storage] in E.
  destruct (kv (storage s) !! ("attestchallenge:" +:+ c)) as [r|] eqn:Er; [|exfalso; revert E; apply Hy; walk_yields; done].
  destruct (expired r now) eqn:Ex; [exfalso; revert E; apply Hy; walk_yields; done|].
  destruct (deleteTranscript c name (RELAY_ORIGIN env)) as [t|] eqn:Et; [|done].
  injection E as <- _. by exists j, c, sg, v, r, t.
Qed.

Lemma handleHttp_behind l w now rnd req m p name body k r :
  run env l initial = Some w ->
  handleHttp env now rnd req m p name body (rm w) = (Done (Some k), r) ->
  behind (l ++ [(now, rnd, EHttp req m p name body)]) k.
Proof.
  intros Hw E. unfold handleHttp in E.
  assert (Hy : forall (x : Eff room (option suspended)), yields not_deletion x -> x (rm w) = (Done (Some k), r) ->
    behind (l ++ [(now, rnd, EHttp req m p name body)]) k).
  { intros x Hx Ex. specialize (Hx (rm w)). rewrite Ex in Hx. by destruct k. }
  destruct (_ && _); [revert E; apply Hy; walk_yields|].
  destruct (_ && _); [revert E; apply Hy; walk_yields|].
  destruct (_ && _); [revert E; apply Hy; walk_yields|].
  destruct (String.eqb m "POST" && String.eqb p "/delete") eqn:Ed; [|revert E; apply Hy; walk_yields].
  apply andb_true_iff in Ed as [->%String.eqb_eq ->%String.eqb_eq].
  apply handleDelete_result in E as (j & c & sg & v & rec & t & -> & E).
  exists l, [], now, rnd, name, body, w, j, c, rec. split; [done|]. split; [done|exact E].
Qed.

Lemma resume_behind l l' now rnd k k' s r :
  behind l k -> resume env now rnd k s = (Done (Some k'), r) -> behind (l ++ l') k'.
Proof.
  intros Hk E. destruct k as [| | | |req sg v t|];
    try (match type of E with ?m s = _ => assert (Hy : yields not_deletion m) by walk_yields end;
         specialize (Hy s); rewrite E in Hy; by destruct k').
  cbn [resume] in E. unfold handleDelete_resume in E. destruct (verifyJoin sg t v) eqn:Ev; [|done].
  injection E as <- _. apply (behind_later l l' (KDeleteTag req)).
  apply verifyJoin_sound in Ev as (key & b & Hv). by exists sg, v, t, key, b.
Qed.

(** ** Every suspended handler has its history *)

Lemma settle_behind l k (m : Eff room (option suspended)) w rest :
  Forall (behind l) rest -> (forall k' r, m (rm w) = (Done (Some k'), r) -> behind l k') ->
  Forall (behind l) (pending (settle k m w rest)).
Proof.
  intros Hr Hm. unfold settle. destruct (m (rm w)) as [[[k'|]|e] r]; simpl; [|by rewrite app_nil_r|done].
  apply Forall_app. split; [done|]. apply Forall_singleton. by eapply Hm.
Qed.

Lemma step_behind l now rnd e w w' :
  run env l initial = Some w -> Forall (behind l) (pending w) -> step env now rnd e w = Some w' ->
  Forall (behind (l ++ [(now, rnd, e)])) (pending w').
Proof.
  intros Hw Hp E.
  assert (Hp' : Forall (behind (l ++ [(now, rnd, e)])) (pending w)).
  { eapply Forall_impl; [exact Hp|]. intros k. apply behind_later. }
  assert (Hy : forall (m : Eff room (option suspended)), yields not_deletion m ->
    forall k r, m (rm w) = (Done (Some k), r) -> behind (l ++ [(now, rnd, e)]) k).
  { intros m Hm k r Em. specialize (Hm (rm w)). rewrite Em in Hm. by destruct k. }
  destruct e as [ws name|ws f|req m p n b|i| |ws c r|ws c r|ws m|i|c r|]; cbn [step] in E.
  - destruct (decide _); [|done]. injection E as <-. apply settle_behind; [done|]. apply Hy. walk_yields.
  - destruct (_ && _); [|done]. injection E as <-. apply settle_behind; [done|]. apply Hy. walk_yields.
  - injection E as <-. apply settle_behind; [done|]. intros k r. by eapply handleHttp_behind.
  - destruct (pending w !! i) as [k|] eqn:Ek; [|done]. simpl in E. injection E as <-.
    apply settle_behind; [by apply Forall_delete|]. intros k' r. eapply resume_behind.
    rewrite Forall_forall in Hp. apply Hp. by eapply list_elem_of_lookup_2.
  - destruct (alarmAt (rm w)) as [t|]; [|done]. simpl in E. destruct (t <=? now); [|done]. by injection E as <-.
  - by injection E as <-.
  - by injection E as <-.
  - by injection E as <-.
  - destruct (callbacks w !! i) as [c|]; [|done]. simpl in E. destruct (busy _ _); [done|]. by injection E as <-.
  - by injection E as <-.
  - injection E as <-. constructor.
Qed.

Lemma run_app l1 l2 w : run env (l1 ++ l2) w = run env l1 w ≫= run env l2.
Proof.
  revert w. induction l1 as [|[[now rnd] e] l1 IH]; intros w; [done|]. simpl.
  destruct (step env now rnd e w) as [w1|]; [apply IH|done].
Qed.

Lemma run_behind l w : run env l initial = Some w -> Forall (behind l) (pending w).
Proof.
  revert w. induction l as [|[[now rnd] e] l IH] using rev_ind; intros w E; [injection E as <-; constructor|].
  rewrite run_app in E. destruct (run env l initial) as [w1|] eqn:E1; [|done]. simpl in E.
  destruct (step env now rnd e w1) as [w2|] eqn:E2; [|done]. injection E as <-.
  eapply step_behind; [exact E1|by apply IH|exact E2].
Qed.
End History.

(** ** Property *)

(** C8: only two events wipe an established room: the housekeeping alarm once the
    idle TTL has passed since the last authenticated contact, and the end of a
    verified deletion: earlier in the run a request asked for it under a challenge
    this room had on record, and its signature of this challenge, this room's name
    and this relay is one of the verifier the room had then. *)
Theorem established_room_wiped_only_by_deletion_or_idleness `{Crypto} `{AppAttest} (env : environment)
    (l : list input) (V : string) (now : Z) (rnd : bytes) (e : event) (w w' : world) :
  run env l initial = Some w -> established V w ->
  step env now rnd e w = Some w' -> verifier_of (rm w') = None ->
  (e = EAlarm /\ exists last, kv (storage (rm w)) !! "lastActivity" = Some (VNumber last)
                   /\ last + establishedIdleTtlMs env <= now)
  \/ exists i req, e = EResume i /\ pending w !! i = Some (KDeleteTag req) /\ deletion_verified env l req.
Proof.
  intros Hw He E Hv. destruct (wiped_by_deletion_or_idleness env V now rnd e w w' He E Hv) as [Ha|(i & req & -> & Hi)]; [by left|].
  right. exists i, req. split_and!; [done|done|].
  apply (Forall_lookup_1 (behind env l) _ _ (KDeleteTag req)) in Hi; [done|by apply run_behind].
Qed.

(** ** Witness *)

(** The established room of an open-mode pairing, a challenge (AAAA) and a deletion
    signed under it. *)
Definition deletion_signature : string :=
  match b64ToBytes "Vw==", deleteTranscript "AAAA" room_name "https://relay" with
  | Some key, Some t => b64 (toy_sha256 (key ++ t))
  | _, _ => ""
  end.

Definition deleted_run : list input :=
  pair_open ++ register_open ++
  [(1010, [0; 0; 0], EHttp 2 "POST" "/attest/challenge" room_name "");
   (1011, [], EHttp 3 "POST" "/delete" room_name
      (requote ("{'challenge':'AAAA','signature':'" +:+ deletion_signature +:+ "'}")));
   (1012, [], EResume 0)].

(** The step after it wipes the room. *)
Lemma established_room_wiped_only_by_deletion_or_idleness_witness :
  exists w, run_in open_env deleted_run = Some w /\ verifier_of (rm w) = Some (VString "Vw==")
  /\ deletion_verified (H := toy_crypto) (H0 := toy_attest) open_env deleted_run 3.
Proof.
  destruct (run_in open_env deleted_run) as [w|] eqn:E; [|vm_compute in E; discriminate].
  exists w. split; [done|].
  assert (He : established "Vw==" w /\ pending w = [KDeleteTag 3]).
  { vm_compute in E. injection E as <-. split; [split; [split; [vm_compute; reflexivity|discriminate]|by repeat constructor]|done]. }
  destruct (step (H := toy_crypto) (H0 := toy_attest) open_env 1013 [] (EResume 0) w) as [w'|] eqn:E'.
  2: { vm_compute in E. injection E as <-. vm_compute in E'. discriminate. }
  destruct (established_room_wiped_only_by_deletion_or_idleness (H := toy_crypto) (H0 := toy_attest) open_env deleted_run "Vw=="
    1013 [] (EResume 0) w w') as [[[=] _]|(i & req & [= <-] & Hp & Hd)]; [exact E|by destruct He|exact E'| |].
  - vm_compute in E. injection E as <-. vm_compute in E'. injection E' as <-. vm_compute. reflexivity.
  - destruct He as [[[Hv _] _] Hq]. rewrite Hq in Hp. injection Hp as <-. by split.
Defined.
