(* ===== verification/RoomProof.v ===== *)
(** A proof frame by its outcomes: [handleProof] rejects, suspends on a
    signature, or admits in pairing mode; the admission itself by its outcomes.
    The case analysis the properties of admission share. *)

From S2P Require Import Prelude Bytes Crypto Json Transcript Storage RoomState AttestApi Room RoomSteps RoomFacts RoomStore.

#[local] Open Scope eff_scope.

(** The room after the limiter has counted a proof. *)
Definition proof_counted (now : Z) (s : room) : room :=
  set_admissionWindow (bump_window (admissionWindow s) ADMISSION_WINDOW_MS now) s.

(** The room with a ticket consumed. *)
Definition without_key (k : string) (s : room) : room :=
  set_storage (RStore (delete k (kv (storage s))) (Storage.alarm (storage s))) s.

(** How a pairing-mode admission is labelled. *)
Definition pairing_via (via : string) : Prop :=
  via = "park(pre-auth mac)" \/ via = "open" \/ via = "ticket".

Inductive proof_outcome (now : Z) (rnd : bytes) (ws : websocket) (r : role) (s : room) : room -> Prop :=
| proof_settled : proof_outcome now rnd ws r s (proof_counted now s)
| proof_rejected err : proof_outcome now rnd ws r s (exec (reject ws err) (proof_counted now s))
| proof_admitted via :
    truthy_value (verifier_of s) = None -> pairing_via via ->
    proof_outcome now rnd ws r s (exec (admit_socket now rnd ws r None via) (proof_counted now s))
| proof_redeemed ticket attest :
    truthy_value (verifier_of s) = None ->
    proof_outcome now rnd ws r s
      (exec (admit_socket now rnd ws r attest "ticket") (without_key ("ticket:" +:+ ticket) (proof_counted now s))).

Section Outcome.
Context `{Crypto} `{AppAttest} (env : environment).

Lemma exec_then {A B} (m : Eff room A) (b : B) s : exec (m ;;; eret b) s = exec m s.
Proof. unfold exec, ebind. by destruct (m s) as [[a|e] s']. Qed.

Lemma set_storage_id s : set_storage (storage s) s = s.
Proof. by destruct s. Qed.

Lemma redeem_outcome now rnd ws r ticket rec s :
  truthy_value (verifier_of s) = None -> kv (storage s) !! ("ticket:" +:+ ticket) = Some rec ->
  proof_outcome now rnd ws r s (exec (redeem_ticket now rnd ws r ("ticket:" +:+ ticket) rec) (proof_counted now s)).
Proof.
  intros HV Hrec. unfold redeem_ticket. erewrite exec_bind by reflexivity. cbn [fst].
  unfold r_delete. change (kv (storage (proof_counted now s))) with (kv (storage s)). rewrite Hrec.
  rewrite bool_decide_eq_true_2 by done. cbn [negb]. by apply proof_redeemed.
Qed.

Lemma handleProof_outcome now rnd ws a f s :
  proof_outcome now rnd ws (default mac (srole a)) s (exec (handleProof env now rnd ws a f) s).
Proof.
  unfold handleProof. cbv zeta.
  erewrite exec_bind by reflexivity. fold (proof_counted now s).
  destruct (_ <? _); [rewrite exec_then; apply proof_rejected|].
  destruct (JSON_parse (payload f)) as [proof|]; [|rewrite exec_then; apply proof_rejected].
  erewrite exec_bind by reflexivity. rewrite set_storage_id.
  change (kv (storage (proof_counted now s)) !! "verifier") with (verifier_of s).
  destruct (truthy_value (verifier_of s)) as [v|] eqn:HV.
  - unfold lift. destruct (jprop proof "sig") as [sg|e]; [|apply proof_settled].
    erewrite exec_bind by reflexivity. destruct (jstring sg); [|rewrite exec_then; apply proof_rejected].
    destruct (joinTranscript _ _ _ _); apply proof_settled.
  - destruct (attestationRequired env); [|rewrite exec_then; apply proof_admitted; [done|unfold pairing_via; tauto]].
    destruct (bool_decide _); [rewrite exec_then; apply proof_admitted; [done|unfold pairing_via; tauto]|].
    unfold lift. destruct (jprop proof "ticket") as [t|e]; [|apply proof_settled].
    erewrite exec_bind by reflexivity. destruct (jstring t) as [ticket|]; [|rewrite exec_then; apply proof_rejected].
    erewrite exec_bind by reflexivity. rewrite set_storage_id.
    change (kv (storage (proof_counted now s))) with (kv (storage s)).
    destruct (kv (storage s) !! _) as [rec|] eqn:Erec; [|rewrite exec_then; apply proof_rejected].
    destruct (expired rec now); rewrite exec_then; [apply proof_rejected|by apply redeem_outcome].
Qed.
End Outcome.

(** ** Admission *)

Definition cycles_of (s : room) : Z :=
  match kv (storage s) !! "pairingCycles" with Some (VNumber n) => n | _ => 0 end.

Definition with_cycles (n : Z) (s : room) : room :=
  set_storage (RStore (<["pairingCycles" := VNumber n]> (kv (storage s))) (Storage.alarm (storage s))) s.

(** Some live socket is an admitted mac; other than [ws]. *)
Definition mac_parked (s : room) : Prop :=
  exists x, x ∈ sockets s /\ admitted_as mac (attachments s !! x) = true.

(** What the gate stores when it lets the socket on. *)
Inductive spent (r : role) (s : room) : room -> Prop :=
| spent_established : truthy_value (verifier_of s) <> None -> (r = phone -> mac_parked s) -> spent r s s
| spent_mac : truthy_value (verifier_of s) = None -> r = mac -> spent r s (with_cycles 0 s)
| spent_phone : truthy_value (verifier_of s) = None -> r = phone -> mac_parked s ->
    cycles_of s + 1 <= MAX_PAIRING_CYCLES -> spent r s (with_cycles (cycles_of s + 1) s).

Inductive gate_outcome (ws : websocket) (r : role) (prev : attachment) (s : room) : bool -> room -> Prop :=
| gate_offline : r = phone -> gate_outcome ws r prev s false (exec (reject ws "mac offline") s)
| gate_killed : r = phone -> mac_parked s -> truthy_value (verifier_of s) = None ->
    MAX_PAIRING_CYCLES < cycles_of s + 1 ->
    gate_outcome ws r prev s false (exec (teardownRoom "pairing cycle cap") s)
| gate_occupied s1 : spent r s s1 -> nonDisplacing prev = true ->
    gate_outcome ws r prev s false (exec (reject ws "slot occupied") s1)
| gate_open s1 : spent r s s1 -> gate_outcome ws r prev s true s1.

Lemma reject_done ws err s : reject ws err s = (Done tt, exec (reject ws err) s).
Proof. reflexivity. Qed.

Lemma teardown_done reason s : teardownRoom reason s = (Done tt, exec (teardownRoom reason) s).
Proof.
  unfold exec. assert (fst (teardownRoom reason s) = Done tt) as Hd; [|by destruct (teardownRoom reason s); simpl in *; subst].
  unfold teardownRoom. unfold ebind at 1, getWebSockets, eget. cbv beta.
  assert (Hl : forall l s, exists s', eforeach l (fun ws => closeSocket ws 1000 reason) s = (Done tt, s')).
  { clear. induction l as [|x l IH]; intros s; [by eexists|]. simpl. unfold ebind at 1. rewrite closeSocket_eq. apply IH. }
  destruct (Hl (sockets s) s) as [s' E]. unfold ebind at 1. by rewrite E.
Qed.

Lemma exists_other_spec ws p s :
  exists_other ws p s = (Done (existsb (fun x => negb (x =? ws)%nat && p (attachments s !! x)) (sockets s)), s).
Proof. reflexivity. Qed.

Lemma parked_spec ws s :
  existsb (fun x => negb (x =? ws)%nat && admitted_as mac (attachments s !! x)) (sockets s) = true -> mac_parked s.
Proof.
  intros E. apply existsb_exists in E as (x & Hx & E). apply andb_true_iff in E as [_ E]. exists x.
  split; [by apply list_elem_of_In|done].
Qed.

(** The end of the gate, after the budget is settled. *)
Lemma gate_last ws r prev s s1 (Hs : spent r s s1) b s2 :
  (if true && nonDisplacing prev then
     occupied <- exists_other ws (admitted_as r) ;;
     if occupied then reject ws "slot occupied" ;;; eret false else eret true
   else eret true) s1 = (Done b, s2) -> gate_outcome ws r prev s b s2.
Proof.
  cbn [andb]. destruct (nonDisplacing prev) eqn:Hnd; [|intros [= <- <-]; by apply gate_open].
  unfold ebind at 1. rewrite exists_other_spec. destruct (existsb _ _).
  - unfold ebind. rewrite reject_done. intros [= <- <-]. by apply gate_occupied.
  - intros [= <- <-]. by apply gate_open.
Qed.

Lemma admit_gate_outcome ws r prev s :
  exists b s', admit_gate ws r prev s = (Done b, s') /\ gate_outcome ws r prev s b s'.
Proof.
  assert (Hlast : forall s1, spent r s s1 -> exists b s',
    (if true && nonDisplacing prev then
       occupied <- exists_other ws (admitted_as r) ;;
       if occupied then reject ws "slot occupied" ;;; eret false else eret true
     else eret true) s1 = (Done b, s') /\ gate_outcome ws r prev s b s').
  { intros s1 Hs1. match goal with |- exists b s', ?m s1 = _ /\ _ => destruct (m s1) as [[b|e] s2] eqn:E end.
    - exists b, s2. split; [done|]. eapply gate_last; [exact Hs1|exact E].
    - exfalso. revert E. cbn [andb]. destruct (nonDisplacing prev); [|done]. unfold ebind at 1.
      rewrite exists_other_spec. destruct (existsb _ _); [|done]. unfold ebind. by rewrite reject_done. }
  unfold admit_gate. unfold ebind at 1, sget, ebind at 1, step_storage. cbn [room_step]. unfold eret at 1.
  rewrite set_storage_id. cbv zeta. change (kv (storage s) !! "verifier") with (verifier_of s).
  destruct r.
  - (* mac *) rewrite (bool_decide_eq_true_2 (mac = mac)), (bool_decide_eq_false_2 (mac = phone)) by done.
    destruct (truthy_value (verifier_of s)) as [V|] eqn:HV.
    + rewrite bool_decide_eq_true_2 by done. cbn [negb andb]. apply Hlast. apply spent_established; [congruence|done].
    + rewrite bool_decide_eq_false_2 by by intros [? ?]. cbn [negb andb]. unfold ebind at 1, ewhen, sput, ebind at 1, step_storage.
      apply Hlast. by apply spent_mac.
  - rewrite (bool_decide_eq_false_2 (phone = mac)), (bool_decide_eq_true_2 (phone = phone)) by done.
    rewrite andb_false_r. unfold ebind at 1, ewhen, eret at 1.
    unfold ebind at 1. unfold ebind at 1. rewrite exists_other_spec.
    destruct (existsb _ _) eqn:Hp; cbn [negb]; [apply parked_spec in Hp|].
    2: { unfold ebind. rewrite reject_done. eexists _, _. split; [reflexivity|]. by apply gate_offline. }
    destruct (truthy_value (verifier_of s)) as [V|] eqn:HV.
    + rewrite bool_decide_eq_true_2 by done. apply Hlast. apply spent_established; [congruence|done].
    + rewrite bool_decide_eq_false_2 by by intros [? ?].
      unfold ebind at 1, ebind at 1, step_storage. cbn [room_step]. unfold eret at 1. rewrite set_storage_id.
      change (match kv (storage s) !! "pairingCycles" with Some (VNumber n) => n | _ => 0 end) with (cycles_of s).
      cbv zeta. destruct (_ <? _) eqn:Hc.
      * unfold ebind. rewrite teardown_done. eexists _, _. split; [reflexivity|].
        apply gate_killed; try done. by apply Z.ltb_lt.
      * unfold sput, ebind at 1, ebind at 1, step_storage. apply Hlast. apply spent_phone; try done.
        by apply Z.ltb_ge.
Qed.

(** What [admit_socket] does past its gate. *)
Definition enter (now : Z) (rnd : bytes) (ws : websocket) (r : role) (attest : option (string * string))
    (via : string) (prev : attachment) : Eff room unit :=
  take_slot ws r prev ;;;
  peerPresent <- exists_other ws (admitted_other (Some r)) ;;
  log (admit_line prev r via peerPresent) ;;;
  if bool_decide (r = phone) then
    let token := b64 rnd in
    sput ("regtoken:" +:+ token) (VRegToken (now + REG_TOKEN_TTL_MS) attest) ;;;
    ensureAlarm now ;;;
    send ws (JObj (json_ok ++ [("registrationToken", JStr token)]))
  else send ws (JObj json_ok).

(** The attachment an admission starts from. *)
Definition prev_of (ws : websocket) (s : room) : attachment :=
  default (Att SHello None "" "" None false 0) (attachments s !! ws).

Lemma admit_outcome now rnd ws r attest via s :
  exists b s', gate_outcome ws r (prev_of ws s) s b s'
    /\ exec (admit_socket now rnd ws r attest via) s
       = if b then exec (enter now rnd ws r attest via (prev_of ws s)) s' else s'.
Proof.
  destruct (admit_gate_outcome ws r (prev_of ws s) s) as (b & s' & E & Hg). exists b, s'. split; [done|].
  unfold admit_socket. erewrite exec_bind by reflexivity. cbv zeta. fold (prev_of ws s).
  erewrite exec_bind by exact E. by destruct b.
Qed.

(** Taking the slot: some sockets leave, the socket is admitted. *)
Lemma take_slot_result ws r prev s :
  exists s', take_slot ws r prev s = (Done tt, s')
    /\ sockets s' ⊆ sockets s
    /\ attachments s' = <[ws := Att SAdmitted (Some r) "" (RoomState.roomName prev) (tag prev) false (connectedAt prev)]> (attachments s)
    /\ storage s' = storage s /\ alarmAt s' = alarmAt s
    /\ exists l, trace s' = trace s ++ l /\ Forall (fun o => match o with LogDisconnect _ _ _ _ | Closed _ _ _ => True | _ => False end) l.
Proof.
  unfold take_slot. unfold ebind at 1, getWebSockets, eget. cbv beta.
  set (f := fun other : websocket => if (other =? ws)%nat then eret tt else _).
  assert (Hl : forall l s, exists s', eforeach l f s = (Done tt, s') /\ sockets s' ⊆ sockets s
    /\ attachments s' = attachments s /\ storage s' = storage s /\ alarmAt s' = alarmAt s
    /\ exists l, trace s' = trace s ++ l /\ Forall (fun o => match o with LogDisconnect _ _ _ _ | Closed _ _ _ => True | _ => False end) l).
  { clear. induction l as [|x l IH]; intros s.
    - exists s. split_and!; try done. exists []. by rewrite app_nil_r.
    - cbn [eforeach]. unfold ebind at 1.
      assert (Hx : exists s1, f x s = (Done tt, s1) /\ sockets s1 ⊆ sockets s
        /\ attachments s1 = attachments s /\ storage s1 = storage s /\ alarmAt s1 = alarmAt s
        /\ exists l, trace s1 = trace s ++ l /\ Forall (fun o => match o with LogDisconnect _ _ _ _ | Closed _ _ _ => True | _ => False end) l).
      { unfold f. destruct (x =? ws)%nat; [exists s; split_and!; try done; exists []; by rewrite app_nil_r|].
        unfold ebind, deserializeAttachment, eget. destruct (admitted_as _ _); simpl;
          [|exists s; split_and!; try done; exists []; by rewrite app_nil_r].
        rewrite closeSocket_eq. eexists. split; [reflexivity|].
        pose proof (ws_close_sockets x 1000 "displaced"
          (push (LogDisconnect by_relay (attachments s !! x) (Some 1000) (Some "displaced")) s)) as [Hs Ha]%conn_eq.
        rewrite Hs, Ha. split_and!; try done.
        - intros y Hy. by apply list_elem_of_filter in Hy as [_ Hy].
        - unfold ws_close, remove_socket, exec, ebind, emod. simpl. by destruct (decide _).
        - unfold ws_close, remove_socket, exec, ebind, emod. simpl. by destruct (decide _).
        - eexists. split.
          + unfold ws_close, remove_socket, exec, ebind, emod. simpl. destruct (decide _); simpl; by rewrite <-app_assoc.
          + by repeat constructor. }
      destruct Hx as (s1 & -> & Hs1 & Ha1 & Hst1 & Hal1 & l1 & Ht1 & Hl1).
      destruct (IH s1) as (s2 & -> & Hs2 & Ha2 & Hst2 & Hal2 & l2 & Ht2 & Hl2).
      exists s2. split_and!; try congruence; [set_solver|]. exists (l1 ++ l2).
      rewrite Ht2, Ht1, <-app_assoc. split; [done|by apply Forall_app]. }
  destruct (Hl (sockets s) s) as (s1 & E & Hs & Ha & Hst & Hal & l & Ht & Hf).
  unfold ebind. rewrite E. eexists. split; [reflexivity|]. simpl. rewrite Ha. split_and!; eauto.
Qed.

(** ** What is suspended *)

Section Suspended.
Context `{Crypto} `{AppAttest} (env : environment) (P : suspended -> Prop).

Definition if_suspended (k : option suspended) : Prop := match k with Some k => P k | None => True end.

(** Whatever any handler suspends on satisfies [P]. *)
Record suspends : Prop := {
  suspends_upgrade : forall now ws name, yields if_suspended (handleUpgrade now ws name);
  suspends_message : forall now rnd ws f, yields if_suspended (webSocketMessage env now rnd ws f);
  suspends_http : forall now rnd req m p n b, yields if_suspended (handleHttp env now rnd req m p n b);
  suspends_resume : forall now rnd k, yields if_suspended (resume env now rnd k);
}.

Lemma settle_pending k m w rest :
  yields if_suspended m -> Forall P rest -> Forall P (pending (settle k m w rest)).
Proof.
  intros Hm Hr. unfold settle. specialize (Hm (rm w)). destruct (m (rm w)) as [[[x|]|e] r]; simpl in *; [|by rewrite app_nil_r|done].
  apply Forall_app_2; [done|by constructor].
Qed.

Lemma step_pending now rnd e w w' :
  suspends -> step env now rnd e w = Some w' -> Forall P (pending w) -> Forall P (pending w').
Proof.
  intros [Hu Hm Hh Hr] E Hw.
  destruct e as [ws name|ws f|req m p n b|i| |ws c r|ws c r|ws m|i|c r|]; cbn [step] in E.
  - destruct (decide _); [|done]. injection E as <-. by apply settle_pending.
  - destruct (_ && _); [|done]. injection E as <-. by apply settle_pending.
  - injection E as <-. by apply settle_pending.
  - destruct (pending w !! i); [|done]. injection E as <-. apply settle_pending; [apply Hr|by apply Forall_delete].
  - destruct (alarmAt (rm w)); [|done]. simpl in E. destruct (_ <=? _); [|done]. by injection E as <-.
  - by injection E as <-.
  - by injection E as <-.
  - by injection E as <-.
  - destruct (callbacks w !! i); [|done]. simpl in E. destruct (busy _ _); [done|]. by injection E as <-.
  - by injection E as <-.
  - by injection E as <-.
Qed.
End Suspended.

(** A registration in flight consumes a registration token. *)
Definition token_key (k : suspended) : Prop :=
  match k with KRegister _ key _ _ _ _ _ => exists t, key = "regtoken:" +:+ t | _ => True end.

Lemma suspends_token_key `{Crypto} `{AppAttest} env : suspends env token_key.
Proof. split; intros; walk_yields; try exact I; try (by eexists); by destruct k. Qed.
