(* ===== verification/RoomAlarm.v ===== *)
(** The housekeeping alarm: what a sweep leaves behind, the deadline
    [ensureAlarm] guarantees, and the alarm that lapsed. *)

From S2P Require Import Prelude Bytes Crypto Json Transcript Storage RoomState AttestApi Room RoomSteps RoomFacts RoomStore RoomPending RoomProof Scenario.

#[local] Open Scope eff_scope.

(** ** A sweep *)

(** No live un-admitted socket is past its deadline. *)
Definition no_overdue (now : Z) (s : room) : Prop :=
  forall ws a, ws ∈ sockets s -> attachments s !! ws = Some a -> state a <> SAdmitted -> timed_out now a = false.

(** No expired single-use record is left. *)
Definition no_expired (now : Z) (s : room) : Prop :=
  forall p k v, p ∈ EPHEMERAL_PREFIXES -> prefix_match p k = true -> kv (storage s) !! k = Some v ->
    expired v now = false.

(** Work the next sweep would do. *)
Definition work_left (s : room) : Prop :=
  (exists ws a, ws ∈ sockets s /\ attachments s !! ws = Some a /\ state a <> SAdmitted)
  \/ exists p k v, p ∈ EPHEMERAL_PREFIXES /\ prefix_match p k = true /\ kv (storage s) !! k = Some v.

(** [a && a.state !== "admitted" && timed_out] *)
Definition overdue (now : Z) (a : option attachment) : bool :=
  match a with Some a => negb (bool_decide (state a = SAdmitted)) && timed_out now a | None => false end.

Lemma countb_pos {A} (p : A -> bool) l x : x ∈ l -> p x = true -> (0 < countb p l)%nat.
Proof.
  induction l as [|y l IH]; [by intros ?%not_elem_of_nil|]. intros [->|Hin]%elem_of_cons Hx; simpl.
  - rewrite Hx. lia.
  - specialize (IH Hin Hx). lia.
Qed.

Lemma sweep_result now s :
  exists n s', sweep_pre_auth now (sockets s) s = (Done n, s')
    /\ sockets s' = filter (fun x => overdue now (attachments s !! x) = false) (sockets s)
    /\ attachments s' = attachments s /\ storage s' = storage s /\ alarmAt s' = alarmAt s
    /\ forall ws a, ws ∈ sockets s' -> attachments s' !! ws = Some a -> state a <> SAdmitted -> 0 < n.
Proof.
  unfold sweep_pre_auth. unfold ebind at 1, eget. set (n := Z.of_nat _).
  set (f := fun ws : websocket => ebind (deserializeAttachment ws) _).
  assert (Hf : forall x s, f x s
    = (Done tt, if overdue now (attachments s !! x) then exec (closeSocket x 1008 "admission timeout") s else s)).
  { intros x s0. unfold f, ebind, deserializeAttachment, eget. destruct (attachments s0 !! x) as [a|]; simpl; [|done].
    by destruct (_ && _). }
  pose proof (close_loop_sockets (fun _ a => overdue now a) 1008 "admission timeout" (sockets s) s f Hf) as Hc.
  assert (Hdone : exists s1, eforeach (sockets s) f s = (Done tt, s1)
            /\ storage s1 = storage s /\ alarmAt s1 = alarmAt s).
  { generalize (sockets s). intros l. clear Hc. clearbody n. revert s. induction l as [|x l IH]; intros s.
    - by exists s.
    - simpl. unfold ebind at 1. rewrite Hf.
      destruct (overdue _ _); [|apply IH]. destruct (IH (exec (closeSocket x 1008 "admission timeout") s))
        as (s1 & E & Es & Ea). exists s1. split; [done|]. rewrite Es, Ea. unfold exec. rewrite closeSocket_eq.
      unfold ws_close, remove_socket, exec, ebind, emod. simpl. by destruct (decide _). }
  destruct Hdone as (s1 & E & Hst & Hal). unfold exec in Hc. rewrite E in Hc. simpl in Hc.
  apply conn_eq in Hc as [Hs Ha].
  exists n, s1. unfold ebind. rewrite E. unfold eret.
  assert (Hs' : sockets s1 = filter (fun x => overdue now (attachments s !! x) = false) (sockets s)).
  { rewrite Hs. apply filter_iff_in. intros x Hx. destruct (overdue _ _); naive_solver. }
  split_and!; try done.
  intros ws a Hin Hat Hst'. rewrite Hs' in Hin. apply list_elem_of_filter in Hin as [Ho Hin]. rewrite Ha in Hat.
  unfold n. apply (inj_lt 0), (countb_pos _ _ ws Hin). rewrite Hat in *. simpl in Ho.
  rewrite bool_decide_eq_false_2 in * by done. simpl in *. by rewrite Ho.
Qed.

(** The pruning loop deletes the expired records of its prefix, and reports
    the live ones. *)
Lemma prune_result now p s :
  exists n s', prune_prefix now p s = (Done n, s')
    /\ conn s' = conn s /\ alarmAt s' = alarmAt s /\ Storage.alarm (storage s') = Storage.alarm (storage s)
    /\ (forall k v, kv (storage s') !! k = Some v <->
          kv (storage s) !! k = Some v /\ ~ (prefix_match p k = true /\ expired v now = true))
    /\ 0 <= n /\ (forall k v, prefix_match p k = true -> kv (storage s') !! k = Some v -> 0 < n).
Proof.
  unfold prune_prefix. unfold ebind at 1. rewrite slist_spec. set (l := r_list (storage s) p).
  set (f := fun kv : string * value => ewhen _ _).
  assert (Hloop : forall l s, exists s', eforeach l f s = (Done tt, s')
    /\ conn s' = conn s /\ alarmAt s' = alarmAt s /\ Storage.alarm (storage s') = Storage.alarm (storage s)
    /\ forall k v, kv (storage s') !! k = Some v <->
         kv (storage s) !! k = Some v /\ ~ exists v', (k, v') ∈ l /\ expired v' now = true).
  { clear. induction l as [|[k1 v1] l IH]; intros s.
    - exists s. split_and!; try done. intros k v. split; [|by intros [? _]].
      intros E. split; [done|]. by intros (v' & ?%not_elem_of_nil & _).
    - cbn [eforeach]. unfold ebind at 1. unfold f at 1. cbn [snd fst]. destruct (expired v1 now) eqn:E1.
      + set (s1 := set_storage (RStore (delete k1 (kv (storage s))) (Storage.alarm (storage s))) s).
        assert (ewhen true (sdelete k1 ;;; eret tt) s = (Done tt, s1)) as -> by reflexivity.
        destruct (IH s1) as (s' & E & Hc & Ha & Hal & Hk). exists s'. split_and!; try done.
        intros k v. rewrite Hk. unfold s1. simpl. rewrite lookup_delete_Some. split.
        * intros [[Hne Hv] Hn]. split; [done|]. intros (v' & Hin & He). apply elem_of_cons in Hin as [[= -> ->]|Hin]; [done|].
          apply Hn. eauto.
        * intros [Hv Hn]. split_and!; [|done|]; [intros ->; apply Hn; exists v1; split; [by left|done]|].
          intros (v' & Hin & He). apply Hn. exists v'. split; [by right|done].
      + assert (ewhen false (sdelete k1 ;;; eret tt) s = (Done tt, s)) as -> by reflexivity.
        destruct (IH s) as (s' & E & Hc & Ha & Hal & Hk). exists s'. split_and!; try done.
        intros k v. rewrite Hk. split; intros [Hv Hn]; (split; [done|]); intros (v' & Hin & He); apply Hn.
        * apply elem_of_cons in Hin as [[= -> ->]|Hin]; [congruence|]. eauto.
        * exists v'. split; [by right|done]. }
  destruct (Hloop l s) as (s' & E & Hc & Ha & Hal & Hk). unfold ebind. rewrite E. unfold eret.
  assert (Hl : forall k v, (k, v) ∈ l <-> kv (storage s) !! k = Some v /\ prefix_match p k = true).
  { intros k v. apply elem_of_select_in_order. }
  assert (Hk' : forall k v, kv (storage s') !! k = Some v <->
          kv (storage s) !! k = Some v /\ ~ (prefix_match p k = true /\ expired v now = true)).
  { intros k v. rewrite Hk. split; intros [Hv Hn]; (split; [done|]).
    - intros [Hp He]. apply Hn. exists v. split; [by apply Hl|done].
    - intros (v' & Hin & He). apply Hl in Hin as [Hv' Hp]. rewrite Hv in Hv'. injection Hv' as <-. by apply Hn. }
  eexists _, s'. split_and!; [reflexivity|done..| |]; [lia|].
  intros k v Hp Hv. apply Hk' in Hv as [Hv Hn]. apply (inj_lt 0), (countb_pos _ _ (k, v)); [by apply Hl|].
  simpl. destruct (expired v now) eqn:He; [|done]. exfalso. by apply Hn.
Qed.

Lemma prunes_result now l : forall s,
  exists n s', prune_prefixes now l s = (Done n, s')
    /\ conn s' = conn s /\ alarmAt s' = alarmAt s /\ Storage.alarm (storage s') = Storage.alarm (storage s)
    /\ (forall k v, kv (storage s') !! k = Some v <->
          kv (storage s) !! k = Some v /\ ~ exists p, p ∈ l /\ prefix_match p k = true /\ expired v now = true)
    /\ 0 <= n
    /\ (forall p k v, p ∈ l -> prefix_match p k = true -> kv (storage s') !! k = Some v -> 0 < n).
Proof.
  induction l as [|p l IH]; intros s; cbn [prune_prefixes].
  - exists 0, s. split_and!; try done; [|by intros ? ? ? ?%not_elem_of_nil].
    intros k v. split; [|by intros [? _]]. intros E. split; [done|]. by intros (p & ?%not_elem_of_nil & _).
  - destruct (prune_result now p s) as (n & s1 & E1 & Hc1 & Ha1 & Hal1 & Hk1 & Hn1 & Hp1).
    destruct (IH s1) as (m & s2 & E2 & Hc2 & Ha2 & Hal2 & Hk2 & Hn2 & Hp2).
    exists (n + m), s2. unfold ebind. rewrite E1, E2. split_and!; try congruence; [done| |lia|].
    + intros k v. rewrite Hk2, Hk1. split.
      * intros [[Hv Hn] Hn']. split; [done|]. intros (q & Hq & Hm & He).
        apply elem_of_cons in Hq as [->|Hq]; [by apply Hn|]. apply Hn'. eauto.
      * intros [Hv Hn]. split_and!; [done| |]; [intros [? ?]|intros (q & ? & ? & ?)]; apply Hn;
          [exists p|exists q]; split_and!; try done; [by left|by right].
    + intros q k v Hq Hm Hv. apply elem_of_cons in Hq as [->|Hq]; [|specialize (Hp2 q k v Hq Hm Hv); lia].
      apply Hk2 in Hv as [Hv _]. specialize (Hp1 k v Hm Hv). lia.
Qed.

(** Teardown empties the room. *)
Lemma teardown_result reason s :
  exists s', teardownRoom reason s = (Done tt, s')
    /\ sockets s' = [] /\ attachments s' = attachments s /\ storage s' = RStore ∅ None /\ alarmAt s' = None.
Proof.
  unfold teardownRoom. unfold ebind at 1, getWebSockets, eget. cbv beta zeta.
  set (f := fun ws : websocket => closeSocket ws 1000 reason).
  pose proof (close_loop_sockets (fun _ _ => true) 1000 reason (sockets s) s f ltac:(done)) as Hc.
  assert (Hdone : exists s1, eforeach (sockets s) f s = (Done tt, s1)).
  { generalize (sockets s). intros l. clear Hc. revert s. induction l as [|x l IH]; intros s; [by eexists|].
    simpl. unfold ebind at 1, f at 1. rewrite closeSocket_eq. apply IH. }
  destruct Hdone as (s1 & E). unfold exec in Hc. rewrite E in Hc. simpl in Hc. apply conn_eq in Hc as [Hs Ha].
  eexists. unfold ebind at 1. rewrite E. split; [reflexivity|]. simpl. split_and!; [|done..].
  rewrite Hs. destruct (filter _ (sockets s)) as [|x l] eqn:Ef; [done|]. exfalso.
  assert (Hx : x ∈ x :: l) by by left. rewrite <-Ef in Hx. apply list_elem_of_filter in Hx as [Hn Hx]. by apply Hn.
Qed.

(** The alarm goes on after its sweeps. *)
Lemma rearm_result now b d s :
  exists s', rearm now b d s = (Done tt, s') /\ conn s' = conn s /\ kv (storage s') = kv (storage s)
    /\ match d, b with
       | None, false => s' = s
       | _, _ => exists t, alarmAt s' = Some t /\ Storage.alarm (storage s') = Some t
                  /\ (b = true -> t <= now + HOUSEKEEPING_INTERVAL_MS)
                  /\ (match d with Some d => now < d | None => True end -> now < t)
       end.
Proof.
  unfold rearm. destruct d as [d|], b; cbv zeta; eexists; (split; [reflexivity|]); (split; [done|]); (split; [done|]);
    try done; eexists; (split; [reflexivity|]); (split; [reflexivity|]); unfold HOUSEKEEPING_INTERVAL_MS; split;
    intros; try done; lia.
Qed.

Lemma read_activity_result now s :
  exists n s', read_activity now s = (Done n, s') /\ conn s' = conn s
    /\ (forall k, k <> "lastActivity" -> kv (storage s') !! k = kv (storage s) !! k).
Proof.
  unfold read_activity, sget, step_storage, ebind, eret. cbn [room_step].
  destruct (kv (storage s) !! "lastActivity") as [[| n | | | |]|];
    (eexists _, _; split; [reflexivity|]; split; [done|]; intros k Hk; simpl; rewrite ?lookup_insert_ne by done; done).
Qed.

(** What the two sweeps leave, whatever the alarm does next without touching
    connections or ephemeral records. *)
Record swept (now : Z) (busy_ : bool) (s : room) : Prop := {
  swept_overdue : forall s', conn s' = conn s -> no_overdue now s';
  swept_expired : forall s', (forall k, k <> "lastActivity" -> kv (storage s') !! k = kv (storage s) !! k) ->
    no_expired now s';
  swept_left : forall s', conn s' = conn s ->
    (forall k, k <> "lastActivity" -> kv (storage s') !! k = kv (storage s) !! k) ->
    work_left s' -> busy_ = true;
}.

Lemma sweeps_result now s :
  exists n m s1 s2, sweep_pre_auth now (sockets s) s = (Done n, s1) /\ pruneExpired now s1 = (Done m, s2)
    /\ swept now ((0 <? n) || (0 <? m)) s2.
Proof.
  destruct (sweep_result now s) as (n & s1 & E1 & Hs1 & Ha1 & Hst1 & _ & Hn1).
  destruct (prunes_result now EPHEMERAL_PREFIXES s1) as (m & s2 & E2 & Hc2 & _ & _ & Hk2 & Hm & Hm2).
  apply conn_eq in Hc2 as [Hs2 Ha2]. exists n, m, s1, s2. split; [done|]. split; [done|]. split.
  - intros s' [Hs Ha]%conn_eq ws a Hin Hat Hst. rewrite Hs, Hs2, Hs1 in Hin. rewrite Ha, Ha2, Ha1 in Hat.
    apply list_elem_of_filter in Hin as [Ho _]. rewrite Hat in Ho. simpl in Ho.
    by rewrite bool_decide_eq_false_2 in Ho.
  - intros s' Hk p k v Hp Hpm Hv. rewrite Hk in Hv by (eapply pruned_key; eassumption).
    apply Hk2 in Hv as [Hv Hn]. destruct (expired v now) eqn:He; [|done]. exfalso. apply Hn. by exists p.
  - intros s' [Hs Ha]%conn_eq Hk [(ws & a & Hin & Hat & Hst)|(p & k & v & Hp & Hpm & Hv)].
    + rewrite Hs, Hs2 in Hin. rewrite Ha, Ha2 in Hat. rewrite (proj2 (Z.ltb_lt 0 n)); [done|]. by apply (Hn1 ws a).
    + rewrite Hk in Hv by (eapply pruned_key; eassumption). rewrite orb_true_iff, !Z.ltb_lt. right. by apply (Hm2 p k v).
Qed.

(** ** The alarm that lapsed *)

(** No timer is armed, and the storage still holds the alarm that fired. *)
Definition lapsed (a : Z) (s : room) : Prop := alarmAt s = None /\ Storage.alarm (storage s) = Some a.

Lemma lapsed_storage a o :
  match o with SetAlarm _ | DeleteAlarm => False | _ => True end -> within (preserving (lapsed a)) (step_storage o).
Proof. intros Ho s [H1 H2]. unfold exec, step_storage, lapsed. by destruct o. Qed.

Lemma lapsed_mod a f :
  (forall s, alarmAt (f s) = alarmAt s /\ storage (f s) = storage s) -> within (preserving (lapsed a)) (emod f).
Proof. intros Hf s Hs. destruct (Hf s) as [E1 E2]. unfold exec, lapsed. simpl. by rewrite E1, E2. Qed.

(** The guard of [ensureAlarm] trusts the stored alarm. *)
Lemma lapsed_ensure a now :
  a <= now + HOUSEKEEPING_INTERVAL_MS -> within (preserving (lapsed a)) (ensureAlarm now).
Proof.
  intros Hle s [H1 H2]. unfold ensureAlarm, sgetAlarm, step_storage, ebind, exec. simpl. rewrite H2. simpl.
  by rewrite (proj2 (Z.ltb_ge _ _)).
Qed.

Create HintDb lapsed.
#[local] Hint Extern 1 (within (preserving (lapsed _)) (step_storage _)) => apply lapsed_storage; exact I : lapsed.
#[local] Hint Extern 1 (within (preserving (lapsed _)) (emod _)) =>
  apply lapsed_mod; intros ?; try (match goal with |- context [decide ?P] => destruct (decide P) end);
  split; reflexivity : lapsed.
#[local] Hint Extern 1 (within (preserving (lapsed _)) (ensureAlarm _)) => apply lapsed_ensure; assumption : lapsed.

Ltac walk_lapsed := walk ltac:(auto 2 with lapsed nocore).

Definition lapsed_or_wiped (a : Z) (s : room) : Prop := lapsed a s \/ Storage.alarm (storage s) = None.

Lemma admit_lapsed a now rnd ws r attest via s :
  a <= now + HOUSEKEEPING_INTERVAL_MS -> lapsed a s ->
  lapsed_or_wiped a (exec (admit_socket now rnd ws r attest via) s).
Proof.
  intros Hle Hs. destruct (admit_outcome now rnd ws r attest via s) as (b & s' & Hg & ->).
  assert (Hsp : forall s1, spent r s s1 -> lapsed a s1) by (intros s1 []; done).
  destruct Hg as [_|_ _ _ _|s1 H1 _|s1 H1].
  - left. apply (exec_within (lapsed a)); [done|walk_lapsed].
  - right. destruct (teardown_result "pairing cycle cap" s) as (s' & E & _ & _ & Hst & _). unfold exec. rewrite E.
    simpl. by rewrite Hst.
  - left. apply (exec_within (lapsed a)); [by apply Hsp|walk_lapsed].
  - left. apply (exec_within (lapsed a)); [by apply Hsp|walk_lapsed].
Qed.

Section Lapsed.
Context `{Crypto} `{AppAttest} (env : environment) (a now : Z) (Hle : a <= now + HOUSEKEEPING_INTERVAL_MS).

Lemma message_lapsed rnd ws f s :
  lapsed a s -> lapsed_or_wiped a (exec (webSocketMessage env now rnd ws f) s).
Proof.
  intros Hs. unfold webSocketMessage. erewrite exec_bind by reflexivity. cbv beta zeta.
  destruct (_ <? _); [left; apply (exec_within (lapsed a)); [done|walk_lapsed]|].
  destruct (state _); [left; apply (exec_within (lapsed a)); [done|walk_lapsed]|
                      |left; apply (exec_within (lapsed a)); [done|walk_lapsed]].
  destruct (handleProof_outcome env now rnd ws
    (default (Att SHello None "" "" None false 0) (attachments s !! ws)) f s) as [|err|via _ _|t attest _];
    [by left|left; apply (exec_within (lapsed a)); [done|walk_lapsed]|by apply admit_lapsed..].
Qed.

Lemma resume_lapsed rnd k s : lapsed a s -> lapsed_or_wiped a (exec (resume env now rnd k) s).
Proof.
  intros Hs. destruct k as [ws name|ws r sg v t|req c o|req key v kid pk c x|req sg v t|req]; cbn [resume];
    try (left; apply (exec_within (lapsed a)); [done|walk_lapsed]; done).
  - rewrite exec_then. unfold handleProof_resume. destruct (verifyJoin _ _ _).
    2: { left. apply (exec_within (lapsed a)); [done|walk_lapsed]. }
    assert (Hb : within (preserving (lapsed a)) (bumpActivity now)) by walk_lapsed. specialize (Hb s Hs).
    unfold exec at 1, ebind at 1. unfold exec in Hb.
    destruct (bumpActivity now s) as [[[]|e] s1]; [|by left]. by apply admit_lapsed.
  - right. rewrite exec_then. unfold handleDelete_wipe.
    destruct (teardown_result "room deleted" s) as (s' & E & _ & _ & Hst & _). erewrite exec_bind by exact E.
    unfold exec. simpl. by rewrite Hst.
Qed.

Ltac walk_field :=
  walk ltac:(intros ?; unfold same, exec; simpl;
             try (match goal with |- context [decide ?P] => destruct (decide P) end); reflexivity).

Lemma settle_lapsed k m w rest :
  lapsed_or_wiped a (exec m (rm w)) -> lapsed_or_wiped a (rm (settle k m w rest)).
Proof.
  intros Hm. unfold settle, exec in *. destruct (m (rm w)) as [[x|e] r]; simpl in *; [done|].
  assert (Ht : within (same alarmAt) (on_throw k)) by (unfold on_throw; walk_field).
  assert (Hs : within (same storage) (on_throw k)) by (unfold on_throw; walk_field).
  specialize (Ht r). specialize (Hs r). unfold same, exec in *. unfold lapsed_or_wiped, lapsed. by rewrite Ht, Hs.
Qed.

Lemma step_lapsed rnd e w w' :
  e <> ERestart -> step env now rnd e w = Some w' -> lapsed a (rm w) -> lapsed_or_wiped a (rm w').
Proof.
  intros He E Hw.
  assert (Hx : forall m : Eff room (option suspended), within (preserving (lapsed a)) m -> lapsed_or_wiped a (exec m (rm w))).
  { intros m Hm. left. by apply Hm. }
  destruct e as [ws name|ws f|req m p n b|i| |ws c r|ws c r|ws m|i|c r|]; cbn [step] in E; try done.
  - destruct (decide _); [|done]. injection E as <-. apply settle_lapsed, Hx. walk_lapsed.
  - destruct (_ && _); [|done]. injection E as <-. by apply settle_lapsed, message_lapsed.
  - injection E as <-. apply settle_lapsed, Hx. walk_lapsed.
  - destruct (pending w !! i); [|done]. injection E as <-. by apply settle_lapsed, resume_lapsed.
  - destruct Hw as [Hn _]. by rewrite Hn in E.
  - injection E as <-. left.
    apply (exec_within (lapsed a)); [done|walk_lapsed].
  - injection E as <-. left. apply (exec_within (lapsed a) (remove_socket ws)); [done|walk_lapsed].
  - injection E as <-. by left.
  - destruct (callbacks w !! i) as [c|]; [|done]. simpl in E. destruct (busy _ _); [done|]. injection E as <-.
    left. apply (exec_within (lapsed a)); [done|]. destruct c; walk_lapsed.
  - injection E as <-. left. apply (exec_within (lapsed a)); [done|walk_lapsed].
Qed.
End Lapsed.

(** ** Properties *)

(** C10: every alarm completes, and leaves no live un-admitted socket past its
    deadline and no expired ticket, registration token or challenge; if a
    pending socket or a live record remains, the next sweep is armed within the
    housekeeping interval, and an established room always has its alarm armed,
    strictly in the future (the timer never spins). *)
Theorem alarm_sweeps (env : environment) (now : Z) (s : room) :
  exists s', alarm env now s = (Done tt, s')
    /\ no_overdue now s' /\ no_expired now s'
    /\ (work_left s' -> exists t, alarmAt s' = Some t /\ Storage.alarm (storage s') = Some t
          /\ now < t <= now + HOUSEKEEPING_INTERVAL_MS)
    /\ (truthy_value (verifier_of s') <> None -> exists t, alarmAt s' = Some t
          /\ Storage.alarm (storage s') = Some t /\ now < t).
Proof.
  unfold alarm. unfold ebind at 1, getWebSockets, eget.
  destruct (sweeps_result now s) as (n & m & s1 & s2 & E1 & E2 & [Hover Hexp Hleft]).
  unfold ebind at 1. rewrite E1. unfold ebind at 1. rewrite E2.
  unfold ebind at 1, sget, ebind at 1, step_storage. cbn [room_step]. unfold eret at 1.
  assert (set_storage (storage s2) s2 = s2) as -> by by destruct s2.
  destruct (truthy_value (kv (storage s2) !! "verifier")) as [V|] eqn:EV.
  - destruct (read_activity_result now s2) as (last & s3 & E3 & Hc3 & Hk3). unfold ebind at 1. rewrite E3. cbv zeta.
    destruct (_ <=? now) eqn:Ed.
    + destruct (teardown_result "room expired" s3) as (s4 & E4 & Hs4 & _ & Hst4 & _). exists s4.
      split_and!; [done|..].
      * intros ws a Hin. rewrite Hs4 in Hin. by apply not_elem_of_nil in Hin.
      * intros p k v _ _. by rewrite Hst4.
      * intros [(ws & a & Hin & _)|(p & k & v & _ & _ & Hv)]; [rewrite Hs4 in Hin; by apply not_elem_of_nil in Hin|].
        by rewrite Hst4 in Hv.
      * unfold verifier_of. by rewrite Hst4.
    + destruct (rearm_result now ((0 <? n) || (0 <? m)) (Some (last + establishedIdleTtlMs env)) s3)
        as (s4 & E4 & Hc4 & Hk4 & t & Ht & Ht' & Hb & Hd). exists s4. apply Z.leb_gt in Ed. specialize (Hd Ed).
      assert (Hc : conn s4 = conn s2) by congruence.
      assert (Hk : forall k, k <> "lastActivity" -> kv (storage s4) !! k = kv (storage s2) !! k).
      { intros k Hk. by rewrite Hk4, Hk3. }
      split_and!; [done|by apply Hover|by apply Hexp| |by eauto]. intros Hw. exists t. split_and!; try done.
      apply Hb. by apply (Hleft s4).
  - destruct (rearm_result now ((0 <? n) || (0 <? m)) None s2) as (s4 & E4 & Hc4 & Hk4 & Hr). exists s4.
    assert (Hk : forall k, k <> "lastActivity" -> kv (storage s4) !! k = kv (storage s2) !! k) by (intros; by rewrite Hk4).
    split_and!; [done|by apply Hover|by apply Hexp| |].
    + intros Hw. rewrite (Hleft s4 Hc4 Hk Hw) in Hr. destruct Hr as (t & Ht & Ht' & Hb & Hd). exists t.
      split_and!; try done; [by apply Hd|by apply Hb].
    + unfold verifier_of. rewrite Hk4. congruence.
Qed.

(** An alarm that fires with nothing left to do leaves its stored time in
    the [alarms] table, and [ensureAlarm] trusts that time: from then on, short
    of a wipe or a restart, no connection, challenge, ticket or admission arms
    the timer again, however long the run; the admission deadline and the
    pruning of this room are no longer enforced. *)
Theorem lapsed_alarm_never_rearmed `{Crypto} `{AppAttest} (env : environment) (a : Z) (l : list input) (w w' : world) :
  lapsed a (rm w) -> run env l w = Some w' ->
  Forall (fun '(now, _, e) => a <= now + HOUSEKEEPING_INTERVAL_MS /\ e <> ERestart) l ->
  lapsed a (rm w')
  \/ exists l1 l2 w1, l = l1 ++ l2 /\ run env l1 w = Some w1 /\ Storage.alarm (storage (rm w1)) = None.
Proof.
  revert w. induction l as [|[[now rnd] e] l IH]; intros w Hw E Hl; simpl in E; [injection E as <-; by left|].
  apply Forall_cons in Hl as [[Hle He] Hl']. destruct (step env now rnd e w) as [w1|] eqn:E1; [|done]. simpl in E.
  destruct (step_lapsed env a now Hle rnd e w w1 He E1 Hw) as [Hw1|Hw1].
  - destruct (IH w1 Hw1 E Hl') as [?|(l1 & l2 & w2 & -> & Er & Hn)]; [by left|right].
    exists ((now, rnd, e) :: l1), l2, w2. split_and!; [done| |done]. simpl. by rewrite E1.
  - right. exists [(now, rnd, e)], l, w1. split_and!; [done| |done]. simpl. by rewrite E1.
Qed.

(** A mac parks; the sweep finds nothing to do; a socket connects and never
    says hello; an hour later it is still there, un-admitted. *)
Definition silent_socket : list input :=
  [(20000, [], EUpgrade 2 room_name); (20001, [], EResume 0%nat);
   (3600000, [], EHttp 1 "POST" "/attest/challenge" room_name "")].

Lemma lapsed_alarm_never_rearmed_witness :
  exists w w', run_in open_env (park_mac ++ [(16001, [], EAlarm)]) = Some w
    /\ run (H := toy_crypto) (H0 := toy_attest) open_env
         silent_socket w = Some w'
    /\ (lapsed 16001 (rm w') \/ exists l1 l2 w1,
          silent_socket = l1 ++ l2
          /\ run (H := toy_crypto) (H0 := toy_attest) open_env l1 w = Some w1 /\ Storage.alarm (storage (rm w1)) = None)
    /\ sockets (rm w') = [1%nat; 2%nat] /\ overdue 3600000 (attachments (rm w') !! 2%nat) = true /\ alarmAt (rm w') = None.
Proof.
  destruct (run_in open_env (park_mac ++ [(16001, [], EAlarm)])) as [w|] eqn:Ew; [|by vm_compute in Ew].
  destruct (run (H := toy_crypto) (H0 := toy_attest) open_env silent_socket w) as [w'|] eqn:E.
  2: { vm_compute in Ew. injection Ew as <-. by vm_compute in E. }
  exists w, w'. split; [done|]. split; [exact E|]. split.
  - refine (lapsed_alarm_never_rearmed (H := toy_crypto) (H0 := toy_attest) open_env 16001 _ w w' _ E _).
    + vm_compute in Ew. injection Ew as <-. by split.
    + repeat constructor; done.
  - vm_compute in Ew. injection Ew as <-. vm_compute in E. injection E as <-. by vm_compute.
Defined.
