(* ===== verification/RoomCycles.v ===== *)
(** The pairing-cycle cap: how many unsigned phone admissions one mac park
    tolerates, and the refused park that resets the count. *)

From S2P Require Import Prelude Bytes Crypto Json Transcript Storage RoomState AttestApi Room RoomSteps RoomFacts RoomStore RoomSlots RoomPending RoomProof RoomAlarm Scenario.

#[local] Open Scope eff_scope.

(** ** Counting cycles in the trace *)

(** A mac admission starts a park; an unsigned phone admission is a cycle. *)
Definition grind_step (n : Z) (o : output) : Z :=
  match o with
  | LogLifecycle event _ (Some mac) _ => if String.eqb event "admit" then 0 else n
  | LogLifecycle event _ (Some phone) extra =>
      if String.eqb event "admit" && negb (starts_with "via=signed" extra) then n + 1 else n
  | _ => n
  end.

(** The cycles since the last mac admission. *)
Definition grinds (l : list output) : Z := fold_left grind_step l 0.

(** A hello that asks for the mac slot without displacing its holder. *)
Definition mac_yields (f : frame) : bool :=
  match JSON_parse (payload f) with
  | Some hello =>
      match jprop hello "role", jprop hello "nonDisplacing" with
      | Ok r, Ok (Some (JBool true)) => bool_decide (parse_role r = Some mac)
      | _, _ => false
      end
  | None => false
  end.

Definition yields_as_phone (s : room) : Prop :=
  forall ws a, attachments s !! ws = Some a -> nonDisplacing a = true -> srole a = Some phone.

(** ** The invariant *)

Record capped (s : room) : Prop := {
  cap_range : 0 <= cycles_of s <= MAX_PAIRING_CYCLES;
  cap_grinds : grinds (trace s) <= MAX_PAIRING_CYCLES;
  cap_parked : mac_parked s -> grinds (trace s) <= cycles_of s;
  cap_yields : yields_as_phone s;
}.

(** Nothing that matters to it changed, but sockets leaving. *)
Record calm (s s' : room) : Prop := {
  calm_cycles : cycles_of s' = cycles_of s;
  calm_grinds : grinds (trace s') = grinds (trace s);
  calm_parked : mac_parked s' -> mac_parked s;
  calm_yields : yields_as_phone s -> yields_as_phone s';
}.

#[export] Instance calm_preorder : PreOrder calm.
Proof.
  split; [by intros s; split|]. intros s1 s2 s3 [] []. split; try congruence; auto.
Qed.

Lemma calm_capped s s' : calm s s' -> capped s -> capped s'.
Proof. intros [E1 E2 E3 E4] []. split; rewrite ?E1, ?E2; auto. Qed.

Lemma calm_within {A} (m : Eff room A) : within calm m -> within (preserving capped) m.
Proof. intros Hm s Hs. eapply calm_capped; [apply Hm|exact Hs]. Qed.

Lemma grinds_app l k : grinds (l ++ k) = fold_left grind_step k (grinds l).
Proof. apply fold_left_app. Qed.

Definition quiet (o : output) : Prop := match o with LogLifecycle "admit" _ _ _ => False | _ => True end.

Lemma quiet_step n o : quiet o -> grind_step n o = n.
Proof.
  destruct o as [| | | | |event t [[]|] extra]; try done; simpl;
    by destruct (String.eqb_spec event "admit") as [->|].
Qed.

Lemma grinds_quiet l k : Forall quiet k -> grinds (l ++ k) = grinds l.
Proof.
  rewrite grinds_app. intros Hk. generalize (grinds l). induction Hk as [|o k Ho _ IH]; intros n; simpl; [done|].
  by rewrite quiet_step.
Qed.

Lemma storage_calm o :
  match o with Put k _ | Delete k => k <> "pairingCycles" | DeleteAll => False | _ => True end ->
  within calm (step_storage o).
Proof.
  intros Ho s. assert (E : cycles_of (exec (step_storage o) s) = cycles_of s).
  { unfold cycles_of, exec, step_storage. destruct o; simpl in *; try done;
      by rewrite ?lookup_insert_ne, ?lookup_delete_ne. }
  unfold exec, step_storage in *. split; [exact E|..]; by destruct (room_step (storage s) o).
Qed.

Lemma mod_calm f :
  (forall s, sockets (f s) = sockets s /\ attachments (f s) = attachments s /\ storage (f s) = storage s
    /\ trace (f s) = trace s) -> within calm (emod f).
Proof.
  intros Hf s. destruct (Hf s) as (E1 & E2 & E3 & E4). unfold exec. simpl.
  split; unfold cycles_of, mac_parked, yields_as_phone; by rewrite ?E1, ?E2, ?E3, ?E4.
Qed.

Lemma push_calm o : quiet o -> within calm (emod (push o)).
Proof. intros Ho s. split; try done. unfold exec. simpl. apply grinds_quiet. by constructor. Qed.

Lemma sockets_calm f :
  (forall s, f s ⊆ sockets s) -> within calm (emod (fun s => set_sockets (f s) s)).
Proof.
  intros Hf s. split; try done. intros (x & Hx & Ha). exists x. split; [by apply Hf|done].
Qed.

Lemma remove_calm ws : within calm (remove_socket ws).
Proof. apply sockets_calm. intros s x Hx. by apply list_elem_of_filter in Hx as [_ ?]. Qed.

Lemma serialize_calm ws a :
  state a <> SAdmitted -> (nonDisplacing a = true -> srole a = Some phone) -> within calm (serializeAttachment ws a).
Proof.
  intros Hst Hnd s. split; try done.
  - intros (x & Hx & Ha). exists x. split; [done|]. unfold exec in Ha. simpl in Ha.
    destruct (decide (ws = x)) as [->|]; [|by rewrite lookup_insert_ne in Ha].
    rewrite lookup_insert_eq in Ha. simpl in Ha. by rewrite bool_decide_eq_false_2 in Ha.
  - intros Hs x b. unfold exec. simpl. destruct (decide (ws = x)) as [->|].
    + rewrite lookup_insert_eq. by intros [= <-].
    + rewrite lookup_insert_ne by done. apply Hs.
Qed.

Lemma backfill_calm ws t : within calm (backfill_tag ws t).
Proof.
  intros s. unfold backfill_tag, deserializeAttachment, exec, ebind, eget.
  destruct (attachments s !! ws) as [a|] eqn:E; [|reflexivity]. destruct (tag a); [reflexivity|]. simpl. split; try done.
  - intros (x & Hx & Ha). exists x. split; [done|]. simpl in Ha.
    destruct (decide (ws = x)) as [->|]; [|by rewrite lookup_insert_ne in Ha].
    rewrite lookup_insert_eq in Ha. by rewrite E.
  - intros Hs x b. simpl. destruct (decide (ws = x)) as [->|].
    + rewrite lookup_insert_eq. intros [= <-]. by apply (Hs _ a E).
    + rewrite lookup_insert_ne by done. apply Hs.
Qed.

Lemma pruned_not_cycles p k :
  p ∈ EPHEMERAL_PREFIXES -> prefix_match p k = true -> k <> "pairingCycles".
Proof.
  intros Hp Hk ->. unfold EPHEMERAL_PREFIXES in Hp.
  repeat (apply elem_of_cons in Hp as [->|Hp]; [vm_compute in Hk; discriminate|]).
  by apply not_elem_of_nil in Hp.
Qed.

Ltac calm_key :=
  first [exact I | discriminate
        | eapply pruned_not_cycles; [|eassumption]; first [eassumption | vm_compute; by repeat constructor]].

Create HintDb calm.
#[local] Hint Extern 1 (within calm (step_storage _)) => apply storage_calm; calm_key : calm.
#[local] Hint Extern 1 (within calm (emod (push _))) => apply push_calm; exact I : calm.
#[local] Hint Extern 2 (within calm (emod _)) =>
  apply mod_calm; intros ?; try (match goal with |- context [decide ?P] => destruct (decide P) end);
  repeat split; reflexivity : calm.
#[local] Hint Resolve remove_calm backfill_calm : calm.
#[local] Hint Extern 1 (within calm (serializeAttachment _ _)) => apply serialize_calm; done : calm.

Ltac walk_calm := walk ltac:(auto 2 with calm nocore).

Lemma closeSocket_calm ws c e : within calm (closeSocket ws c e).
Proof. walk_calm. Qed.
#[local] Hint Resolve closeSocket_calm : calm.

Lemma reject_calm ws err : within calm (reject ws err).
Proof. walk_calm. Qed.

(** ** Admission *)

Lemma teardown_capped reason : within (preserving capped) (teardownRoom reason).
Proof.
  intros s [Hr Hg _ Hy]. destruct (teardown_result reason s) as (s' & E & Hs & Ha & Hst & _).
  assert (Ht : grinds (trace s') = grinds (trace s)).
  { unfold teardownRoom in E. unfold ebind at 1, getWebSockets, eget in E.
    assert (Hc : forall l s, grinds (trace (exec (eforeach l (fun ws => closeSocket ws 1000 reason)) s)) = grinds (trace s)).
    { intros l s0. apply calm_grinds. assert (Hw : within calm (eforeach l (fun ws => closeSocket ws 1000 reason))) by walk_calm.
      apply Hw. }
    specialize (Hc (sockets s) s). unfold exec in Hc.
    unfold ebind at 1 in E. destruct (eforeach _ _ s) as [[[]|e] s1]; [|done]. simpl in Hc. injection E as <-. exact Hc. }
  unfold exec. rewrite E. simpl. split.
  - unfold cycles_of. rewrite Hst. simpl. done.
  - by rewrite Ht.
  - intros (x & Hx & _). rewrite Hs in Hx. by apply not_elem_of_nil in Hx.
  - unfold yields_as_phone. by rewrite Ha.
Qed.

(** The cost of an admission. *)
Definition cost (via : string) : Z := if String.eqb via "signed" then 0 else 1.

Lemma admit_line_step n prev r via b :
  grind_step n (admit_line prev r via b) <= match r with mac => 0 | phone => n + cost via end.
Proof.
  unfold admit_line. destruct r; simpl; [done|]. unfold cost.
  destruct (String.eqb_spec via "signed") as [->|]; simpl; [lia|]. destruct (negb _); lia.
Qed.

Lemma enter_capped now rnd ws r attest via prev s :
  0 <= cycles_of s <= MAX_PAIRING_CYCLES -> yields_as_phone s ->
  (r = phone -> grinds (trace s) + cost via <= cycles_of s) ->
  capped (exec (enter now rnd ws r attest via prev) s).
Proof.
  intros Hr Hy Hp. destruct (take_slot_result ws r prev s) as (s1 & E & Hs & Ha & Hst & _ & l & Ht & Hl).
  unfold enter. erewrite exec_bind by exact E. erewrite exec_bind by reflexivity.
  set (b := existsb _ _). erewrite exec_bind by reflexivity.
  set (s2 := push (admit_line prev r via b) s1). apply (exec_within capped).
  2: { apply calm_within. walk_calm. }
  assert (Hc : cycles_of s2 = cycles_of s) by (unfold cycles_of, s2; simpl; by rewrite Hst).
  assert (Hg : grinds (trace s2) <= cycles_of s).
  { unfold s2. simpl. rewrite Ht, grinds_app. cbn [fold_left]. rewrite grinds_quiet.
    2: { eapply Forall_impl; [exact Hl|]. by intros []. }
    pose proof (admit_line_step (grinds (trace s)) prev r via b). destruct r; [lia|]. specialize (Hp eq_refl). lia. }
  split; rewrite ?Hc; [done|lia|done|].
  intros x a. unfold s2. simpl. rewrite Ha. destruct (decide (ws = x)) as [->|].
  - rewrite lookup_insert_eq. by intros [= <-].
  - rewrite lookup_insert_ne by done. apply Hy.
Qed.

Lemma with_cycles_of n s : cycles_of (with_cycles n s) = n.
Proof. unfold cycles_of, with_cycles. simpl. by rewrite lookup_insert_eq. Qed.

(** The budget the gate leaves pays for the admission. *)
Lemma spent_pays r s s1 via :
  capped s -> spent r s s1 -> (truthy_value (verifier_of s) <> None -> via = "signed") ->
  0 <= cycles_of s1 <= MAX_PAIRING_CYCLES /\ yields_as_phone s1
  /\ (r = phone -> grinds (trace s1) + cost via <= cycles_of s1)
  /\ (r = phone -> capped s1).
Proof.
  intros [Hr Hg Hp Hy] Hs Hvia. assert (Hcost : 0 <= cost via <= 1) by (unfold cost; destruct (String.eqb _ _); lia).
  destruct Hs as [HV Hpk|HV Hm|HV Hph Hpk Hc]; rewrite ?with_cycles_of.
  - rewrite (Hvia HV) in *. change (cost "signed") with 0. split; [done|]. split; [done|]. split; [|done].
    intros Hph. specialize (Hp (Hpk Hph)). lia.
  - split; [unfold MAX_PAIRING_CYCLES; lia|]. split; [done|]. by rewrite Hm.
  - specialize (Hp Hpk). split; [lia|]. split; [done|]. split.
    + intros _. change (trace (with_cycles _ s)) with (trace s). lia.
    + intros _. split; rewrite ?with_cycles_of; try done; [lia|]. intros _.
      change (trace (with_cycles _ s)) with (trace s). lia.
Qed.

Lemma admit_capped now rnd ws r attest via s :
  capped s -> (r = mac -> nonDisplacing (prev_of ws s) = false) ->
  (truthy_value (verifier_of s) <> None -> via = "signed") ->
  capped (exec (admit_socket now rnd ws r attest via) s).
Proof.
  intros Hs Hnd Hvia. destruct (admit_outcome now rnd ws r attest via s) as (b & s' & Hg & ->).
  destruct Hg as [Hr|Hr _ _ _|s1 Hsp Hn|s1 Hsp].
  - apply (exec_within capped); [done|apply calm_within, reject_calm].
  - by apply teardown_capped.
  - destruct (spent_pays r s s1 via Hs Hsp Hvia) as (_ & _ & _ & Hc).
    apply (exec_within capped); [|apply calm_within, reject_calm]. apply Hc. destruct r; [|done].
    rewrite Hnd in Hn by done. discriminate.
  - destruct (spent_pays r s s1 via Hs Hsp Hvia) as (H1 & H2 & H3 & _). by apply enter_capped.
Qed.

(** ** Every step *)

Section Cycles.
Context `{Crypto} `{AppAttest} (env : environment).

Lemma counted_calm now s : calm s (proof_counted now s).
Proof. by split. Qed.

Lemma without_ticket_calm t s : calm s (without_key ("ticket:" +:+ t) s).
Proof. split; try done. unfold cycles_of, without_key. simpl. by rewrite lookup_delete_ne. Qed.

Lemma handleProof_capped now rnd ws a f s :
  capped s -> attachments s !! ws = Some a -> capped (exec (handleProof env now rnd ws a f) s).
Proof.
  intros Hs Ha.
  assert (Hnd : default mac (srole a) = mac -> nonDisplacing a = false).
  { intros Hr. destruct (nonDisplacing a) eqn:En; [|done]. rewrite (cap_yields s Hs ws a Ha En) in Hr. discriminate. }
  assert (Hprev : forall s', attachments s' = attachments s -> prev_of ws s' = a).
  { intros s' E. unfold prev_of. by rewrite E, Ha. }
  destruct (handleProof_outcome env now rnd ws a f s) as [|err|via HV Hvia|t attest HV].
  - eapply calm_capped; [apply counted_calm|done].
  - apply (exec_within capped); [|apply calm_within, reject_calm]. eapply calm_capped; [apply counted_calm|done].
  - apply admit_capped; [eapply calm_capped; [apply counted_calm|done]|by rewrite Hprev|].
    by intros [].
  - apply admit_capped; [|by rewrite Hprev|].
    + eapply calm_capped; [apply without_ticket_calm|]. eapply calm_capped; [apply counted_calm|done].
    + intros Hn. exfalso. apply Hn. unfold verifier_of, without_key. simpl. by rewrite lookup_delete_ne.
Qed.

Lemma handleHello_calm rnd ws a f : mac_yields f = false -> within calm (handleHello rnd ws a f).
Proof.
  intros Hf. unfold handleHello. unfold mac_yields in Hf. destruct (JSON_parse (payload f)) as [hello|]; [|walk_calm].
  unfold lift. destruct (jprop hello "v") as [v|e]; [|by intros s]. apply within_bind; [apply _|apply within_ret; apply _|intros v'].
  destruct (jprop hello "role") as [ro|e]; [|by intros s]. unfold ebind at 1, eret at 1.
  change (within calm (nd <- (match jprop hello "nonDisplacing" with Ok a => eret a | Err e => ethrow e end) ;;
    match jinteger v', parse_role ro with
    | Some version, Some r =>
        if version =? PROTOCOL_VERSION then
          serializeAttachment ws (Att SChallenged (Some r) (b64 rnd) (RoomState.roomName a) (tag a)
             (match nd with Some (JBool true) => true | _ => false end) (connectedAt a)) ;;;
          send ws (JObj [("nonce", JStr (b64 rnd))])
        else closeSocket ws 1008 "bad hello"
    | _, _ => closeSocket ws 1008 "bad hello"
    end)).
  destruct (jprop hello "nonDisplacing") as [nd|e]; [|by intros s]. unfold ebind at 1, eret at 1. cbv beta.
  destruct (jinteger v') as [version|]; [|destruct (parse_role ro); walk_calm].
  destruct (parse_role ro) as [r|]; [|walk_calm].
  assert (Hr : match nd with Some (JBool true) => true | _ => false end = true -> r = phone).
  { destruct nd as [[| [] | | | |]|]; try done. intros _. destruct r; [|done].
    by rewrite bool_decide_eq_true_2 in Hf. }
  destruct (_ =? _); [|walk_calm].
  apply within_bind; [apply _| |intros ?; walk_calm]. apply serialize_calm; [done|]. simpl. intros Hn. by rewrite (Hr Hn).
Qed.

#[local] Hint Extern 1 (within (preserving capped) (step_storage _)) =>
  apply calm_within, storage_calm; calm_key : calm.
#[local] Hint Extern 1 (within (preserving capped) (emod (push _))) => apply calm_within, push_calm; exact I : calm.
#[local] Hint Extern 2 (within (preserving capped) (emod _)) =>
  apply calm_within, mod_calm; intros ?; try (match goal with |- context [decide ?P] => destruct (decide P) end);
  repeat split; reflexivity : calm.
#[local] Hint Extern 1 (within (preserving capped) (remove_socket _)) => apply calm_within, remove_calm : calm.
#[local] Hint Extern 1 (within (preserving capped) (backfill_tag _ _)) => apply calm_within, backfill_calm : calm.
#[local] Hint Extern 1 (within (preserving capped) (closeSocket _ _ _)) => apply calm_within, closeSocket_calm : calm.
#[local] Hint Resolve teardown_capped : calm.

Lemma webSocketMessage_capped now rnd ws f s :
  capped s -> is_Some (attachments s !! ws) -> mac_yields f = false ->
  capped (exec (webSocketMessage env now rnd ws f) s).
Proof.
  intros Hs [a Ha] Hf. unfold webSocketMessage. erewrite exec_bind by reflexivity. cbv beta zeta. rewrite Ha. cbn [default from_option id].
  destruct (_ <? _); [apply (exec_within capped); [done|walk_calm]|].
  destruct (state a); [|by apply handleProof_capped|apply (exec_within capped); [done|walk_calm]].
  apply (exec_within capped); [done|]. apply within_bind; [apply _|by apply calm_within, handleHello_calm|intros ?; walk_calm].
Qed.

Lemma handleUpgrade_capped now ws name : within (preserving capped) (handleUpgrade now ws name).
Proof.
  apply calm_within. intros s. unfold handleUpgrade, acceptWebSocket, serializeAttachment, exec, ebind, emod, eret. simpl.
  split; try done.
  - intros (x & Hx & Ha). simpl in *. destruct (decide (ws = x)) as [->|]; [by rewrite lookup_insert_eq in Ha|].
    rewrite lookup_insert_ne in Ha by done. exists x. split; [|done]. destruct (decide _); set_solver.
  - intros Hy x a. simpl. destruct (decide (ws = x)) as [->|].
    + rewrite lookup_insert_eq. by intros [= <-].
    + rewrite lookup_insert_ne by done. apply Hy.
Qed.

(** An admission by signature, of the role its challenge was for. *)
Lemma signed_capped now rnd ws r sg v t s :
  capped s -> (exists a, attachments s !! ws = Some a /\ srole a = Some r) ->
  capped (exec (handleProof_resume now rnd ws r sg v t) s).
Proof.
  intros Hs (a & Ha & Hr). unfold handleProof_resume. destruct (verifyJoin _ _ _).
  2: { apply (exec_within capped); [done|apply calm_within, reject_calm]. }
  assert (Hb : within calm (bumpActivity now)) by walk_calm.
  assert (Hat : within (same attachments) (bumpActivity now)) by walk_attached.
  assert (Hd : fst (bumpActivity now s) = Done tt).
  { unfold bumpActivity, sput, ebind, step_storage, eret. cbn [room_step]. apply ensureAlarm_done. }
  specialize (Hb s). specialize (Hat s). unfold same, exec in Hb, Hat.
  destruct (bumpActivity now s) as [[[]|e] s1] eqn:E; [|done]. erewrite exec_bind by exact E.
  simpl in *. apply admit_capped; [by eapply calm_capped| |done].
  intros ->. unfold prev_of. rewrite Hat, Ha. simpl. destruct (nonDisplacing a) eqn:Hn; [|done].
  rewrite (cap_yields s Hs ws a Ha Hn) in Hr. discriminate.
Qed.

Lemma capped_context : context_keeps capped.
Proof. split; intros; walk_calm. Qed.

Lemma others_capped now rnd e w :
  Forall token_key (pending w) ->
  match e with
  | EMessage _ _ => False
  | EResume i => match pending w !! i with Some (KProof _ _ _ _ _) => False | _ => True end
  | _ => True
  end -> handler_keeps env capped now rnd e w.
Proof.
  intros Hp He. destruct e; simpl in *; try done; try (intros; walk_calm; done).
  - apply handleUpgrade_capped.
  - intros k Hk. rewrite Forall_forall in Hp. specialize (Hp k (list_elem_of_lookup_2 _ _ _ Hk)). rewrite Hk in He.
    destruct k; try done; [walk_calm|walk_calm|destruct Hp as [t ->]; walk_calm|walk_calm..].
  - intros r [H1 H2 _ H3]. split; try done; simpl.
    intros (x & Hx & _). simpl in Hx. by apply not_elem_of_nil in Hx.
Qed.

Lemma settle_keeps (I : room -> Prop) k m w rest :
  context_keeps I -> I (exec m (rm w)) -> I (rm (settle k m w rest)).
Proof.
  intros [Hclose _ _ _] Hm. unfold settle, exec in *. destruct (m (rm w)) as [[x|e] r]; simpl in *; [done|].
  assert (Ht : within (preserving I) (on_throw k)); [|by apply Ht].
  unfold on_throw. destruct k as [k|e']; [destruct k|destruct e'];
    first [apply Hclose | apply within_ret; apply _].
Qed.

(** The event is no non-displacing mac hello. *)
Definition no_yielding_mac (i : input) : Prop :=
  match i with (_, _, EMessage _ f) => mac_yields f = false | _ => True end.

Lemma step_capped now rnd e w w' :
  no_yielding_mac (now, rnd, e) -> waiting env w -> Forall token_key (pending w) -> step env now rnd e w = Some w' -> capped (rm w) -> capped (rm w').
Proof.
  intros He Hw Hp E Hc.
  assert (Hother : handler_keeps env capped now rnd e w -> capped (rm w')).
  { intros Hk. by eapply (step_keeps env capped capped_context). }
  destruct e as [|ws f| |i| | | | | | |]; try (apply Hother, others_capped; [done|exact I]).
  - cbn [step] in E. destruct (_ && _) eqn:Eb; [|done]. injection E as <-.
    apply andb_true_iff in Eb as [Hin _]. apply bool_decide_eq_true in Hin.
    apply settle_keeps; [apply capped_context|]. by apply webSocketMessage_capped.
  - destruct (pending w !! i) as [k|] eqn:Ek; [|cbn [step] in E; by rewrite Ek in E].
    destruct k as [|ws r sg v t| | | |]; try (apply Hother, others_capped; [done|by rewrite Ek]).
    cbn [step] in E. rewrite Ek in E. injection E as <-.
    apply settle_keeps; [apply capped_context|]. cbn [resume]. rewrite exec_then. apply signed_capped; [done|].
    destruct Hw as [Hr _ _]. rewrite Forall_forall in Hr.
    destruct (Hr _ (list_elem_of_lookup_2 _ _ _ Ek)) as (a & Ha & _ & Hro & _). by exists a.
Qed.

Lemma run_capped l : forall w w',
  Forall no_yielding_mac l -> waiting env w -> Forall token_key (pending w) -> run env l w = Some w' -> capped (rm w) -> capped (rm w').
Proof.
  induction l as [|[[now rnd] e] l IH]; intros w w' Hl Hw Hp E Hc; simpl in E; [congruence|].
  inversion_clear Hl as [|? ? He Hl']. destruct (step env now rnd e w) as [w1|] eqn:E1; [|done]. simpl in E.
  eapply IH; [done| | |exact E|]; [by eapply step_waiting| |by eapply step_capped].
  eapply (step_pending env token_key); [apply suspends_token_key|exact E1|done].
Qed.

Lemma initial_capped : capped (rm initial).
Proof. by split. Qed.
End Cycles.

(** ** Properties *)

(** C5: the pairing-cycle cap: as long as no hello asks for the mac slot
    without displacing, whatever the interleaving, no room ever admits more
    than eight phones without a signature between two mac admissions — in any
    mix of open-mode and ticket admissions, displacements, teardowns,
    registrations and restarts. *)
Theorem pairing_cycles_capped `{Crypto} `{AppAttest} (env : environment) (l : list input) (w : world) :
  run env l initial = Some w -> Forall no_yielding_mac l -> grinds (trace (rm w)) <= MAX_PAIRING_CYCLES.
Proof.
  intros E Hl. apply cap_grinds.
  refine (run_capped env l _ _ Hl (initial_waiting env) _ E (initial_capped)). constructor.
Qed.

(** Phone number [n] joins the parked mac. *)
Definition grind (n : nat) : list input :=
  let t := 2000 + 10 * Z.of_nat n in
  connect t (10 + n) phone_hello [4; 5; 6] ++ [(t + 3, [Z.of_nat n], EMessage (10 + n) (text_frame "{}"))].

Definition grinding (n : nat) : list input := park_mac ++ List.flat_map grind (List.seq 0 n).

Lemma pairing_cycles_capped_witness :
  exists w, run_in open_env (grinding 9) = Some w /\ grinds (trace (rm w)) <= MAX_PAIRING_CYCLES
    /\ grinds (trace (rm w)) = 8 /\ sockets (rm w) = [].
Proof.
  destruct (run_in open_env (grinding 9)) as [w|] eqn:E; [|by vm_compute in E]. exists w.
  split; [done|]. split.
  - refine (pairing_cycles_capped (H := toy_crypto) (H0 := toy_attest) open_env (grinding 9) w E _).
    repeat (constructor; [vm_compute; first [exact I|reflexivity]|]). constructor.
  - vm_compute in E. injection E as <-. split; reflexivity.
Defined.

(** The run of the bypass: eight phones, a mac hello that yields and is refused,
    and eight phones more, while the first mac stays parked. *)
Definition yielding_mac_hello : string := "{'v':1,'role':'mac','nonDisplacing':true}".

Definition bypass : list input :=
  grinding 8 ++ connect 3000 40 yielding_mac_hello [9] ++ [(3003, [], EMessage 40 (text_frame "{}"))]
  ++ List.flat_map grind (List.seq 20 8).

(** The cap is not per park: a mac join that asks not to displace resets the
    budget before it is refused, so one park, never displaced, tolerates sixteen
    unsigned phone admissions (and any number, eight per refused join). *)
Theorem refused_mac_resets_budget :
  exists w, run_in open_env bypass = Some w
    /\ grinds (trace (rm w)) = 16 /\ MAX_PAIRING_CYCLES < grinds (trace (rm w))
    /\ 1%nat ∈ sockets (rm w) /\ admitted_as mac (attachments (rm w) !! 1%nat) = true
    /\ Closed 40 1008 "slot occupied" ∈ trace (rm w).
Proof.
  destruct (run_in open_env bypass) as [w|] eqn:E; [|by vm_compute in E]. exists w. split; [done|].
  vm_compute in E. injection E as <-.
  split; [vm_compute; reflexivity|]. split; [vm_compute; reflexivity|].
  split; [apply (bool_decide_unpack _); vm_compute; exact I|]. split; [vm_compute; reflexivity|].
  apply list_elem_of_In. vm_compute. tauto.
Qed.
