(* ===== verification/Utf8.v ===== *)
(** [new TextDecoder().decode]: UTF-8 with replacement of malformed sequences
    and removal of a byte-order mark, as the Encoding standard defines it.
    A JavaScript string is the model's [string] of its UTF-8 bytes. *)

From S2P Require Import Prelude Bytes.

(** U+FFFD *)
Definition replacement : bytes := [239; 191; 189].

(** The continuation bytes a lead byte announces; [None] if it is not one. *)
Definition continuations (b : Z) : option nat :=
  if b <? 128 then Some 0%nat
  else if b <? 194 then None
  else if b <? 224 then Some 1%nat
  else if b <? 240 then Some 2%nat
  else if b <? 245 then Some 3%nat
  else None.

Definition continuation (c : Z) : bool := (128 <=? c) && (c <=? 191).

(** The second byte's range excludes overlong forms, surrogates and code points
    past U+10FFFF. *)
Definition second_byte (b c : Z) : bool :=
  if b =? 224 then (160 <=? c) && (c <=? 191)
  else if b =? 237 then (128 <=? c) && (c <=? 159)
  else if b =? 240 then (144 <=? c) && (c <=? 191)
  else if b =? 244 then (128 <=? c) && (c <=? 143)
  else continuation c.

(** A byte that breaks a sequence is not consumed. *)
Fixpoint decode_utf8 (l : bytes) : bytes :=
  match l with
  | [] => []
  | b :: l1 =>
      match continuations b with
      | None => replacement ++ decode_utf8 l1
      | Some O => b :: decode_utf8 l1
      | Some n =>
          match l1 with
          | [] => replacement
          | c1 :: l2 =>
              if negb (second_byte b c1) then replacement ++ decode_utf8 l1 else
              match n with
              | 1%nat => b :: c1 :: decode_utf8 l2
              | _ =>
                  match l2 with
                  | [] => replacement
                  | c2 :: l3 =>
                      if negb (continuation c2) then replacement ++ decode_utf8 l2 else
                      match n with
                      | 2%nat => b :: c1 :: c2 :: decode_utf8 l3
                      | _ =>
                          match l3 with
                          | [] => replacement
                          | c3 :: l4 =>
                              if negb (continuation c3) then replacement ++ decode_utf8 l3
                              else b :: c1 :: c2 :: c3 :: decode_utf8 l4
                          end
                      end
                  end
              end
          end
      end
  end.

Definition strip_bom (l : bytes) : bytes :=
  match l with 239 :: 187 :: 191 :: l' => l' | _ => l end.

Definition text_decode (l : bytes) : string := string_of_bytes (decode_utf8 (strip_bom l)).

(** Well-formed UTF-8 (Table 3-7 of the Unicode standard). *)
Inductive well_formed : bytes -> Prop :=
| wf_nil : well_formed []
| wf_one b l : 0 <= b < 128 -> well_formed l -> well_formed (b :: l)
| wf_two b c1 l : continuations b = Some 1%nat -> second_byte b c1 = true -> well_formed l ->
    well_formed (b :: c1 :: l)
| wf_three b c1 c2 l : continuations b = Some 2%nat -> second_byte b c1 = true -> continuation c2 = true ->
    well_formed l -> well_formed (b :: c1 :: c2 :: l)
| wf_four b c1 c2 c3 l : continuations b = Some 3%nat -> second_byte b c1 = true -> continuation c2 = true ->
    continuation c3 = true -> well_formed l -> well_formed (b :: c1 :: c2 :: c3 :: l).

Lemma decode_well_formed l : well_formed l -> decode_utf8 l = l.
Proof.
  induction 1 as [|b l Hb _ IH|b c1 l Hb H1 _ IH|b c1 c2 l Hb H1 H2 _ IH|b c1 c2 c3 l Hb H1 H2 H3 _ IH];
    cbn [decode_utf8]; [done|..].
  - unfold continuations. rewrite (proj2 (Z.ltb_lt _ _)) by lia. by rewrite IH.
  - by rewrite Hb, H1, IH.
  - by rewrite Hb, H1, H2, IH.
  - by rewrite Hb, H1, H2, H3, IH.
Qed.

Lemma second_byte_range b c : second_byte b c = true -> 128 <= c <= 191.
Proof.
  unfold second_byte, continuation. repeat case_match; intros Hc; apply andb_true_iff in Hc; rewrite !Z.leb_le in Hc; lia.
Qed.

(** Whatever the input, the output is well-formed. *)
Lemma continuations_range b n : continuations b = Some (S n) -> 194 <= b < 245.
Proof.
  unfold continuations. repeat case_match; intros [= <-]; rewrite ?Z.ltb_lt, ?Z.ltb_ge in *; lia.
Qed.

Lemma well_formed_replacement l : well_formed l -> well_formed (replacement ++ l).
Proof. intros Hl. apply wf_three; done. Qed.

(** A JavaScript string that is not eaten by the byte-order-mark rule. *)
Definition text (s : string) : Prop := well_formed (utf8 s) /\ strip_bom (utf8 s) = utf8 s.

Lemma text_decode_utf8 s : text s -> text_decode (utf8 s) = s.
Proof. intros [Hw Hb]. unfold text_decode. by rewrite Hb, decode_well_formed, string_of_utf8. Qed.

(** ASCII strings are such texts. *)
Lemma text_ascii s : string_forallb (fun c => (Ascii.nat_of_ascii c <? 128)%nat) s = true -> text s.
Proof.
  intros Hs. split.
  - induction s as [|c s IH]; simpl in *; [constructor|]. apply andb_true_iff in Hs as [Hc Hs].
    apply wf_one; [|by apply IH]. apply Nat.ltb_lt in Hc. lia.
  - destruct s as [|c s]; [done|]. cbn [utf8]. simpl in Hs. apply andb_true_iff in Hs as [Hc _].
    apply Nat.ltb_lt in Hc. unfold strip_bom.
    destruct (Z.of_nat (Ascii.nat_of_ascii c)) eqn:E; try done.
    assert (Hp : Z.pos p < 128) by lia. clear E. repeat (destruct p as [p|p|]; try done; try lia).
Qed.
