(* ===== verification/Cbor.v ===== *)
(** The CBOR codec ([src/cbor.js]): the subset of RFC 8949 the attestation
    object uses. *)

From Stdlib Require Import Ascii.
From stdpp Require Import pretty.
From S2P Require Import Prelude Bytes Utf8.

#[local] Open Scope result_scope.

(** ** Values *)

(** What [decode] builds and [encode] takes.  A map is an object: its own
    properties in the order of [Object.keys], and its prototype when a
    ["__proto__"] key has set one. *)
Inductive item : Type :=
| CNum (n : Z)
| CBytes (b : bytes)
| CText (s : string)
| CArr (l : list item)
| CMap (proto : option item) (fields : list (string * item)).

(** ** Objects *)

(** The array index a property key is, if it is one ([ToString(ToUint32(k)) = k]
    and not [2^32 - 1]). *)
Definition is_digit (c : ascii) : bool := (48 <=? nat_of_ascii c)%nat && (nat_of_ascii c <=? 57)%nat.

Definition decimal (l : list Z) : Z := fold_left (fun acc d => acc * 10 + (d - 48)) l 0.

Definition array_index (k : string) : option Z :=
  if (negb (string_forallb is_digit k) || String.eqb k "" || (10 <? Z.of_nat (String.length k))
      || (starts_with "0" k && negb (String.eqb k "0")))%bool then None
  else let n := decimal (utf8 k) in if n <? 2 ^ 32 - 1 then Some n else None.

(** A new key [k] is placed before [k']: indices come first, in order. *)
Definition placed_before (k k' : string) : bool :=
  match array_index k, array_index k' with
  | Some i, Some j => i <? j
  | Some _, None => true
  | None, _ => false
  end.

(** [out[key] = v] on the own properties. *)
Fixpoint set_field (k : string) (v : item) (fields : list (string * item)) : list (string * item) :=
  match fields with
  | [] => [(k, v)]
  | (k', v') :: rest =>
      if String.eqb k k' then (k, v) :: rest
      else if placed_before k k' then (k, v) :: fields
      else (k', v') :: set_field k v rest
  end.

Definition is_object (v : item) : bool :=
  match v with CNum _ | CText _ => false | _ => true end.

(** [out[key] = v], for [out] an object literal: ["__proto__"] reaches the
    inherited setter, which takes objects and ignores the rest. *)
Definition set_prop (k : string) (v : item) (out : option item * list (string * item)) :
    option item * list (string * item) :=
  if String.eqb k "__proto__" then (if is_object v then (Some v, out.2) else out)
  else (out.1, set_field k v out.2).

(** ** Decoding *)

(** A failure: the message of the [CBORError], or the model out of fuel. *)
Inductive failure : Type := Malformed (message : string) | Fuel.

Definition bad {A} (m : string) : result failure A := Err (Malformed m).

(** The reader is the bytes from its position on. *)
Definition readUint8 (l : bytes) : result failure (Z * bytes) :=
  match l with b :: l' => Ok (b, l') | [] => bad "unexpected end of CBOR" end.

Fixpoint readUint (n : nat) (value : Z) (l : bytes) : result failure (Z * bytes) :=
  match n with
  | O => Ok (value, l)
  | S n' => let! (b, l') := readUint8 l in readUint n' (value * 256 + b) l'
  end.

Definition readUintN (l : bytes) (n : nat) : result failure (Z * bytes) := readUint n 0 l.

Definition readLength (l : bytes) (minor : Z) : result failure (Z * bytes) :=
  if minor <? 24 then Ok (minor, l)
  else if minor =? 24 then readUint8 l
  else if minor =? 25 then readUintN l 2
  else if minor =? 26 then readUintN l 4
  else if minor =? 27 then
    let! (hi, l1) := readUintN l 4 in
    let! (lo, l2) := readUintN l1 4 in
    if 2097151 <? hi then bad "CBOR length exceeds safe integer"
    else Ok (hi * 4294967296 + lo, l2)
  else bad ("bad CBOR length encoding " +:+ pretty minor).

Definition readBytes (l : bytes) (len : Z) : result failure (bytes * bytes) :=
  if Z.of_nat (length l) <? len then bad "CBOR byte run past end"
  else Ok (take (Z.to_nat len) l, drop (Z.to_nat len) l).

Fixpoint readItem (fuel : nat) (l : bytes) {struct fuel} : result failure (item * bytes) :=
  match fuel with
  | O => Err Fuel
  | S f =>
      let! (initial, l1) := readUint8 l in
      let major := Z.shiftr initial 5 in
      let minor := Z.land initial 31 in
      if major =? 0 then let! (n, l2) := readLength l1 minor in Ok (CNum n, l2)
      else if major =? 2 then
        let! (len, l2) := readLength l1 minor in
        let! (b, l3) := readBytes l2 len in Ok (CBytes b, l3)
      else if major =? 3 then
        let! (len, l2) := readLength l1 minor in
        let! (b, l3) := readBytes l2 len in Ok (CText (text_decode b), l3)
      else if major =? 4 then
        let! (count, l2) := readLength l1 minor in
        let! (out, l3) := readItems f count l2 in Ok (CArr out, l3)
      else if major =? 5 then
        let! (count, l2) := readLength l1 minor in
        let! (out, l3) := readFields f count (None, []) l2 in Ok (CMap out.1 out.2, l3)
      else bad ("unsupported CBOR major type " +:+ pretty major)
  end
with readItems (fuel : nat) (count : Z) (l : bytes) {struct fuel} : result failure (list item * bytes) :=
  match fuel with
  | O => Err Fuel
  | S f =>
      if count <=? 0 then Ok ([], l) else
      let! (v, l1) := readItem f l in
      let! (out, l2) := readItems f (count - 1) l1 in Ok (v :: out, l2)
  end
with readFields (fuel : nat) (count : Z) (out : option item * list (string * item)) (l : bytes) {struct fuel}
    : result failure ((option item * list (string * item)) * bytes) :=
  match fuel with
  | O => Err Fuel
  | S f =>
      if count <=? 0 then Ok (out, l) else
      let! (key, l1) := readItem f l in
      match key with
      | CText k => let! (v, l2) := readItem f l1 in readFields f (count - 1) (set_prop k v out) l2
      | _ => bad "only text-string map keys are supported"
      end
  end.

(** Every nested item takes a byte: this much is enough (see [decode_total]). *)
Definition fuel_for (l : bytes) : nat := (2 * length l + 1)%nat.

Definition decode (l : bytes) : result failure item :=
  let! (v, rest) := readItem (fuel_for l) l in
  match rest with [] => Ok v | _ => bad "trailing bytes after CBOR item" end.

(** ** Encoding *)

Definition writeTypeAndLength (major len : Z) : bytes :=
  let head := Z.shiftl major 5 in
  if len <? 24 then [Z.lor head len]
  else if len <? 256 then [Z.lor head 24; len]
  else if len <? 65536 then [Z.lor head 25; Z.shiftr len 8; Z.land len 255]
  else Z.lor head 26 :: be32 len.

Fixpoint is_uint8array (v : item) : bool :=
  match v with
  | CBytes _ => true
  | CMap (Some p) _ => is_uint8array p
  | _ => false
  end.

Definition write_text (s : string) : bytes :=
  writeTypeAndLength 3 (Z.of_nat (length (utf8 s))) ++ utf8 s.

(** An object that only inherits from a [Uint8Array] passes [instanceof] and has
    no length to read. *)
Fixpoint writeItem (v : item) : result string bytes :=
  match v with
  | CNum n => if n <? 0 then Err "only unsigned ints" else Ok (writeTypeAndLength 0 n)
  | CBytes b => Ok (writeTypeAndLength 2 (Z.of_nat (length b)) ++ b)
  | CText s => Ok (write_text s)
  | CArr l =>
      let! parts := (fix items (l : list item) : result string bytes :=
        match l with
        | [] => Ok []
        | x :: l' => let! p := writeItem x in let! ps := items l' in Ok (p ++ ps)
        end) l in
      Ok (writeTypeAndLength 4 (Z.of_nat (length l)) ++ parts)
  | CMap proto fields =>
      if is_uint8array v then Err "TypeError" else
      let! parts := (fix props (l : list (string * item)) : result string bytes :=
        match l with
        | [] => Ok []
        | (k, x) :: l' => let! p := writeItem x in let! ps := props l' in Ok (write_text k ++ p ++ ps)
        end) fields in
      Ok (writeTypeAndLength 5 (Z.of_nat (length fields)) ++ parts)
  end.

Definition encode (v : item) : result string bytes := writeItem v.

(** ** The reader always moves forward *)

(** A reader's result: no fuel failure, and what was built, at its cost, with
    the input left fits the budget. *)
Definition spends {A} (cost : A -> nat) (budget : nat) (r : result failure (A * bytes)) : Prop :=
  match r with Ok (a, l') => (cost a + length l' <= budget)%nat | Err e => e <> Fuel end.

Lemma spends_bind {A B} (c : A -> nat) (d : B -> nat) n k m (g : A * bytes -> result failure (B * bytes)) :
  spends c n m -> (forall a l', (c a + length l' <= n)%nat -> spends d k (g (a, l'))) -> spends d k (rbind m g).
Proof. intros Hm Hg. destruct m as [[a l']|e]; [by apply Hg|done]. Qed.

Lemma spends_weaken {A} (c c' : A -> nat) n k r :
  (forall a, c' a <= c a)%nat -> (n <= k)%nat -> spends c n r -> spends c' k r.
Proof. intros Hc Hn. destruct r as [[a l']|e]; simpl; [specialize (Hc a); lia|done]. Qed.

Lemma readUint8_spends l : spends (fun _ => 1%nat) (length l) (readUint8 l).
Proof. destruct l as [|b l]; simpl; [done|lia]. Qed.

Lemma readUint_spends n : forall v l, spends (fun _ => 0%nat) (length l) (readUint n v l).
Proof.
  induction n as [|n IH]; intros v l; [simpl; lia|]. cbn [readUint].
  eapply spends_bind; [apply readUint8_spends|]. intros b l' Hl.
  eapply spends_weaken; [| |apply IH]; simpl in *; lia.
Qed.

Lemma readLength_spends l minor : spends (fun _ => 0%nat) (length l) (readLength l minor).
Proof.
  unfold readLength. destruct (_ <? _); [simpl; lia|].
  destruct (_ =? 24); [eapply spends_weaken; [| |apply readUint8_spends]; simpl; lia|].
  destruct (_ =? 25); [apply readUint_spends|]. destruct (_ =? 26); [apply readUint_spends|].
  destruct (_ =? 27); [|done].
  eapply spends_bind; [apply readUint_spends|]. intros hi l1 H1.
  eapply spends_bind; [apply readUint_spends|]. intros lo l2 H2. destruct (_ <? _); [done|]. simpl in *. lia.
Qed.

Lemma readBytes_spends l len : spends (fun _ => 0%nat) (length l) (readBytes l len).
Proof. unfold readBytes. destruct (_ <? _); [done|]. simpl. rewrite length_drop. lia. Qed.

(** The values of a structure, keys included. *)
Fixpoint nodes (v : item) : nat :=
  match v with
  | CNum _ | CBytes _ | CText _ => 1
  | CArr l => S ((fix sum (l : list item) : nat := match l with [] => 0 | x :: l' => nodes x + sum l' end) l)
  | CMap proto fields =>
      S (match proto with Some p => nodes p | None => 0 end
         + (fix sum (l : list (string * item)) : nat :=
              match l with [] => 0 | (_, x) :: l' => S (nodes x + sum l') end) fields)
  end%nat.

Fixpoint nodes_list (l : list item) : nat :=
  match l with [] => 0 | x :: l' => nodes x + nodes_list l' end.

Fixpoint nodes_fields (l : list (string * item)) : nat :=
  match l with [] => 0 | (_, x) :: l' => S (nodes x + nodes_fields l') end.

Definition nodes_out (out : option item * list (string * item)) : nat :=
  match out.1 with Some p => nodes p | None => 0 end + nodes_fields out.2.

Lemma nodes_arr l : nodes (CArr l) = S (nodes_list l).
Proof. reflexivity. Qed.

Lemma nodes_map out : nodes (CMap out.1 out.2) = S (nodes_out out).
Proof. reflexivity. Qed.

Lemma set_field_nodes k v l : (nodes_fields (set_field k v l) <= nodes_fields l + S (nodes v))%nat.
Proof.
  induction l as [|[k' v'] l IH]; simpl; [lia|].
  destruct (String.eqb k k'); simpl; [lia|]. destruct (placed_before k k'); simpl; lia.
Qed.

Lemma set_prop_nodes k v out : (nodes_out (set_prop k v out) <= nodes_out out + S (nodes v))%nat.
Proof.
  unfold set_prop, nodes_out. pose proof (set_field_nodes k v out.2).
  destruct (String.eqb _ _); [destruct (is_object v)|]; simpl; lia.
Qed.

Lemma nodes_pos v : (1 <= nodes v)%nat.
Proof. destruct v; simpl; lia. Qed.

(** Enough fuel reads without running out, and what is built has no more
    nodes than the bytes it took. *)
Lemma read_spends f :
  (forall l, (2 * length l + 1 <= f)%nat -> spends nodes (length l) (readItem f l))
  /\ (forall n l, (2 * length l + 2 <= f)%nat -> spends nodes_list (length l) (readItems f n l))
  /\ (forall n o l, (2 * length l + 2 <= f)%nat -> spends nodes_out (nodes_out o + length l) (readFields f n o l)).
Proof.
  induction f as [|f (IH1 & IH2 & IH3)]; [split_and!; intros; lia|]. split_and!.
  - intros l Hf. cbn [readItem]. eapply spends_bind; [apply readUint8_spends|]. intros initial l1 H1. cbv zeta beta in *.
    destruct (_ =? 0); [eapply spends_bind; [apply readLength_spends|]; intros n l2 H2; simpl in *; lia|].
    destruct (_ =? 2).
    { eapply spends_bind; [apply readLength_spends|]; intros n l2 H2; cbv beta in *. eapply spends_bind; [apply readBytes_spends|].
      intros b l3 H3. simpl in *; lia. }
    destruct (_ =? 3).
    { eapply spends_bind; [apply readLength_spends|]; intros n l2 H2; cbv beta in *. eapply spends_bind; [apply readBytes_spends|].
      intros b l3 H3. simpl in *; lia. }
    destruct (_ =? 4).
    { eapply spends_bind; [apply readLength_spends|]; intros n l2 H2; cbv beta in *. eapply spends_bind; [apply IH2; lia|].
      intros out l3 H3. cbn [spends]. rewrite nodes_arr. lia. }
    destruct (_ =? 5); [|done].
    eapply spends_bind; [apply readLength_spends|]; intros n l2 H2; cbv beta in *. eapply spends_bind; [apply IH3; lia|].
    intros out l3 H3. cbn [spends]. rewrite nodes_map. simpl in H3. lia.
  - intros n l Hf. cbn [readItems]. destruct (_ <=? _); [simpl; lia|].
    eapply spends_bind; [apply IH1; lia|]. intros v l1 H1. pose proof (nodes_pos v).
    eapply spends_bind; [apply IH2; lia|]. intros out l2 H2. simpl. lia.
  - intros n o l Hf. cbn [readFields]. destruct (_ <=? _); [simpl; lia|].
    eapply spends_bind; [apply IH1; lia|]. intros key l1 H1. pose proof (nodes_pos key).
    destruct key as [| |k| |]; try done.
    eapply spends_bind; [apply IH1; lia|]. intros v l2 H2. pose proof (nodes_pos v). simpl in H1.
    pose proof (set_prop_nodes k v o). eapply spends_weaken; [| |apply IH3; lia]; lia.
Qed.

(** ** What [encode] writes reads back *)

Lemma item_nested (P : item -> Prop) :
  (forall n, P (CNum n)) -> (forall b, P (CBytes b)) -> (forall s, P (CText s)) ->
  (forall l, Forall P l -> P (CArr l)) ->
  (forall p l, Forall (fun f => P f.2) l -> P (CMap p l)) -> forall v, P v.
Proof.
  intros H1 H2 H3 H4 H5. fix IH 1. intros [n|b|s|l|p l]; [apply H1|apply H2|apply H3| |].
  - apply H4. induction l as [|x l IHl]; constructor; [apply IH|exact IHl].
  - apply H5. induction l as [|[k x] l IHl]; constructor; [apply IH|exact IHl].
Qed.

Definition fits (n : Z) : Prop := 0 <= n < 2 ^ 32.

(** The key of a property that follows another in [Object.keys]. *)
Definition key_after (k k' : string) : Prop :=
  k <> k' /\ placed_before k' k = false.

(** The structures the encoder represents: 32-bit numbers and lengths, texts
    with no byte-order mark, plain objects in property order. *)
Inductive plain : item -> Prop :=
| plain_num n : fits n -> plain (CNum n)
| plain_bytes b : fits (Z.of_nat (length b)) -> plain (CBytes b)
| plain_text s : fits (Z.of_nat (length (utf8 s))) -> text s -> plain (CText s)
| plain_arr l : fits (Z.of_nat (length l)) -> Forall plain l -> plain (CArr l)
| plain_map l : fits (Z.of_nat (length l)) -> ForallOrdPairs (fun f g => key_after f.1 g.1) l ->
    Forall (fun f => plain (CText f.1) /\ f.1 <> "__proto__" /\ plain f.2) l -> plain (CMap None l).

Lemma head_byte major m : 0 <= m < 32 -> Z.lor (Z.shiftl major 5) m = major * 32 + m.
Proof. intros Hm. rewrite lor_shiftl by lia. done. Qed.

Lemma head_major major m : 0 <= m < 32 -> Z.shiftr (major * 32 + m) 5 = major.
Proof. intros Hm. rewrite Z.shiftr_div_pow2 by lia. change (2 ^ 5) with 32. dlia. Qed.

Lemma head_minor major m : 0 <= m < 32 -> Z.land (major * 32 + m) 31 = m.
Proof. intros Hm. change 31 with (Z.ones 5). rewrite Z.land_ones by lia. change (2 ^ 5) with 32. dlia. Qed.

(** A header reads back as its type and length. *)
Lemma header_reads major len rest :
  fits len ->
  exists initial l1, writeTypeAndLength major len ++ rest = initial :: l1
    /\ Z.shiftr initial 5 = major /\ readLength l1 (Z.land initial 31) = Ok (len, rest).
Proof.
  unfold fits, writeTypeAndLength. intros Hl. cbv zeta.
  destruct (Z.ltb_spec len 24).
  { exists (major * 32 + len), rest. rewrite head_byte, head_major, head_minor by lia.
    split_and!; try done. unfold readLength. by rewrite (proj2 (Z.ltb_lt _ _)). }
  destruct (Z.ltb_spec len 256).
  { exists (major * 32 + 24), (len :: rest). rewrite head_byte, head_major, head_minor by lia. done. }
  destruct (Z.ltb_spec len 65536).
  { exists (major * 32 + 25), (Z.shiftr len 8 :: Z.land len 255 :: rest).
    rewrite head_byte, head_major, head_minor by lia. split_and!; try done. cbn.
    do 2 f_equal. rewrite land_255, Z.shiftr_div_pow2 by lia. change (2 ^ 8) with 256. dlia. }
  exists (major * 32 + 26), (be32 len ++ rest).
  rewrite head_byte, head_major, head_minor by lia. split_and!; try done.
  pose proof (be32_value_be32 len Hl) as Hv. unfold be32_value, be32 in Hv |- *. cbn in Hv |- *. by rewrite Hv.
Qed.

Lemma header_length major len : (1 <= length (writeTypeAndLength major len))%nat.
Proof. unfold writeTypeAndLength. cbv zeta. repeat case_match; simpl; lia. Qed.

Lemma readBytes_app b rest : readBytes (b ++ rest) (Z.of_nat (length b)) = Ok (b, rest).
Proof.
  unfold readBytes. rewrite length_app, (proj2 (Z.ltb_ge _ _)) by lia.
  by rewrite Nat2Z.id, take_app_length, drop_app_length.
Qed.

(** [readItem] on a header. *)
Lemma read_header f major len rest :
  fits len -> exists initial l1, writeTypeAndLength major len ++ rest = initial :: l1 /\
  readItem (S f) (initial :: l1) =
    (if major =? 0 then Ok (CNum len, rest)
     else if major =? 2 then let! (b, l3) := readBytes rest len in Ok (CBytes b, l3)
     else if major =? 3 then let! (b, l3) := readBytes rest len in Ok (CText (text_decode b), l3)
     else if major =? 4 then let! (out, l3) := readItems f len rest in Ok (CArr out, l3)
     else if major =? 5 then let! (out, l3) := readFields f len (None, []) rest in Ok (CMap out.1 out.2, l3)
     else bad ("unsupported CBOR major type " +:+ pretty major)).
Proof.
  intros Hl. destruct (header_reads major len rest Hl) as (i & l1 & E & Hm & Hr). exists i, l1. split; [done|].
  cbn [readItem readUint8 rbind]. rewrite Hm, Hr. by repeat case_match.
Qed.

Lemma read_text f s rest :
  plain (CText s) -> readItem (S f) (write_text s ++ rest) = Ok (CText s, rest).
Proof.
  intros Hp. inversion_clear Hp as [| |? Hf Ht| |]. unfold write_text. rewrite <-app_assoc.
  destruct (read_header f 3 (Z.of_nat (length (utf8 s))) (utf8 s ++ rest) Hf) as (i & l1 & -> & ->).
  cbn. rewrite readBytes_app. cbn. by rewrite text_decode_utf8.
Qed.

(** Setting a property that follows all the others appends it. *)
Lemma set_field_last k v l : Forall (fun f => key_after f.1 k) l -> set_field k v l = l ++ [(k, v)].
Proof.
  induction 1 as [|[k' v'] l [Hne Hb] _ IH]; [done|]. simpl in *.
  destruct (String.eqb_spec k k') as [->|]; [done|]. by rewrite Hb, IH.
Qed.

Fixpoint writeItems (l : list item) : result string bytes :=
  match l with
  | [] => Ok []
  | x :: l' => let! p := writeItem x in let! ps := writeItems l' in Ok (p ++ ps)
  end.

Fixpoint writeProps (l : list (string * item)) : result string bytes :=
  match l with
  | [] => Ok []
  | (k, x) :: l' => let! p := writeItem x in let! ps := writeProps l' in Ok (write_text k ++ p ++ ps)
  end.

Lemma writeItem_arr l :
  writeItem (CArr l) = let! parts := writeItems l in Ok (writeTypeAndLength 4 (Z.of_nat (length l)) ++ parts).
Proof. reflexivity. Qed.

Lemma writeItem_map l :
  writeItem (CMap None l) = let! parts := writeProps l in Ok (writeTypeAndLength 5 (Z.of_nat (length l)) ++ parts).
Proof. reflexivity. Qed.

(** What is written for [v] is read back as [v], whatever follows it. *)
Definition reads_back (v : item) : Prop :=
  exists bs, writeItem v = Ok bs /\ (1 <= length bs)%nat
    /\ forall f rest, (2 * length bs + 1 <= f)%nat -> readItem f (bs ++ rest) = Ok (v, rest).

Lemma items_read_back l :
  Forall reads_back l ->
  exists bs, writeItems l = Ok bs
    /\ forall f rest, (2 * length bs + 2 <= f)%nat -> readItems f (Z.of_nat (length l)) (bs ++ rest) = Ok (l, rest).
Proof.
  induction 1 as [|x l (b1 & E1 & Hb1 & H1) _ (b2 & E2 & H2)].
  - exists []. split; [done|]. intros [|f] rest Hf; [lia|done].
  - exists (b1 ++ b2). split; [simpl; by rewrite E1, E2|]. intros [|f] rest Hf; [lia|].
    rewrite length_app in Hf. cbn [readItems length]. rewrite (proj2 (Z.leb_gt _ _)) by lia.
    rewrite <-app_assoc, H1 by lia. cbn [rbind].
    replace (Z.of_nat (S (length l)) - 1) with (Z.of_nat (length l)) by lia. by rewrite H2 by lia.
Qed.

Lemma fields_read_back l : forall done_,
  Forall (fun f => plain (CText f.1) /\ f.1 <> "__proto__" /\ reads_back f.2) l ->
  ForallOrdPairs (fun f g => key_after f.1 g.1) (done_ ++ l) ->
  exists bs, writeProps l = Ok bs
    /\ forall f rest, (2 * length bs + 2 <= f)%nat ->
         readFields f (Z.of_nat (length l)) (None, done_) (bs ++ rest) = Ok ((None, done_ ++ l), rest).
Proof.
  induction l as [|[k x] l IH]; intros done_ Hl Hord.
  - exists []. split; [done|]. intros [|f] rest Hf; [lia|]. by rewrite app_nil_r.
  - apply Forall_cons in Hl as [(Hk & Hp & b1 & E1 & Hb1 & H1) Hl]. simpl in *.
    assert (Hord' : ForallOrdPairs (fun f g => key_after f.1 g.1) ((done_ ++ [(k, x)]) ++ l)) by by rewrite <-app_assoc.
    destruct (IH (done_ ++ [(k, x)]) Hl Hord') as (b2 & E2 & H2).
    exists (write_text k ++ b1 ++ b2). rewrite E1. simpl. rewrite E2. split; [done|].
    intros [|f] rest Hf; [lia|]. rewrite !length_app in Hf. cbn [readFields]. rewrite (proj2 (Z.leb_gt _ _)) by lia.
    pose proof (header_length 3 (Z.of_nat (length (utf8 k)))) as Hh.
    assert (Hw : (1 <= length (write_text k))%nat) by (unfold write_text; rewrite length_app; lia).
    destruct f as [|f]; [lia|]. rewrite <-!app_assoc, read_text by done. cbn [rbind]. rewrite H1 by lia. cbn [rbind].
    replace (Z.of_nat (S (length l)) - 1) with (Z.of_nat (length l)) by lia.
    unfold set_prop. rewrite (proj2 (String.eqb_neq _ _)) by done. cbn [fst snd].
    rewrite set_field_last.
    + rewrite H2 by lia. by rewrite <-app_assoc.
    + clear -Hord. induction done_ as [|y d IH]; [constructor|]. inversion_clear Hord as [|? ? Hy Hd].
      constructor; [|by apply IH]. rewrite Forall_forall in Hy. apply (Hy (k, x)), elem_of_app. right. by left.
Qed.

Lemma encode_reads_back v : plain v -> reads_back v.
Proof.
  induction v as [n|b|s|l IH|p l IH] using item_nested; intros Hp.
  - inversion_clear Hp as [? Hn| | | |]. exists (writeTypeAndLength 0 n).
    split; [simpl; unfold fits in Hn; by rewrite (proj2 (Z.ltb_ge _ _)) by lia|]. split; [apply header_length|].
    intros [|f] rest Hf; [lia|]. destruct (read_header f 0 n rest Hn) as (i & l1 & -> & ->). done.
  - inversion_clear Hp as [|? Hb| | |]. eexists. split; [reflexivity|].
    pose proof (header_length 2 (Z.of_nat (length b))). split; [rewrite length_app; lia|].
    intros [|f] rest Hf; [lia|]. rewrite <-app_assoc.
    destruct (read_header f 2 _ (b ++ rest) Hb) as (i & l1 & -> & ->). cbn. by rewrite readBytes_app.
  - eexists. split; [reflexivity|]. pose proof (header_length 3 (Z.of_nat (length (utf8 s)))).
    split; [unfold write_text; rewrite length_app; lia|].
    intros [|f] rest Hf; [lia|]. by apply read_text.
  - inversion_clear Hp as [| | |? Hl Hall|]. destruct (items_read_back l) as (bs & E & H).
    { rewrite Forall_forall in *. auto. }
    unfold reads_back. rewrite writeItem_arr, E. eexists. split; [reflexivity|]. pose proof (header_length 4 (Z.of_nat (length l))).
    split; [rewrite length_app; lia|]. intros [|f] rest Hf; [lia|]. rewrite length_app in Hf. rewrite <-app_assoc.
    destruct (read_header f 4 _ (bs ++ rest) Hl) as (i & l1 & -> & ->). cbn [Z.eqb]. cbn. by rewrite H by lia.
  - inversion_clear Hp as [| | | |? Hl Hord Hall]. destruct (fields_read_back l []) as (bs & E & H); [|done|].
    { rewrite Forall_forall in *. intros f Hf. destruct (Hall f Hf) as (? & ? & ?). auto. }
    unfold reads_back. rewrite writeItem_map, E. eexists. split; [reflexivity|]. pose proof (header_length 5 (Z.of_nat (length l))).
    split; [rewrite length_app; lia|]. intros [|f] rest Hf; [lia|]. rewrite length_app in Hf. rewrite <-app_assoc.
    destruct (read_header f 5 _ (bs ++ rest) Hl) as (i & l1 & -> & ->). cbn [Z.eqb]. cbn. by rewrite H by lia.
Qed.

(** ** Properties *)

(** The encoder wraps a number of 33 bits or more instead of refusing it:
    what it writes decodes to the number modulo 2^32. *)
Lemma encode_wraps_large_numbers (n : Z) :
  2 ^ 32 <= n -> exists bs, encode (CNum n) = Ok bs
    /\ decode bs = Ok (CNum (n mod 2 ^ 32)) /\ n mod 2 ^ 32 <> n.
Proof.
  intros Hn. exists (Z.lor (Z.shiftl 0 5) 26 :: be32 n). unfold encode, writeItem, writeTypeAndLength.
  rewrite !(proj2 (Z.ltb_ge _ _)) by lia. split; [done|].
  assert (Hb : be32 n = be32 (n mod 2 ^ 32)).
  { unfold be32, to_uint32. rewrite Z.mod_mod by lia. do 3 f_equal.
    rewrite !land_255. f_equal. change (2 ^ 32) with (256 * 2 ^ 24). rewrite Z.rem_mul_r by lia.
    rewrite Z.mul_comm, Z_mod_plus_full, Z.mod_mod; done. }
  split; [|dlia]. rewrite Hb.
  pose proof (be32_value_be32 (n mod 2 ^ 32) ltac:(dlia)) as Hv. revert Hv.
  generalize (n mod 2 ^ 32) at 2 4. intros m <-. unfold be32.
  generalize (Z.land (to_uint32 (n mod 2 ^ 32) ≫ 24) 255) (Z.land (to_uint32 (n mod 2 ^ 32) ≫ 16) 255)
    (Z.land (to_uint32 (n mod 2 ^ 32) ≫ 8) 255) (Z.land (n mod 2 ^ 32) 255). reflexivity.
Qed.

(** C18: where the format has room for a value, encoding then decoding gives it back:
    numbers below 2^32, byte strings, texts, arrays and string-keyed objects whose
    lengths are below 2^32, nested to any depth, with the object's properties in the
    same order; its texts decode to themselves (no byte-order mark in front), and its
    keys are in the order JavaScript lists them and none is [__proto__].  A number
    the format has no room for is not refused: any natural number comes back
    modulo 2^32. *)
Theorem cbor_roundtrip (v : item) :
  (plain v -> exists bs, encode v = Ok bs /\ decode bs = Ok v)
  /\ (forall n, v = CNum n -> 0 <= n -> exists bs, encode v = Ok bs /\ decode bs = Ok (CNum (n mod 2 ^ 32))).
Proof.
  assert (Hplain : forall u, plain u -> exists bs, encode u = Ok bs /\ decode bs = Ok u).
  { intros u Hu. destruct (encode_reads_back u Hu) as (bs & E & _ & H). exists bs. split; [done|].
    unfold decode, fuel_for. specialize (H (2 * length bs + 1)%nat [] ltac:(lia)). rewrite app_nil_r in H. by rewrite H. }
  split; [apply Hplain|]. intros n -> Hn. destruct (Z.ltb_spec n (2 ^ 32)) as [Hlt|Hge].
  - rewrite Z.mod_small by done. apply Hplain. by constructor.
  - destruct (encode_wraps_large_numbers n Hge) as (bs & ? & ? & _). by exists bs.
Qed.

(** Decoding terminates on every input, hostile counts and lengths
    included: it returns a structure or throws, the fuel [2n + 1] is never the
    reason, and what it builds has at most one node per input byte. *)
Theorem decode_total (l : bytes) :
  match decode l with
  | Ok v => (nodes v <= length l)%nat
  | Err e => e <> Fuel
  end.
Proof.
  unfold decode. destruct (read_spends (fuel_for l)) as (H & _ & _). specialize (H l (le_n _)).
  destruct (readItem _ l) as [[v [|b rest]]|e]; simpl in *; [lia|done|done].
Qed.

(** ** Witnesses *)

(** An object shaped like an attestation. *)
Definition attestation_like : item :=
  CMap None [("fmt", CText "apple-appattest");
             ("attStmt", CMap None [("x5c", CArr [CBytes [1; 2]; CBytes (replicate 300 7)])]);
             ("authData", CBytes [1; 2; 3]); ("n", CNum 70000)].

Lemma attestation_like_plain : plain attestation_like.
Proof.
  assert (Htext : forall s, fits (Z.of_nat (length (utf8 s))) ->
    string_forallb (fun c => (nat_of_ascii c <? 128)%nat) s = true -> plain (CText s)).
  { intros s Hs Ha. constructor; [done|by apply text_ascii]. }
  unfold attestation_like.
  repeat first [apply Htext; [split; vm_compute; done|reflexivity] | constructor; [split; vm_compute; done|..]
    | constructor | split | done | split; vm_compute; done].
Qed.

Lemma cbor_roundtrip_witness :
  (exists bs, encode attestation_like = Ok bs /\ decode bs = Ok attestation_like)
  /\ (exists bs, encode (CNum (2 ^ 32 + 7)) = Ok bs /\ decode bs = Ok (CNum 7)).
Proof.
  split; [apply (cbor_roundtrip attestation_like), attestation_like_plain|].
  by apply (proj2 (cbor_roundtrip (CNum (2 ^ 32 + 7))) (2 ^ 32 + 7)).
Defined.
