(* ===== verification/Attestation.v ===== *)
(** App Attest verification ([src/appattest.js]): attestations and assertions,
    from their CBOR to the checks on chain, nonce, application and key; the
    instance of the interface the room uses. *)

From S2P Require Import Prelude Bytes Crypto Transcript Cbor AttestApi.

#[local] Open Scope result_scope.

(** [src/appleRoot.js] *)
Definition APPLE_APP_ATTEST_ROOT_PEM : string := "-----BEGIN CERTIFICATE-----
MIICITCCAaegAwIBAgIQC/O+DvHN0uD7jG5yH2IXmDAKBggqhkjOPQQDAzBSMSYw
JAYDVQQDDB1BcHBsZSBBcHAgQXR0ZXN0YXRpb24gUm9vdCBDQTETMBEGA1UECgwK
QXBwbGUgSW5jLjETMBEGA1UECAwKQ2FsaWZvcm5pYTAeFw0yMDAzMTgxODMyNTNa
Fw00NTAzMTUwMDAwMDBaMFIxJjAkBgNVBAMMHUFwcGxlIEFwcCBBdHRlc3RhdGlv
biBSb290IENBMRMwEQYDVQQKDApBcHBsZSBJbmMuMRMwEQYDVQQIDApDYWxpZm9y
bmlhMHYwEAYHKoZIzj0CAQYFK4EEACIDYgAERTHhmLW07ATaFQIEVwTtT4dyctdh
NbJhFs/Ii2FdCgAHGbpphY3+d8qjuDngIN3WVhQUBHAoMeQ/cLiP1sOUtgjqK9au
Yen1mMEvRq9Sk3Jm5X8U62H+xTD3FE9TgS41o0IwQDAPBgNVHRMBAf8EBTADAQH/
MB0GA1UdDgQWBBSskRBTM72+aEH/pwyp5frq5eWKoTAOBgNVHQ8BAf8EBAMCAQYw
CgYIKoZIzj0EAwMDaAAwZQIwQgFGnByvsiVbpTKwSga0kP0e8EeDS4+sQmTvb7vn
53O5+FRXgeLhpJ06ysC5PrOyAjEAp5U4xDgEgllF7En3VcE3iexZZtKeYnpqtijV
oyFraWVIyd/dganmrduC1bmTBGwD
-----END CERTIFICATE-----".

Definition NONCE_OID : string := "1.2.840.113635.100.8.2".

Definition textToAaguid (text : string) : bytes :=
  utf8 text ++ replicate (16 - length (utf8 text)) 0.

Definition AAGUID_PROD : bytes := textToAaguid "appattest".
Definition AAGUID_DEV : bytes := textToAaguid "appattestdevelop".

(** ** Typed arrays *)

(** [a[i]], [None] for [undefined] *)
Definition at_index (l : bytes) (i : Z) : option Z := if i <? 0 then None else l !! Z.to_nat i.

(** A relative index of [subarray]. *)
Definition relative (n i : Z) : Z := if i <? 0 then Z.max (n + i) 0 else Z.min i n.

Definition subarray (l : bytes) (from upto : Z) : bytes :=
  let n := Z.of_nat (length l) in
  take (Z.to_nat (relative n upto - relative n from)) (drop (Z.to_nat (relative n from)) l).

(** [ToInt32] *)
Definition to_int32 (n : Z) : Z := (n + 2 ^ 31) mod 2 ^ 32 - 2 ^ 31.

(** [ToInt32(undefined)] is 0. *)
Definition int_at (l : bytes) (i : Z) : Z := default 0 (at_index l i).

(** [equalBytes]: the accumulated difference of equal-length arrays is zero. *)
Definition equalBytes (a b : bytes) : bool :=
  if (length a =? length b)%nat
  then fold_left (fun diff '(x, y) => Z.lor diff (Z.lxor x y)) (zip a b) 0 =? 0
  else false.

(** ** DER *)

Fixpoint der_length_bytes (n : nat) (der : bytes) (len pos : Z) : Z * Z :=
  match n with
  | O => (len, pos)
  | S n' => der_length_bytes n' der (to_int32 (Z.lor (Z.shiftl len 8) (int_at der pos))) (pos + 1)
  end.

(** The length at [pos] and the position after it. *)
Definition readDerLength (der : bytes) (pos : Z) : result string (Z * Z) :=
  match at_index der pos with
  | Some first =>
      if first <? 128 then Ok (first, pos + 1) else
      let n := Z.land first 127 in
      if (n =? 0) || (4 <? n) then Err "nonce extension: bad DER length"
      else Ok (der_length_bytes (Z.to_nat n) der 0 (pos + 1))
  | None => Err "nonce extension: bad DER length"
  end.

(** [while (val.length > size && val[0] === 0x00) val = val.subarray(1)] *)
Fixpoint drop_padding (size : nat) (val : bytes) : bytes :=
  match val with
  | 0 :: val' => if (size <? length val)%nat then drop_padding size val' else val
  | _ => val
  end.

Definition readInt (der : bytes) (size : nat) (pos : Z) : result string (bytes * Z) :=
  if bool_decide (at_index der pos = Some 2) then
    let! (len, pos1) := readDerLength der (pos + 1) in
    let val := drop_padding size (subarray der pos1 (pos1 + len)) in
    if (size <? length val)%nat then Err "signature: integer too large"
    else Ok (replicate (size - length val) 0 ++ val, pos1 + len)
  else Err "signature: expected INTEGER".

Definition derEcdsaToRaw (der : bytes) (size : nat) : result string bytes :=
  if bool_decide (at_index der 0 = Some 48) then
    let! (_, pos) := readDerLength der 1 in
    let! (r, pos1) := readInt der size pos in
    let! (s, _) := readInt der size pos1 in
    Ok (r ++ s)
  else Err "signature: expected SEQUENCE".

Definition expect (der : bytes) (pos tag : Z) : result string (Z * Z) :=
  if bool_decide (at_index der pos = Some tag) then readDerLength der (pos + 1)
  else Err "nonce extension: unexpected DER tag".

Definition parseNonceExtension (der : bytes) : result string bytes :=
  let! (_, pos) := expect der 0 48 in
  let! (_, pos1) := expect der pos 161 in
  let! (len, pos2) := expect der pos1 4 in
  if len =? 32 then Ok (subarray der pos2 (pos2 + 32)) else Err "nonce extension: bad nonce length".

(** ** Decoded objects *)

(** [v.key], for a key no built-in prototype has; own properties first. *)
Fixpoint prop (v : item) (key : string) : option item :=
  match v with
  | CMap proto fields =>
      match find (fun f => String.eqb f.1 key) fields with
      | Some f => Some f.2
      | None => match proto with Some p => prop p key | None => None end
      end
  | _ => None
  end.

(** A value as a condition. *)
Definition truthy_item (v : option item) : bool :=
  match v with
  | None => false
  | Some (CNum n) => negb (n =? 0)
  | Some (CText s) => negb (String.eqb s "")
  | Some _ => true
  end.

(** [v instanceof Uint8Array] *)
Definition uint8array (v : option item) : option item :=
  match v with Some x => if is_uint8array x then v else None | None => None end.

(** The bytes behind it.  An object that merely inherits from a [Uint8Array]
    has none: reading its length or a subarray throws (the text of that
    [TypeError] is the engine's, and stands for whichever of the errors on such
    an object comes first). *)
Definition contents (v : item) : result string bytes :=
  match v with CBytes b => Ok b | _ => Err "TypeError" end.

Definition cbor_error (e : failure) : string := match e with Malformed m => m | Fuel => "" end.

(** ** Verification *)

Section Verify.
Context `{Crypto}.

(** [now < c.notBefore || now > c.notAfter] *)
Definition out_of_date (now : Z) (c : certificate) : bool :=
  (now <? notBefore c) || (notAfter c <? now).

(** Steps 1: the object's shape. *)
Definition attestation_parts (attestationObject : bytes) : result string (item * bytes * bytes) :=
  match decode attestationObject with
  | Err e => Err ("malformed attestation CBOR: " +:+ cbor_error e)
  | Ok obj =>
      match prop obj "fmt" with
      | Some (CText "apple-appattest") =>
          let attStmt := prop obj "attStmt" in
          match uint8array (prop obj "authData") with
          | Some authData =>
              if negb (truthy_item attStmt) then Err "bad attestation shape" else
              match attStmt ≫= fun v => prop v "x5c" with
              | Some (CArr (c0 :: c1 :: _)) =>
                  if is_uint8array c0 && is_uint8array c1 then
                    match contents c0, contents c1 with
                    | Ok b0, Ok b1 => Ok (authData, b0, b1)
                    | _, _ => Err "certificate parse failed"
                    end
                  else Err "missing or malformed certificate chain"
              | _ => Err "missing or malformed certificate chain"
              end
          | None => Err "bad attestation shape"
          end
      | _ => Err "unexpected attestation format"
      end
  end.

(** Step 2: the chain, anchored at the trusted root. *)
Definition check_chain (leaf intermediate : bytes) (trustedRootPem : string) (now : Z) : result string certificate :=
  match x509_parse leaf, x509_parse intermediate, x509_parse_pem trustedRootPem with
  | Some credCert, Some intermediate, Some root =>
      if out_of_date now credCert || out_of_date now intermediate then
        Err "certificate is expired or not yet valid"
      else if negb (x509_verify intermediate root) then
        Err "intermediate not signed by the trusted root"
      else if negb (x509_verify credCert intermediate) then
        Err "leaf not signed by the intermediate"
      else Ok credCert
  | _, _, _ => Err "certificate parse failed"
  end.

(** Step 3: the nonce in the leaf. *)
Definition check_nonce (credCert : certificate) (authData clientDataHash : bytes) : result string unit :=
  let expectedNonce := sha256 (authData ++ clientDataHash) in
  match x509_extension credCert NONCE_OID with
  | None => Err "missing nonce extension"
  | Some ext =>
      let! certNonce := parseNonceExtension ext in
      if equalBytes certNonce expectedNonce then Ok tt else Err "nonce mismatch"
  end.

(** Steps 4 and 5: the key, the application, the environment. *)
Definition check_auth_data (authData keyId : bytes) (appId environment : string) : result string unit :=
  if (length authData <? 37)%nat then Err "authData too short"
  else if negb (equalBytes (subarray authData 0 32) (sha256 (utf8 appId))) then
    Err "rpIdHash (app id) mismatch"
  else if negb (equalBytes (subarray authData 37 53)
                  (if String.eqb environment "development" then AAGUID_DEV else AAGUID_PROD)) then
    Err "AAGUID/environment mismatch"
  else
    let credIdLen := Z.lor (Z.shiftl (int_at authData 53) 8) (int_at authData 54) in
    if equalBytes (subarray authData 55 (55 + credIdLen)) keyId then Ok tt
    else Err "credentialId does not match keyId".

Definition verifyAttestation_ (attestationObject clientDataHash : bytes) (appId environment : string)
    (trustedRootPem : string) (now : Z) : result string attested :=
  let! (authData_, leaf, intermediate) := attestation_parts attestationObject in
  let! credCert := check_chain leaf intermediate trustedRootPem now in
  let! authData := contents authData_ in
  let! _ := check_nonce credCert authData clientDataHash in
  let publicKeyRaw := x509_public_key credCert in
  let keyId := sha256 publicKeyRaw in
  let! _ := check_auth_data authData keyId appId environment in
  Ok (Attested keyId publicKeyRaw).

Definition verifyAssertion_ (assertion clientDataHash publicKeyRaw : bytes) (appId : string) : result string Z :=
  match decode assertion with
  | Err e => Err ("malformed assertion CBOR: " +:+ cbor_error e)
  | Ok obj =>
      match uint8array (prop obj "signature"), uint8array (prop obj "authenticatorData") with
      | Some signatureDer, Some authenticatorData =>
          let! authenticatorData := contents authenticatorData in
          if (length authenticatorData <? 37)%nat then Err "assertion authenticatorData too short" else
          let nonce := sha256 (authenticatorData ++ clientDataHash) in
          if negb (ecdsa_import publicKeyRaw) then Err "pinned key import failed" else
          let! signatureDer := contents signatureDer in
          let! rawSig := derEcdsaToRaw signatureDer 32 in
          if negb (ecdsa_verify publicKeyRaw rawSig nonce) then Err "assertion signature invalid"
          else if negb (equalBytes (subarray authenticatorData 0 32) (sha256 (utf8 appId))) then
            Err "assertion rpIdHash mismatch"
          else
            let b i := int_at authenticatorData i in
            Ok (to_uint32 (Z.lor (Z.lor (Z.lor (to_int32 (Z.shiftl (b 33) 24)) (Z.shiftl (b 34) 16))
                                    (Z.shiftl (b 35) 8)) (b 36)))
      | _, _ => Err "bad assertion shape"
      end
  end.

(** What the room calls, with the root it passes:
    [env.APPATTEST_ROOT_PEM || APPLE_APP_ATTEST_ROOT_PEM]. *)
Definition app_attest : AppAttest := {|
  verifyAttestation o h appId environment pem now :=
    verifyAttestation_ o h appId environment
      (match pem with Some p => if String.eqb p "" then APPLE_APP_ATTEST_ROOT_PEM else p
                    | None => APPLE_APP_ATTEST_ROOT_PEM end) now;
  verifyAssertion := verifyAssertion_;
|}.
End Verify.

(** ** Lemmas *)

Lemma equalBytes_spec a b : equalBytes a b = true <-> a = b.
Proof.
  unfold equalBytes. destruct (Nat.eqb_spec (length a) (length b)) as [Hl|Hl]; [|split; [done|by intros ->]].
  assert (Hf : forall l d, fold_left (fun diff '(x, y) => Z.lor diff (Z.lxor x y)) l d = 0
             <-> d = 0 /\ Forall (fun '(x, y) => x = y) l).
  { induction l as [|[x y] l IH]; intros d; simpl; [by split; [|intros []]|].
    rewrite IH, Z.lor_eq_0_iff, Forall_cons, Z.lxor_eq_0_iff. tauto. }
  rewrite Z.eqb_eq, Hf. revert b Hl. induction a as [|x a IH]; intros [|y b] Hl; simpl in *; try done.
  rewrite Forall_cons. injection Hl as Hl. specialize (IH b Hl). split.
  - intros (_ & -> & Hr). f_equal. apply IH. by split.
  - intros [= -> ->]. split_and!; [done|done|]. by apply IH.
Qed.

Lemma subarray_slice l i j : 0 <= i <= j -> subarray l i j = take (Z.to_nat (j - i)) (drop (Z.to_nat i) l).
Proof.
  intros Hij. unfold subarray, relative. rewrite !(proj2 (Z.ltb_ge _ 0)) by lia. cbv zeta.
  destruct (Z.le_gt_cases (Z.of_nat (length l)) i).
  - rewrite !drop_ge by lia. by rewrite !take_nil.
  - rewrite (Z.min_l i) by lia. destruct (Z.le_gt_cases j (Z.of_nat (length l))); [by rewrite Z.min_l by lia|].
    rewrite Z.min_r by lia. rewrite !take_ge; [done|rewrite length_drop; lia..].
Qed.

Lemma at_index_app l x r : at_index (l ++ x :: r) (Z.of_nat (length l)) = Some x.
Proof.
  unfold at_index. rewrite (proj2 (Z.ltb_ge _ _)) by lia. rewrite Nat2Z.id. by apply list_lookup_middle.
Qed.

(** A short DER length, anywhere in the input. *)
Lemma readDerLength_short l n r :
  n < 128 -> readDerLength (l ++ n :: r) (Z.of_nat (length l)) = Ok (n, Z.of_nat (length l) + 1).
Proof. intros Hn. unfold readDerLength. rewrite at_index_app. by rewrite (proj2 (Z.ltb_lt _ _)). Qed.

Lemma subarray_middle l m r n :
  n = Z.of_nat (length m) ->
  subarray (l ++ m ++ r) (Z.of_nat (length l)) (Z.of_nat (length l) + n) = m.
Proof.
  intros ->. rewrite subarray_slice by lia. rewrite Nat2Z.id, drop_app_length.
  replace (Z.to_nat (Z.of_nat (length l) + Z.of_nat (length m) - Z.of_nat (length l))) with (length m) by lia.
  apply take_app_length.
Qed.

(** ** DER signatures *)

(** An integer's bytes without leading zeros, but for one. *)
Fixpoint strip_zeros (l : bytes) : bytes :=
  match l with
  | 0 :: l' => match l' with [] => l | _ => strip_zeros l' end
  | _ => l
  end.

(** The DER INTEGER of an unsigned big-endian number: minimal, with a zero byte
    where the first would read as a sign. *)
Definition der_content (l : bytes) : bytes :=
  let v := strip_zeros l in if 128 <=? hd 0 v then 0 :: v else v.
Definition der_integer (l : bytes) : bytes :=
  2 :: Z.of_nat (length (der_content l)) :: der_content l.

(** SEQUENCE { INTEGER r, INTEGER s } *)
Definition der_signature (r s : bytes) : bytes :=
  let body := der_integer r ++ der_integer s in 48 :: Z.of_nat (length body) :: body.

Lemma strip_zeros_pads l :
  (length (strip_zeros l) <= length l)%nat
  /\ replicate (length l - length (strip_zeros l)) 0 ++ strip_zeros l = l.
Proof.
  induction l as [|x l [IHl IH]]; [done|].
  assert (Hsame : (length (x :: l) <= length (x :: l))%nat
    /\ replicate (length (x :: l) - length (x :: l)) 0 ++ x :: l = x :: l).
  { split; [lia|]. by rewrite Nat.sub_diag. }
  destruct x as [|p|p]; cbn [strip_zeros]; [|exact Hsame..]. destruct l as [|y l]; [exact Hsame|].
  set (v := strip_zeros (y :: l)) in *. split; [simpl in *; lia|].
  replace (length (0%Z :: y :: l) - length v)%nat with (S (length (y :: l) - length v)) by (simpl in *; lia).
  cbn [replicate app]. by rewrite IH.
Qed.

Lemma drop_padding_short size val : (length val <= size)%nat -> drop_padding size val = val.
Proof.
  intros Hl. destruct val as [|[|p|p] val]; try done. cbn [drop_padding].
  by rewrite (proj2 (Nat.ltb_ge _ _)) by done.
Qed.

Lemma der_content_length l : (length (der_content l) <= S (length l))%nat.
Proof.
  unfold der_content. pose proof (proj1 (strip_zeros_pads l)). destruct (_ <=? _); simpl; lia.
Qed.

(** Padding and stripping give the fixed-width number back. *)
Lemma der_content_padded l :
  let val := drop_padding (length l) (der_content l) in
  (length val <= length l)%nat /\ replicate (length l - length val) 0 ++ val = l.
Proof.
  cbv zeta. destruct (strip_zeros_pads l) as [Hl Hp]. unfold der_content.
  destruct (_ <=? _); [|by rewrite drop_padding_short].
  destruct (decide (length (strip_zeros l) = length l)) as [E|Hne].
  - assert (strip_zeros l = l) as -> by (rewrite E, Nat.sub_diag in Hp; done).
    cbn [drop_padding]. rewrite (proj2 (Nat.ltb_lt _ _)) by (simpl; lia).
    rewrite drop_padding_short by lia. by rewrite Nat.sub_diag.
  - rewrite drop_padding_short by (simpl; lia). split; [simpl; lia|].
    etransitivity; [|exact Hp]. replace (length l - length (strip_zeros l))%nat
      with (S (length l - length (0%Z :: strip_zeros l))) by (simpl; lia).
    by rewrite replicate_S_end, <-app_assoc.
Qed.

Lemma readInt_der l v r :
  (length v < 127)%nat ->
  readInt (l ++ der_integer v ++ r) (length v) (Z.of_nat (length l))
  = Ok (v, Z.of_nat (length (l ++ der_integer v))).
Proof.
  intros Hv. unfold readInt, der_integer. cbn [app]. rewrite at_index_app, bool_decide_eq_true_2 by done.
  pose proof (der_content_length v) as Hc.
  set (c := der_content v) in *. rewrite (cons_middle 2 l). rewrite app_assoc.
  replace (Z.of_nat (length l) + 1) with (Z.of_nat (length (l ++ [2]))) by (rewrite length_app; simpl; lia).
  rewrite readDerLength_short by lia. cbn [rbind].
  replace ((l ++ [2]) ++ Z.of_nat (length c) :: c ++ r) with ((l ++ [2; Z.of_nat (length c)]) ++ c ++ r)
    by by rewrite <-!app_assoc.
  replace (Z.of_nat (length (l ++ [2])) + 1) with (Z.of_nat (length (l ++ [2; Z.of_nat (length c)])))
    by (rewrite !length_app; simpl; lia).
  rewrite subarray_middle by done. destruct (der_content_padded v) as [Hle Hpad]. fold c in Hle, Hpad.
  rewrite (proj2 (Nat.ltb_ge _ _)) by done. rewrite Hpad. do 2 f_equal. rewrite !length_app. simpl. lia.
Qed.

(** ** Properties *)

Section Sound.
Context `{Crypto}.

(** What an accepted attestation proves. *)
Record genuine (attestationObject clientDataHash : bytes) (appId environment pem : string) (now : Z)
    (a : attested) (authData leaf : bytes) : Prop := {
  genuine_object : exists intermediate, attestation_parts attestationObject = Ok (CBytes authData, leaf, intermediate)
    /\ exists cert issuer root, x509_parse leaf = Some cert /\ x509_parse intermediate = Some issuer
       /\ x509_parse_pem pem = Some root
       /\ x509_verify issuer root = true /\ x509_verify cert issuer = true
       /\ notBefore cert <= now <= notAfter cert /\ notBefore issuer <= now <= notAfter issuer
       /\ publicKeyRaw a = x509_public_key cert
       /\ exists ext, x509_extension cert NONCE_OID = Some ext
          /\ parseNonceExtension ext = Ok (sha256 (authData ++ clientDataHash));
  genuine_key : keyId a = sha256 (publicKeyRaw a);
  genuine_app : subarray authData 0 32 = sha256 (utf8 appId);
  genuine_environment : subarray authData 37 53
    = (if String.eqb environment "development" then AAGUID_DEV else AAGUID_PROD);
  genuine_credential :
    subarray authData 55 (55 + Z.lor (Z.shiftl (int_at authData 53) 8) (int_at authData 54)) = keyId a;
}.

Lemma check_chain_ok leaf i pem now cert :
  check_chain leaf i pem now = Ok cert ->
  exists issuer root, x509_parse leaf = Some cert /\ x509_parse i = Some issuer /\ x509_parse_pem pem = Some root
    /\ x509_verify issuer root = true /\ x509_verify cert issuer = true
    /\ notBefore cert <= now <= notAfter cert /\ notBefore issuer <= now <= notAfter issuer.
Proof.
  unfold check_chain. destruct (x509_parse leaf) as [c|] eqn:E1; [|done].
  destruct (x509_parse i) as [j|] eqn:E2; [|done]. destruct (x509_parse_pem pem) as [r|] eqn:E3; [|done].
  destruct (out_of_date now c || out_of_date now j) eqn:Ed; [done|].
  destruct (x509_verify j r) eqn:Ev; [|done]. destruct (x509_verify c j) eqn:Ew; [|done]. intros [= <-].
  apply orb_false_iff in Ed as [Hc Hj]. unfold out_of_date in *.
  apply orb_false_iff in Hc, Hj. rewrite !Z.ltb_ge in *. exists j, r. split_and!; try done; lia.
Qed.

Lemma check_nonce_ok cert ad h :
  check_nonce cert ad h = Ok tt ->
  exists ext, x509_extension cert NONCE_OID = Some ext /\ parseNonceExtension ext = Ok (sha256 (ad ++ h)).
Proof.
  unfold check_nonce. destruct (x509_extension cert NONCE_OID) as [ext|]; [|done].
  destruct (parseNonceExtension ext) as [n|e] eqn:En; [|done]. simpl.
  destruct (equalBytes n (sha256 (ad ++ h))) eqn:Eq; [|done]. intros _. apply equalBytes_spec in Eq as ->.
  exists ext. by split.
Qed.

Lemma check_auth_data_ok ad kid app environment :
  check_auth_data ad kid app environment = Ok tt ->
  subarray ad 0 32 = sha256 (utf8 app)
  /\ subarray ad 37 53 = (if String.eqb environment "development" then AAGUID_DEV else AAGUID_PROD)
  /\ subarray ad 55 (55 + Z.lor (Z.shiftl (int_at ad 53) 8) (int_at ad 54)) = kid.
Proof.
  unfold check_auth_data. destruct (_ <? _)%nat; [done|].
  destruct (equalBytes (subarray ad 0 32) _) eqn:E1; [|done].
  destruct (equalBytes (subarray ad 37 53) _) eqn:E2; [|done].
  destruct (equalBytes (subarray ad 55 _) kid) eqn:E3; [|done].
  apply equalBytes_spec in E1, E2, E3. done.
Qed.

Lemma verify_genuine o h app environment pem now a :
  verifyAttestation_ o h app environment pem now = Ok a ->
  exists ad leaf, genuine o h app environment pem now a ad leaf.
Proof.
  unfold verifyAttestation_. intros E. apply rbind_ok in E as ([[ad_ leaf] i] & Eparts & E).
  apply rbind_ok in E as (cert & Ec & E). apply rbind_ok in E as (ad & Ead & E).
  apply rbind_ok in E as ([] & En & E). apply rbind_ok in E as ([] & Ek & E). injection E as <-.
  assert (ad_ = CBytes ad) as -> by (destruct ad_; try done; by injection Ead as <-).
  apply check_chain_ok in Ec as (issuer & root & H1 & H2 & H3 & H4 & H5 & H6 & H7).
  apply check_nonce_ok in En as (ext & H8 & H9). apply check_auth_data_ok in Ek as (H10 & H11 & H12).
  exists ad, leaf. split; try done. exists i. split; [done|]. exists cert, issuer, root. split_and!; try done; try lia.
  by exists ext.
Qed.
End Sound.

(** C7: an accepted attestation is genuine: the leaf chains to the trusted
    root through an intermediate, both in date; the leaf carries the hash of
    the authenticator data and this very challenge; the key returned is the
    leaf's and its id is the credential's; and the data names this application
    and this environment. *)
Theorem attestation_sound `{Crypto} (o h : bytes) (app environment pem : string) (now : Z) (a : attested) :
  verifyAttestation_ o h app environment pem now = Ok a ->
  exists authData leaf, genuine o h app environment pem now a authData leaf.
Proof. apply verify_genuine. Qed.

(** An attestation answers one challenge: an object accepted for two
    different challenges exhibits a SHA-256 collision, whatever the application,
    environment and time of the two verifications. *)
Theorem attestation_answers_one_challenge `{Crypto} (o h h' : bytes) (c c' origin : string) (cb cb' : bytes)
    (app app' environment environment' pem pem' : string) (now now' : Z) (a a' : attested) :
  b64ToBytes c = Some cb -> b64ToBytes c' = Some cb' -> cb <> cb' ->
  short cb -> short cb' -> short_string origin ->
  attestClientDataHash c origin = Some h -> attestClientDataHash c' origin = Some h' ->
  verifyAttestation_ o h app environment pem now = Ok a ->
  verifyAttestation_ o h' app' environment' pem' now' = Ok a' ->
  exists m m', m <> m' /\ sha256 m = sha256 m'.
Proof.
  intros Hc Hc' Hne Hs Hs' Ho Hh Hh' E E'.
  apply verify_genuine in E as (ad & leaf & [(i & Ep & cert & issuer & root & Hl & _ & _ & _ & _ & _ & _ & _ & ext & Hx & Hn) _ _ _ _]).
  apply verify_genuine in E' as (ad' & leaf' & [(i' & Ep' & cert' & issuer' & root' & Hl' & _ & _ & _ & _ & _ & _ & _ & ext' & Hx' & Hn') _ _ _ _]).
  rewrite Ep in Ep'. injection Ep' as <- <- <-. rewrite Hl in Hl'. injection Hl' as <-. rewrite Hx in Hx'. injection Hx' as <-.
  rewrite Hn in Hn'. injection Hn' as Hn'.
  destruct (decide (h = h')) as [->|Hhne].
  - unfold attestClientDataHash, attestTranscript in Hh, Hh'. rewrite Hc in Hh. rewrite Hc' in Hh'. simpl in Hh, Hh'.
    injection Hh as Hh. injection Hh' as Hh'. rewrite <-Hh' in Hh.
    eexists _, _. split; [|exact Hh]. intros Heq.
    unshelve epose proof (canonicalEncode_inj _ _ _ _ _ _ _ _ Heq) as [_ Hf];
      [apply short_utf8; reflexivity..|short_fields|short_fields|]. by injection Hf as ?.
  - exists (ad ++ h), (ad ++ h'). split; [|done]. intros Heq. by apply app_inv_head in Heq.
Qed.

(** No attestation object passes both in the development environment and in
    a production one. *)
Lemma environments_exclusive `{Crypto} (o h h' : bytes) (app app' environment pem pem' : string)
    (now now' : Z) (a : attested) :
  verifyAttestation_ o h app "development" pem now = Ok a -> environment <> "development" ->
  is_ok (verifyAttestation_ o h' app' environment pem' now') = false.
Proof.
  intros E He. destruct (verifyAttestation_ o h' app' environment pem' now') as [a'|] eqn:E'; [|done]. exfalso.
  apply verify_genuine in E as (ad & leaf & [(i & Ep & _) _ _ He1 _]).
  apply verify_genuine in E' as (ad' & leaf' & [(i' & Ep' & _) _ _ He2 _]).
  rewrite Ep in Ep'. injection Ep' as <- _ _. rewrite He1 in He2.
  rewrite (proj2 (String.eqb_neq environment _)) in He2 by done. by vm_compute in He2.
Qed.

(** The DER signature of two 32-byte integers converts back to [r || s]. *)
Lemma der_signature_roundtrip (r s : bytes) :
  length r = 32%nat -> length s = 32%nat -> derEcdsaToRaw (der_signature r s) 32 = Ok (r ++ s).
Proof.
  intros Hr Hs. unfold derEcdsaToRaw, der_signature. cbv zeta. set (body := der_integer r ++ der_integer s).
  rewrite bool_decide_eq_true_2 by done.
  assert (Hb : (length body < 128)%nat).
  { unfold body, der_integer. pose proof (der_content_length r). pose proof (der_content_length s).
    rewrite length_app. simpl. lia. }
  change (48 :: Z.of_nat (length body) :: body) with ([48] ++ Z.of_nat (length body) :: body) at 1.
  change 1 with (Z.of_nat (length [48])) at 1. rewrite readDerLength_short by lia. cbn [rbind].
  change (48 :: Z.of_nat (length body) :: body) with ([48; Z.of_nat (length body)] ++ body).
  change (Z.of_nat (length [48]) + 1) with (Z.of_nat (length [48; Z.of_nat (length body)])).
  set (l := [48; Z.of_nat (length body)]). unfold body.
  rewrite <-Hr at 1. rewrite readInt_der by lia. cbn [rbind].
  rewrite <-(app_nil_r (der_integer s)), app_assoc. rewrite <-Hs at 1. rewrite readInt_der by lia. done.
Qed.

Lemma readInt_length der size pos v p : readInt der size pos = Ok (v, p) -> length v = size.
Proof.
  unfold readInt. destruct (bool_decide _); [|done]. destruct (readDerLength der (pos + 1)) as [[len p1]|e]; [|done].
  simpl. destruct (size <? _)%nat eqn:El; [done|]. apply Nat.ltb_ge in El. intros [= <- _].
  rewrite length_app, length_replicate. lia.
Qed.

Lemma derEcdsaToRaw_length der size raw : derEcdsaToRaw der size = Ok raw -> length raw = (2 * size)%nat.
Proof.
  unfold derEcdsaToRaw. destruct (bool_decide _); [|done]. destruct (readDerLength der 1) as [[len p]|e]; [|done]. simpl.
  destruct (readInt der size p) as [[r p1]|e] eqn:Er; [|done]. simpl.
  destruct (readInt der size p1) as [[s p2]|e] eqn:Es; [|done]. intros [= <-].
  apply readInt_length in Er, Es. rewrite length_app. lia.
Qed.

(** C21: an accepted assertion carries a signature, under the pinned key, of
    the hash of its authenticator data and this challenge, for this
    application; the signature handed to the verifier is always 64 bytes and the
    counter a 32-bit unsigned number. *)
Theorem assertion_sound `{Crypto} (assertion h pk : bytes) (app : string) (counter : Z) :
  verifyAssertion_ assertion h pk app = Ok counter ->
  0 <= counter < 2 ^ 32
  /\ exists obj sg ad raw, decode assertion = Ok obj
     /\ prop obj "signature" = Some (CBytes sg) /\ prop obj "authenticatorData" = Some (CBytes ad)
     /\ (37 <= length ad)%nat /\ derEcdsaToRaw sg 32 = Ok raw /\ length raw = 64%nat
     /\ ecdsa_import pk = true /\ ecdsa_verify pk raw (sha256 (ad ++ h)) = true
     /\ subarray ad 0 32 = sha256 (utf8 app).
Proof.
  unfold verifyAssertion_. destruct (decode assertion) as [obj|e]; [|done].
  destruct (prop obj "signature") as [sg_|] eqn:Esg; [|done]. cbn [uint8array].
  destruct (is_uint8array sg_); [|done].
  destruct (prop obj "authenticatorData") as [ad_|] eqn:Ead; [|done]. cbn [uint8array].
  destruct (is_uint8array ad_); [|done].
  intros E. apply rbind_ok in E as (ad & Hc & E). destruct ad_; try done. injection Hc as <-.
  destruct (_ <? 37)%nat eqn:Elen; [done|]. apply Nat.ltb_ge in Elen. cbv zeta in E.
  destruct (ecdsa_import pk) eqn:Ei; [|done]. cbn [negb] in E. apply rbind_ok in E as (sg & Hc & E).
  destruct sg_; try done. injection Hc as <-. apply rbind_ok in E as (raw & Er & E).
  destruct (ecdsa_verify _ _ _) eqn:Ev; [|done]. cbn [negb] in E.
  destruct (equalBytes _ _) eqn:Eq; [|done]. cbn [negb] in E. injection E as <-.
  split; [unfold to_uint32; apply Z.mod_pos_bound; lia|].
  apply equalBytes_spec in Eq. pose proof (derEcdsaToRaw_length _ _ _ Er).
  eexists obj, _, _, raw. by split_and!.
Qed.

(** ** Witnesses *)

#[local] Existing Instance toy_crypto.

(** An attestation under the stand-in cryptography: certificates are their own
    nonce extension, and are signed by whoever ends in the same byte. *)
Definition toy_auth_data (aaguid : bytes) : bytes :=
  toy_sha256 (utf8 "app") ++ replicate 5 0 ++ aaguid ++ [0; 32] ++ replicate 30 1 ++ [5; 6].
Definition toy_hash : bytes := default [] (attestClientDataHash "AAEA" "https://relay").
Definition toy_leaf (aaguid tail : bytes) : bytes :=
  [48; 36; 161; 34; 4; 32] ++ toy_sha256 (toy_auth_data aaguid ++ toy_hash) ++ tail.
Definition toy_object (aaguid tail : bytes) : bytes :=
  match encode (CMap None
    [("fmt", CText "apple-appattest");
     ("attStmt", CMap None [("x5c", CArr [CBytes (toy_leaf aaguid tail); CBytes [9]])]);
     ("authData", CBytes (toy_auth_data aaguid))]) with Ok b => b | Err _ => [] end.
Definition toy_root : string := String (Ascii.ascii_of_nat 9) "".
Definition toy_attested (aaguid tail : bytes) : attested :=
  Attested (toy_sha256 (toy_leaf aaguid tail)) (toy_leaf aaguid tail).

Definition prod_tail : bytes := [7; 253; 232; 9].
Definition dev_tail : bytes := [25; 242; 245; 9].

Lemma attestation_sound_witness :
  exists ad leaf, genuine (toy_object AAGUID_PROD prod_tail) toy_hash "app" "production" toy_root 500
    (toy_attested AAGUID_PROD prod_tail) ad leaf.
Proof.
  apply (attestation_sound (toy_object AAGUID_PROD prod_tail) toy_hash "app" "production" toy_root 500
    (toy_attested AAGUID_PROD prod_tail)).
  vm_compute. reflexivity.
Defined.

(** The stand-in hash collides on these two challenges. *)
Lemma attestation_answers_one_challenge_witness :
  b64ToBytes "AAEA" <> b64ToBytes "AAAf" /\ exists m m' : bytes, m <> m' /\ sha256 m = sha256 m'.
Proof.
  split; [by vm_compute|].
  apply (attestation_answers_one_challenge (toy_object AAGUID_PROD prod_tail) toy_hash toy_hash "AAEA" "AAAf"
    "https://relay" [0; 1; 0] [0; 0; 31] "app" "app" "production" "production" toy_root toy_root 500 500
    (toy_attested AAGUID_PROD prod_tail) (toy_attested AAGUID_PROD prod_tail));
    solve [vm_compute; reflexivity | discriminate].
Defined.

Definition toy_authenticator : bytes := toy_sha256 (utf8 "app") ++ [0; 1; 2; 3; 4].
Definition toy_assertion : bytes :=
  let nonce := toy_sha256 (toy_authenticator ++ toy_hash) in
  match encode (CMap None
    [("signature", CBytes (der_signature (toy_sha256 (9 :: nonce)) (toy_sha256 nonce)));
     ("authenticatorData", CBytes toy_authenticator)]) with Ok b => b | Err _ => [] end.

Lemma assertion_sound_witness :
  verifyAssertion_ toy_assertion toy_hash [9] "app" = Ok 16909060
  /\ exists obj sg ad raw, decode toy_assertion = Ok obj
     /\ prop obj "signature" = Some (CBytes sg) /\ prop obj "authenticatorData" = Some (CBytes ad)
     /\ (37 <= length ad)%nat /\ derEcdsaToRaw sg 32 = Ok raw /\ length raw = 64%nat
     /\ ecdsa_import [9] = true /\ ecdsa_verify [9] raw (sha256 (ad ++ toy_hash)) = true
     /\ subarray ad 0 32 = sha256 (utf8 "app").
Proof.
  assert (E : verifyAssertion_ toy_assertion toy_hash [9] "app" = Ok 16909060) by (vm_compute; reflexivity).
  split; [exact E|]. apply (assertion_sound toy_assertion toy_hash [9] "app" 16909060 E).
Defined.
