(* ===== verification/Runtime.v ===== *)
(** The runtime's registry of rooms ([Runtime] and the lifetime part of
    [RoomContext], [host/runtime.js]): one live context per room name, pinned
    across operations, evicted when idle; the chunked alarm timer; and the
    drain scheduler's view of the rooms. *)

From S2P Require Import Prelude Bytes Crypto Transcript ShardGate RoomState Drain.

(** ** State *)

(** A [RoomContext]: its live sockets, the sockets ever wired to it, the armed
    alarm and the count of operations in flight. *)
Record context := Context {
  cname : string;
  csockets : list nat;
  cwired : list nat;
  calarm : option Z;
  cpending : Z;
}.

(** A [Runtime]: every context ever built, by creation order, and the [Map]
    from names to the registered one, in insertion order. *)
Record runtime := Runtime {
  contexts : gmap nat context;
  rooms : list (string * nat);
  closed : bool;
  next : nat;
}.

Definition new_runtime : runtime := Runtime ∅ [] false 0.

Definition set_context (id : nat) (c : context) (rt : runtime) : runtime :=
  Runtime (<[id := c]> (contexts rt)) (rooms rt) (closed rt) (next rt).

Definition on_context (id : nat) (f : context -> context) (rt : runtime) : runtime :=
  match contexts rt !! id with Some c => set_context id (f c) rt | None => rt end.

(** [this.rooms.get(roomName)] *)
Definition registered (rt : runtime) (name : string) : option nat :=
  snd <$> find (fun r => String.eqb r.1 name) (rooms rt).

(** ** Operations *)

Definition size (rt : runtime) : nat := length (rooms rt).

Definition _idle (c : context) : bool :=
  bool_decide (csockets c = []) && bool_decide (calarm c = None) && (cpending c =? 0).

(** Identity-safe: a context that lost its slot drops nothing. *)
Definition evict (id : nat) (rt : runtime) : runtime :=
  match contexts rt !! id with
  | Some c =>
      if bool_decide (registered rt (cname c) = Some id)
      then Runtime (contexts rt) (filter (fun r => r.1 <> cname c) (rooms rt)) (closed rt) (next rt)
      else rt
  | None => rt
  end.

Definition maybeEvict (id : nat) (rt : runtime) : runtime :=
  match contexts rt !! id with Some c => if _idle c then evict id rt else rt | None => rt end.

(** [get]: the registered context, or a new one with the persisted alarm
    ([init]; nothing is armed after shutdown). *)
Definition get (name : string) (persisted : option Z) (rt : runtime) : nat * runtime :=
  match registered rt name with
  | Some id => (id, rt)
  | None =>
      (next rt, Runtime (<[next rt := Context name [] [] (if closed rt then None else persisted) 0]> (contexts rt))
                  (rooms rt ++ [(name, next rt)]) (closed rt) (S (next rt)))
  end.

Definition pin (id : nat) : runtime -> runtime :=
  on_context id (fun c => Context (cname c) (csockets c) (cwired c) (calarm c) (cpending c + 1)).

Definition unpin (id : nat) (rt : runtime) : runtime :=
  maybeEvict id (on_context id (fun c => Context (cname c) (csockets c) (cwired c) (calarm c) (cpending c - 1)) rt).

Definition acceptWebSocket (id ws : nat) : runtime -> runtime :=
  on_context id (fun c => Context (cname c) (csockets c ++ [ws]) (ws :: cwired c) (calarm c) (cpending c)).

(** [this._sockets.delete(ws)] *)
Definition delete_socket (id ws : nat) : runtime -> runtime :=
  on_context id (fun c => Context (cname c) (filter (fun x => x <> ws) (csockets c)) (cwired c) (calarm c) (cpending c)).

(** The ['close'] event: off the set, and evict an idle room. *)
Definition socket_gone (id ws : nat) (rt : runtime) : runtime := maybeEvict id (delete_socket id ws rt).

Definition _reschedule (id : nat) (at_ : option Z) (rt : runtime) : runtime :=
  if closed rt then rt
  else on_context id (fun c => Context (cname c) (csockets c) (cwired c) at_ (cpending c)) rt.

(** [_fire]: the room's alarm reschedules, or not. *)
Definition _fire (id : nat) (again : option Z) (rt : runtime) : runtime :=
  if closed rt then rt else
  let rt := on_context id (fun c => Context (cname c) (csockets c) (cwired c) None (cpending c)) rt in
  let rt := match again with Some _ => _reschedule id again rt | None => rt end in
  maybeEvict id rt.

Fixpoint rehydrate (names : list (string * option Z)) (rt : runtime) : runtime :=
  match names with
  | [] => rt
  | (name, persisted) :: l => let '(id, rt) := get name persisted rt in rehydrate l (maybeEvict id rt)
  end.

Definition live_context (rt : runtime) (id : nat) : list nat :=
  match contexts rt !! id with Some c => csockets c | None => [] end.

(** Live rooms whose name hashes into the bucket. *)
Definition roomsInBucket (rt : runtime) (bucket : Z) : list string :=
  omap (fun '(name, id) =>
    if (0 <? length (live_context rt id))%nat && bool_decide (bucketForRoomName name = Some bucket)
    then Some name else None) (rooms rt).

(** Close every socket of a room together: how many there were. *)
Definition closeRoom (name : string) (rt : runtime) : nat * runtime :=
  match registered rt name with
  | None => (0%nat, rt)
  | Some id =>
      let sockets := live_context rt id in
      (length sockets, fold_left (fun rt ws => delete_socket id ws rt) sockets rt)
  end.

Definition shutdown (rt : runtime) : runtime := Runtime (contexts rt) [] true (next rt).

(** Slot occupancy over the registered rooms. *)
Record occupancy_counts := Occupancy { both : Z; mac_only : Z; phone_only : Z; neither : Z }.

Definition slot (att : nat -> option attachment) (r : role) (l : list nat) : bool :=
  existsb (fun ws => match att ws with
                     | Some a => bool_decide (state a = SAdmitted) && bool_decide (srole a = Some r)
                     | None => false end) l.

(** One room's turn in the loop. *)
Definition count_room (att : nat -> option attachment) (rt : runtime) (o : occupancy_counts) (r : string * nat) :
    occupancy_counts :=
  let l := live_context rt r.2 in
  match slot att mac l, slot att phone l with
  | true, true => Occupancy (both o + 1) (mac_only o) (phone_only o) (neither o)
  | true, false => Occupancy (both o) (mac_only o + 1) (phone_only o) (neither o)
  | false, true => Occupancy (both o) (mac_only o) (phone_only o + 1) (neither o)
  | false, false => Occupancy (both o) (mac_only o) (phone_only o) (neither o + 1)
  end.

Definition occupancy (att : nat -> option attachment) (rt : runtime) : occupancy_counts :=
  fold_left (count_room att rt) (rooms rt) (Occupancy 0 0 0 0).

(** *** The chunked timer *)

Definition MAX_DELAY : Z := 2 ^ 31 - 1.

(** [_armTimer] against a clock that wakes [late] milliseconds after each
    delay asked for: the delays asked, and when the alarm fires. *)
Fixpoint _armTimer (fuel : nat) (now alarmAt : Z) (late : nat -> Z) : option (list Z * Z) :=
  match fuel with
  | O => None
  | S f =>
      let remaining := alarmAt - now in
      if remaining <=? 0 then Some ([], now)
      else
        let delay := Z.min remaining MAX_DELAY in
        '(l, t) ← _armTimer f (now + delay + late f) alarmAt late;
        Some (delay :: l, t)
  end.

(** ** The host's events *)

(** An operation begins on a room ([await runtime.get(room); ctx.pin()], with
    no real suspension between), ends, accepts its socket, sets an alarm; a
    frame arrives on a live socket or, after the server closed it, a late one
    on a socket still closing; a handler closes a socket; a socket is gone; an
    alarm fires; the host shuts down. *)
Inductive revent : Type :=
| RBegin (name : string) (persisted : option Z)
| REnd (id : nat)
| RAccept (id ws : nat)
| RSetAlarm (id : nat) (at_ : option Z)
| RFrame (id ws : nat)
| RLateFrame (id ws : nat)
| RClose (id ws : nat)
| RGone (id ws : nat)
| RFire (id : nat) (again : option Z)
| RShutdown.

Definition rstep (e : revent) (rt : runtime) : option runtime :=
  match e with
  | RBegin name persisted => let '(id, rt) := get name persisted rt in Some (pin id rt)
  | REnd id =>
      c ← contexts rt !! id; if 0 <? cpending c then Some (unpin id rt) else None
  | RAccept id ws =>
      c ← contexts rt !! id;
      if (0 <? cpending c) && negb (bool_decide (ws ∈ cwired c)) then Some (acceptWebSocket id ws rt) else None
  | RSetAlarm id at_ =>
      c ← contexts rt !! id; if 0 <? cpending c then Some (_reschedule id at_ rt) else None
  | RFrame id ws => c ← contexts rt !! id; if decide (ws ∈ csockets c) then Some (pin id rt) else None
  | RLateFrame id ws =>
      c ← contexts rt !! id;
      if bool_decide (ws ∈ cwired c) && negb (bool_decide (ws ∈ csockets c)) then Some (pin id rt) else None
  | RClose id ws => Some (delete_socket id ws rt)
  | RGone id ws => Some (socket_gone id ws rt)
  | RFire id again =>
      c ← contexts rt !! id;
      match calarm c with Some _ => Some (_fire id again rt) | None => None end
  | RShutdown => Some (shutdown rt)
  end.

Fixpoint rrun (l : list revent) (rt : runtime) : option runtime :=
  match l with [] => Some rt | e :: l' => rt' ← rstep e rt; rrun l' rt' end.

(** ** The registry invariant *)

(** Every context that holds anything is the registered one of its name. *)
Record registry_ok (rt : runtime) : Prop := {
  reg_names : NoDup (map fst (rooms rt));
  reg_contexts : forall name id, (name, id) ∈ rooms rt -> exists c, contexts rt !! id = Some c /\ cname c = name;
  reg_live : forall id c, contexts rt !! id = Some c -> _idle c = false -> closed rt = false ->
    registered rt (cname c) = Some id;
  reg_next : forall id c, contexts rt !! id = Some c -> (id < next rt)%nat;
}.

Lemma registered_In rt name id : registered rt name = Some id -> (name, id) ∈ rooms rt.
Proof.
  unfold registered. destruct (find _ (rooms rt)) as [[n i]|] eqn:E; [|done]. simpl. intros [= <-].
  apply find_some in E as [Hin Heq]. apply String.eqb_eq in Heq. simpl in Heq. subst. by apply list_elem_of_In.
Qed.

Lemma In_registered rt name id : NoDup (map fst (rooms rt)) -> (name, id) ∈ rooms rt -> registered rt name = Some id.
Proof.
  unfold registered. induction (rooms rt) as [|[n i] l IH]; intros Hn Hin; [by apply not_elem_of_nil in Hin|].
  apply NoDup_cons in Hn as [Hni Hn]. simpl. apply elem_of_cons in Hin as [[= -> ->]|Hin].
  - by rewrite String.eqb_refl.
  - destruct (String.eqb_spec n name) as [->|]; [|by apply IH].
    exfalso. apply Hni. apply list_elem_of_fmap. by exists (name, id).
Qed.

Lemma on_context_ok id f rt c :
  registry_ok rt -> contexts rt !! id = Some c -> cname (f c) = cname c ->
  (_idle (f c) = false -> closed rt = false -> registered rt (cname c) = Some id) ->
  registry_ok (on_context id f rt).
Proof.
  intros [Hn Hc Hl Hx] Ec Hname Hf. unfold on_context. rewrite Ec. unfold set_context. split; simpl; [done|..].
  - intros name i Hin. destruct (Hc name i Hin) as (c' & E & Hc'). destruct (decide (id = i)) as [<-|].
    + rewrite lookup_insert_eq. exists (f c). split; [done|]. congruence.
    + rewrite lookup_insert_ne by done. by exists c'.
  - intros i c'. destruct (decide (id = i)) as [<-|].
    + rewrite lookup_insert_eq. intros [= <-] Hi Hcl. rewrite Hname. by apply Hf.
    + rewrite lookup_insert_ne by done. intros E Hi Hcl. by apply Hl.
  - intros i c'. destruct (decide (id = i)) as [<-|]; [intros _; by eapply Hx|].
    rewrite lookup_insert_ne by done. apply Hx.
Qed.

(** A change that leaves an idle context idle. *)
Lemma on_context_live id f rt :
  registry_ok rt -> (forall c, contexts rt !! id = Some c -> cname (f c) = cname c /\ (_idle (f c) = false -> _idle c = false)) ->
  registry_ok (on_context id f rt).
Proof.
  intros Hok Hf. destruct (contexts rt !! id) as [c|] eqn:Ec; [|by unfold on_context; rewrite Ec].
  destruct (Hf c eq_refl) as [Hname Hidle]. eapply on_context_ok; eauto.
  intros Hi Hcl. apply (reg_live rt Hok); auto.
Qed.

Lemma maybeEvict_ok id rt : registry_ok rt -> registry_ok (maybeEvict id rt).
Proof.
  intros Hok. unfold maybeEvict, evict. destruct (contexts rt !! id) as [c|] eqn:Ec; [|done].
  destruct (_idle c) eqn:Ei; [|done]. destruct (bool_decide _) eqn:Er; [|done]. apply bool_decide_eq_true in Er.
  destruct Hok as [Hn Hc Hl Hx].
  assert (Hn' : NoDup (map fst (filter (fun r => r.1 <> cname c) (rooms rt)))).
  { eapply sublist_NoDup; [exact Hn|]. apply (fmap_sublist fst), sublist_filter. }
  split; simpl; [done| | |done].
  - intros name i Hin. apply list_elem_of_filter in Hin as [_ Hin]. by apply Hc.
  - intros i c' E Hi Hcl. apply In_registered; [done|]. simpl. apply list_elem_of_filter.
    assert (Hr : registered rt (cname c') = Some i) by by apply Hl. split; [|by apply registered_In].
    simpl. intros Heq. rewrite Heq in Hr. rewrite Er in Hr. injection Hr as <-. congruence.
Qed.

Lemma get_ok name p rt :
  registry_ok rt ->
  registry_ok (get name p rt).2 /\ exists c, contexts (get name p rt).2 !! (get name p rt).1 = Some c
    /\ cname c = name /\ registered (get name p rt).2 name = Some (get name p rt).1.
Proof.
  intros Hok. unfold get. destruct (registered rt name) as [id|] eqn:Er; simpl.
  - split; [done|]. destruct (reg_contexts rt Hok name id (registered_In _ _ _ Er)) as (c & E & Hc). by exists c.
  - destruct Hok as [Hn Hc Hl Hx].
    assert (Hfresh : contexts rt !! next rt = None).
    { destruct (contexts rt !! next rt) eqn:E; [|done]. apply Hx in E. lia. }
    assert (Hnames : NoDup (map fst (rooms rt ++ [(name, next rt)]))).
    { rewrite map_app. apply NoDup_app. split_and!; [done| |apply NoDup_singleton].
      intros n Hin Hin'. simpl in Hin'. apply list_elem_of_singleton in Hin' as ->.
      apply list_elem_of_fmap in Hin as ([n i] & -> & Hin). simpl in Er.
      rewrite (In_registered _ _ _ Hn Hin) in Er. done. }
    set (rt' := Runtime _ _ _ _).
    assert (Hnew : registered rt' name = Some (next rt)).
    { apply In_registered; [done|]. simpl. apply elem_of_app. right. by left. }
    split; [split; simpl; [done|..]|].
    + intros n i Hin. apply elem_of_app in Hin as [Hin|Hin].
      * destruct (Hc n i Hin) as (c & E & Hcn). exists c. split; [|done]. rewrite lookup_insert_ne; [done|]. intros <-. congruence.
      * apply list_elem_of_singleton in Hin as [= -> ->]. rewrite lookup_insert_eq. by eexists.
    + intros i c. destruct (decide (next rt = i)) as [<-|]; [rewrite lookup_insert_eq; by intros [= <-]|].
      rewrite lookup_insert_ne by done. intros E Hi Hcl. apply In_registered; [done|]. simpl. apply elem_of_app. left.
      by apply registered_In, Hl.
    + intros i c. destruct (decide (next rt = i)) as [<-|]; [lia|]. rewrite lookup_insert_ne by done. intros E%Hx. lia.
    + eexists. simpl. rewrite lookup_insert_eq. by split_and!.
Qed.

Lemma sockets_busy c ws : ws ∈ csockets c -> _idle c = false.
Proof. unfold _idle. destruct (csockets c); [by intros ?%not_elem_of_nil|done]. Qed.

Lemma pending_busy c : 0 < cpending c -> _idle c = false.
Proof. intros Hp. unfold _idle. rewrite (proj2 (Z.eqb_neq _ _)) by lia. by rewrite andb_false_r. Qed.

Lemma delete_socket_ok id ws rt : registry_ok rt -> registry_ok (delete_socket id ws rt).
Proof.
  intros Hok. apply on_context_live; [done|]. intros c _. split; [done|]. unfold _idle. simpl.
  destruct (csockets c) as [|x l]; [done|]. intros _. done.
Qed.

(** Whatever a fired alarm reschedules, the registered context is the one. *)
Lemma fire_ok id again rt c :
  registry_ok rt -> contexts rt !! id = Some c -> calarm c <> None -> registry_ok (_fire id again rt).
Proof.
  intros Hok Ec Ha. unfold _fire. destruct (closed rt) eqn:Ecl; [done|]. apply maybeEvict_ok.
  assert (Hbusy : _idle c = false).
  { unfold _idle. rewrite (bool_decide_eq_false_2 (calarm c = None)) by done. by rewrite andb_false_r. }
  assert (Hreg : registered rt (cname c) = Some id) by by apply (reg_live rt Hok).
  assert (H1 : registry_ok (on_context id (fun c => Context (cname c) (csockets c) (cwired c) None (cpending c)) rt)).
  { eapply on_context_ok; eauto. }
  destruct again as [t|]; [|done]. unfold _reschedule.
  assert (Hc1 : contexts (on_context id (fun c => Context (cname c) (csockets c) (cwired c) None (cpending c)) rt) !! id
                = Some (Context (cname c) (csockets c) (cwired c) None (cpending c))).
  { unfold on_context. rewrite Ec. simpl. by rewrite lookup_insert_eq. }
  match goal with |- registry_ok (if ?b then _ else _) => destruct b end; [done|].
  eapply on_context_ok; [done|exact Hc1|done|].
  intros _ _. simpl. unfold registered, on_context. rewrite Ec. exact Hreg.
Qed.

(** No frame is delivered to a socket the server has closed. *)
Definition not_late (e : revent) : Prop := match e with RLateFrame _ _ => False | _ => True end.

Lemma rstep_ok e rt rt' : not_late e -> rstep e rt = Some rt' -> registry_ok rt -> registry_ok rt'.
Proof.
  intros He E Hok. destruct e as [name p|id|id ws|id at_|id ws|id ws|id ws|id ws|id again|]; simpl in E, He; try done.
  - pose proof (get_ok name p rt Hok) as (Hok' & c & Ec & Hn & Hr). destruct (get name p rt) as [id rt1]. simpl in *.
    injection E as <-. eapply on_context_ok; eauto. intros _ _. by rewrite Hn.
  - destruct (contexts rt !! id) as [c|] eqn:Ec; [|done]. simpl in E. destruct (0 <? cpending c) eqn:Ep; [|done].
    injection E as <-. apply maybeEvict_ok, on_context_live; [done|]. intros c' Ec'. split; [done|]. intros _.
    rewrite Ec in Ec'. injection Ec' as <-. by apply pending_busy, Z.ltb_lt.
  - destruct (contexts rt !! id) as [c|] eqn:Ec; [|done]. simpl in E. destruct (_ && _) eqn:Ep; [|done].
    apply andb_true_iff in Ep as [Ep _]. injection E as <-. apply on_context_live; [done|]. intros c' Ec'. split; [done|].
    intros _. rewrite Ec in Ec'. injection Ec' as <-. by apply pending_busy, Z.ltb_lt.
  - destruct (contexts rt !! id) as [c|] eqn:Ec; [|done]. simpl in E. destruct (0 <? cpending c) eqn:Ep; [|done].
    injection E as <-. unfold _reschedule. destruct (closed rt); [done|]. apply on_context_live; [done|].
    intros c' Ec'. split; [done|]. intros _. rewrite Ec in Ec'. injection Ec' as <-. by apply pending_busy, Z.ltb_lt.
  - destruct (contexts rt !! id) as [c|] eqn:Ec; [|done]. simpl in E. destruct (decide (ws ∈ csockets c)) as [Hin|]; [|done].
    injection E as <-. apply on_context_live; [done|]. intros c' Ec'. split; [done|]. intros _.
    rewrite Ec in Ec'. injection Ec' as <-. by eapply sockets_busy.
  - injection E as <-. by apply delete_socket_ok.
  - injection E as <-. by apply maybeEvict_ok, delete_socket_ok.
  - destruct (contexts rt !! id) as [c|] eqn:Ec; [|done]. simpl in E. destruct (calarm c) eqn:Ea; [|done].
    injection E as <-. eapply fire_ok; [done|exact Ec|congruence].
  - injection E as <-. destruct Hok as [Hn Hc Hl Hx]. split; simpl; [apply NoDup_nil_2| |done|done].
    intros name id Hin. by apply not_elem_of_nil in Hin.
Qed.

Lemma rrun_ok l : forall rt rt', Forall not_late l -> rrun l rt = Some rt' -> registry_ok rt -> registry_ok rt'.
Proof.
  induction l as [|e l IH]; simpl; intros rt rt' Hl E Hok; [congruence|].
  apply Forall_cons in Hl as [He Hl]. destruct (rstep e rt) as [rt1|] eqn:E1; [|done]. simpl in E.
  eapply IH; [done|exact E|]. by eapply rstep_ok.
Qed.

Lemma new_runtime_ok : registry_ok new_runtime.
Proof. split; simpl; [apply NoDup_nil_2| |done|done]. intros ? ? ?%not_elem_of_nil. done. Qed.

(** ** The scheduler's rooms *)

(** The bucket the scheduler knows a room by. *)
Definition bucket_of (name : string) : Z := default (-1) (bucketForRoomName name).

#[export] Instance runtime_rooms : Rooms runtime := {|
  liveRooms := roomsInBucket;
  Drain.evict rt name := (closeRoom name rt).2;
|}.

Lemma roomsInBucket_spec rt b name :
  name ∈ roomsInBucket rt b <->
  exists id, (name, id) ∈ rooms rt /\ live_context rt id <> [] /\ bucketForRoomName name = Some b.
Proof.
  unfold roomsInBucket. rewrite list_elem_of_omap. split.
  - intros ([n id] & Hin & E). destruct (_ && _) eqn:Eb; [|done]. injection E as ->.
    apply andb_true_iff in Eb as [Hl Hb]. apply bool_decide_eq_true in Hb. exists id. split_and!; try done.
    intros Hnil. by rewrite Hnil in Hl.
  - intros (id & Hin & Hl & Hb). exists (name, id). split; [done|]. rewrite bool_decide_eq_true_2 by done.
    destruct (live_context rt id); [done|]. done.
Qed.

#[export] Instance runtime_rooms_laws : RoomsLaws runtime bucket_of.
Proof.
  intros rt b name Hin. apply roomsInBucket_spec in Hin as (id & _ & _ & Hb). unfold bucket_of. by rewrite Hb.
Qed.

Lemma delete_socket_live id ws rt i :
  live_context (delete_socket id ws rt) i
  = if decide (id = i) then filter (fun x => x <> ws) (live_context rt i) else live_context rt i.
Proof.
  unfold live_context, delete_socket, on_context, set_context. destruct (contexts rt !! id) as [c|] eqn:E; simpl.
  - destruct (decide (id = i)) as [<-|]; [by rewrite lookup_insert_eq, E|by rewrite lookup_insert_ne].
  - destruct (decide (id = i)) as [<-|]; [by rewrite E|done].
Qed.

Lemma delete_socket_rooms id ws rt : rooms (delete_socket id ws rt) = rooms rt.
Proof. unfold delete_socket, on_context. by destruct (contexts rt !! id). Qed.

Lemma close_all_live id l : forall rt i,
  rooms (fold_left (fun rt ws => delete_socket id ws rt) l rt) = rooms rt
  /\ live_context (fold_left (fun rt ws => delete_socket id ws rt) l rt) i
     = if decide (id = i) then filter (fun x => x ∉ l) (live_context rt i) else live_context rt i.
Proof.
  induction l as [|ws l IH]; intros rt i; simpl.
  - split; [done|]. destruct (decide (id = i)); [|done]. symmetry.
    induction (live_context rt i) as [|x k IHk]; [done|]. rewrite filter_cons_True by apply not_elem_of_nil. by f_equal.
  - destruct (IH (delete_socket id ws rt) i) as [-> ->]. rewrite delete_socket_rooms, delete_socket_live. split; [done|].
    destruct (decide (id = i)); [|done]. rewrite list_filter_filter. apply list_filter_iff. intros x.
    rewrite not_elem_of_cons. tauto.
Qed.

(** Closing a room closes its live sockets and takes it off its bucket's list. *)
Lemma closeRoom_spec (rt : runtime) (name : string) (b : Z) :
  registry_ok rt ->
  (closeRoom name rt).1 = match registered rt name with Some id => length (live_context rt id) | None => 0%nat end
  /\ forall name', name' ∈ roomsInBucket (closeRoom name rt).2 b <-> name' ∈ roomsInBucket rt b /\ name' <> name.
Proof.
  intros Hok. unfold closeRoom.
  destruct (registered rt name) as [id|] eqn:Er; cbn [fst snd].
  - split; [done|]. intros name'. rewrite !roomsInBucket_spec.
    destruct (close_all_live id (live_context rt id) rt id) as [Hr _]. rewrite Hr.
    assert (Hlive : forall i, live_context (fold_left (fun rt ws => delete_socket id ws rt) (live_context rt id) rt) i
      = if decide (id = i) then [] else live_context rt i).
    { intros i. destruct (close_all_live id (live_context rt id) rt i) as [_ ->]. destruct (decide (id = i)) as [<-|]; [|done].
      destruct (filter _ (live_context rt id)) as [|x k] eqn:Ef; [done|]. exfalso.
      assert (Hx : x ∈ x :: k) by by left. rewrite <-Ef in Hx. apply list_elem_of_filter in Hx as [Hn Hx]. by apply Hn. }
    split.
    + intros (i & Hin & Hne & Hb). rewrite Hlive in Hne. destruct (decide (id = i)) as [<-|Hi]; [done|].
      split; [by exists i|]. intros ->. apply (In_registered rt) in Hin; [congruence|apply (reg_names rt Hok)].
    + intros [(i & Hin & Hne & Hb) Hn]. exists i. rewrite Hlive. destruct (decide (id = i)) as [<-|]; [|done].
      exfalso. apply Hn. apply registered_In in Er.
      destruct (reg_contexts rt Hok _ _ Hin) as (c & Ec & <-), (reg_contexts rt Hok _ _ Er) as (c' & Ec' & <-). congruence.
  - split; [done|]. intros name'. split; [|tauto]. intros Hin. split; [done|]. intros ->.
    apply roomsInBucket_spec in Hin as (i & Hin & _). apply (In_registered rt) in Hin; [congruence|apply (reg_names rt Hok)].
Qed.

(** ** Properties *)

(** C12: one live context per room: whatever the order of requests, upgrades,
    frames, closes, alarms and evictions, two contexts of the same name never
    both hold a socket, an armed alarm or an operation in flight, so long as no
    frame arrives on a socket the server has already closed. *)
Theorem single_live_context (l : list revent) (rt : runtime) (id1 id2 : nat) (c1 c2 : context) :
  rrun l new_runtime = Some rt -> Forall not_late l -> closed rt = false ->
  contexts rt !! id1 = Some c1 -> contexts rt !! id2 = Some c2 -> cname c1 = cname c2 ->
  _idle c1 = false -> _idle c2 = false -> id1 = id2.
Proof.
  intros E Hl Hcl E1 E2 Hn H1 H2. pose proof (rrun_ok l _ _ Hl E new_runtime_ok) as Hok.
  pose proof (reg_live rt Hok id1 c1 E1 H1 Hcl) as R1. pose proof (reg_live rt Hok id2 c2 E2 H2 Hcl) as R2.
  rewrite Hn in R1. congruence.
Qed.

(** Without that proviso it fails: a frame that arrives while its socket is
    still closing runs on the context it was wired to, pinning it again after
    its eviction, beside the context a new connection has built. *)
Theorem late_frame_splits_brain :
  exists rt c1 c2,
    rrun [RBegin "r" None; RAccept 0 1; REnd 0; RFrame 0 1; RClose 0 1; REnd 0;
          RBegin "r" None; RAccept 1 2; RLateFrame 0 1; RSetAlarm 0 (Some 15000)] new_runtime = Some rt
    /\ contexts rt !! 0%nat = Some c1 /\ contexts rt !! 1%nat = Some c2 /\ cname c1 = cname c2
    /\ cpending c1 = 1 /\ calarm c1 = Some 15000 /\ cpending c2 = 1 /\ registered rt "r" = Some 1%nat.
Proof. eexists _, _, _. vm_compute. split_and!; reflexivity. Qed.

(** Closing a room for the drain closes exactly its live sockets, reports
    how many, and takes the room off its bucket's list and nobody else off
    theirs. *)
Theorem closeRoom_drains (l : list revent) (rt : runtime) (name : string) (b : Z) :
  rrun l new_runtime = Some rt -> Forall not_late l ->
  let '(n, rt') := closeRoom name rt in
  n = match registered rt name with Some id => length (live_context rt id) | None => 0%nat end
  /\ forall name', name' ∈ roomsInBucket rt' b <-> name' ∈ roomsInBucket rt b /\ name' <> name.
Proof.
  intros E Hl. pose proof (rrun_ok l _ _ Hl E new_runtime_ok) as Hok. pose proof (closeRoom_spec rt name b Hok) as H.
  by destruct (closeRoom name rt).
Qed.

(** The chunked timer: for any alarm time and any lateness of the clock, it
    fires, never before the alarm is due; every delay it asks for is positive
    and fits in 31 bits; and it takes at most one hop per 2^31 - 1
    milliseconds, and one more. *)
Theorem armTimer_fires (now alarmAt : Z) (late : nat -> Z) (fuel : nat) :
  (forall n, 0 <= late n) -> alarmAt - now <= Z.of_nat fuel * MAX_DELAY ->
  exists delays t, _armTimer (S fuel) now alarmAt late = Some (delays, t)
    /\ alarmAt <= t /\ Forall (fun d => 0 < d < 2 ^ 31) delays /\ (length delays <= fuel)%nat.
Proof.
  intros Hlate. revert now. induction fuel as [|f IH]; intros now Hf.
  - exists [], now. cbn [_armTimer]. rewrite (proj2 (Z.leb_le _ _)) by lia. split_and!; try done. lia.
  - cbn [_armTimer]. destruct (Z.leb_spec (alarmAt - now) 0) as [Hz|Hz].
    + exists [], now. split_and!; try done; simpl; lia.
    + destruct (IH (now + Z.min (alarmAt - now) MAX_DELAY + late (S f))) as (l & t & E & Ht & Hl & Hn).
      { specialize (Hlate (S f)). unfold MAX_DELAY in *. lia. }
      cbn [_armTimer] in E. rewrite E. exists (Z.min (alarmAt - now) MAX_DELAY :: l), t. split_and!; try done.
      * constructor; [|done]. unfold MAX_DELAY. lia.
      * simpl. lia.
Qed.

(** The occupancy counts split the resident rooms: they are non-negative and add
    up to the registry's size. *)
Lemma occupancy_adds_up (att : nat -> option attachment) (rt : runtime) :
  let o := occupancy att rt in
  0 <= both o /\ 0 <= mac_only o /\ 0 <= phone_only o /\ 0 <= neither o
  /\ both o + mac_only o + phone_only o + neither o = Z.of_nat (size rt).
Proof.
  cbv zeta. unfold occupancy, size.
  set (sum o := both o + mac_only o + phone_only o + neither o).
  set (ok o := 0 <= both o /\ 0 <= mac_only o /\ 0 <= phone_only o /\ 0 <= neither o).
  assert (Hstep : forall o r, ok o -> ok (count_room att rt o r) /\ sum (count_room att rt o r) = sum o + 1).
  { intros o r (? & ? & ? & ?). unfold ok, sum, count_room. cbv zeta.
    destruct (slot att mac _), (slot att phone _); simpl; lia. }
  assert (Hg : forall l o, ok o -> ok (fold_left (count_room att rt) l o)
    /\ sum (fold_left (count_room att rt) l o) = sum o + Z.of_nat (length l)).
  { induction l as [|r l IH]; intros o Ho; [split; [done|simpl; lia]|]. destruct (Hstep o r Ho) as [Ho' Hs].
    cbn [fold_left]. destruct (IH _ Ho') as [H1 H2]. split; [done|]. rewrite H2, Hs. simpl length. lia. }
  destruct (Hg (rooms rt) (Occupancy 0 0 0 0)) as [(? & ? & ? & ?) Hs]; [done|]. split_and!; try done.
Qed.

(** ** Witnesses *)

Definition two_rooms : list revent :=
  [RBegin (String.concat "" (repeat "0" 64)) None; RAccept 0 1; RAccept 0 2; REnd 0;
   RBegin (String.concat "" (repeat "1" 64)) (Some 5); RAccept 1 3; REnd 1].

Lemma single_live_context_witness :
  exists rt c, rrun two_rooms new_runtime = Some rt /\ contexts rt !! 0%nat = Some c /\ _idle c = false
    /\ forall id c', contexts rt !! id = Some c' -> cname c' = cname c -> _idle c' = false -> id = 0%nat.
Proof.
  destruct (rrun two_rooms new_runtime) as [rt|] eqn:E; [|by vm_compute in E].
  destruct (contexts rt !! 0%nat) as [c|] eqn:Ec; [|vm_compute in E; injection E as <-; by vm_compute in Ec].
  assert (Hi : _idle c = false).
  { vm_compute in E. injection E as <-. vm_compute in Ec. injection Ec as <-. by vm_compute. }
  exists rt, c. split; [done|]. split; [exact Ec|]. split; [exact Hi|]. intros id c' Ec' Hn Hi'.
  apply (single_live_context two_rooms rt id 0 c' c E); try done.
  - repeat constructor.
  - vm_compute in E. by injection E as <-.
Defined.

Lemma closeRoom_drains_witness :
  exists rt, rrun two_rooms new_runtime = Some rt
    /\ let '(n, rt') := closeRoom (String.concat "" (repeat "0" 64)) rt in
       n = 2%nat /\ (String.concat "" (repeat "0" 64) ∉ roomsInBucket rt' 0).
Proof.
  destruct (rrun two_rooms new_runtime) as [rt|] eqn:E; [|by vm_compute in E]. exists rt. split; [done|].
  pose proof (closeRoom_drains two_rooms rt (String.concat "" (repeat "0" 64)) 0 E ltac:(repeat constructor)) as Hd.
  destruct (closeRoom _ rt) as [n rt']. destruct Hd as [Hn Hr]. split.
  - rewrite Hn. vm_compute in E. injection E as <-. by vm_compute.
  - rewrite Hr. by intros [_ ?].
Defined.

Lemma armTimer_fires_witness :
  exists delays t, _armTimer 3 0 (30 * 24 * 60 * 60 * 1000) (fun _ => 7) = Some (delays, t)
    /\ 30 * 24 * 60 * 60 * 1000 <= t /\ Forall (fun d => 0 < d < 2 ^ 31) delays /\ (length delays <= 2)%nat.
Proof. apply (armTimer_fires 0 (30 * 24 * 60 * 60 * 1000) (fun _ => 7) 2); [lia|unfold MAX_DELAY; lia]. Defined.
