(* ===== verification/Host.v ===== *)
(** The host's doorway ([host/server.js]): the client address, the per-address
    rate limiters, and the gates and counters of a WebSocket upgrade. *)

From Stdlib Require Import Ascii.
From S2P Require Import Prelude ShardGate RoomState Room.

(** ** Client address *)

(** [String.prototype.trim] on a header value: its characters are at most
    U+00FF, so blanks are the ASCII ones and U+00A0 (bytes C2 A0). *)
Definition ascii_blank (c : ascii) : bool :=
  let n := nat_of_ascii c in ((9 <=? n)%nat && (n <=? 13)%nat) || (n =? 32)%nat.

Fixpoint trim_left (l : list ascii) : list ascii :=
  match l with
  | c :: l' =>
      if ascii_blank c then trim_left l'
      else if (nat_of_ascii c =? 194)%nat then
        match l' with
        | c' :: l'' => if (nat_of_ascii c' =? 160)%nat then trim_left l'' else l
        | [] => l
        end
      else l
  | [] => []
  end.

Fixpoint trim_right (l : list ascii) : list ascii :=
  match l with
  | c :: l' =>
      match trim_right l' with
      | [] => if ascii_blank c then [] else [c]
      | [c'] => if (nat_of_ascii c =? 194)%nat && (nat_of_ascii c' =? 160)%nat then [] else [c; c']
      | r => c :: r
      end
  | [] => []
  end.

Definition trim (s : string) : string :=
  String.string_of_list_ascii (trim_right (trim_left (String.list_ascii_of_string s))).

(** [s.split(",")] *)
Fixpoint split_comma (s : string) : list string :=
  match s with
  | EmptyString => [EmptyString]
  | String c s' =>
      if Ascii.eqb c "," then EmptyString :: split_comma s'
      else match split_comma s' with
           | p :: ps => String c p :: ps
           | [] => [String c EmptyString]
           end
  end.

(** [xff.split(",").map((s) => s.trim()).filter(Boolean)] *)
Definition hops (xff : string) : list string :=
  filter (fun p => p <> EmptyString) (map trim (split_comma xff)).

Record proxy_config := ProxyConfig { trustProxy : bool; trustCloudflare : bool; trustedHops : Z }.

(** [parts[parts.length - trustedHops]], or the last; [None] for [undefined]. *)
Definition nth_from_right (parts : list string) (n : Z) : option string :=
  let idx := Z.of_nat (length parts) - n in
  if 0 <=? idx then parts !! Z.to_nat idx else last parts.

Definition clientIp (h : headers) (remoteAddress : option string) (cfg : proxy_config) : option string :=
  let direct := match remoteAddress with Some (String _ _) => remoteAddress | _ => Some "unknown" end in
  let forwarded :=
    if trustProxy cfg || trustCloudflare cfg then
      match hget h "x-forwarded-for" with
      | Some (String _ _ as xff) =>
          match hops xff with [] => direct | parts => nth_from_right parts (trustedHops cfg) end
      | _ => direct
      end
    else direct in
  if trustCloudflare cfg then
    match hget h "cf-connecting-ip" with
    | Some (String _ _ as cf) => Some (trim cf)
    | _ => forwarded
    end
  else forwarded.

(** ** Limiters *)

(** The [Map] of windows, in insertion order. *)
Abbreviation buckets := (list (string * window)).

Definition bucket_get (l : buckets) (key : string) : option window :=
  snd <$> find (fun b => String.eqb b.1 key) l.

(** [Map.set]: a present key keeps its place. *)
Fixpoint bucket_set (key : string) (w : window) (l : buckets) : buckets :=
  match l with
  | [] => [(key, w)]
  | (k, v) :: l' => if String.eqb k key then (k, w) :: l' else (k, v) :: bucket_set key w l'
  end.

(** The window after this call; a key not seen starts one. *)
Definition count_call (w : option window) (windowMs now : Z) : window :=
  match w with Some w => bump_window w windowMs now | None => Window now 1 end.

(** [over(key)]: whether the call is over the limit, and the map after it. *)
Definition over (limit windowMs : Z) (maxKeys : nat) (now : Z) (key : string) (l : buckets) : bool * buckets :=
  let b := count_call (bucket_get l key) windowMs now in
  let l1 := bucket_set key b l in
  let l2 :=
    if (maxKeys <? length l1)%nat then
      let swept := filter (fun kv => now - wstart kv.2 <= windowMs) l1 in
      drop (length swept - maxKeys) swept
    else l1 in
  (limit <? wcount b, l2).

(** ** Upgrades *)

Record host := Host {
  totalSockets : Z;
  ipSockets : gmap string Z;
  wsBuckets : option buckets;      (* None: no limiter configured *)
}.

Record host_config := HostConfig {
  wsLimit : Z * Z;                  (* limit, windowMs *)
  maxKeys : nat;
  maxSocketsPerIp : Z;
  maxTotalSockets : Z;
  maxRooms : Z;
}.

Inductive verdict : Type :=
| Rejected (status : Z) (reason : string)   (* counted by reason *)
| Misdirected (status : Z)
| Upgraded.

Definition wsOver (cfg : host_config) (now : Z) (ip : string) (h : host) : bool * host :=
  match wsBuckets h with
  | None => (false, h)
  | Some l =>
      let '(o, l') := over (wsLimit cfg).1 (wsLimit cfg).2 (maxKeys cfg) now ip l in
      (o, Host (totalSockets h) (ipSockets h) (Some l'))
  end.

Definition sockets_of (h : host) (ip : string) : Z := default 0 (ipSockets h !! ip).

(** [handleUpgrade], up to the handshake: the gates in their order.  [gate] is
    the ownership decision, [has_room] and [size] the registry's answers. *)
Definition handleUpgrade (cfg : host_config) (now : Z) (hdrs : headers) (ip : string)
    (gate : string -> decision) (has_room : string -> bool) (size : Z) (h : host) : verdict * host :=
  match entryReject hdrs with
  | Some rej => (Rejected (status rej) "gate", h)
  | None =>
      let room := default "" (hget hdrs ROOM_HEADER) in
      match gate room with
      | Refuse s _ _ => (Misdirected s, h)
      | Admit _ =>
          let '(limited, h) := wsOver cfg now ip h in
          if limited then (Rejected 429 "rate_limited", h)
          else if maxSocketsPerIp cfg <=? sockets_of h ip then (Rejected 429 "ip_cap", h)
          else if maxTotalSockets cfg <=? totalSockets h then (Rejected 503 "total_cap", h)
          else if negb (has_room room) && (maxRooms cfg <=? size) then (Rejected 503 "room_cap", h)
          else (Upgraded, h)
      end
  end.

(** The handshake's callback counts the socket, its ['close'] uncounts it. *)
Definition opened (ip : string) (h : host) : host :=
  Host (totalSockets h + 1) (<[ip := sockets_of h ip + 1]> (ipSockets h)) (wsBuckets h).

Definition gone (ip : string) (h : host) : host :=
  let n := default 1 (ipSockets h !! ip) - 1 in
  Host (totalSockets h - 1) (if n <=? 0 then delete ip (ipSockets h) else <[ip := n]> (ipSockets h)) (wsBuckets h).

(** A socket's life, as the host counts it: the handshakes under way and the
    open sockets, by address. *)
Record door := Door { counters : host; handshakes : list string; open_sockets : list string }.

Inductive door_event : Type :=
| DUpgrade (now : Z) (hdrs : headers) (ip : string) (gate : string -> decision) (has_room : string -> bool) (size : Z)
| DOpened (i : nat)      (* a handshake completes *)
| DAborted (i : nat)     (* a handshake fails *)
| DGone (i : nat).       (* an open socket closes *)

Definition door_step (cfg : host_config) (e : door_event) (d : door) : option door :=
  match e with
  | DUpgrade now hdrs ip gate has_room size =>
      let '(v, h) := handleUpgrade cfg now hdrs ip gate has_room size (counters d) in
      Some (Door h (match v with Upgraded => handshakes d ++ [ip] | _ => handshakes d end) (open_sockets d))
  | DOpened i =>
      ip ← handshakes d !! i;
      Some (Door (opened ip (counters d)) (delete i (handshakes d)) (open_sockets d ++ [ip]))
  | DAborted i => _ ← handshakes d !! i; Some (Door (counters d) (delete i (handshakes d)) (open_sockets d))
  | DGone i =>
      ip ← open_sockets d !! i;
      Some (Door (gone ip (counters d)) (handshakes d) (delete i (open_sockets d)))
  end.

Fixpoint door_run (cfg : host_config) (l : list door_event) (d : door) : option door :=
  match l with [] => Some d | e :: l' => d' ← door_step cfg e d; door_run cfg l' d' end.

Definition new_door (b : option buckets) : door := Door (Host 0 ∅ b) [] [].

(** ** Lemmas: the client address *)

Lemma split_comma_nil s : split_comma s <> [].
Proof. induction s as [|c s IH]; simpl; [done|]. destruct (Ascii.eqb c ","); [done|]. by destruct (split_comma s). Qed.

Lemma split_comma_app p t : split_comma (p +:+ String "," t) = split_comma p ++ split_comma t.
Proof.
  induction p as [|c p IH]; [done|]. rewrite string_app_cons. cbn [split_comma]. rewrite IH.
  destruct (Ascii.eqb c ","); [done|]. pose proof (split_comma_nil p). by destruct (split_comma p).
Qed.

Lemma hops_app p t : hops (p +:+ String "," t) = hops p ++ hops t.
Proof. unfold hops. by rewrite split_comma_app, map_app, filter_app. Qed.

Lemma nth_from_right_app l k n :
  1 <= n <= Z.of_nat (length k) -> nth_from_right (l ++ k) n = nth_from_right k n.
Proof.
  intros Hn. unfold nth_from_right. rewrite length_app. rewrite !(proj2 (Z.leb_le _ _)) by lia.
  rewrite lookup_app_r by lia. f_equal. lia.
Qed.

(** ** Lemmas: limiters *)

Lemma bucket_get_set key w l k :
  bucket_get (bucket_set key w l) k = if String.eqb key k then Some w else bucket_get l k.
Proof.
  induction l as [|[k' v] l IH]; unfold bucket_get in *; simpl.
  - by destruct (String.eqb key k).
  - destruct (String.eqb_spec k' key) as [->|Hne]; simpl.
    + by destruct (String.eqb key k).
    + destruct (String.eqb_spec k' k) as [->|]; [|exact IH].
      destruct (String.eqb_spec key k) as [->|]; [done|done].
Qed.

Lemma bucket_set_keys key w l :
  map fst (bucket_set key w l) = if decide (key ∈ map fst l) then map fst l else map fst l ++ [key].
Proof.
  induction l as [|[k v] l IH]; [done|]. cbn [bucket_set map fst].
  destruct (String.eqb_spec k key) as [->|Hne].
  - rewrite decide_True by (by left). done.
  - cbn [map fst]. rewrite IH. destruct (decide (key ∈ map fst l)) as [Hin|Hin].
    + rewrite decide_True by (by right). done.
    + rewrite decide_False; [done|]. rewrite not_elem_of_cons. split; congruence.
Qed.

Lemma over_length limit windowMs maxKeys now key l :
  (length l <= maxKeys)%nat -> (length (over limit windowMs maxKeys now key l).2 <= maxKeys)%nat.
Proof.
  intros Hl. unfold over. cbv zeta. cbn [snd]. destruct (maxKeys <? _)%nat eqn:E.
  - rewrite length_drop. lia.
  - by apply Nat.ltb_ge in E.
Qed.

(** A run of the limiter, and the same calls of one key on a window of its own. *)
Fixpoint over_run (limit windowMs : Z) (maxKeys : nat) (calls : list (Z * string)) (l : buckets) :
    list (string * bool) * buckets :=
  match calls with
  | [] => ([], l)
  | (now, key) :: calls' =>
      let '(o, l1) := over limit windowMs maxKeys now key l in
      let '(os, l2) := over_run limit windowMs maxKeys calls' l1 in
      ((key, o) :: os, l2)
  end.

Fixpoint solo_run (limit windowMs : Z) (times : list Z) (w : option window) : list bool :=
  match times with
  | [] => []
  | now :: times' =>
      let w' := count_call w windowMs now in (limit <? wcount w') :: solo_run limit windowMs times' (Some w')
  end.

(** What concerns one key. *)
Definition of_key {A} (key : string) (l : list (string * A)) : list A :=
  omap (fun x => if String.eqb x.1 key then Some x.2 else None) l.

Definition times_of (key : string) (calls : list (Z * string)) : list Z :=
  omap (fun x => if String.eqb x.2 key then Some x.1 else None) calls.

(** The keys a run can have seen. *)
Definition seen (K : gset string) (l : buckets) : Prop := NoDup (map fst l) /\ forall k, k ∈ map fst l -> k ∈ K.

Lemma seen_length K l : seen K l -> (length l <= size K)%nat.
Proof.
  intros [Hn Hk]. rewrite <-(length_map fst l). rewrite <-(size_list_to_set (C := gset string) _ Hn).
  apply subseteq_size. intros k. rewrite elem_of_list_to_set. apply Hk.
Qed.

(** While the keys fit, a call touches its own window only. *)
Lemma over_seen limit windowMs maxKeys now key l K :
  seen K l -> key ∈ K -> (size K <= maxKeys)%nat ->
  over limit windowMs maxKeys now key l
  = (limit <? wcount (count_call (bucket_get l key) windowMs now), bucket_set key (count_call (bucket_get l key) windowMs now) l)
  /\ seen K (bucket_set key (count_call (bucket_get l key) windowMs now) l).
Proof.
  intros [Hn Hk] Hin Hs. set (b := count_call _ _ _).
  assert (Hseen : seen K (bucket_set key b l)).
  { unfold seen. rewrite bucket_set_keys. destruct (decide _) as [|Hni]; [by split|]. split.
    - apply NoDup_app. split_and!; [done| |apply NoDup_singleton]. intros x Hx Hx'.
      apply list_elem_of_singleton in Hx' as ->. done.
    - intros x Hx. apply elem_of_app in Hx as [Hx|Hx]; [by apply Hk|]. by apply list_elem_of_singleton in Hx as ->. }
  split; [|done]. unfold over. fold b. rewrite (proj2 (Nat.ltb_ge _ _)); [done|].
  pose proof (seen_length K _ Hseen). lia.
Qed.

Lemma over_run_solo limit windowMs maxKeys K key : forall calls l,
  (size K <= maxKeys)%nat -> seen K l -> (forall c, c ∈ calls -> c.2 ∈ K) ->
  of_key key (over_run limit windowMs maxKeys calls l).1 = solo_run limit windowMs (times_of key calls) (bucket_get l key).
Proof.
  induction calls as [|[now k] calls IH]; intros l Hs Hl Hc; [done|]. cbn [over_run].
  assert (Hk : k ∈ K) by (apply (Hc (now, k)); by left).
  destruct (over_seen limit windowMs maxKeys now k l K Hl Hk Hs) as [-> Hseen].
  set (b := count_call _ _ _) in *. specialize (IH (bucket_set k b l) Hs Hseen ltac:(intros c Hin; apply Hc; by right)).
  destruct (over_run _ _ _ calls _) as [os l2]. cbn [fst] in IH |- *. unfold of_key, times_of in *. cbn [omap list_omap fst snd].
  rewrite bucket_get_set in IH. destruct (String.eqb_spec k key) as [->|]; [|exact IH].
  cbn [solo_run]. fold b. by rewrite IH.
Qed.

(** ** Lemmas: the counters *)

Definition count_of (ip : string) (l : list string) : Z := Z.of_nat (length (filter (fun x => x = ip) l)).

(** The counters count the open sockets, and no address is kept at zero. *)
Record counts_ok (d : door) : Prop := {
  total_exact : totalSockets (counters d) = Z.of_nat (length (open_sockets d));
  ip_exact : forall ip, sockets_of (counters d) ip = count_of ip (open_sockets d);
  ip_positive : forall ip n, ipSockets (counters d) !! ip = Some n -> 0 < n;
}.

Lemma count_of_snoc ip l x : count_of ip (l ++ [x]) = count_of ip l + (if decide (x = ip) then 1 else 0).
Proof.
  unfold count_of. rewrite filter_app, length_app.
  destruct (decide (x = ip)); [rewrite filter_cons_True by done|rewrite filter_cons_False by done]; simpl; lia.
Qed.

Lemma count_of_delete ip l i x :
  l !! i = Some x -> count_of ip (delete i l) = count_of ip l - (if decide (x = ip) then 1 else 0).
Proof.
  intros E. rewrite (delete_take_drop l).
  assert (count_of ip l = count_of ip (take i l ++ x :: drop (S i) l)) as -> by by rewrite take_drop_middle.
  unfold count_of. rewrite !filter_app, !length_app.
  destruct (decide (x = ip)); [rewrite filter_cons_True by done|rewrite filter_cons_False by done]; simpl; lia.
Qed.

Lemma handleUpgrade_counters cfg now hdrs ip gate has_room size_ h :
  totalSockets (handleUpgrade cfg now hdrs ip gate has_room size_ h).2 = totalSockets h
  /\ ipSockets (handleUpgrade cfg now hdrs ip gate has_room size_ h).2 = ipSockets h.
Proof.
  unfold handleUpgrade. destruct (entryReject hdrs); [done|]. destruct (gate _); [|done].
  unfold wsOver. destruct (wsBuckets h); [destruct (over _ _ _ _ _ _)|]; repeat (case_match; try done).
Qed.

Lemma opened_ok ip d : counts_ok d -> counts_ok (Door (opened ip (counters d)) (handshakes d) (open_sockets d ++ [ip])).
Proof.
  intros [Ht Hi Hp]. split; cbn [counters open_sockets opened totalSockets ipSockets].
  - rewrite length_app, Ht. simpl. lia.
  - intros ip'. rewrite count_of_snoc, <-Hi. unfold sockets_of. cbn [opened ipSockets].
    destruct (decide (ip = ip')) as [->|]; [by rewrite lookup_insert_eq|rewrite lookup_insert_ne by done; lia].
  - intros ip' n. destruct (decide (ip = ip')) as [->|]; [|rewrite lookup_insert_ne by done; apply Hp].
    rewrite lookup_insert_eq. intros [= <-]. unfold sockets_of. destruct (ipSockets (counters d) !! ip') as [m|] eqn:E; simpl; [|lia].
    specialize (Hp _ _ E). lia.
Qed.

Lemma gone_ok i ip d :
  counts_ok d -> open_sockets d !! i = Some ip ->
  counts_ok (Door (gone ip (counters d)) (handshakes d) (delete i (open_sockets d))).
Proof.
  intros [Ht Hi Hp] E.
  assert (Hpos : 0 < sockets_of (counters d) ip).
  { rewrite Hi. unfold count_of. rewrite <-(take_drop_middle _ _ _ E), filter_app, length_app.
    rewrite filter_cons_True by done. simpl. lia. }
  unfold sockets_of in Hpos. destruct (ipSockets (counters d) !! ip) as [n|] eqn:En; [|simpl in Hpos; lia]. simpl in Hpos.
  assert (Hg : forall ip', sockets_of (gone ip (counters d)) ip'
            = sockets_of (counters d) ip' - (if decide (ip = ip') then 1 else 0)).
  { intros ip'. unfold gone, sockets_of. cbv zeta. rewrite En. cbn [default from_option id ipSockets].
    destruct (decide (ip = ip')) as [<-|].
    - rewrite En. simpl. destruct (Z.leb_spec (n - 1) 0); [rewrite lookup_delete_eq; simpl; lia|by rewrite lookup_insert_eq].
    - destruct (n - 1 <=? 0); [rewrite lookup_delete_ne by done|rewrite lookup_insert_ne by done]; lia. }
  split; cbn [counters open_sockets].
  - unfold gone. cbn [totalSockets]. rewrite length_delete by done. apply lookup_lt_Some in E. rewrite Ht. lia.
  - intros ip'. by rewrite Hg, (count_of_delete ip' _ _ _ E), Hi.
  - intros ip' m. unfold gone. cbv zeta. cbn [ipSockets]. rewrite En. cbn [default from_option id].
    destruct (Z.leb_spec (n - 1) 0).
    + rewrite lookup_delete_Some. intros [_ Hm]. by eapply Hp.
    + destruct (decide (ip = ip')) as [<-|]; [rewrite lookup_insert_eq; intros [= <-]; lia|].
      rewrite lookup_insert_ne by done. apply Hp.
Qed.

Lemma counts_same h hs os d :
  totalSockets h = totalSockets (counters d) -> ipSockets h = ipSockets (counters d) -> os = open_sockets d ->
  counts_ok d -> counts_ok (Door h hs os).
Proof. intros E1 E2 -> [Ht Hi Hp]. split; unfold sockets_of in *; cbn [counters open_sockets]; by rewrite ?E1, ?E2. Qed.

Lemma door_step_counts cfg e d d' : door_step cfg e d = Some d' -> counts_ok d -> counts_ok d'.
Proof.
  intros E Hd. destruct e as [now hdrs ip gate has_room size_|i|i|i]; simpl in E.
  - pose proof (handleUpgrade_counters cfg now hdrs ip gate has_room size_ (counters d)) as [E1 E2].
    destruct (handleUpgrade _ _ _ _ _ _ _ _) as [v h]. injection E as <-. by eapply counts_same.
  - destruct (handshakes d !! i) as [ip|]; [|done]. injection E as <-.
    eapply (counts_same _ _ _ (Door (opened ip (counters d)) (handshakes d) (open_sockets d ++ [ip]))); try done.
    by apply opened_ok.
  - destruct (handshakes d !! i) as [ip|]; [|done]. injection E as <-. by eapply counts_same.
  - destruct (open_sockets d !! i) as [ip|] eqn:Ei; [|done]. injection E as <-. by apply gone_ok.
Qed.

Lemma door_run_counts cfg l : forall d d', door_run cfg l d = Some d' -> counts_ok d -> counts_ok d'.
Proof.
  induction l as [|e l IH]; simpl; intros d d' E Hd; [congruence|].
  destruct (door_step cfg e d) as [d1|] eqn:E1; [|done]. simpl in E. eapply IH; [exact E|]. by eapply door_step_counts.
Qed.

(** ** Properties *)

(** C22: a forged X-Forwarded-For changes nothing: whatever the client writes
    to the left of what the trusted proxies append, the address the caps key on
    is the same. *)
Theorem forged_prefix_ignored (h h' : headers) (remote : option string) (cfg : proxy_config) (forged trusted : string) :
  hget h "x-forwarded-for" = Some (forged +:+ String "," trusted) ->
  hget h' "x-forwarded-for" = Some trusted ->
  hget h "cf-connecting-ip" = hget h' "cf-connecting-ip" ->
  1 <= trustedHops cfg <= Z.of_nat (length (hops trusted)) ->
  clientIp h remote cfg = clientIp h' remote cfg.
Proof.
  intros Hx Hx' Hcf Hn. unfold clientIp. rewrite Hx, Hx', Hcf.
  assert (Hne : hops trusted <> []) by (intros E; rewrite E in Hn; simpl in Hn; lia).
  assert (Ht : trusted <> "") by (intros ->; by apply Hne).
  assert (forged +:+ String "," trusted <> "") as Hf by (by destruct forged).
  destruct (forged +:+ String "," trusted) as [|c s] eqn:Es; [done|]. rewrite <-Es.
  destruct trusted as [|c' s']; [done|]. rewrite hops_app.
  destruct (hops (String c' s')) as [|q qs] eqn:Eq; [done|].
  destruct (hops forged ++ q :: qs) as [|r rs] eqn:Er; [by destruct (hops forged)|].
  rewrite <-Er, nth_from_right_app by done. done.
Qed.

(** The per-address limiter is exact: its map never holds more keys than
    its cap, and as long as the addresses seen fit in it, each is limited as
    if by a window of its own, whatever the others do. *)
Theorem limiter_per_key (limit windowMs : Z) (maxKeys : nat) (K : gset string) (calls : list (Z * string)) (key : string) :
  (forall c, c ∈ calls -> c.2 ∈ K) -> (size K <= maxKeys)%nat ->
  of_key key (over_run limit windowMs maxKeys calls []).1 = solo_run limit windowMs (times_of key calls) None
  /\ forall l now k, (length l <= maxKeys)%nat -> (length (over limit windowMs maxKeys now k l).2 <= maxKeys)%nat.
Proof.
  intros Hc Hs. split; [|intros; by apply over_length].
  apply (over_run_solo limit windowMs maxKeys K key calls []); [done| |done].
  split; [apply NoDup_nil_2|]. intros k Hk. by apply not_elem_of_nil in Hk.
Qed.

(** The upgrade counters are exact, in every order of upgrades, completed
    and failed handshakes and closes: the total is the number of open sockets,
    each address's count the number of its own, no address is kept at zero;
    and an upgrade goes through only past the entry and ownership gates and
    with each count under its cap. *)
Theorem upgrade_counters_exact (cfg : host_config) (b : option buckets) (l : list door_event) (d : door)
    now hdrs ip gate has_room size_ :
  door_run cfg l (new_door b) = Some d ->
  counts_ok d
  /\ ((handleUpgrade cfg now hdrs ip gate has_room size_ (counters d)).1 = Upgraded ->
      entryReject hdrs = None /\ (exists o, gate (default "" (hget hdrs ROOM_HEADER)) = Admit o)
      /\ count_of ip (open_sockets d) < maxSocketsPerIp cfg
      /\ Z.of_nat (length (open_sockets d)) < maxTotalSockets cfg
      /\ (has_room (default "" (hget hdrs ROOM_HEADER)) = true \/ size_ < maxRooms cfg)).
Proof.
  intros E. assert (Hd : counts_ok d).
  { eapply door_run_counts; [exact E|]. split; [done| |done]. intros ip'. done. }
  split; [done|]. destruct Hd as [Ht Hi _]. unfold handleUpgrade.
  destruct (entryReject hdrs); [done|]. destruct (gate _) as [o|]; [|done].
  assert (Hw : totalSockets (wsOver cfg now ip (counters d)).2 = totalSockets (counters d)
    /\ ipSockets (wsOver cfg now ip (counters d)).2 = ipSockets (counters d)).
  { unfold wsOver. destruct (wsBuckets (counters d)); [destruct (over _ _ _ _ _ _)|]; done. }
  destruct (wsOver cfg now ip (counters d)) as [limited h]. destruct Hw as [E1 E2]. cbn [fst snd] in E1, E2.
  unfold sockets_of in *. rewrite E1, E2, Hi, Ht.
  destruct limited; [done|]. destruct (Z.leb_spec (maxSocketsPerIp cfg) (count_of ip (open_sockets d))); [done|].
  destruct (Z.leb_spec (maxTotalSockets cfg) (Z.of_nat (length (open_sockets d)))); [done|].
  destruct (negb _ && _) eqn:Er; [done|]. intros _. split_and!; try done; [by eexists|].
  apply andb_false_iff in Er as [Er|Er]; [left; by apply negb_false_iff in Er|right; by apply Z.leb_gt in Er].
Qed.

(** ** Witnesses *)

Lemma forged_prefix_ignored_witness :
  let h := <["x-forwarded-for" := "1.2.3.4" +:+ String "," " 9.9.9.9, 10.0.0.1 "]> (∅ : headers) in
  let h' := <["x-forwarded-for" := " 9.9.9.9, 10.0.0.1 "]> (∅ : headers) in
  clientIp h None (ProxyConfig true false 2) = Some "9.9.9.9"
  /\ clientIp h None (ProxyConfig true false 2) = clientIp h' None (ProxyConfig true false 2).
Proof.
  split; [vm_compute; reflexivity|].
  apply (forged_prefix_ignored
    (<["x-forwarded-for" := "1.2.3.4" +:+ String "," " 9.9.9.9, 10.0.0.1 "]> (∅ : headers))
    (<["x-forwarded-for" := " 9.9.9.9, 10.0.0.1 "]> (∅ : headers)) None
    (ProxyConfig true false 2) "1.2.3.4" " 9.9.9.9, 10.0.0.1 ");
    first [vm_compute; reflexivity | split; vm_compute; discriminate].
Defined.

Definition some_calls : list (Z * string) := [(0, "a"); (1, "b"); (2, "a"); (3, "a"); (200, "a")].

Lemma limiter_per_key_witness :
  solo_run 2 100 (times_of "a" some_calls) None = [false; false; true; false]
  /\ of_key "a" (over_run 2 100 2 some_calls []).1 = solo_run 2 100 (times_of "a" some_calls) None.
Proof.
  split; [reflexivity|].
  apply (limiter_per_key 2 100 2 {["a"; "b"]} some_calls "a").
  - intros c Hc. unfold some_calls in Hc. set_solver.
  - vm_compute. lia.
Defined.

Definition room_headers : headers := {["x-relay-room" := String.concat "" (repeat "0" 64)]}.
Definition open_gate (_ : string) : decision := Admit None.
Definition small_config : host_config := HostConfig (10, 1000) 5 2 3 4.
Definition some_upgrades : list door_event :=
  [DUpgrade 0 room_headers "a" open_gate (fun _ => false) 0; DOpened 0;
   DUpgrade 1 room_headers "a" open_gate (fun _ => true) 1; DOpened 0;
   DUpgrade 2 room_headers "b" open_gate (fun _ => true) 1; DOpened 0; DGone 1].

Lemma upgrade_counters_exact_witness :
  exists d, door_run small_config some_upgrades (new_door (Some [])) = Some d
    /\ open_sockets d = ["a"; "b"] /\ sockets_of (counters d) "a" = 1
    /\ counts_ok d.
Proof.
  destruct (door_run small_config some_upgrades (new_door (Some []))) as [d|] eqn:E; [|by vm_compute in E].
  exists d. split; [done|]. split; [vm_compute in E; by injection E as <-|].
  split; [vm_compute in E; injection E as <-; by vm_compute|].
  apply (upgrade_counters_exact small_config (Some []) some_upgrades d 3 room_headers "a" open_gate (fun _ => true) 1 E).
Defined.
