(* ===== verification/ShardFetch.v ===== *)
(** The host's side of the shard map ([host/server.js]): the fetch with its
    retries, the classification of a failure, the throttled failure log and the
    boot that waits for a first map. *)

From stdpp Require Import pretty.
From S2P Require Import Prelude Json ShardMap ShardStore.

(** ** Errors *)

(** What the code reads of an error; a [cause] chain is finite. *)
Inductive fetch_error : Type := FetchError {
  httpStatus : option Z;
  cfRay : string;
  kind : string;
  name : string;
  code : string;
  message : string;
  cause : option fetch_error;
}.

(** [shouldRetryShardFetch] *)
Definition shouldRetryShardFetch (e : fetch_error) : bool :=
  match httpStatus e with Some s => negb ((400 <=? s) && (s <? 500)) | None => true end.

(** ** Fetching *)

(** A reply of [fetchImpl] to one attempt, or the error it threw. *)
Inductive reply : Type :=
| Response (status : Z) (ray : option string) (text : result fetch_error string)
| NoResponse (e : fetch_error).

Definition fetchShardMapOnce (r : reply) : result fetch_error string :=
  match r with
  | NoResponse e => Err e
  | Response s ray text =>
      if (200 <=? s) && (s <=? 299) then text
      else Err (FetchError (Some s) (default "" ray) "" "Error" "" ("shardmap HTTP " +:+ pretty s) None)
  end.

Definition SHARDMAP_FETCH_ATTEMPTS : nat := 3.

(** The loop from its [attempt]-th try on, [left] of them left: the outcome
    ([None] when no try was made: [throw last] of [undefined]) and the errors
    handed to [onRetry]. *)
Fixpoint attempt_loop (replies : nat -> reply) (attempt left : nat) (last : option fetch_error) :
    result (option fetch_error) string * list (fetch_error * nat) :=
  match left with
  | O => (Err last, [])
  | S left' =>
      match fetchShardMapOnce (replies attempt) with
      | Ok text => (Ok text, [])
      | Err e =>
          if (left' =? 0)%nat || negb (shouldRetryShardFetch e) then (Err (Some e), [])
          else let '(r, l) := attempt_loop replies (S attempt) left' (Some e) in (r, (e, attempt) :: l)
      end
  end.

Definition fetchShardMapWithRetry (attempts : nat) (replies : nat -> reply) :
    result (option fetch_error) string * list (fetch_error * nat) :=
  attempt_loop replies 1 attempts None.

(** ** Classification *)

(** The first errno-style code of the [cause] chain, four errors deep. *)
Fixpoint err_code (depth : nat) (e : fetch_error) : string :=
  match depth with
  | O => ""
  | S d => if String.eqb (code e) "" then match cause e with Some c => err_code d c | None => "" end else code e
  end.

Definition errCode (e : fetch_error) : string := err_code 4 e.

Definition one_of (s : string) (l : list string) : bool := existsb (String.eqb s) l.

Definition TLS_PREFIXES : list string :=
  ["CERT_"; "ERR_TLS"; "EPROTO"; "DEPTH_ZERO"; "SELF_SIGNED"; "UNABLE_TO_VERIFY"; "ERR_SSL"].

(** [{ cause, detail }]; the message is cut at 80 characters (ASCII). *)
Definition classifyShardFetchError (error : option fetch_error) : string * string :=
  match error with
  | None => ("other", "unknown")
  | Some e =>
      match httpStatus e with
      | Some s =>
          let c := if 500 <=? s then "http_5xx" else if 400 <=? s then "http_4xx" else "http_other" in
          (c, "HTTP " +:+ pretty s +:+ (if String.eqb (cfRay e) "" then "" else " cf-ray=" +:+ cfRay e))
      | None =>
          if negb (String.eqb (kind e) "") then ("parse", kind e)
          else if String.eqb (name e) "SyntaxError" then ("parse", "json")
          else if String.eqb (name e) "AbortError" then ("timeout", "abort")
          else
            let c := errCode e in
            if one_of c ["ENOTFOUND"; "EAI_AGAIN"] then ("dns", c)
            else if one_of c ["ETIMEDOUT"; "UND_ERR_CONNECT_TIMEOUT"; "UND_ERR_HEADERS_TIMEOUT"; "UND_ERR_BODY_TIMEOUT"]
            then ("timeout", c)
            else if one_of c ["ECONNREFUSED"; "ECONNRESET"; "EHOSTUNREACH"; "ENETUNREACH"; "EPIPE"; "ECONNABORTED"]
            then ("conn", c)
            else if existsb (fun p => starts_with p c) TLS_PREFIXES then ("tls", c)
            else ("other", if String.eqb c "" then
                             if String.eqb (message e) "" then "unknown" else String.substring 0 80 (message e)
                           else c)
      end
  end.

(** ** The failure log *)

Definition SHARD_ERR_LOG_WINDOW_MS : Z := 60000.

Record streak_log := StreakLog { shardErrStreak : Z; shardErrSince : Z; shardErrLastLog : Z }.

Inductive log_line : Type :=
| Failing (cause detail : string)
| StillFailing (cause detail : string) (streak elapsed : Z)
| Recovered (streak since : Z).

Definition noteShardFetchError (now : Z) (e : option fetch_error) (s : streak_log) : list log_line * streak_log :=
  let '(c, detail) := classifyShardFetchError e in
  let n := shardErrStreak s + 1 in
  if n =? 1 then ([Failing c detail], StreakLog n now now)
  else if SHARD_ERR_LOG_WINDOW_MS <=? now - shardErrLastLog s then
    ([StillFailing c detail n (now - shardErrSince s)], StreakLog n (shardErrSince s) now)
  else ([], StreakLog n (shardErrSince s) (shardErrLastLog s)).

Definition noteShardFetchOk (now : Z) (s : streak_log) : list log_line * streak_log :=
  if 0 <? shardErrStreak s then
    ([Recovered (shardErrStreak s) (now - shardErrSince s)], StreakLog 0 (shardErrSince s) (shardErrLastLog s))
  else ([], s).

(** ** Boot *)

(** [bootstrapShardMap]: fetch until a map is adopted, [left] more attempts
    allowed; [fetched i] is the i-th fetch. *)
Fixpoint bootstrap_loop (fetched : nat -> result string string) (i left : nat) (s : store) : result string store :=
  if hasMap s then Ok s else
  match left with
  | O => Err "shard map fetch failed; refusing to accept connections without ownership"
  | S left' => bootstrap_loop fetched (S i) left' (fetchOnce s (fetched i)).2
  end.

(** A bound below one still makes one attempt. *)
Definition bootstrapShardMap (fetched : nat -> result string string) (bootMaxRetries : Z) (s : store) : result string store :=
  bootstrap_loop fetched 0 (Z.to_nat (Z.max 1 bootMaxRetries)) s.

(** ** Lemmas *)

(** The first [n] attempts from [i] failed and were worth retrying. *)
Definition absorbed (replies : nat -> reply) (i n : nat) : list (fetch_error * nat) -> Prop :=
  Forall2 (fun j x => x.2 = j /\ fetchShardMapOnce (replies j) = Err x.1 /\ shouldRetryShardFetch x.1 = true) (seq i n).

Lemma attempt_loop_spec replies left : forall i last,
  (0 < left)%nat ->
  let '(r, l) := attempt_loop replies i left last in
  (length l < left)%nat /\ absorbed replies i (length l) l
  /\ match r with
     | Ok text => fetchShardMapOnce (replies (i + length l)%nat) = Ok text
     | Err e => exists e', e = Some e' /\ fetchShardMapOnce (replies (i + length l)%nat) = Err e'
                 /\ (length l = pred left \/ shouldRetryShardFetch e' = false)
     end.
Proof.
  induction left as [|left IH]; intros i last Hl; [lia|]. cbn [attempt_loop].
  destruct (fetchShardMapOnce (replies i)) as [text|e] eqn:E.
  - simpl. rewrite Nat.add_0_r. split_and!; [lia|constructor|done].
  - destruct ((left =? 0)%nat || negb (shouldRetryShardFetch e)) eqn:Eb.
    + simpl. rewrite Nat.add_0_r. split_and!; [lia|constructor|]. exists e. split_and!; try done.
      apply orb_true_iff in Eb as [Eb|Eb]; [left; apply Nat.eqb_eq in Eb; lia|right; by apply negb_true_iff in Eb].
    + apply orb_false_iff in Eb as [E0 Er]. apply Nat.eqb_neq in E0. apply negb_false_iff in Er.
      specialize (IH (S i) (Some e) ltac:(lia)). destruct (attempt_loop replies (S i) left (Some e)) as [r l].
      destruct IH as (H1 & H2 & H3). cbn [length]. split; [lia|]. split.
      * unfold absorbed. cbn [seq]. constructor; [done|exact H2].
      * replace (i + S (length l))%nat with (S i + length l)%nat by lia. destruct r as [text|e']; [done|].
        destruct H3 as (e1 & -> & H3 & [H4|H4]); exists e1; split_and!; try done; [left; lia|by right].
Qed.

Lemma bootstrap_loop_spec fetched left : forall i s,
  match bootstrap_loop fetched i left s with
  | Ok s' => hasMap s' = true
  | Err _ => hasMap (foldl (fun s j => (fetchOnce s (fetched j)).2) s (seq i left)) = false
  end.
Proof.
  induction left as [|left IH]; intros i s; cbn [bootstrap_loop].
  - destruct (hasMap s) eqn:E; [done|]. exact E.
  - destruct (hasMap s) eqn:E; [done|]. cbn [seq foldl]. apply IH.
Qed.

(** ** Properties *)

(** The retried fetch: a poll makes at most the allowed attempts and stops
    at the first success or definitive failure; every earlier attempt failed
    transiently and is reported to [onRetry], in order, with its number; and the
    error thrown is that of the last attempt made. *)
Theorem fetch_retry_exact (attempts : nat) (replies : nat -> reply) :
  (0 < attempts)%nat ->
  let '(r, l) := fetchShardMapWithRetry attempts replies in
  (length l < attempts)%nat /\ absorbed replies 1 (length l) l
  /\ match r with
     | Ok text => fetchShardMapOnce (replies (1 + length l)%nat) = Ok text
     | Err e => exists e', e = Some e' /\ fetchShardMapOnce (replies (1 + length l)%nat) = Err e'
                 /\ (length l = pred attempts \/ shouldRetryShardFetch e' = false)
     end.
Proof. intros Ha. by apply (attempt_loop_spec replies attempts 1 None). Qed.

(** The relay accepts connections only with a map; it gives up only after every
    allowed fetch left it without one. *)
Lemma bootstrap_needs_map (fetched : nat -> result string string) (n : Z) (s : store) :
  match bootstrapShardMap fetched n s with
  | Ok s' => hasMap s' = true
  | Err _ => hasMap (foldl (fun s j => (fetchOnce s (fetched j)).2) s (seq 0 (Z.to_nat (Z.max 1 n)))) = false
  end.
Proof. apply bootstrap_loop_spec. Qed.

Lemma fetch_retry_exact_witness :
  let timeout := FetchError None "" "" "AbortError" "" "" None in
  let replies i := if (i =? 1)%nat then NoResponse timeout else Response 404 (Some "ray") (Ok "") in
  let '(r, l) := fetchShardMapWithRetry SHARDMAP_FETCH_ATTEMPTS replies in
  l = [(timeout, 1%nat)] /\ (length l < SHARDMAP_FETCH_ATTEMPTS)%nat.
Proof.
  pose proof (fetch_retry_exact SHARDMAP_FETCH_ATTEMPTS
    (fun i => if (i =? 1)%nat then NoResponse (FetchError None "" "" "AbortError" "" "" None)
              else Response 404 (Some "ray") (Ok "")) ltac:(unfold SHARDMAP_FETCH_ATTEMPTS; lia)) as H.
  cbv zeta. vm_compute in H. vm_compute. split; [reflexivity|apply H].
Defined.
