(* ===== verification/Reshard.v ===== *)
(** A box of the fleet under resharding ([host/server.js]): the poller's adoptions
    feed the drain scheduler, the scheduler closes rooms of the runtime, and the
    ownership gate keeps new connections out of the buckets that moved.

    This is a box in distributed mode.  A direct one has no store and no
    scheduler. *)

From Stdlib Require Import QArith Lqa.
From S2P Require Import Prelude Bytes Crypto Transcript ShardGate Json ShardMap ShardStore RoomState Drain Runtime ShardFetch.
#[local] Open Scope Z_scope.

(** ** The box *)

Record box := Box { bstore : store; bdrain : scheduler; brt : runtime }.

(** [applyShardDiff]; a set is iterated in some order. *)
Definition applyShardDiff (now : Z) (d : owned_diff) (s : scheduler) : scheduler :=
  let s := fold_left (fun s b => Drain.relinquish s now b) (elements (relinquished d)) s in
  fold_left (fun s b => Drain.reacquire s b) (elements (acquired d)) s.

(** The poller's callbacks that move rooms: [onAdopt]. *)
Definition on_poll_event (now : Z) (s : scheduler) (e : poll_event) : scheduler :=
  match e with OnAdopt _ d => applyShardDiff now d s | _ => s end.

(** A poll, its callbacks included. *)
Definition box_poll (now : Z) (fetched : result string string) (b : box) : box :=
  let '(_, events, s') := fetchOnce (bstore b) fetched in
  Box s' (fold_left (on_poll_event now) events (bdrain b)) (brt b).

(** [shardDrain.run()]: the rooms it evicts. *)
Definition box_tick (now : Z) (b : box) : list string * box :=
  let '(ids, rt, s) := Drain.run (bdrain b) now (brt b) in (ids, Box (bstore b) s rt).

(** [ownershipGate(room)] *)
Definition gate (b : box) (room : string) : decision := ownershipDecision MODE_DISTRIBUTED room (ownsBucket (bstore b)).

(** An upgrade: refused by the gate, or the room's context is taken and pinned,
    accepts the socket, and is unpinned. *)
Definition box_upgrade (room : string) (persisted : option Z) (ws : nat) (b : box) : option (decision * box) :=
  match gate b room with
  | Refuse status reason bucket => Some (Refuse status reason bucket, b)
  | Admit k =>
      let id := (Runtime.get room persisted (brt b)).1 in
      rt ← rrun [RBegin room persisted; RAccept id ws; REnd id] (brt b);
      Some (Admit k, Box (bstore b) (bdrain b) rt)
  end.

(** Everything else that happens to the rooms: requests, frames, closes, alarms.
    No socket is accepted outside an upgrade. *)
Inductive box_event : Type :=
| BPoll (fetched : result string string)
| BTick
| BUpgrade (room : string) (persisted : option Z) (ws : nat)
| BRuntime (e : revent).

(** What an event did. *)
Inductive box_entry : Type :=
| EPolled
| EEvicted (rooms : list string)
| EUpgrade (d : decision)
| ERuntime.

Definition accepts (e : revent) : bool := match e with RAccept _ _ => true | _ => false end.

Definition box_step (now : Z) (e : box_event) (b : box) : option (box_entry * box) :=
  match e with
  | BPoll fetched => Some (EPolled, box_poll now fetched b)
  | BTick => let '(ids, b') := box_tick now b in Some (EEvicted ids, b')
  | BUpgrade room persisted ws => '(d, b') ← box_upgrade room persisted ws b; Some (EUpgrade d, b')
  | BRuntime e => if accepts e then None else rt ← rstep e (brt b); Some (ERuntime, Box (bstore b) (bdrain b) rt)
  end.

(** A run: each event with its time, and what it did to which box. *)
Fixpoint box_run (es : list (Z * box_event)) (b : box) : option (list (Z * box * box_entry) * box) :=
  match es with
  | [] => Some ([], b)
  | (now, e) :: es' =>
      '(x, b1) ← box_step now e b; '(h, b2) ← box_run es' b1; Some ((now, b, x) :: h, b2)
  end.

(** [listen()]: rehydrate the rooms, then fetch the map before accepting
    anything.  Its first adoption only acquires, which cancels no episode. *)
Definition boot (self : string) (delay : Z) (rate : Q) (now : Z) (names : list (string * option Z))
    (fetched : nat -> result string string) (bootMaxRetries : Z) : result string box :=
  (let! s := bootstrapShardMap fetched bootMaxRetries (new_store self) in
   Ok (Box s (new_scheduler delay rate now) (rehydrate names new_runtime)))%res.

(** ** Lemmas: who is live *)

(** The rooms with a socket. *)
Definition live_names (rt : runtime) : list string :=
  omap (fun '(name, id) => if (0 <? length (live_context rt id))%nat then Some name else None) (rooms rt).

Lemma elem_of_live_names rt name :
  name ∈ live_names rt <-> exists id, (name, id) ∈ rooms rt /\ live_context rt id <> [].
Proof.
  unfold live_names. rewrite list_elem_of_omap. split.
  - intros ([n id] & Hin & E). destruct (Nat.ltb_spec 0 (length (live_context rt id))); [|done]. injection E as ->.
    exists id. split; [done|]. by destruct (live_context rt id); [simpl in *; lia|].
  - intros (id & Hin & Hne). exists (name, id). split; [done|]. by destruct (live_context rt id).
Qed.

Lemma live_in_bucket rt name b : name ∈ roomsInBucket rt b <-> name ∈ live_names rt /\ bucketForRoomName name = Some b.
Proof. rewrite roomsInBucket_spec, elem_of_live_names. naive_solver. Qed.

Lemma live_names_nodup rt : registry_ok rt -> NoDup (live_names rt).
Proof.
  intros Hok. pose proof (reg_names rt Hok) as Hn. unfold live_names. revert Hn. generalize (rooms rt). intros l.
  induction l as [|[n i] l IH]; simpl; [by intros; apply NoDup_nil_2|]. intros [Hni Hn]%NoDup_cons.
  destruct (0 <? length (live_context rt i))%nat; [|by apply IH]. apply NoDup_cons. split; [|by apply IH].
  intros ([n' i'] & Hin & E)%list_elem_of_omap. destruct (0 <? _)%nat; [|done]. injection E as ->.
  apply Hni, list_elem_of_fmap. by exists (n, i').
Qed.

(** Live sockets of the contexts the map holds never grow but by accepting. *)
Definition shrinks (rt rt' : runtime) : Prop :=
  forall name, name ∈ live_names rt' -> name ∈ live_names rt.

Lemma shrinks_refl rt : shrinks rt rt.
Proof. by intros name. Qed.

Lemma shrinks_trans rt1 rt2 rt3 : shrinks rt1 rt2 -> shrinks rt2 rt3 -> shrinks rt1 rt3.
Proof. intros H1 H2 name Hn. by apply H1, H2. Qed.

Lemma shrinks_sub rt rt' :
  (forall r, r ∈ rooms rt' -> r ∈ rooms rt \/ live_context rt' r.2 = []) ->
  (forall id, live_context rt id = [] -> live_context rt' id = []) -> shrinks rt rt'.
Proof.
  intros Hr Hl name (id & Hin & Hne)%elem_of_live_names. apply elem_of_live_names. exists id.
  destruct (Hr _ Hin) as [?|E]; [|done]. split; [done|]. intros E. by apply Hne, Hl.
Qed.

Lemma on_context_rooms id f rt : rooms (on_context id f rt) = rooms rt.
Proof. unfold on_context. by destruct (contexts rt !! id). Qed.

Lemma on_context_shrinks id f rt :
  (forall c, csockets c = [] -> csockets (f c) = []) -> shrinks rt (on_context id f rt).
Proof.
  intros Hf. apply shrinks_sub; [rewrite on_context_rooms; by left|]. intros i. unfold live_context, on_context, set_context.
  destruct (contexts rt !! id) as [c|] eqn:E; [|done]. cbn [contexts]. destruct (decide (id = i)) as [<-|].
  - rewrite lookup_insert_eq, E. apply Hf.
  - by rewrite lookup_insert_ne.
Qed.

Lemma maybeEvict_shrinks id rt : shrinks rt (maybeEvict id rt).
Proof.
  unfold maybeEvict, Runtime.evict. destruct (contexts rt !! id) as [c|]; [|apply shrinks_refl].
  destruct (_idle c); [|apply shrinks_refl]. destruct (bool_decide _); [|apply shrinks_refl].
  apply shrinks_sub; [|done]. cbn [rooms]. intros r [_ Hr]%list_elem_of_filter. by left.
Qed.

Lemma get_shrinks name p rt : registry_ok rt -> shrinks rt (Runtime.get name p rt).2.
Proof.
  intros Hok. unfold Runtime.get. destruct (registered rt name); [apply shrinks_refl|]. cbn [snd].
  assert (Hl : forall i, live_context (Runtime (<[next rt:=Context name [] [] (if closed rt then None else p) 0]> (contexts rt))
      (rooms rt ++ [(name, next rt)]) (closed rt) (S (next rt))) i = if decide (i = next rt) then [] else live_context rt i).
  { intros i. unfold live_context. cbn [contexts]. destruct (decide (i = next rt)) as [->|]; [by rewrite lookup_insert_eq|by rewrite lookup_insert_ne]. }
  apply shrinks_sub; cbn [rooms].
  - intros r [Hr|Hr]%elem_of_app; [by left|]. apply list_elem_of_singleton in Hr as ->. right. rewrite Hl. by rewrite decide_True.
  - intros i E. rewrite Hl. by destruct (decide _).
Qed.

Lemma rstep_shrinks e rt rt' : registry_ok rt -> accepts e = false -> rstep e rt = Some rt' -> shrinks rt rt'.
Proof.
  intros Hok Ha E. destruct e as [name p|id|id ws|id at_|id ws|id ws|id ws|id ws|id again|]; simpl in E, Ha; try done.
  - pose proof (get_shrinks name p rt Hok) as Hs. destruct (Runtime.get name p rt) as [id rt1]. injection E as <-.
    eapply shrinks_trans; [exact Hs|]. by apply on_context_shrinks.
  - destruct (contexts rt !! id); [|done]. simpl in E. destruct (0 <? _); [|done]. injection E as <-.
    eapply shrinks_trans; [|apply maybeEvict_shrinks]. by apply on_context_shrinks.
  - destruct (contexts rt !! id); [|done]. simpl in E. destruct (0 <? _); [|done]. injection E as <-.
    unfold _reschedule. destruct (closed rt); [apply shrinks_refl|by apply on_context_shrinks].
  - destruct (contexts rt !! id); [|done]. simpl in E. destruct (decide _); [|done]. injection E as <-. by apply on_context_shrinks.
  - destruct (contexts rt !! id); [|done]. simpl in E. destruct (_ && _); [|done]. injection E as <-. by apply on_context_shrinks.
  - injection E as <-. apply on_context_shrinks. by intros c ->.
  - injection E as <-. eapply shrinks_trans; [|apply maybeEvict_shrinks]. apply on_context_shrinks. by intros c ->.
  - destruct (contexts rt !! id); [|done]. simpl in E. destruct (calarm _); [|done]. injection E as <-. unfold _fire.
    destruct (closed rt); [apply shrinks_refl|]. 
    apply (shrinks_trans _ _ _ (on_context_shrinks id (fun c => Context (cname c) (csockets c) (cwired c) None (cpending c)) rt ltac:(done))).
    eapply shrinks_trans; [|apply maybeEvict_shrinks]. destruct again; [|apply shrinks_refl].
    unfold _reschedule. case_match; [apply shrinks_refl|by apply on_context_shrinks].
  - injection E as <-. intros name (id & Hin & _)%elem_of_live_names. by apply not_elem_of_nil in Hin.
Qed.

(** Accepting a socket on a context makes only its own room live. *)
Lemma accept_live id ws rt name c :
  registry_ok rt -> contexts rt !! id = Some c -> name ∈ live_names (acceptWebSocket id ws rt) -> name ∈ live_names rt \/ name = cname c.
Proof.
  intros Hok Ec (i & Hin & Hne)%elem_of_live_names. unfold acceptWebSocket in *. rewrite on_context_rooms in Hin.
  destruct (decide (i = id)) as [->|Hi].
  - right. destruct (reg_contexts rt Hok _ _ Hin) as (c' & Ec' & <-). congruence.
  - left. apply elem_of_live_names. exists i. split; [done|]. revert Hne. unfold live_context, on_context, set_context.
    rewrite Ec. cbn [contexts]. by rewrite lookup_insert_ne.
Qed.

(** An upgrade makes at most its own room live. *)
Lemma upgrade_live name p ws rt rt' :
  registry_ok rt -> rrun [RBegin name p; RAccept (Runtime.get name p rt).1 ws; REnd (Runtime.get name p rt).1] rt = Some rt' ->
  registry_ok rt' /\ forall n, n ∈ live_names rt' -> n ∈ live_names rt \/ n = name.
Proof.
  intros Hok E. assert (Hl : Forall not_late [RBegin name p; RAccept (Runtime.get name p rt).1 ws; REnd (Runtime.get name p rt).1])
    by by repeat constructor. split; [by eapply rrun_ok|].
  destruct (get_ok name p rt Hok) as (Hok1 & c & Ec & Hname & _). pose proof (get_shrinks name p rt Hok) as Hs1.
  cbn [rrun] in E. destruct (rstep (RBegin name p) rt) as [rt1|] eqn:E1; [|done]. cbn [mbind option_bind] in E.
  pose proof (rstep_ok (RBegin name p) _ _ I E1 Hok) as Hok2. pose proof (rstep_shrinks (RBegin name p) _ _ Hok eq_refl E1) as Hs2.
  destruct (rstep (RAccept _ ws) rt1) as [rt2|] eqn:E2; [|done]. cbn [mbind option_bind] in E.
  pose proof (rstep_ok (RAccept _ ws) _ _ I E2 Hok2) as Hok3.
  destruct (rstep (REnd _) rt2) as [rt3|] eqn:E3; [|done]. cbn [mbind option_bind] in E. injection E as <-.
  pose proof (rstep_shrinks (REnd _) _ _ Hok3 eq_refl E3) as Hs3. intros n Hn%Hs3.
  simpl in E1. destruct (Runtime.get name p rt) as [id rt0]. injection E1 as <-. cbn [fst snd] in *.
  assert (Ec1 : contexts (pin id rt0) !! id = Some (Context (cname c) (csockets c) (cwired c) (calarm c) (cpending c + 1))).
  { unfold pin, on_context, set_context. rewrite Ec. cbn [contexts]. by rewrite lookup_insert_eq. }
  simpl in E2. rewrite Ec1 in E2. simpl in E2. destruct (_ && _); [|done]. injection E2 as <-.
  destruct (accept_live _ _ _ _ _ Hok2 Ec1 Hn) as [H|H]; [left; by apply Hs2|right; by rewrite H].
Qed.

(** Closing a room takes it, and nobody else, off the lists. *)
Lemma close_gone rt name b name' :
  registry_ok rt -> name' ∈ liveRooms (Drain.evict rt name) b <-> name' ∈ liveRooms rt b /\ name' <> name.
Proof. intros Hok. exact (proj2 (closeRoom_spec rt name b Hok) name'). Qed.

Lemma close_ok rt name : registry_ok rt -> registry_ok (Drain.evict rt name).
Proof.
  intros Hok. change (registry_ok (closeRoom name rt).2). unfold closeRoom. destruct (registered rt name) as [id|]; [|done].
  cbn [snd]. generalize (live_context rt id). intros l. revert rt Hok. induction l as [|ws l IH]; intros rt Hok; [done|].
  by apply IH, delete_socket_ok.
Qed.

Lemma close_shrinks rt name : shrinks rt (Drain.evict rt name).
Proof.
  change (shrinks rt (closeRoom name rt).2). unfold closeRoom. destruct (registered rt name) as [id|]; [|apply shrinks_refl].
  cbn [snd]. generalize (live_context rt id). intros l. revert rt. induction l as [|ws l IH]; intros rt; [apply shrinks_refl|].
  eapply shrinks_trans; [|apply IH]. apply on_context_shrinks. by intros c ->.
Qed.

(** ** Lemmas: the scheduler under an adoption *)

Lemma elem_of_map_set_iff k ep l (p : Z * episode) :
  NoDup (map fst l) -> p ∈ map_set k ep l <-> p = (k, ep) \/ (p ∈ l /\ p.1 <> k).
Proof.
  intros Hnd. split; [by apply map_set_keys|]. clear Hnd. induction l as [|[k' e'] l IH]; simpl; [set_solver|].
  destruct (Z.eqb_spec k k') as [->|Hk]; rewrite ?elem_of_cons; [naive_solver|]. intros [->|[[->|Hin] Hne]]; [|by left|]; right; apply IH; auto.
Qed.

Section Adoption.
Context (now : Z).

Lemma relinquish_all l s :
  NoDup (map fst (draining s)) ->
  let s' := fold_left (fun s b => Drain.relinquish s now b) l s in
  NoDup (map fst (draining s')) /\ drainDelayMs s' = drainDelayMs s /\ rate s' = rate s /\ tokens s' = tokens s /\ lastRunMs s' = lastRunMs s
  /\ forall k ep, (k, ep) ∈ draining s' <->
       (k ∈ l /\ ep = Episode (now + drainDelayMs s) ∅) \/ (k ∉ l /\ (k, ep) ∈ draining s).
Proof.
  revert s. induction l as [|b l IH]; intros s Hnd; simpl; [split_and!; try done; intros; set_solver|].
  destruct (map_set_keys b (Episode (now + drainDelayMs s) ∅) _ Hnd) as [Hnd' _].
  destruct (IH (Drain.relinquish s now b) Hnd') as (H1 & H2 & H3 & H4 & H5 & H6). split_and!; try done.
  intros k ep. rewrite H6. cbn [Drain.relinquish draining drainDelayMs]. rewrite (elem_of_map_set_iff _ _ _ _ Hnd), elem_of_cons. simpl.
  split.
  - intros [[Hk ->]|[Hk [[= -> ->]|[Hin Hne]]]]; [left; tauto|left; tauto|right; tauto].
  - intros [[[->|Hk] ->]|[Hk Hin]]; [|left; tauto|right; tauto]. destruct (decide (b ∈ l)); [left; tauto|right; tauto].
Qed.

Lemma reacquire_all l s :
  NoDup (map fst (draining s)) ->
  let s' := fold_left (fun s b => Drain.reacquire s b) l s in
  NoDup (map fst (draining s')) /\ drainDelayMs s' = drainDelayMs s /\ rate s' = rate s /\ tokens s' = tokens s /\ lastRunMs s' = lastRunMs s
  /\ forall k ep, (k, ep) ∈ draining s' <-> k ∉ l /\ (k, ep) ∈ draining s.
Proof.
  revert s. induction l as [|b l IH]; intros s Hnd; simpl; [split_and!; try done; intros; set_solver|].
  destruct (IH (Drain.reacquire s b) (map_delete_keys b _ Hnd)) as (H1 & H2 & H3 & H4 & H5 & H6). split_and!; try done.
  intros k ep. rewrite H6. cbn [Drain.reacquire draining]. unfold map_delete. rewrite list_elem_of_filter. simpl. set_solver.
Qed.

Lemma applyShardDiff_spec d s :
  NoDup (map fst (draining s)) ->
  let s' := applyShardDiff now d s in
  NoDup (map fst (draining s')) /\ drainDelayMs s' = drainDelayMs s /\ rate s' = rate s /\ tokens s' = tokens s /\ lastRunMs s' = lastRunMs s
  /\ forall k ep, (k, ep) ∈ draining s' <->
       k ∉ acquired d /\ ((k ∈ relinquished d /\ ep = Episode (now + drainDelayMs s) ∅) \/ (k ∉ relinquished d /\ (k, ep) ∈ draining s)).
Proof.
  intros Hnd. unfold applyShardDiff. destruct (relinquish_all (elements (relinquished d)) s Hnd) as (H1 & H2 & H3 & H4 & H5 & H6).
  destruct (reacquire_all (elements (acquired d)) _ H1) as (G1 & G2 & G3 & G4 & G5 & G6).
  split_and!; [done|by rewrite G2|by rewrite G3|by rewrite G4|by rewrite G5|].
  intros k ep. by rewrite G6, H6, !elem_of_elements.
Qed.
End Adoption.

(** ** The invariant *)

(** [last] is the time of the latest event. *)
Record box_ok (delay : Z) (r : Q) (last : Z) (b : box) : Prop := {
  ok_reg : registry_ok (brt b);
  ok_keys : NoDup (map fst (draining (bdrain b)));
  ok_unowned : forall k ep, (k, ep) ∈ draining (bdrain b) -> k ∉ owned (bstore b);
  ok_live : forall n, n ∈ live_names (brt b) -> exists k, bucketForRoomName n = Some k
    /\ (k ∈ owned (bstore b) \/ exists ep, (k, ep) ∈ draining (bdrain b) /\ n ∉ evicted ep);
  ok_deadline : forall k ep, (k, ep) ∈ draining (bdrain b) -> deadline ep <= last + delay;
  ok_delay : drainDelayMs (bdrain b) = delay;
  ok_rate : rate (bdrain b) = r;
  ok_positive : (0 < r)%Q;
  ok_tokens : (0 <= tokens (bdrain b))%Q;
  ok_clock : lastRunMs (bdrain b) <= last;
}.

Lemma box_later delay r last now b : box_ok delay r last b -> last <= now -> box_ok delay r now b.
Proof. intros [] Hle. split; try done; [|lia]. intros k ep Hin. specialize (ok_deadline0 k ep Hin). lia. Qed.

(** A poll that adopts, or changes nothing. *)
Lemma box_poll_cases now fetched b :
  (exists m, let a := applyFetched (bstore b) m in
     adopted a.1 = true /\ box_poll now fetched b = Box a.2 (applyShardDiff now (diff a.1) (bdrain b)) (brt b))
  \/ (box_poll now fetched b = b /\ poll (bstore b) fetched = bstore b).
Proof.
  unfold box_poll, poll. destruct b as [s d rt]. cbn [bstore bdrain brt]. unfold fetchOnce.
  destruct fetched as [text|e]; [|by right]. destruct (rbind _ _) as [m|e]; [|by right].
  destruct (applyFetched s m) as [a s'] eqn:E. destruct (adopted a) eqn:Ea.
  - left. exists m. rewrite E. split; [done|]. by destruct a as [ad df]; cbn in *; subst.
  - right. unfold applyFetched in E. destruct (held s); [destruct (_ <=? _)|]; injection E as <- <-; try done.
Qed.

Lemma adopted_store s m : adopted (applyFetched s m).1 = true ->
  applyFetched s m = (Adoption true (diffOwned (owned s) (ownedBuckets m (selfHost s))), Store (selfHost s) (Some m) (ownedBuckets m (selfHost s)))
  /\ (applyFetched s m).2 <> s.
Proof.
  unfold applyFetched. destruct (held s) as [m'|] eqn:E.
  - destruct (Z.leb_spec (version m) (version m')); [done|]. intros _. split; [done|]. cbn [snd]. intros Eq. rewrite <-Eq in E. cbn in E. injection E as ->. lia.
  - intros _. split; [done|]. cbn [snd]. intros Eq. by rewrite <-Eq in E.
Qed.

Lemma box_poll_ok delay r last now fetched b :
  box_ok delay r last b -> last <= now -> box_ok delay r now (box_poll now fetched b).
Proof.
  intros [Hreg Hkeys Hun Hlive Hdl Hdelay Hrate Hpr Htok Hclk] Hle.
  destruct (box_poll_cases now fetched b) as [(m & Ha & E)|[E _]]; rewrite E.
  - apply adopted_store in Ha as [Ea _]. rewrite Ea. cbn [fst snd diff].
    destruct (applyShardDiff_spec now (diffOwned (owned (bstore b)) (ownedBuckets m (selfHost (bstore b)))) (bdrain b) Hkeys)
      as (H1 & H2 & H3 & H4 & H5 & H6).
    destruct (diffOwned_exact (owned (bstore b)) (ownedBuckets m (selfHost (bstore b)))) as (_ & D2 & D3 & D4 & D5).
    set (d := diffOwned _ _) in *. set (new := ownedBuckets _ _) in *.
    assert (Hrel : forall k, k ∈ relinquished d <-> k ∈ owned (bstore b) /\ k ∉ new) by (intros; apply elem_of_relinquished).
    assert (Hacq : forall k, k ∈ acquired d <-> k ∈ new /\ k ∉ owned (bstore b)) by (intros; apply elem_of_acquired).
    split; cbn [bstore bdrain brt owned]; try done; rewrite ?H2, ?H3, ?H4, ?H5; try done; [| | |lia].
    + intros k ep [Hna [[Hr _]|[_ Hin]]]%H6; [by apply Hrel in Hr as [_ ?]|]. intros Hk. apply Hna, Hacq. split; [done|by eapply Hun].
    + intros n (k & Hk & Hor)%Hlive. exists k. split; [done|]. destruct (decide (k ∈ new)) as [|Hn]; [by left|right].
      destruct (decide (k ∈ owned (bstore b))) as [Ho|Ho].
      * exists (Episode (now + drainDelayMs (bdrain b)) ∅). split; [|set_solver]. apply H6. rewrite Hacq, Hrel. split; [tauto|left; tauto].
      * destruct Hor as [?|(ep & Hep & Hne)]; [done|]. exists ep. split; [|done]. apply H6. rewrite Hacq, Hrel. split; [tauto|right; tauto].
    + intros k ep [_ [[_ ->]|[_ Hin]]]%H6; [simpl; lia|]. specialize (Hdl k ep Hin). lia.
  - split; try done; [|lia]. intros k ep Hin. specialize (Hdl k ep Hin). lia.
Qed.

(** The live rooms of buckets the box does not own. *)
Definition owns_room (b : box) (n : string) : bool :=
  match bucketForRoomName n with Some k => bool_decide (k ∈ owned (bstore b)) | None => false end.

Definition stranded (b : box) : list string := filter (fun n => owns_room b n = false) (live_names (brt b)).

Lemma owns_room_false b n : owns_room b n = false <-> forall k, bucketForRoomName n = Some k -> k ∉ owned (bstore b).
Proof. unfold owns_room. destruct (bucketForRoomName n) as [k|]; [rewrite bool_decide_eq_false|]; naive_solver. Qed.

Lemma elem_of_stranded b n :
  n ∈ stranded b <-> n ∈ live_names (brt b) /\ forall k, bucketForRoomName n = Some k -> k ∉ owned (bstore b).
Proof. unfold stranded. rewrite list_elem_of_filter, owns_room_false. tauto. Qed.

Lemma stranded_nodup b : registry_ok (brt b) -> NoDup (stranded b).
Proof. intros Hok. by apply NoDup_filter, live_names_nodup. Qed.

(** A pass, on the invariant: what it evicts, whom it leaves, and that with a
    token and every deadline past it gets on. *)
Lemma box_tick_spec delay r last now b ids b' :
  box_ok delay r last b -> last <= now -> box_tick now b = (ids, b') ->
  box_ok delay r now b'
  /\ (forall n, n ∈ ids -> n ∈ stranded b)
  /\ (forall n, n ∈ live_names (brt b') <-> n ∈ live_names (brt b) /\ n ∉ ids)
  /\ bstore b' = bstore b /\ lastRunMs (bdrain b') = now
  /\ (forall T, Forall (fun x : Z * episode => deadline x.2 <= T) (draining (bdrain b)) ->
        Forall (fun x : Z * episode => deadline x.2 <= T) (draining (bdrain b'))
        /\ (T <= now -> (1 <= accrue (bdrain b) now)%Q -> ids <> [] \/ draining (bdrain b') = [])).
Proof.
  intros [Hreg Hkeys Hun Hlive Hdl Hdelay Hrate Hpr Htok Hclk] Hle. unfold box_tick.
  destruct (Drain.run (bdrain b) now (brt b)) as [[ids' rt'] s'] eqn:Er. intros [= <- <-]. cbn [bstore bdrain brt].
  pose proof (run_tokens _ _ _ _ _ _ Er) as (Hr' & Hl' & _ & Hpos). pose proof Er as Er0. unfold Drain.run in Er.
  destruct (drain_buckets now (Pass (brt b) (accrue (bdrain b) now) []) (draining (bdrain b))) as [d p] eqn:Ed.
  injection Er as <- <- <-. cbn [draining drainDelayMs rate tokens lastRunMs] in *.
  pose proof (drain_buckets_keys _ _ _ _ _ Ed) as [Hsub Hkept].
  destruct (drain_buckets_live (fun rt => registry_ok rt /\ shrinks (brt b) rt)
    (fun w id '(conj H1 H2) => conj (close_ok w id H1) (shrinks_trans _ _ _ H2 (close_shrinks w id)))
    (fun w id k id' '(conj H1 _) => close_gone w id k id' H1) now (draining (bdrain b)) (Pass (brt b) (accrue (bdrain b) now) []) d p (conj Hreg (shrinks_refl (brt b))) Ed)
    as (new & Ho & [Hreg' Hshr] & Hnew & Hlive' & Hkeep & Hmore). cbn [out world left app] in *. subst new.
  change (@liveRooms runtime _) with roomsInBucket in *.
  assert (Hl : forall n, n ∈ live_names (world p) <-> n ∈ live_names (brt b) /\ n ∉ out p).
  { intros n. split.
    - intros Hn. apply Hshr in Hn as Hn0. destruct (Hlive n Hn0) as (k & Hk & _). specialize (Hlive' k n).
      rewrite !live_in_bucket in Hlive'. tauto.
    - intros [Hn0 Hni]. destruct (Hlive n Hn0) as (k & Hk & _). specialize (Hlive' k n). rewrite !live_in_bucket in Hlive'. tauto. }
  split_and!; try done.
  - split; cbn [bstore bdrain brt draining drainDelayMs rate tokens lastRunMs]; try done.
    + by eapply sublist_NoDup.
    + intros k ep (ep0 & Hin & _)%Hkept. by eapply Hun.
    + intros n [Hn Hni]%Hl. destruct (Hlive n Hn) as (k & Hk & Hor). exists k. split; [done|].
      destruct Hor as [?|(ep & Hep & Hne)]; [by left|right]. apply (Hkeep k ep n); [done| |done]. apply Hlive'. split; [|done]. by apply live_in_bucket.
    + intros k ep (ep0 & Hin & ->)%Hkept. specialize (Hdl k ep0 Hin). lia.
    + apply Hpos, accrue_nonneg; [rewrite Hrate; lra|done|lia].
  - intros n (k & ep & Hin & _ & [Hn Hk]%live_in_bucket)%Hnew. apply elem_of_stranded. split; [done|].
    intros k' Hk'. rewrite Hk in Hk'. injection Hk' as <-. by eapply Hun.
  - intros T HT. assert (HT' : Forall (fun x : Z * episode => deadline x.2 <= T) d).
    { rewrite Forall_forall in *. intros [k ep] (ep0 & Hin & E)%Hkept. specialize (HT _ Hin). simpl in *. lia. }
    split; [done|]. intros Hnow Hacc. destruct (Hmore Hacc) as [?|Hall]; [by left|right]. apply (work_nil_due (Scheduler 0 0 d 0 0) now); [done|].
    eapply Forall_impl; [exact HT'|]. simpl. lia.
Qed.

(** A change of the rooms that leaves store and scheduler alone. *)
Lemma box_rooms_ok delay r last now b rt' :
  box_ok delay r last b -> last <= now -> registry_ok rt' ->
  (forall n, n ∈ live_names rt' -> n ∈ live_names (brt b) \/ exists k, bucketForRoomName n = Some k /\ k ∈ owned (bstore b)) ->
  box_ok delay r now (Box (bstore b) (bdrain b) rt').
Proof.
  intros [Hreg Hkeys Hun Hlive Hdl Hdelay Hrate Hpr Htok Hclk] Hle Hreg' Hn. split; cbn [bstore bdrain brt]; try done; [| |lia].
  - intros n [Hin|(k & Hk & Ho)]%Hn; [by apply Hlive|]. exists k. split; [done|by left].
  - intros k ep Hin. specialize (Hdl k ep Hin). lia.
Qed.

Definition on_time (e : box_event) : Prop := match e with BRuntime r => not_late r | _ => True end.

(** What an entry must be: a pass evicts live rooms of other boxes' buckets only,
    an admitted upgrade is for a bucket of this box. *)
Definition entry_ok (b : box) (x : box_entry) : Prop :=
  match x with
  | EEvicted ids => forall n, n ∈ ids -> n ∈ stranded b
  | EUpgrade (Admit k) => exists k', k = Some k' /\ k' ∈ owned (bstore b)
  | _ => True
  end.

Lemma gate_admits b room k : gate b room = Admit k -> exists k', k = Some k' /\ bucketForRoomName room = Some k' /\ k' ∈ owned (bstore b).
Proof.
  unfold gate, ownershipDecision, ownsBucket. destruct (bucketForRoomName room) as [k'|]; [|done].
  case_bool_decide; [|done]. intros [= <-]. by exists k'.
Qed.

(** A step without an adoption. *)
Definition quiet (s : store) (e : box_event) : Prop := match e with BPoll f => poll s f = s | _ => True end.

Lemma box_step_ok delay r last now e b x b' :
  box_ok delay r last b -> last <= now -> on_time e -> box_step now e b = Some (x, b') ->
  box_ok delay r now b' /\ entry_ok b x.
Proof.
  intros Hok Hle He E. destruct e as [f| |room p ws|e]; cbn [box_step] in E.
  - injection E as <- <-. split; [by eapply box_poll_ok|done].
  - destruct (box_tick now b) as [ids b1] eqn:Et. injection E as <- <-.
    destruct (box_tick_spec _ _ _ _ _ _ _ Hok Hle Et) as (? & ? & _). by split.
  - unfold box_upgrade in E. destruct (gate b room) as [k|st reason k] eqn:Eg; cycle 1.
    + injection E as <- <-. split; [|done]. by eapply box_later.
    + destruct (rrun _ (brt b)) as [rt|] eqn:Er; [|done]. injection E as <- <-.
      apply gate_admits in Eg as (k' & -> & Hk & Ho). split; [|by exists k'].
      destruct (upgrade_live _ _ _ _ _ (ok_reg _ _ _ _ Hok) Er) as [Hreg' Hl].
      eapply box_rooms_ok; [done|done|done|]. intros n [?| ->]%Hl; [by left|right; by exists k'].
  - destruct (accepts e) eqn:Ea; [done|]. destruct (rstep e (brt b)) as [rt|] eqn:Er; [|done]. injection E as <- <-.
    pose proof (ok_reg _ _ _ _ Hok) as Hreg. split; [|done]. eapply box_rooms_ok; [done|done|by eapply rstep_ok|].
    intros n Hn. left. by apply (rstep_shrinks _ _ _ Hreg Ea Er).
Qed.

(** Without an adoption the buckets stay, the deadlines stay, and no room becomes
    stranded. *)
Lemma box_step_quiet delay r last now e b x b' :
  box_ok delay r last b -> last <= now -> on_time e -> quiet (bstore b) e -> box_step now e b = Some (x, b') ->
  bstore b' = bstore b /\ (forall n, n ∈ stranded b' -> n ∈ stranded b)
  /\ (forall T, Forall (fun x : Z * episode => deadline x.2 <= T) (draining (bdrain b)) ->
        Forall (fun x : Z * episode => deadline x.2 <= T) (draining (bdrain b')))
  /\ (draining (bdrain b) = [] -> draining (bdrain b') = [])
  /\ (e <> BTick -> lastRunMs (bdrain b') = lastRunMs (bdrain b)).
Proof.
  intros Hok Hle He Hq E. destruct e as [f| |room p ws|e]; cbn [box_step] in E.
  - injection E as <- <-. destruct (box_poll_cases now f b) as [(m & Ha & Eb)|[-> _]]; [|done]. exfalso.
    apply adopted_store in Ha as [_ Hne]. apply Hne. unfold quiet, poll in Hq. unfold box_poll in Eb.
    destruct (fetchOnce (bstore b) f) as [[res ev] s'] eqn:Ef. injection Eb as Es _. cbn [snd] in Hq. congruence.
  - destruct (box_tick now b) as [ids b1] eqn:Et. injection E as <- <-.
    destruct (box_tick_spec _ _ _ _ _ _ _ Hok Hle Et) as (_ & _ & Hl & Es & _ & HT). split_and!; [done| | | |done].
    + intros n [Hn%Hl Hk]%elem_of_stranded. apply elem_of_stranded. split; [apply Hn|]. intros k Ek. rewrite <-Es. by apply Hk.
    + intros T HT'. by apply HT.
    + intros Hnil. destruct (HT 0) as [H0 _]; [by rewrite Hnil|]. revert Et. unfold box_tick, Drain.run. rewrite Hnil. simpl. by intros [= _ <-].
  - unfold box_upgrade in E. destruct (gate b room) as [k|st reason k] eqn:Eg; [|by injection E as <- <-].
    destruct (rrun _ (brt b)) as [rt|] eqn:Er; [|done]. injection E as <- <-. split_and!; try done.
    apply gate_admits in Eg as (k' & -> & Hk & Ho). destruct (upgrade_live _ _ _ _ _ (ok_reg _ _ _ _ Hok) Er) as [_ Hl].
    intros n [Hn Hun]%elem_of_stranded. cbn [brt bstore] in *. apply elem_of_stranded. split; [|done].
    destruct (Hl n Hn) as [?| ->]; [done|]. by specialize (Hun _ Hk).
  - destruct (accepts e) eqn:Ea; [done|]. destruct (rstep e (brt b)) as [rt|] eqn:Er; [|done]. injection E as <- <-.
    split_and!; try done. intros n [Hn Hun]%elem_of_stranded. apply elem_of_stranded. split; [|done].
    by apply (rstep_shrinks _ _ _ (ok_reg _ _ _ _ Hok) Ea Er).
Qed.

(** *** Runs *)

(** Times that do not go back. *)
Fixpoint in_time (last : Z) (es : list (Z * box_event)) : Prop :=
  match es with [] => True | (now, _) :: es' => last <= now /\ in_time now es' end.

Fixpoint last_time (last : Z) (es : list (Z * box_event)) : Z :=
  match es with [] => last | (now, _) :: es' => last_time now es' end.

Lemma box_run_ok delay r es : forall last b h b',
  box_ok delay r last b -> in_time last es -> Forall (fun x => on_time x.2) es -> box_run es b = Some (h, b') ->
  box_ok delay r (last_time last es) b' /\ forall t b1 x, (t, b1, x) ∈ h -> entry_ok b1 x.
Proof.
  induction es as [|[now e] es IH]; intros last b h b' Hok Ht Hon E.
  - injection E as <- <-. split; [done|]. by intros ? ? ? ?%not_elem_of_nil.
  - destruct Ht as [Hle Ht]. apply Forall_cons in Hon as [He Hon]. cbn [box_run] in E.
    destruct (box_step now e b) as [[x b1]|] eqn:Es; [|done]. cbn [mbind option_bind] in E.
    destruct (box_run es b1) as [[h1 b2]|] eqn:Er; [|done]. injection E as <- <-.
    destruct (box_step_ok _ _ _ _ _ _ _ _ Hok Hle He Es) as [Hok1 Hx].
    destruct (IH _ _ _ _ Hok1 Ht Hon Er) as [Hok2 Hh]. split.
    + exact Hok2.
    + intros t b0 y [[= -> -> ->]|Hin]%elem_of_cons; [done|by eapply Hh].
Qed.

(** The passes from [T] on that have a token's worth of time since the pass before. *)
Fixpoint due_ticks (r : Q) (T last : Z) (es : list (Z * box_event)) : nat :=
  match es with
  | [] => 0%nat
  | (now, BTick) :: es' =>
      Nat.add (if (T <=? now) && Qle_bool 1000 (inject_Z (now - last) * r) then 1%nat else 0%nat) (due_ticks r T now es')
  | (_, _) :: es' => due_ticks r T last es'
  end.

(** A due pass ends every episode, or leaves fewer rooms stranded. *)
Lemma due_tick_progress delay r last now T b ids b' :
  box_ok delay r last b -> last <= now -> box_tick now b = (ids, b') ->
  Forall (fun x : Z * episode => deadline x.2 <= T) (draining (bdrain b)) -> T <= now ->
  (1000 <= inject_Z (now - lastRunMs (bdrain b)) * r)%Q ->
  draining (bdrain b') = [] \/ (length (stranded b') < length (stranded b))%nat.
Proof.
  intros Hok Hle E HT Hnow Hg. destruct (box_tick_spec _ _ _ _ _ _ _ Hok Hle E) as (Hok' & Hids & Hl & Es & _ & H).
  destruct (H T HT) as [_ Hmore]. destruct Hmore as [Hne|?]; [done| |right|by left].
  { apply accrue_token; [rewrite (ok_rate _ _ _ _ Hok); apply (ok_positive _ _ _ _ Hok)|apply (ok_tokens _ _ _ _ Hok)|].
    by rewrite (ok_rate _ _ _ _ Hok). }
  destruct ids as [|n ids]; [done|]. change (length (stranded b')) with (Nat.pred (length (n :: stranded b'))).
  assert (Hsub : n :: stranded b' ⊆+ stranded b).
  { apply NoDup_submseteq.
    - apply NoDup_cons. split; [|apply stranded_nodup, (ok_reg _ _ _ _ Hok')]. intros [[_ Hni]%Hl _]%elem_of_stranded. apply Hni. by left.
    - intros x [->|Hx]%elem_of_cons; [apply Hids; by left|]. apply elem_of_stranded in Hx as [[Hx _]%Hl Hk].
      apply elem_of_stranded. split; [done|]. intros k Ek. rewrite <-Es. by apply Hk. }
  apply submseteq_length in Hsub. simpl in Hsub |- *. lia.
Qed.

Lemma drain_run_completes delay r T es : forall last b h b',
  box_ok delay r last b -> in_time last es -> Forall (fun x => on_time x.2) es -> Forall (fun x => quiet (bstore b) x.2) es ->
  box_run es b = Some (h, b') -> Forall (fun x : Z * episode => deadline x.2 <= T) (draining (bdrain b)) ->
  (length (stranded b) < due_ticks r T (lastRunMs (bdrain b)) es)%nat \/ draining (bdrain b) = [] ->
  draining (bdrain b') = [] /\ bstore b' = bstore b.
Proof.
  induction es as [|[now e] es IH]; intros last b h b' Hok Ht Hon Hq E HT Hcount.
  - injection E as _ <-. destruct Hcount as [H|?]; [simpl in H; lia|done].
  - destruct Ht as [Hle Ht]. apply Forall_cons in Hon as [He Hon]. apply Forall_cons in Hq as [Hqe Hq]. cbn [box_run] in E.
    destruct (box_step now e b) as [[x b1]|] eqn:Es; [|done]. cbn [mbind option_bind] in E.
    destruct (box_run es b1) as [[h1 b2]|] eqn:Er; [|done]. injection E as _ <-. cbn [snd] in *.
    destruct (box_step_ok _ _ _ _ _ _ _ _ Hok Hle He Es) as [Hok1 _].
    destruct (box_step_quiet _ _ _ _ _ _ _ _ Hok Hle He Hqe Es) as (Hst & Hsub & HT1 & Hnil & Hlast).
    assert (Hlen : (length (stranded b1) <= length (stranded b))%nat).
    { apply submseteq_length, NoDup_submseteq; [apply stranded_nodup, (ok_reg _ _ _ _ Hok1)|done]. }
    rewrite <-Hst in Hq |- *. eapply (IH now b1); [done..|by apply HT1|].
    destruct Hcount as [Hc|Hc]; [|right; by apply Hnil]. destruct e as [f| |room p ws|e].
    1,3,4: left; cbn [due_ticks] in Hc; rewrite (Hlast ltac:(done)); lia.
    cbn [box_step] in Es. destruct (box_tick now b) as [ids b0] eqn:Et. injection Es as _ <-.
    destruct (box_tick_spec _ _ _ _ _ _ _ Hok Hle Et) as (_ & _ & _ & _ & Hrun & _). rewrite Hrun. cbn [due_ticks] in Hc.
    destruct (T <=? now) eqn:Hn; cbn [andb] in Hc; [|left; lia].
    destruct (Qle_bool 1000 _) eqn:Hg; [|left; lia]. apply Z.leb_le in Hn. apply Qle_bool_iff in Hg.
    destruct (due_tick_progress _ _ _ _ _ _ _ _ Hok Hle Et HT Hn Hg); [by right|left; lia].
Qed.

(** A box that has just booted. *)
Lemma rehydrate_ok names : forall rt, registry_ok rt -> live_names rt = [] ->
  registry_ok (rehydrate names rt) /\ live_names (rehydrate names rt) = [].
Proof.
  induction names as [|[name p] names IH]; intros rt Hok Hl; [done|]. cbn [rehydrate].
  pose proof (get_ok name p rt Hok) as (Hok1 & _). pose proof (get_shrinks name p rt Hok) as Hs.
  destruct (Runtime.get name p rt) as [id rt1]. cbn [snd fst] in *. apply IH; [by apply maybeEvict_ok|].
  destruct (live_names (maybeEvict id rt1)) as [|n l] eqn:E; [done|]. exfalso.
  assert (Hn : n ∈ live_names (maybeEvict id rt1)) by (rewrite E; by left).
  apply maybeEvict_shrinks, Hs in Hn. rewrite Hl in Hn. by apply not_elem_of_nil in Hn.
Qed.

Lemma boot_ok self delay r now names fetched n b :
  boot self delay r now names fetched n = Ok b -> (0 < r)%Q -> box_ok delay r now b /\ hasMap (bstore b) = true.
Proof.
  unfold boot. intros (s & Hs & [= <-])%rbind_ok Hr. pose proof (bootstrap_needs_map fetched n (new_store self)) as Hb. rewrite Hs in Hb.
  destruct (rehydrate_ok names new_runtime new_runtime_ok eq_refl) as [Hok Hl]. split; [|done].
  split; cbn [bstore bdrain brt new_scheduler draining drainDelayMs rate tokens lastRunMs]; try done.
  all: try by intros k ep ?%not_elem_of_nil.
  - apply NoDup_nil_2.
  - intros x. rewrite Hl. by intros ?%not_elem_of_nil.
Qed.

(** ** Properties *)

(** C19: Resharding never touches the rooms a box keeps, and forgets none that it
    gives up.  From boot, in every order of polls, drain passes, upgrades,
    requests, frames, closes and alarms: a pass evicts only live rooms of buckets
    the box does not own; an upgrade is let in only to a bucket it owns; and
    every live room is in a bucket it owns or in one that still drains and has
    not evicted it yet. *)
Theorem reshard_safe (self : string) (delay : Z) (r : Q) (t0 : Z) (names : list (string * option Z))
    (fetched : nat -> result string string) (bootMaxRetries : Z) (b0 : box) (es : list (Z * box_event))
    (h : list (Z * box * box_entry)) (b : box) :
  boot self delay r t0 names fetched bootMaxRetries = Ok b0 -> (0 < r)%Q ->
  in_time t0 es -> Forall (fun x => on_time x.2) es -> box_run es b0 = Some (h, b) ->
  (forall t b1 ids n, (t, b1, EEvicted ids) ∈ h -> n ∈ ids ->
     n ∈ live_names (brt b1) /\ forall k, bucketForRoomName n = Some k -> k ∉ owned (bstore b1))
  /\ (forall t b1 k, (t, b1, EUpgrade (Admit k)) ∈ h -> exists k', k = Some k' /\ k' ∈ owned (bstore b1))
  /\ (forall n, n ∈ live_names (brt b) -> exists k, bucketForRoomName n = Some k
       /\ (k ∈ owned (bstore b) \/ exists ep, (k, ep) ∈ draining (bdrain b) /\ n ∉ evicted ep)).
Proof.
  intros Hb Hr Ht Hon E. destruct (boot_ok _ _ _ _ _ _ _ _ Hb Hr) as [Hok _].
  destruct (box_run_ok _ _ _ _ _ _ _ Hok Ht Hon E) as [Hok' Hh]. split_and!; [| |apply Hok'].
  - intros t b1 ids n Hin Hn. by apply elem_of_stranded, (Hh _ _ _ Hin).
  - intros t b1 k Hin. exact (Hh _ _ _ Hin).
Qed.

(** C20: Resharding completes.  Once a box has adopted a map and no newer one
    arrives, drain passes a token's worth of time apart, after the drain delay,
    one more of them than there are rooms to move, end every episode, whatever
    else happens in between; from then on each live room is in a bucket the box
    owns. *)
Theorem resharding_completes (self : string) (delay : Z) (r : Q) (t0 : Z) (names : list (string * option Z))
    (fetched : nat -> result string string) (bootMaxRetries : Z) (b0 b1 b2 : box) (es1 es2 : list (Z * box_event))
    (h1 h2 : list (Z * box * box_entry)) :
  boot self delay r t0 names fetched bootMaxRetries = Ok b0 -> (0 < r)%Q ->
  in_time t0 es1 -> Forall (fun x => on_time x.2) es1 -> box_run es1 b0 = Some (h1, b1) ->
  in_time (last_time t0 es1) es2 -> Forall (fun x => on_time x.2) es2 -> box_run es2 b1 = Some (h2, b2) ->
  Forall (fun x => quiet (bstore b1) x.2) es2 ->
  (length (stranded b1) < due_ticks r (last_time t0 es1 + delay) (lastRunMs (bdrain b1)) es2)%nat ->
  draining (bdrain b2) = [] /\ bstore b2 = bstore b1
  /\ forall n, n ∈ live_names (brt b2) -> exists k, bucketForRoomName n = Some k /\ k ∈ owned (bstore b1).
Proof.
  intros Hb Hr Ht1 Hon1 E1 Ht2 Hon2 E2 Hq Hc. destruct (boot_ok _ _ _ _ _ _ _ _ Hb Hr) as [Hok _].
  destruct (box_run_ok _ _ _ _ _ _ _ Hok Ht1 Hon1 E1) as [Hok1 _].
  assert (HT : Forall (fun x : Z * episode => deadline x.2 <= last_time t0 es1 + delay) (draining (bdrain b1))).
  { apply Forall_forall. intros [k ep] Hin. by apply (ok_deadline _ _ _ _ Hok1 k). }
  destruct (drain_run_completes _ _ _ _ _ _ _ _ Hok1 Ht2 Hon2 Hq E2 HT (or_introl Hc)) as [Hnil Hst].
  split_and!; [done|done|]. destruct (box_run_ok _ _ _ _ _ _ _ Hok1 Ht2 Hon2 E2) as [Hok2 _]. intros n Hn.
  destruct (ok_live _ _ _ _ Hok2 n Hn) as (k & Hk & [Ho|(ep & Hep & _)]); [|rewrite Hnil in Hep; by apply not_elem_of_nil in Hep].
  exists k. by rewrite <-Hst.
Qed.

(** *** A box that loses a bucket with a room in it *)

Definition first_map : string := requote "{'version':1,'ranges':[{'low':0,'high':3,'host':'a.example'},{'low':4,'high':65535,'host':'b.example'}]}".
Definition next_map : string :=
  requote "{'version':2,'ranges':[{'low':0,'high':0,'host':'b.example'},{'low':1,'high':3,'host':'a.example'},{'low':4,'high':65535,'host':'b.example'}]}".
Definition low_room : string := "0000000000000000000000000000000000000000000000000000000000000000".
Definition some_boot : result string box := boot "a.example" 20000 1 0 [] (fun _ => Ok first_map) 1.
Definition before_moving : list (Z * box_event) := [(10, BUpgrade low_room None 1); (100, BPoll (Ok next_map))].
Definition while_moving : list (Z * box_event) := [(200, BUpgrade low_room None 2); (20100, BTick); (21100, BTick)].

Definition moved : option (list string * list string * list Z * list string) :=
  match some_boot with
  | Ok b0 =>
      '(_, b1) ← box_run before_moving b0; '(h2, b2) ← box_run while_moving b1;
      Some (stranded b1, concat (List.map (fun x => match x.2 with EEvicted ids => ids | _ => [] end) h2),
            List.map fst (draining (bdrain b2)), live_names (brt b2))
  | Err _ => None
  end.

(** The room lives on the box before the move and the late upgrade is refused. *)
Lemma moved_away : moved = Some ([low_room], [low_room], [], []).
Proof. vm_compute. reflexivity. Qed.

Lemma resharding_completes_witness :
  exists b0 b1 b2 h1 h2, some_boot = Ok b0 /\ box_run before_moving b0 = Some (h1, b1) /\ box_run while_moving b1 = Some (h2, b2)
    /\ stranded b1 = [low_room] /\ draining (bdrain b2) = [] /\ bstore b2 = bstore b1.
Proof.
  assert (Hm : moved = Some ([low_room], [low_room], [], [])) by (vm_compute; reflexivity). unfold moved in Hm.
  assert (Hlast : forall b0 h1 b1, some_boot = Ok b0 -> box_run before_moving b0 = Some (h1, b1) -> lastRunMs (bdrain b1) = 0).
  { assert (Hc : match some_boot with
                 | Ok b0 => match box_run before_moving b0 with Some (_, b1) => lastRunMs (bdrain b1) =? 0 | None => true end
                 | Err _ => true end = true) by (vm_compute; reflexivity).
    intros b0 h1 b1 E0 E1. rewrite E0, E1 in Hc. by apply Z.eqb_eq in Hc. }
  destruct some_boot as [b0|] eqn:E0; [|discriminate]. destruct (box_run before_moving b0) as [[h1 b1]|] eqn:E1; [|discriminate].
  cbn [mbind option_bind] in Hm. destruct (box_run while_moving b1) as [[h2 b2]|] eqn:E2; [|discriminate].
  cbn [mbind option_bind] in Hm. injection Hm as Hs _ _ _. exists b0, b1, b2, h1, h2.
  pose proof E0 as Hboot. unfold some_boot in Hboot.
  destruct (resharding_completes "a.example" 20000 1 0 [] (fun _ => Ok first_map) 1 b0 b1 b2 before_moving while_moving h1 h2)
    as (Hd & Hst & _); [exact Hboot|done|clear; unfold before_moving, while_moving; cbn [app in_time last_time]; lia|by repeat constructor|exact E1|clear; unfold before_moving, while_moving; cbn [app in_time last_time]; lia|by repeat constructor|exact E2|by repeat constructor| |].
  { rewrite Hs, (Hlast b0 h1 b1 eq_refl E1). vm_compute. lia. }
  by split_and!.
Defined.

Lemma reshard_safe_witness :
  exists b0 h b, some_boot = Ok b0 /\ box_run (before_moving ++ while_moving) b0 = Some (h, b)
    /\ forall n, n ∈ live_names (brt b) -> exists k, bucketForRoomName n = Some k
         /\ (k ∈ owned (bstore b) \/ exists ep, (k, ep) ∈ draining (bdrain b) /\ n ∉ evicted ep).
Proof.
  assert (Hc : match some_boot with Ok b0 => bool_decide (is_Some (box_run (before_moving ++ while_moving) b0)) | Err _ => false end = true)
    by (vm_compute; reflexivity).
  destruct some_boot as [b0|] eqn:E0; [|discriminate]. apply bool_decide_eq_true in Hc as [[h b] E].
  exists b0, h, b. split; [done|]. split; [done|].
  pose proof E0 as Hboot. unfold some_boot in Hboot.
  apply (reshard_safe "a.example" 20000 1 0 [] (fun _ => Ok first_map) 1 b0 (before_moving ++ while_moving) h b Hboot);
    [done|clear; unfold before_moving, while_moving; cbn [app in_time last_time]; lia|by repeat constructor|exact E].
Defined.
