(* ===== verification/Monitor.v ===== *)
(** The monitor's analysis ([monitor/src/monitor.js]): configuration, snapshots,
    counter deltas, hourly baselines, the alert rules, the alert cooldown, the
    rooms it probes a host with and the probe handshake.

    An alert keeps what its title and body interpolate as a [finding]; the
    English around it and the decimal rendering are left out.  Fractions and
    durations of the configuration are exact decimals ([Q]); counters, gauges
    and times are integers. *)

From Stdlib Require Import QArith Qround Ascii.
From S2P Require Import Prelude Bytes Json.
#[local] Open Scope Z_scope.

(** ** Numbers *)

(** [x >= y] and [x < y] *)
Definition qge (x y : Q) : bool := Qle_bool y x.
Definition qlt (x y : Q) : bool := negb (Qle_bool y x).

(** [Math.round] *)
Definition math_round (x : Q) : Z := Qfloor (x + (1 # 2))%Q.

Definition is_js_space (c : ascii) : bool :=
  let n := nat_of_ascii c in (Nat.leb 9 n && Nat.leb n 13) || Nat.eqb n 32.

Fixpoint trim_left (l : list ascii) : list ascii :=
  match l with c :: l' => if is_js_space c then trim_left l' else l | [] => [] end.

(** [s.trim()], on ASCII white space *)
Definition trim (s : string) : list ascii :=
  rev (trim_left (rev (trim_left (String.list_ascii_of_string s)))).

(** [m * 10^e] *)
Definition scaled (m e : Z) : Q :=
  if 0 <=? e then inject_Z (m * 10 ^ e) else Qmake m (Z.to_pos (10 ^ (- e))).

(** The digits of a literal in base 2, 8 or 16, all of them. *)
Fixpoint radix_digits (base : Z) (l : list ascii) (acc : Z) : option Z :=
  match l with
  | [] => Some acc
  | c :: l' =>
      d ← hex_any c;
      if d <? base then radix_digits base l' (acc * base + d) else None
  end.

(** An unsigned decimal literal of [Number]: digits, a fraction, an exponent. *)
Definition unsigned_decimal (l : list ascii) : option Q :=
  let '(m, n, l1) := read_digits l 0 0 in
  let '(m, k, l2) := match l1 with
                     | c :: r => if is_char 46 c then read_digits r m 0 else (m, 0, l1)
                     | [] => (m, 0, [])
                     end in
  if n + k =? 0 then None else
  match read_exp l2 with
  | Some (e, []) => Some (scaled m (e - k))
  | _ => None
  end.

(** Past this, a literal is read as [Infinity]. *)
Definition double_overflow : Q := inject_Z (2 ^ 1024 - 2 ^ 970).

(** [Number(v)] of a non-blank string, where it is finite *)
Definition finite_number (v : string) : option Q :=
  match trim v with
  | z :: x :: r =>
      if is_char 48 z && (is_char 120 x || is_char 88 x) && negb (Nat.eqb (length r) 0) then
        inject_Z <$> radix_digits 16 r 0
      else if is_char 48 z && (is_char 111 x || is_char 79 x) && negb (Nat.eqb (length r) 0) then
        inject_Z <$> radix_digits 8 r 0
      else if is_char 48 z && (is_char 98 x || is_char 66 x) && negb (Nat.eqb (length r) 0) then
        inject_Z <$> radix_digits 2 r 0
      else if is_char 45 z then Qopp <$> unsigned_decimal (x :: r)
      else if is_char 43 z then unsigned_decimal (x :: r)
      else unsigned_decimal (z :: x :: r)
  | l => unsigned_decimal l
  end ≫= fun q => if qlt q double_overflow && qlt (Qopp q) double_overflow then Some q else None.

(** ** Configuration *)

Abbreviation env := (gmap string string).

Record config := Config {
  staleMs : Q; probeTimeoutMs : Q;
  socketsCap : Q; roomsCap : Q; capWarnFrac : Q; capCritFrac : Q;
  errorRatio : Q; errorMinRequests : Q; exceptionThreshold : Q; shardFetchThreshold : Q;
  spikeFactor : Q; dropFactor : Q; minBaseline : Q; minSamples : Q; maxSamples : Q;
  cooldownMs : Q; alertFailStreak : Q;
  pushTimeoutCrit : Q; pushFailMinAttempts : Q; pushFailRatio : Q;
  peerOutboxStreak : Q; peerSkewWarnMs : Q; peerSkewCritMs : Q; peerSilentMs : Q;
}.

(** [n(v, d)]: a blank or unreadable variable is the default. *)
Definition env_number (v : option string) (d : Q) : Q :=
  match v with
  | Some s => if bool_decide (trim s = []) then d else default d (finite_number s)
  | None => d
  end.

Definition qmax (x y : Q) : Q := if Qle_bool x y then y else x.

Definition parseConfig (e : env) : config :=
  let n k d := env_number (e !! k) d in
  let minS := n "MIN_SAMPLES"%string 4%Q in
  let maxS := n "MAX_SAMPLES"%string 8%Q in
  {| staleMs := n "STALE_MINUTES"%string 5 * 60 * 1000;
     probeTimeoutMs := n "PROBE_TIMEOUT_MS"%string 10000;
     socketsCap := n "SOCKETS_CAP"%string 200000;
     roomsCap := n "ROOMS_CAP"%string 200000;
     capWarnFrac := n "CAP_WARN_FRAC"%string (7 # 10);
     capCritFrac := n "CAP_CRIT_FRAC"%string (9 # 10);
     errorRatio := n "ERROR_RATIO"%string (5 # 100);
     errorMinRequests := n "ERROR_MIN_REQUESTS"%string 100;
     exceptionThreshold := n "EXCEPTION_THRESHOLD"%string 1;
     shardFetchThreshold := n "SHARD_FETCH_THRESHOLD"%string 1;
     spikeFactor := n "SPIKE_FACTOR"%string 3;
     dropFactor := n "DROP_FACTOR"%string (3 # 10);
     minBaseline := n "MIN_BASELINE"%string 50;
     minSamples := minS;
     maxSamples := qmax maxS minS;
     cooldownMs := n "COOLDOWN_MINUTES"%string 360 * 60 * 1000;
     alertFailStreak := qmax 1 (n "ALERT_FAIL_STREAK"%string 2);
     pushTimeoutCrit := n "PUSH_TIMEOUT_CRIT"%string 3;
     pushFailMinAttempts := n "PUSH_FAIL_MIN_ATTEMPTS"%string 5;
     pushFailRatio := n "PUSH_FAIL_RATIO"%string (8 # 10);
     peerOutboxStreak := qmax 1 (n "PUSH_PEER_OUTBOX_STREAK"%string 3);
     peerSkewWarnMs := n "PUSH_PEER_SKEW_WARN_MS"%string 2000;
     peerSkewCritMs := n "PUSH_PEER_SKEW_CRIT_MS"%string 30000;
     peerSilentMs := n "PUSH_PEER_SILENT_MS"%string (10 * 60 * 1000) |}%Q.

Example config_values :
  let c := parseConfig {[ "STALE_MINUTES" := "  "; "CAP_WARN_FRAC" := " 0.75 "; "COOLDOWN_MINUTES" := "1e1";
                          "ALERT_FAIL_STREAK" := "0"; "SOCKETS_CAP" := "0x10"; "ROOMS_CAP" := "lots" ]}%string in
  Qred (staleMs c) = 300000%Q /\ Qred (capWarnFrac c) = (3 # 4)%Q /\ Qred (cooldownMs c) = 600000%Q
  /\ Qred (alertFailStreak c) = 1%Q /\ socketsCap c = 16%Q /\ roomsCap c = 200000%Q.
Proof. vm_compute. repeat split. Qed.

(** ** Samples and hours *)

Definition median (nums : list Z) : option Q :=
  let s := merge_sort Z.le nums in
  let mid := (length s / 2)%nat in
  if Nat.eqb (length nums) 0 then None
  else if Nat.eqb (length s mod 2) 1 then Some (inject_Z (default 0 (s !! mid)))
  else let sum := default 0 (s !! (mid - 1)%nat) + default 0 (s !! mid) in Some (inject_Z sum / 2)%Q.

(** Truncation toward zero, as [slice] does with its argument. *)
Definition qtrunc (x : Q) : Z := if Qle_bool 0 x then Qfloor x else Qceiling x.

(** [arr.slice(-m)]: [-0] is 0, which keeps everything. *)
Definition slice_last {A : Type} (m : Q) (l : list A) : list A :=
  let s := qtrunc (- m)%Q in
  if s <? 0 then drop (Z.to_nat (Z.of_nat (length l) + s)) l else drop (Z.to_nat s) l.

Abbreviation history := (gmap Z (list Z)).

Definition pushSample (h : history) (hourOfWeek value : Z) (max : Q) : history :=
  <[hourOfWeek := slice_last max (default [] (h !! hourOfWeek) ++ [value])]> h.

Definition HOUR_MS : Z := 3600000.

(** The clock hour of a time, named by its start (the ISO text left out). *)
Definition hourKey (ms : Z) : Z := ms / HOUR_MS * HOUR_MS.

(** 0 to 167, Monday 00:00 UTC being 0. *)
Definition hourOfWeek (hour : Z) : Z :=
  let day := (4 + hour / 86400000) mod 7 in
  let dow := (day + 6) mod 7 in
  dow * 24 + hour / HOUR_MS mod 24.

(** ** Alerts *)

Inductive severity : Type := warn | critical.
#[export] Instance severity_eq_dec : EqDecision severity.
Proof. solve_decision. Defined.

(** What the title and the body of an alert report. *)
Inductive finding : Type :=
| FCap (label : string) (used : Z) (cap : Q) (pct : Z)
| FErrors (errors requests : Z)
| FExceptions (count : Z) (threshold : Q)
| FShardFetch (count : Z) (threshold : Q)
| FLiveness (detail : string)
| FProbe (detail : string)
| FTest
| FSpike (label : string) (current : Z) (base : Q)
| FDrop (label : string) (current : Z) (base : Q)
| FScrape (error : string)
| FTimeouts (timeouts delivered : Q)
| FAuth (rejects : Q)
| FPushFailures (failed attempts : Q)
| FPeerSilent (minutes : option Z)
| FPeerOutbox (queued : Q) (checks : Z)
| FPeerSkew (ms : Q)
| FPeerDropped (n : Q)
| FPeerRejected (n : Q).

(** [aprefix]: the host a fleet alert's title starts with. *)
Record alert := Alert { akey : string; aseverity : severity; aprefix : option string; afinding : finding }.

Record meter := Meter { mkey : string; mlabel : string; used : Z; cap : Q; warnFrac : Q; critFrac : Q }.

Definition capAlert (m : meter) : option alert :=
  if Qeq_bool (cap m) 0 then None else
  let frac := (inject_Z (used m) / cap m)%Q in
  let pct := math_round (frac * 100)%Q in
  let what := FCap (mlabel m) (used m) (cap m) pct in
  if qge frac (critFrac m) then Some (Alert ("cap:" +:+ mkey m) critical None what)
  else if qge frac (warnFrac m) then Some (Alert ("cap:" +:+ mkey m) warn None what)
  else None.

Definition capAlerts (meters : list meter) : list alert := omap capAlert meters.

Definition errorAlert (requests errors : Z) (ratioThreshold minRequests : Q) : option alert :=
  if qlt (inject_Z requests) minRequests then None else
  let ratio := if 0 <? requests then (inject_Z errors / inject_Z requests)%Q else 0%Q in
  if qlt ratio ratioThreshold then None else
  Some (Alert "errors" (if qge ratio (ratioThreshold * 2)%Q then critical else warn) None
          (FErrors errors requests)).

Definition threshold_severity (count : Z) (threshold : Q) : severity :=
  if qge (inject_Z count) (threshold * 5)%Q then critical else warn.

Definition exceptionAlert (count : Z) (threshold : Q) : option alert :=
  if (count =? 0) || qlt (inject_Z count) threshold then None else
  Some (Alert "exceptions" (threshold_severity count threshold) None (FExceptions count threshold)).

Definition shardFetchErrorAlert (count : Z) (threshold : Q) : option alert :=
  if (count =? 0) || qlt (inject_Z count) threshold then None else
  Some (Alert "shard_fetch" (threshold_severity count threshold) None (FShardFetch count threshold)).

Definition livenessAlert (detail : string) : alert := Alert "liveness" critical None (FLiveness detail).
Definition probeAlert (detail : string) : alert := Alert "probe" critical None (FProbe detail).

Definition anomalyAlert (key label : string) (current : Z) (samples : list Z)
    (spikeFactor dropFactor minBaseline minSamples : Q) : option alert :=
  if qlt (inject_Z (Z.of_nat (length samples))) minSamples then None else
  match median samples with
  | None => None
  | Some base =>
      if qlt base minBaseline then None
      else if qge (inject_Z current) (base * spikeFactor)%Q then
        Some (Alert ("anomaly:" +:+ key) warn None (FSpike label current base))
      else if Qle_bool (inject_Z current) (base * dropFactor)%Q then
        Some (Alert ("anomaly:" +:+ key) warn None (FDrop label current base))
      else None
  end.

(** ** Snapshots, deltas and hours *)

Record counters := Counters { requests : Z; errors : Z; exceptions : Z; shardMapFetchErrors : Z }.
Record gauges := Gauges { socketsLive : Z; roomsLive : Z }.

(** [s.name || 0] of a count *)
Definition count_of (v : option json) : Z := default 0 (jinteger v).

(** [normalizeSnapshot(s)]; a snapshot that is [null] throws. *)
Definition normalizeSnapshot (s : json) : result string (counters * gauges) :=
  (let! r := jprop s "http_requests_total" in
   let! e := jprop s "http_errors_total" in
   let! x := jprop s "process_exceptions_total" in
   let! f := jprop s "shard_map_fetch_errors_total" in
   let! k := jprop s "sockets_live" in
   let! m := jprop s "rooms_live" in
   Ok (Counters (count_of r) (count_of e) (count_of x) (count_of f), Gauges (count_of k) (count_of m)))%res.

Record interval := Interval { reset : bool; irequests : Z; ierrors : Z; iexceptions : Z; ishard : Z }.

Definition deltas (prev : option counters) (cur : counters) : interval :=
  let reset := Interval true 0 0 0 0 in
  match prev with
  | None => reset
  | Some prev =>
      if (requests cur <? requests prev) || (errors cur <? errors prev) || (exceptions cur <? exceptions prev)
         || (shardMapFetchErrors cur <? shardMapFetchErrors prev) then reset
      else Interval false (requests cur - requests prev) (errors cur - errors prev)
             (exceptions cur - exceptions prev) (shardMapFetchErrors cur - shardMapFetchErrors prev)
  end.

(** The counters at the start of an hour, or the traffic of a completed one. *)
Record hour := Hour { hkey : Z; hrequests : Z; herrors : Z }.

Definition rollHour (anchor : option hour) (cur : counters) (nowHourKey : Z) : option hour * hour :=
  let seed := Hour nowHourKey (requests cur) (errors cur) in
  match anchor with
  | None => (None, seed)
  | Some a =>
      if requests cur <? hrequests a then (None, seed)
      else if nowHourKey =? hkey a then (None, a)
      else (Some (Hour (hkey a) (requests cur - hrequests a) (errors cur - herrors a)), seed)
  end.

(** ** The checks of one tick *)

Record analysis := Analysis { aalerts : list alert; ahistory : history; alastRecordedHour : option Z }.

Definition analyze (g : gauges) (i : interval) (lastHour : option hour) (h : history)
    (lastRecordedHour : option Z) (c : config) : analysis :=
  let caps := capAlerts [Meter "sockets" "Live sockets" (socketsLive g) (socketsCap c) (capWarnFrac c) (capCritFrac c);
                         Meter "rooms" "Live rooms" (roomsLive g) (roomsCap c) (capWarnFrac c) (capCritFrac c)] in
  let rates := if reset i then [] else
    option_list (errorAlert (irequests i) (ierrors i) (errorRatio c) (errorMinRequests c))
    ++ option_list (exceptionAlert (iexceptions i) (exceptionThreshold c))
    ++ option_list (shardFetchErrorAlert (ishard i) (shardFetchThreshold c)) in
  match lastHour with
  | None => Analysis (caps ++ rates) h lastRecordedHour
  | Some lh =>
      let how := hourOfWeek (hkey lh) in
      let an := anomalyAlert "requests" "Hourly requests" (hrequests lh) (default [] (h !! how))
                  (spikeFactor c) (dropFactor c) (minBaseline c) (minSamples c) in
      let alerts := caps ++ rates ++ option_list an in
      if bool_decide (lastRecordedHour = Some (hkey lh)) then Analysis alerts h lastRecordedHour
      else Analysis alerts (pushSample h how (hrequests lh) (maxSamples c)) (Some (hkey lh))
  end.

(** ** Cooldown *)

(** What the [sentAt] object holds: a time under an alert's key, its severity
    under the key with [":sev"]. *)
Inductive sent : Type := SentAt (ms : Z) | SentSev (s : severity).
Abbreviation sent_map := (gmap string sent).

Definition sev_key (k : string) : string := k +:+ ":sev".

Definition is_due (prev : sent_map) (now : Z) (cooldown : Q) (a : alert) : bool :=
  let escalated := match prev !! sev_key (akey a) with
                   | Some (SentSev warn) => bool_decide (aseverity a = critical)
                   | _ => false
                   end in
  let cool := match prev !! akey a with
              | None => true
              | Some (SentAt last) => qge (inject_Z (now - last)) cooldown
              | Some (SentSev _) => false
              end in
  escalated || cool.

(** One round of the loop of [dueAlerts]; storing [undefined] is not storing. *)
Definition due_step (prev : sent_map) (now : Z) (cooldown : Q) (acc : list alert * sent_map) (a : alert)
    : list alert * sent_map :=
  let '(due, sentAt) := acc in
  if is_due prev now cooldown a then
    (due ++ [a], <[sev_key (akey a) := SentSev (aseverity a)]> (<[akey a := SentAt now]> sentAt))
  else
    (due, <[sev_key (akey a) := SentSev (aseverity a)]>
            match prev !! akey a with Some last => <[akey a := last]> sentAt | None => delete (akey a) sentAt end).

Definition dueAlerts (alerts : list alert) (prev : sent_map) (now : Z) (cooldown : Q) : list alert * sent_map :=
  fold_left (due_step prev now cooldown) alerts ([], ∅).

(** ** What the cooldown remembers *)

Lemma qge_spec x y : qge x y = true <-> (y <= x)%Q.
Proof. apply Qle_bool_iff. Qed.

Lemma qlt_spec x y : qlt x y = true <-> (x < y)%Q.
Proof.
  unfold qlt. rewrite negb_true_iff, <-not_true_iff_false, Qle_bool_iff. split; [apply Qnot_le_lt|apply Qlt_not_le].
Qed.

(** Ends in [":sev"], the keys severities are kept under. *)
Fixpoint ends_in (suffix s : string) : bool :=
  String.eqb s suffix || match s with String _ s' => ends_in suffix s' | EmptyString => false end.

Definition plain_key (k : string) : Prop := ends_in ":sev" k = false.

Lemma ends_in_app p s : ends_in s (p +:+ s) = true.
Proof.
  induction p as [|c p IH]; simpl.
  - destruct s; simpl; by rewrite ?String.eqb_refl, ?Ascii.eqb_refl.
  - rewrite IH. by rewrite orb_true_r.
Qed.

Lemma plain_not_sev k k' : plain_key k -> k <> sev_key k'.
Proof. unfold plain_key, sev_key. intros Hk ->. by rewrite ends_in_app in Hk. Qed.

Lemma sev_key_inj k k' : sev_key k = sev_key k' -> k = k'.
Proof. apply string_app_inj_r. Qed.

(** At most one alert of a key. *)
Definition once (k : string) (alerts : list alert) : Prop :=
  (countb (fun a => String.eqb (akey a) k) alerts <= 1)%nat.

(** The first alert of a key. *)
Definition active (k : string) (alerts : list alert) : option alert :=
  List.find (fun a => String.eqb (akey a) k) alerts.

Lemma active_app k l a :
  active k (l ++ [a]) = match active k l with Some b => Some b | None => if String.eqb (akey a) k then Some a else None end.
Proof. unfold active. induction l as [|b l IH]; simpl; [done|]. by destruct (String.eqb (akey b) k). Qed.

Lemma active_key k l a : active k l = Some a -> akey a = k /\ a ∈ l.
Proof.
  unfold active. intros E. apply List.find_some in E as [Hin E]. apply String.eqb_eq in E.
  split; [done|]. by apply list_elem_of_In.
Qed.

Lemma active_none k l : active k l = None <-> k ∉ akey <$> l.
Proof.
  unfold active. induction l as [|a l IH]; simpl.
  { split; [intros _ H; inversion H|done]. }
  destruct (String.eqb (akey a) k) eqn:E.
  - apply String.eqb_eq in E as <-. split; [done|]. intros Hn. destruct Hn. by left.
  - apply String.eqb_neq in E. rewrite IH. rewrite not_elem_of_cons. naive_solver.
Qed.

Lemma once_unique k l a b : once k l -> a ∈ l -> b ∈ l -> akey a = k -> akey b = k -> a = b.
Proof.
  unfold once. intros Ho Ha Hb <- Hk. apply list_elem_of_split in Ha as (l1 & l2 & ->).
  rewrite countb_app in Ho. cbn [countb] in Ho. rewrite String.eqb_refl in Ho.
  apply elem_of_app in Hb as [Hb|[Hb|Hb]%elem_of_cons]; [|done|].
  - pose proof (countb_zero (fun c => String.eqb (akey c) (akey a)) l1 b ltac:(lia) Hb) as E. simpl in E. by rewrite Hk, String.eqb_refl in E.
  - pose proof (countb_zero (fun c => String.eqb (akey c) (akey a)) l2 b ltac:(lia) Hb) as E. simpl in E. by rewrite Hk, String.eqb_refl in E.
Qed.

Section Cooldown.
Context (prev : sent_map) (now : Z) (cooldown : Q).

Lemma dueAlerts_snoc l a :
  dueAlerts (l ++ [a]) prev now cooldown = due_step prev now cooldown (dueAlerts l prev now cooldown) a.
Proof. unfold dueAlerts. by rewrite fold_left_app. Qed.

(** Which alerts go out. *)
Lemma dueAlerts_due l : (dueAlerts l prev now cooldown).1 = List.filter (is_due prev now cooldown) l.
Proof.
  induction l as [|a l IH] using rev_ind; [done|]. rewrite dueAlerts_snoc, List.filter_app, <-IH.
  unfold due_step. destruct (dueAlerts l prev now cooldown) as [due s]. simpl.
  destruct (is_due prev now cooldown a); simpl; [done|by rewrite app_nil_r].
Qed.

(** What is remembered of a key: nothing once the alert is inactive, else when it
    was last sent, and its severity. *)
Lemma dueAlerts_sent l k :
  Forall plain_key (akey <$> l) -> once k l -> plain_key k ->
  let s := (dueAlerts l prev now cooldown).2 in
  s !! k = match active k l with
           | Some a => if is_due prev now cooldown a then Some (SentAt now) else prev !! k
           | None => None
           end
  /\ s !! sev_key k = (SentSev ∘ aseverity) <$> active k l.
Proof.
  induction l as [|a l IH] using rev_ind; intros Hp Hn Hk; [done|].
  rewrite fmap_app in Hp. apply Forall_app in Hp as [Hp Ha]. pose proof Hn as Hd. unfold once in Hn.
  rewrite countb_app in Hn. apply Forall_cons in Ha as [Ha _]. specialize (IH Hp ltac:(unfold once; lia) Hk).
  rewrite dueAlerts_snoc, active_app. unfold due_step.
  destruct (dueAlerts l prev now cooldown) as [due s]. cbn [fst snd] in IH. destruct IH as [IH1 IH2].
  pose proof (plain_not_sev (akey a) k Ha) as H1. pose proof (plain_not_sev k (akey a) Hk) as H2.
  assert (Hi : forall f, akey a <> k ->
    (<[sev_key (akey a) := f]> s !! sev_key k = s !! sev_key k) /\ <[sev_key (akey a) := f]> s !! k = s !! k).
  { intros f Hne. split; [|by rewrite lookup_insert_ne by done].
    rewrite lookup_insert_ne; [done|]. intros E. by apply sev_key_inj in E. }
  destruct (String.eqb (akey a) k) eqn:E.
  - apply String.eqb_eq in E as <-.
    assert (Hl : active (akey a) l = None).
    { apply active_none. intros (b & Eb & Hin)%list_elem_of_fmap. cbn [countb] in Hn. rewrite String.eqb_refl in Hn.
      pose proof (countb_zero (fun c => String.eqb (akey c) (akey a)) l b ltac:(lia) Hin) as Hb. simpl in Hb. by rewrite <-Eb, String.eqb_refl in Hb. }
    rewrite Hl. destruct (is_due prev now cooldown a) eqn:Ed; cbn [snd].
    + rewrite (lookup_insert_ne _ (sev_key _)) by done. by rewrite !lookup_insert_eq.
    + rewrite (lookup_insert_ne _ (sev_key _)) by done. rewrite lookup_insert_eq. split; [|done].
      destruct (prev !! akey a); [by rewrite lookup_insert_eq|by rewrite lookup_delete_eq].
  - apply String.eqb_neq in E.
    replace (match active k l with Some b => Some b | None => None end) with (active k l)
      by (by destruct (active k l)).
    rewrite <-IH1, <-IH2. clear IH1 IH2.
    destruct (is_due prev now cooldown a), (prev !! akey a); cbn [snd];
      split; rewrite !lookup_insert_ne, ?lookup_delete_ne by (done || (intros E2; by apply sev_key_inj in E2)); done.
Qed.
End Cooldown.

(** ** Rounds of the monitor: what is mailed, and what the cooldown then holds *)

(** A tick as the mail sees it: its time, its alerts, whether the mail goes out. *)
Record round := Round { at_ : Z; raised : list alert; mail_ok : bool }.

(** The end of [run]: what is mailed, whether it went out, the next memory; an
    undelivered mail leaves the cooldown as it was. *)
Definition send_due (due : list alert) (sentAt prev : sent_map) (ok : bool) : list alert * bool * sent_map :=
  let delivered := Nat.eqb (length due) 0 || ok in
  (if delivered then due else [], delivered, if delivered then sentAt else prev).

Definition round_step (cooldown : Q) (r : round) (prev : sent_map) : list alert * bool * sent_map :=
  let '(due, sentAt) := dueAlerts (raised r) prev (at_ r) cooldown in
  send_due due sentAt prev (mail_ok r).

(** A round with what it mailed, and whether the mail went out. *)
Record outcome_of_round := Ran { of_round : round; mailed : list alert; delivered : bool }.

Fixpoint rounds (cooldown : Q) (rs : list round) (prev : sent_map) : list outcome_of_round * sent_map :=
  match rs with
  | [] => ([], prev)
  | r :: rs' =>
      let '(m, d, s) := round_step cooldown r prev in
      let '(rest, s') := rounds cooldown rs' s in
      (Ran r m d :: rest, s')
  end.

(** The same for one alert, as a specification: when it was last mailed and its
    severity since, or nothing while it is inactive. *)
Definition paging : Type := option (Z * severity).

Definition wants_mail (cooldown : Q) (st : paging) (now : Z) (s : severity) : bool :=
  match st with
  | None => true
  | Some (last, sev) =>
      bool_decide (sev = warn /\ s = critical) || qge (inject_Z (now - last)) cooldown
  end.

Definition page_step (cooldown : Q) (st : paging) (now : Z) (a : option alert) : paging :=
  match a with
  | None => None
  | Some a => Some (if wants_mail cooldown st now (aseverity a) then now
                    else match st with Some (last, _) => last | None => now end, aseverity a)
  end.

(** The memory of key [k] in the [sentAt] object. *)
Definition remembers (s : sent_map) (k : string) (st : paging) : Prop :=
  s !! k = (SentAt ∘ fst) <$> st /\ s !! sev_key k = (SentSev ∘ snd) <$> st.

(** No key taken for a severity's, and at most one alert of key [k]. *)
Definition clean (k : string) (r : round) : Prop := Forall plain_key (akey <$> raised r) /\ once k (raised r).

Lemma is_due_spec s k st now cooldown a :
  remembers s k st -> akey a = k -> is_due s now cooldown a = wants_mail cooldown st now (aseverity a).
Proof.
  intros [H1 H2] <-. unfold is_due, wants_mail. rewrite H1, H2. destruct st as [[last sev]|]; simpl.
  - f_equal. destruct sev; symmetry; [|by apply bool_decide_eq_false; intros []].
    apply bool_decide_ext. naive_solver.
  - done.
Qed.

(** One round refines the specification, for every key at once. *)
Lemma round_refines cooldown r s k st :
  clean k r -> plain_key k -> remembers s k st ->
  let '(m, d, s') := round_step cooldown r s in
  if d : bool then
    remembers s' k (page_step cooldown st (at_ r) (active k (raised r)))
    /\ (k ∈ akey <$> m <-> exists a, active k (raised r) = Some a /\ wants_mail cooldown st (at_ r) (aseverity a) = true)
  else s' = s /\ m = [] /\ mail_ok r = false.
Proof.
  intros [Hp Hn] Hk Hs. unfold round_step.
  pose proof (dueAlerts_due s (at_ r) cooldown (raised r)) as Hd.
  pose proof (dueAlerts_sent s (at_ r) cooldown (raised r) k Hp Hn Hk) as [Hs1 Hs2].
  destruct (dueAlerts (raised r) s (at_ r) cooldown) as [due s1]. cbn [fst snd] in Hd, Hs1, Hs2. cbv zeta.
  assert (Hr : remembers s1 k (page_step cooldown st (at_ r) (active k (raised r)))).
  { unfold remembers, page_step. rewrite Hs1, Hs2. destruct (active k (raised r)) as [a|] eqn:Ea; [|done].
    rewrite (is_due_spec s k st) by (done || by eapply active_key). destruct Hs as [Hs _]. simpl. split; [|done].
    destruct (wants_mail cooldown st (at_ r) (aseverity a)) eqn:Ew; [done|]. rewrite Hs.
    destruct st as [[? ?]|]; [done|discriminate]. }
  assert (Hm : k ∈ akey <$> due <->
     exists a, active k (raised r) = Some a /\ wants_mail cooldown st (at_ r) (aseverity a) = true).
  { rewrite Hd. split.
    - intros (a & -> & Hin)%list_elem_of_fmap. apply list_elem_of_In, List.filter_In in Hin as [Hin Hdue].
      destruct (active (akey a) (raised r)) as [b|] eqn:Eb.
      + pose proof (active_key _ _ _ Eb) as [Hkb Hinb]. exists b. split; [done|].
        apply list_elem_of_In in Hin. rewrite (once_unique _ _ b a Hn) in * by done.
        by rewrite <-(is_due_spec s (akey a) st).
      + apply active_none in Eb. destruct Eb. apply list_elem_of_fmap. exists a. split; [done|by apply list_elem_of_In].
    - intros (a & Ea & Hw). pose proof (active_key _ _ _ Ea) as [Hka Hin]. apply list_elem_of_fmap. exists a.
      split; [done|]. apply list_elem_of_In, List.filter_In. split; [by apply list_elem_of_In|].
      by rewrite (is_due_spec s k st). }
  unfold send_due. destruct (Nat.eqb (length due) 0); simpl; [by split|]. by destruct (mail_ok r).
Qed.

Section Paging.
Context (cooldown : Q) (k : string) (Hk : plain_key k).

Definition mailed_at (e : outcome_of_round) : Prop := k ∈ akey <$> mailed e.
Definition active_at (e : outcome_of_round) : option alert := active k (raised (of_round e)).
Definition time_of (e : outcome_of_round) : Z := at_ (of_round e).

(** The rounds that count all have the alert active. *)
Definition stays_active (t : list outcome_of_round) : Prop :=
  Forall (fun e => delivered e = true -> active_at e <> None) t.

(** The severity after some rounds, from the one before them. *)
Definition last_severity (s : severity) (t : list outcome_of_round) : severity :=
  fold_left (fun s e => match active_at e with
                        | Some a => if delivered e then aseverity a else s
                        | None => s
                        end) t s.

Lemma rounds_app rs1 rs2 s :
  rounds cooldown (rs1 ++ rs2) s =
  let '(t1, s1) := rounds cooldown rs1 s in
  let '(t2, s2) := rounds cooldown rs2 s1 in (t1 ++ t2, s2).
Proof.
  revert s. induction rs1 as [|r rs1 IH]; intros s; simpl; [by destruct (rounds cooldown rs2 s)|].
  destruct (round_step cooldown r s) as [[m d] s']. rewrite IH.
  destruct (rounds cooldown rs1 s') as [t1 s1]. by destruct (rounds cooldown rs2 s1).
Qed.

(** A trace cut in two is two runs. *)
Lemma rounds_cut t1 t2 rs s s' :
  rounds cooldown rs s = (t1 ++ t2, s') ->
  exists rs1 rs2 s1, rs = rs1 ++ rs2 /\ rounds cooldown rs1 s = (t1, s1) /\ rounds cooldown rs2 s1 = (t2, s').
Proof.
  revert rs s. induction t1 as [|e t1 IH]; intros rs s E; [by exists [], rs, s|].
  destruct rs as [|r rs]; [done|]. simpl in E. destruct (round_step cooldown r s) as [[m d] s1] eqn:Er.
  destruct (rounds cooldown rs s1) as [rest s2] eqn:E2. injection E as <- E <-. subst rest.
  apply IH in E2 as (rs1 & rs2 & s3 & -> & E3 & E4). exists (r :: rs1), rs2, s3. split; [done|]. split; [|done].
  simpl. by rewrite Er, E3.
Qed.

Lemma rounds_cons e t rs s s' :
  rounds cooldown rs s = (e :: t, s') ->
  exists rs' s1, rs = of_round e :: rs' /\ round_step cooldown (of_round e) s = (mailed e, delivered e, s1)
    /\ rounds cooldown rs' s1 = (t, s').
Proof.
  destruct rs as [|r rs]; [done|]. simpl. destruct (round_step cooldown r s) as [[m d] s1] eqn:Er.
  destruct (rounds cooldown rs s1) as [rest s2] eqn:E2. intros [= <- -> ->]. eauto.
Qed.

Lemma rounds_times rs s t s' : rounds cooldown rs s = (t, s') -> time_of <$> t = at_ <$> rs.
Proof.
  revert s t. induction rs as [|r rs IH]; intros s t; simpl; [by intros [= <- <-]|].
  destruct (round_step cooldown r s) as [[m d] s1]. destruct (rounds cooldown rs s1) as [rest s2] eqn:E2.
  intros [= <- <-]. simpl. f_equal. by eapply IH.
Qed.

Lemma remembers_inj s st st' : remembers s k st -> remembers s k st' -> st = st'.
Proof.
  unfold remembers. intros [-> ->] [H1 H2].
  destruct st as [[? ?]|], st' as [[? ?]|]; simpl in *; congruence.
Qed.

(** The memory while the alert stays active: mailed no earlier than it was. *)
Lemma stays_remembered rs s t s' last sev :
  Forall (clean k) rs -> rounds cooldown rs s = (t, s') -> remembers s k (Some (last, sev)) -> stays_active t ->
  StronglySorted Z.le (last :: (time_of <$> t)) ->
  exists last', remembers s' k (Some (last', last_severity sev t)) /\ last <= last'
    /\ (last' = last \/ last' ∈ time_of <$> t).
Proof.
  revert s t last sev. induction rs as [|r rs IH]; intros s t last sev Hc E Hs Ha Hl.
  { injection E as <- <-. exists last. split_and!; [done|lia|by left]. }
  apply Forall_cons in Hc as [Hr Hc]. simpl in E.
  pose proof (round_refines cooldown r s k _ Hr Hk Hs) as Hstep.
  destruct (round_step cooldown r s) as [[m d] s1]. destruct (rounds cooldown rs s1) as [rest s2] eqn:E2.
  injection E as <- <-. apply Forall_cons in Ha as [Ha Ha'].
  inversion Hl as [|? ? Hl1 Hl2]; subst. inversion Hl1 as [|? ? Hl3 Hl4]; subst.
  apply Forall_cons in Hl2 as [Hl2 Hl5]. unfold time_of in Hl2, Hl4 at 1. simpl in Hl2, Hl4.
  assert (Hold : StronglySorted Z.le (last :: (time_of <$> rest))) by by constructor.
  assert (Hnow : StronglySorted Z.le (at_ r :: (time_of <$> rest))) by by constructor.
  change (last_severity sev (Ran r m d :: rest))
    with (last_severity (match active k (raised r) with Some a => if d then aseverity a else sev | None => sev end) rest).
  unfold active_at in Ha. simpl in Ha. destruct d.
  - destruct Hstep as [Hs1 _]. destruct (active k (raised r)) as [a|] eqn:Ea; [|by destruct (Ha eq_refl)].
    unfold page_step in Hs1. destruct (wants_mail cooldown (Some (last, sev)) (at_ r) (aseverity a)).
    + destruct (IH s1 rest _ _ Hc E2 Hs1 Ha' Hnow) as (last' & H1 & H2 & H3). exists last'.
      split_and!; [done|lia|]. right. simpl. apply list_elem_of_In. simpl. rewrite <-list_elem_of_In.
      destruct H3 as [->|H3]; [by left|by right].
    + destruct (IH s1 rest _ _ Hc E2 Hs1 Ha' Hold) as (last' & H1 & H2 & H3). exists last'.
      split_and!; [done|lia|]. destruct H3; [by left|]. right. simpl. by apply list_elem_of_further.
  - destruct Hstep as (-> & -> & _).
    replace (match active k (raised r) with Some _ | None => sev end) with sev by (by destruct (active k (raised r))).
    destruct (IH s rest _ _ Hc E2 Hs Ha' Hold) as (last' & H1 & H2 & H3). exists last'.
    split_and!; [done|lia|]. destruct H3; [by left|]. right. simpl. by apply list_elem_of_further.
Qed.

(** Mailed: the alert is active, its mail went out, and it was due. *)
Lemma mailed_step r s m d s1 st :
  clean k r -> remembers s k st -> round_step cooldown r s = (m, d, s1) -> k ∈ akey <$> m ->
  exists a, d = true /\ active k (raised r) = Some a /\ wants_mail cooldown st (at_ r) (aseverity a) = true
    /\ remembers s1 k (Some (at_ r, aseverity a)).
Proof.
  intros Hr Hs E Hm. pose proof (round_refines cooldown r s k st Hr Hk Hs) as Hstep. rewrite E in Hstep.
  destruct d; [|destruct Hstep as (_ & -> & _); by apply elem_of_nil in Hm].
  destruct Hstep as [H1 H2]. apply H2 in Hm as (a & Ea & Hw). exists a. split_and!; [done..|].
  unfold page_step in H1. by rewrite Ea, Hw in H1.
Qed.

(** Every memory reached from the empty one is one of the specification, and a
    remembered alert was mailed at the remembered time and has been active since. *)
Lemma rounds_remember rs t s :
  Forall (clean k) rs -> rounds cooldown rs ∅ = (t, s) ->
  exists st, remembers s k st /\
    forall last sev, st = Some (last, sev) ->
      exists t1 e t2, t = t1 ++ e :: t2 /\ mailed_at e /\ time_of e = last /\ stays_active t2.
Proof.
  revert t s. induction rs as [|r rs IH] using rev_ind; intros t s Hc E.
  { injection E as <- <-. exists None. split; [done|]. by intros. }
  apply Forall_app in Hc as [Hc Hr]. apply Forall_cons in Hr as [Hr _].
  rewrite rounds_app in E. destruct (rounds cooldown rs ∅) as [t0 s0] eqn:E0.
  destruct (IH t0 s0 Hc eq_refl) as (st & Hst & Hlast). simpl in E.
  pose proof (round_refines cooldown r s0 k st Hr Hk Hst) as Hstep.
  destruct (round_step cooldown r s0) as [[m d] s1] eqn:Er. injection E as <- <-.
  assert (Hkeep : forall last sev, st = Some (last, sev) -> (d = true -> active k (raised r) <> None) ->
     exists t1 e t2, t0 ++ [Ran r m d] = t1 ++ e :: t2 /\ mailed_at e /\ time_of e = last /\ stays_active t2).
  { intros last sev Est Hd. destruct (Hlast _ _ Est) as (t1 & e & t2 & -> & Hm & Ht & Ha).
    exists t1, e, (t2 ++ [Ran r m d]). split; [by rewrite <-app_assoc|]. split_and!; [done..|].
    apply Forall_app. split; [done|]. by apply Forall_singleton. }
  destruct d; [|destruct Hstep as (-> & _); exists st; split; [done|intros; by eapply Hkeep]].
  destruct Hstep as [H1 H2]. eexists. split; [exact H1|]. intros last sev Hp. unfold page_step in Hp.
  destruct (active k (raised r)) as [a|] eqn:Ea; [|done]. injection Hp as Hp _.
  destruct (wants_mail cooldown st (at_ r) (aseverity a)) eqn:Ew.
  - exists t0, (Ran r m true), []. split_and!; [done| |done|constructor]. apply H2. eauto.
  - destruct st as [[last' sev']|]; [|done]. subst last'. eapply Hkeep; [done|]. by intros _.
Qed.
(** Two mails about one active alert are a cooldown apart, but for an escalation. *)
Lemma mails_apart rs t1 e1 t2 e2 t3 s a1 a2 :
  Forall (clean k) rs -> rounds cooldown rs ∅ = (t1 ++ e1 :: t2 ++ e2 :: t3, s) -> StronglySorted Z.le (at_ <$> rs) ->
  mailed_at e1 -> mailed_at e2 -> stays_active t2 -> active_at e1 = Some a1 -> active_at e2 = Some a2 ->
  ~ (last_severity (aseverity a1) t2 = warn /\ aseverity a2 = critical) ->
  (cooldown <= inject_Z (time_of e2 - time_of e1))%Q.
Proof.
  intros Hc E Hsort Hm1 Hm2 Ha Ea1 Ea2 Hesc.
  destruct (rounds_cut _ _ _ _ _ E) as (rs1 & rs2 & s1 & -> & E1 & E2).
  apply Forall_app in Hc as [Hc1 Hc2]. destruct (rounds_remember _ _ _ Hc1 E1) as (st & Hst & _).
  destruct (rounds_cons _ _ _ _ _ E2) as (rs3 & s3 & -> & Er1 & E3).
  apply Forall_cons in Hc2 as [Hr1 Hc3].
  destruct (mailed_step _ _ _ _ _ st Hr1 Hst Er1 Hm1) as (b & _ & Eb & _ & Hs3).
  unfold active_at in Ea1. rewrite Ea1 in Eb. injection Eb as <-.
  destruct (rounds_cut _ _ _ _ _ E3) as (rs4 & rs5 & s4 & -> & E4 & E5).
  apply Forall_app in Hc3 as [Hc4 Hc5].
  destruct (stays_remembered _ _ _ _ _ _ Hc4 E4 Hs3 Ha) as (last & Hs4 & Hle & _).
  { rewrite (rounds_times _ _ _ _ E4). rewrite fmap_app in Hsort. apply StronglySorted_app_1_r in Hsort.
    simpl in Hsort. rewrite fmap_app in Hsort. by apply (StronglySorted_app_1_l _ (_ :: _)) in Hsort. }
  destruct (rounds_cons _ _ _ _ _ E5) as (rs6 & s6 & -> & Er2 & _).
  apply Forall_cons in Hc5 as [Hr2 _].
  destruct (mailed_step _ _ _ _ _ _ Hr2 Hs4 Er2 Hm2) as (b & _ & Eb & Hw & _).
  unfold active_at in Ea2. rewrite Ea2 in Eb. injection Eb as <-.
  unfold wants_mail in Hw. rewrite bool_decide_eq_false_2 in Hw by done. apply qge_spec in Hw.
  eapply Qle_trans; [exact Hw|]. rewrite <-Zle_Qle. unfold time_of. lia.
Qed.

(** An alert active in a round that counts was mailed less than a cooldown ago. *)
Lemma mail_in_time rs t1 e t2 s :
  Forall (clean k) rs -> rounds cooldown rs ∅ = (t1 ++ e :: t2, s) ->
  delivered e = true -> active_at e <> None -> (0 < cooldown)%Q ->
  exists u1 e0 u2, t1 ++ [e] = u1 ++ e0 :: u2 /\ mailed_at e0 /\ stays_active u2
    /\ (inject_Z (time_of e - time_of e0) < cooldown)%Q.
Proof.
  intros Hc E Hd Ha Hpos. change (e :: t2) with ([e] ++ t2) in E. rewrite app_assoc in E.
  destruct (rounds_cut _ _ _ _ _ E) as (rs1 & rs2 & s1 & -> & E1 & _).
  apply Forall_app in Hc as [Hc1 _]. destruct (rounds_remember _ _ _ Hc1 E1) as (st & Hst & Hlast).
  destruct (rounds_cut _ _ _ _ _ E1) as (rs3 & rs4 & s3 & -> & E3 & E4).
  apply Forall_app in Hc1 as [Hc3 Hc4]. destruct (rounds_remember _ _ _ Hc3 E3) as (st0 & Hst0 & _).
  destruct (rounds_cons _ _ _ _ _ E4) as (rs5 & s5 & -> & Er & E5).
  destruct rs5; [|by simpl in E5; destruct (round_step cooldown r s5) as [[? ?] ?], (rounds cooldown rs5 _)].
  injection E5 as ->. apply Forall_cons in Hc4 as [Hr _].
  pose proof (round_refines cooldown _ _ _ _ Hr Hk Hst0) as Hstep. rewrite Er, Hd in Hstep.
  destruct Hstep as [Hs1 _]. unfold active_at in Ha. unfold page_step in Hs1.
  destruct (active k (raised (of_round e))) as [a|] eqn:Ea; [|done].
  rewrite (remembers_inj _ _ _ Hst Hs1) in Hlast. destruct (Hlast _ _ eq_refl) as (u1 & e0 & u2 & Eu & Hm & Ht & Hs).
  exists u1, e0, u2. split_and!; [done..|]. rewrite Ht. unfold time_of.
  destruct (wants_mail cooldown st0 (at_ (of_round e)) (aseverity a)) eqn:Ew.
  - by rewrite Z.sub_diag.
  - destruct st0 as [[last sev]|]; [|done]. apply orb_false_iff in Ew as [_ Ew].
    apply qlt_spec. unfold qlt. unfold qge in Ew. by rewrite Ew.
Qed.

(** What is mailed is active, in a round that counts. *)
Lemma mailed_active rs t s e :
  Forall (clean k) rs -> rounds cooldown rs ∅ = (t, s) -> e ∈ t -> mailed_at e -> delivered e = true /\ active_at e <> None.
Proof.
  intros Hc E (t1 & t2 & ->)%list_elem_of_split Hm.
  destruct (rounds_cut _ _ _ _ _ E) as (rs1 & rs2 & s1 & -> & E1 & E2).
  apply Forall_app in Hc as [Hc1 Hc2]. destruct (rounds_remember _ _ _ Hc1 E1) as (st & Hst & _).
  destruct (rounds_cons _ _ _ _ _ E2) as (rs3 & s3 & -> & Er & _). apply Forall_cons in Hc2 as [Hr _].
  destruct (mailed_step _ _ _ _ _ st Hr Hst Er Hm) as (a & Hd & Ea & _). split; [done|]. unfold active_at. by rewrite Ea.
Qed.
End Paging.

(** Mail about one alert is neither too frequent nor lost.  In any run of
    ticks from an empty memory, whatever mails fail: two mails about an alert
    that stayed active in between, the second not an escalation from warning to
    critical, are a cooldown apart; and whenever the alert is active in a tick
    whose mail did not fail, a mail about it went out less than a cooldown ago
    and it has been active since. *)
Theorem alert_mail_paced (cooldown : Q) (k : string) (rs : list round) (t : list outcome_of_round) (s : sent_map) :
  plain_key k -> Forall (clean k) rs -> rounds cooldown rs ∅ = (t, s) -> StronglySorted Z.le (at_ <$> rs) ->
  (forall t1 e1 t2 e2 t3 a1 a2, t = t1 ++ e1 :: t2 ++ e2 :: t3 ->
     mailed_at k e1 -> mailed_at k e2 -> stays_active k t2 -> active_at k e1 = Some a1 -> active_at k e2 = Some a2 ->
     ~ (last_severity k (aseverity a1) t2 = warn /\ aseverity a2 = critical) ->
     (cooldown <= inject_Z (time_of e2 - time_of e1))%Q)
  /\ (forall t1 e t2, t = t1 ++ e :: t2 -> delivered e = true -> active_at k e <> None -> (0 < cooldown)%Q ->
     exists u1 e0 u2, t1 ++ [e] = u1 ++ e0 :: u2 /\ mailed_at k e0 /\ stays_active k u2
       /\ (inject_Z (time_of e - time_of e0) < cooldown)%Q).
Proof.
  intros Hk Hc E Hsort. split.
  - intros t1 e1 t2 e2 t3 a1 a2 -> **. by eapply mails_apart.
  - intros t1 e t2 -> **. by eapply mail_in_time.
Qed.

(** A relay that stays down for longer than a cooldown of six hours; the first
    mail after the six hours fails. *)
Definition down_since : list round :=
  [Round 0 [livenessAlert "no snapshot"] true; Round 300000 [livenessAlert "no snapshot"] true;
   Round 21600000 [livenessAlert "no snapshot"] false; Round 21900000 [livenessAlert "no snapshot"] true].

Lemma alert_mail_paced_witness :
  exists t s, rounds 21600000 down_since ∅ = (t, s)
    /\ (length ∘ mailed) <$> t = [1; 0; 0; 1]%nat
    /\ (21600000 <= inject_Z (21900000 - 0))%Q.
Proof.
  destruct (rounds 21600000 down_since ∅) as [t s] eqn:E. exists t, s. split; [done|].
  assert (Hc : Forall (clean "liveness") down_since).
  { unfold down_since, clean, once. repeat constructor. }
  assert (Hs : StronglySorted Z.le (at_ <$> down_since)) by (unfold down_since; repeat constructor; simpl; lia).
  destruct (alert_mail_paced 21600000 "liveness" down_since t s eq_refl Hc E Hs) as [H1 _].
  vm_compute in E. injection E as <- <-. split; [reflexivity|].
  refine (H1 [] _ [_; _] _ [] _ _ eq_refl _ _ _ eq_refl eq_refl _).
  - by left.
  - by left.
  - repeat constructor; done.
  - intros [Hx _]. by vm_compute in Hx.
Defined.
