(* ===== verification/MonitorFleet.v ===== *)
(** The fleet as the monitor sees it ([monitor/src/monitor.js]): the hosts the
    shard map names, a room each one owns to probe it with, the probe's handshake,
    and what a relay of this library answers it. *)

From Stdlib Require Import QArith Qround Ascii.
From S2P Require Import Prelude Bytes Crypto Transcript ShardGate Json ShardMap Monitor.
#[local] Open Scope Z_scope.

(** ** Values read from a shard map that nobody validated *)

(** A value used as a condition. *)
Definition jtruthy (v : option json) : bool :=
  match v with
  | None | Some JNull | Some (JBool false) => false
  | Some (JStr s) => negb (String.eqb s "")
  | Some (JNum x) => match x with SpecFloat.S754_zero _ | SpecFloat.S754_nan => false | _ => true end
  | Some _ => true
  end.

(** [v && v.k] *)
Definition jget (v : json) (k : string) : option json :=
  match v with JObj kvs => jfind k kvs | _ => None end.

(** [(map && map.ranges) || []], iterated. *)
Definition map_ranges (map : json) : result string (list json) :=
  match jget map "ranges" with
  | Some (JArr l) => Ok l
  | Some (JStr s) => Ok (List.map (fun c => JStr (String c EmptyString)) (String.list_ascii_of_string s))
  | v => if jtruthy v then Err "not iterable" else Ok []
  end.

Definition add_host (hosts : list string) (r : json) : list string :=
  match jstring (jget r "host") with
  | Some h => if bool_decide (h ∈ hosts) then hosts else hosts ++ [h]
  | None => hosts
  end.

Definition mapHosts (map : json) : result string (list string) :=
  (let! l := map_ranges map in Ok (fold_left add_host l []))%res.

(** ** A room the host owns *)

(** [r.host === host] with integer bounds the right way round. *)
Definition owned_range (host : string) (r : json) : option (Z * Z) :=
  match jstring (jget r "host"), jinteger (jget r "low"), jinteger (jget r "high") with
  | Some h, Some lo, Some hi => if String.eqb h host && (lo <=? hi) then Some (lo, hi) else None
  | _, _, _ => None
  end.

Definition range_size (r : Z * Z) : Z := r.2 - r.1 + 1.

Definition total_size (l : list (Z * Z)) : Z := fold_left (fun n r => n + range_size r) l 0.

Fixpoint hex_digits_of (fuel : nat) (n : Z) (acc : string) : string :=
  match fuel with
  | O => acc
  | S fuel' =>
      let acc' := String (hex_digit (n mod 16)) acc in
      if n / 16 =? 0 then acc' else hex_digits_of fuel' (n / 16) acc'
  end.

(** [n.toString(16)] *)
Definition toString16 (n : Z) : string :=
  if n <? 0 then "-" +:+ hex_digits_of (S (Z.to_nat (Z.log2 (- n)))) (- n) ""
  else hex_digits_of (S (Z.to_nat (Z.log2 n))) n "".

Fixpoint zeros (n : nat) : string := match n with O => "" | S n' => String "0" (zeros n') end.

(** [s.padStart(4, "0")] *)
Definition padStart4 (s : string) : string := zeros (4 - String.length s) +:+ s.

(** The bucket at position [idx] of the host's ranges, as a room name. *)
Fixpoint pick_room (prefix60 : string) (idx : Z) (l : list (Z * Z)) : option string :=
  match l with
  | [] => None
  | r :: l' =>
      if idx <? range_size r then Some (prefix60 +:+ padStart4 (toString16 (r.1 + idx)))
      else pick_room prefix60 (idx - range_size r) l'
  end.

Definition PREFIX_RE (prefix60 : string) : bool :=
  Nat.eqb (String.length prefix60) 60 && bool_decide (is_Some (hex_digits prefix60)).

(** [(map && map.ranges) || []], filtered: a string has no [filter]. *)
Definition filter_ranges (map : json) : result string (list json) :=
  match jget map "ranges" with
  | Some (JArr l) => Ok l
  | v => if jtruthy v then Err "filter is not a function" else Ok []
  end.

Definition ownedRoomForHost (map : json) (host prefix60 : string) (randUnit : Q) : result string (option string) :=
  if negb (PREFIX_RE prefix60) then Err "prefix60 must be 60 lowercase hex chars" else
  (let! l := filter_ranges map in
   let ranges := omap (owned_range host) l in
   let total := total_size ranges in
   if total =? 0 then Ok None else
   let idx := Z.min (total - 1) (Z.max 0 (Qfloor (randUnit * inject_Z total)%Q)) in
   Ok (pick_room prefix60 idx ranges))%res.

(** ** The probe's handshake *)

Record probe_result := Probe { ok : bool; pdetail : string }.

(** [probeHandshake(socket)] on the two replies [next] gives, each a text or the
    error it rejects with; a reply that is not JSON fails with the parser's
    message, kept as a word, and an [error] that is not a string is not printed. *)
Definition probe_text (next : result string string) : result string json :=
  match next with
  | Err e => Err e
  | Ok t => match JSON_parse t with Some j => Ok j | None => Err "SyntaxError" end
  end.

Definition result_error (j : json) : string :=
  match jget j "error" with Some (JStr e) => if String.eqb e "" then "unknown" else e | _ => "unknown" end.

Definition probeHandshake (next1 next2 : result string string) : probe_result :=
  match probe_text next1 with
  | Err e => Probe false e
  | Ok challenge =>
      match jstring (jget challenge "nonce") with
      | None => Probe false "no challenge nonce in reply"
      | Some _ =>
          match probe_text next2 with
          | Err e => Probe false e
          | Ok r => if jtruthy (jget r "ok") then Probe true "mac parked"
                    else Probe false ("admission rejected: " +:+ result_error r)
          end
      end
  end.

(** What the probe sends: its hello, and an empty proof. *)
Definition probe_sends : list json := [JObj [("v", JNum (decimal_to_float false 1 0)); ("role", JStr "mac")]; JObj []].

(** ** Lemmas: bucket names *)

Definition bucket_text (n : Z) : string := hex [n / 256; n mod 256].

(** [k] hexadecimal digits of [n], the most significant first. *)
Fixpoint last_digits (k : nat) (n : Z) (acc : string) : string :=
  match k with O => acc | S k' => last_digits k' (n / 16) (String (hex_digit (n mod 16)) acc) end.

Lemma hex_digits_of_last k : forall f n acc,
  (k < f)%nat -> 0 <= n -> (k = 0%nat \/ 16 ^ Z.of_nat k <= n) -> n < 16 ^ Z.of_nat (S k) ->
  hex_digits_of f n acc = last_digits (S k) n acc.
Proof.
  induction k as [|k IH]; intros [|f] n acc Hf H0 Hlo Hhi; [lia| |lia|].
  - simpl. change (16 ^ Z.of_nat 1) with 16 in Hhi. replace (n / 16) with 0 by dlia. done.
  - destruct Hlo as [?|Hlo]; [lia|].
    rewrite Nat2Z.inj_succ, Z.pow_succ_r in Hlo, Hhi by lia.
    assert (Hq : 16 ^ Z.of_nat k <= n / 16 < 16 ^ Z.of_nat (S k)) by (split; [apply Z.div_le_lower_bound|apply Z.div_lt_upper_bound]; lia).
    assert (0 < 16 ^ Z.of_nat k) by (apply Z.pow_pos_nonneg; lia).
    cbn [hex_digits_of]. replace (n / 16 =? 0) with false by lia.
    rewrite IH; [done|lia|apply Z.div_pos; lia|right; apply Hq|apply Hq].
Qed.

Lemma toString16_digits k n :
  0 <= n -> (k = 0%nat \/ 16 ^ Z.of_nat k <= n) -> n < 16 ^ Z.of_nat (S k) ->
  toString16 n = last_digits (S k) n "".
Proof.
  intros H0 Hlo Hhi. unfold toString16. replace (n <? 0) with false by lia.
  apply hex_digits_of_last; [|done|done|done]. destruct Hlo as [->|Hlo]; [lia|].
  change 16 with (2 ^ 4) in Hlo. rewrite <-Z.pow_mul_r in Hlo by lia.
  assert (0 < 2 ^ (4 * Z.of_nat k)) by (apply Z.pow_pos_nonneg; lia).
  apply Z.log2_le_pow2 in Hlo; lia.
Qed.

Lemma padStart4_bucket n : 0 <= n < N_BUCKETS -> padStart4 (toString16 n) = bucket_text n.
Proof.
  unfold N_BUCKETS. intros Hn. unfold padStart4, bucket_text.
  assert (Hz : hex_digit 0 = "0"%char) by reflexivity.
  destruct (Z.ltb_spec n 16); [|destruct (Z.ltb_spec n 256); [|destruct (Z.ltb_spec n 4096)]].
  - rewrite (toString16_digits 0) by (try (by left); simpl; lia). simpl.
    replace (n / 256 / 16) with 0 by dlia. replace (n / 256 mod 16) with 0 by dlia.
    replace (n mod 256 / 16) with 0 by dlia. replace (n mod 256 mod 16) with (n mod 16) by dlia. by rewrite Hz.
  - rewrite (toString16_digits 1) by (try (right; simpl; lia); simpl; lia). simpl.
    replace (n / 256 / 16) with 0 by dlia. replace (n / 256 mod 16) with 0 by dlia.
    replace (n mod 256 / 16) with (n / 16 mod 16) by dlia. replace (n mod 256 mod 16) with (n mod 16) by dlia. by rewrite Hz.
  - rewrite (toString16_digits 2) by (try (right; simpl; lia); simpl; lia). simpl.
    replace (n / 256 / 16) with 0 by dlia. replace (n / 256 mod 16) with (n / 16 / 16 mod 16) by dlia.
    replace (n mod 256 / 16) with (n / 16 mod 16) by dlia. replace (n mod 256 mod 16) with (n mod 16) by dlia. by rewrite Hz.
  - rewrite (toString16_digits 3) by (try (right; simpl; lia); simpl; lia). simpl.
    replace (n / 256 / 16) with (n / 16 / 16 / 16 mod 16) by dlia. replace (n / 256 mod 16) with (n / 16 / 16 mod 16) by dlia.
    replace (n mod 256 / 16) with (n / 16 mod 16) by dlia. by replace (n mod 256 mod 16) with (n mod 16) by dlia.
Qed.

Lemma hex_digits_app s t ds es :
  hex_digits s = Some ds -> hex_digits t = Some es -> hex_digits (s +:+ t) = Some (ds ++ es).
Proof.
  revert ds. induction s as [|c s IH]; intros ds E Et; [by injection E as <-|].
  rewrite string_app_cons. simpl in *. destruct (hex_value c); [|done]. simpl in *.
  destruct (hex_digits s) as [ds'|]; [|done]. injection E as <-. by rewrite (IH ds' eq_refl Et).
Qed.

Lemma room_in_bucket prefix60 n :
  PREFIX_RE prefix60 = true -> 0 <= n < N_BUCKETS ->
  ROOM_NAME_RE (prefix60 +:+ bucket_text n) = true /\ bucketForRoomName (prefix60 +:+ bucket_text n) = Some n.
Proof.
  unfold PREFIX_RE. intros [Hl Hd]%andb_true_iff Hn. apply Nat.eqb_eq in Hl. apply bool_decide_eq_true in Hd as [ds Hd].
  assert (Hb : Forall is_byte [n / 256; n mod 256])
    by (unfold N_BUCKETS in Hn; apply Forall_cons_2; [|apply Forall_cons_2; [|constructor]]; unfold is_byte; dlia).
  pose proof (hex_digits_hex _ Hb) as Ht.
  assert (Hre : ROOM_NAME_RE (prefix60 +:+ bucket_text n) = true).
  { unfold ROOM_NAME_RE. rewrite string_length_app, Hl. unfold bucket_text. rewrite length_hex.
    by rewrite (hex_digits_app _ _ _ _ Hd Ht). }
  split; [done|]. unfold bucketForRoomName. rewrite Hre. rewrite <-Hl, string_drop_app. unfold bucket_text.
  rewrite Ht. simpl. f_equal. unfold hex_number. simpl. unfold N_BUCKETS in Hn. clear -Hn. dlia.
Qed.

(** ** Lemmas: positions among ranges *)

Definition in_some (n : Z) (l : list (Z * Z)) : Prop := exists r, r ∈ l /\ r.1 <= n <= r.2.

Lemma total_size_cons r l : total_size (r :: l) = range_size r + total_size l.
Proof.
  unfold total_size. simpl. change (fold_left _ l (0 + range_size r)) with (fold_left (fun n r => n + range_size r) l (0 + range_size r)).
  generalize 0 at 1 2. generalize (range_size r). induction l as [|x l IH]; intros a b; simpl; [lia|].
  replace (b + a + range_size x) with ((b + range_size x) + a) by lia. by rewrite IH.
Qed.

Definition ordered (l : list (Z * Z)) : Prop := Forall (fun r => r.1 <= r.2) l.

Lemma total_size_nonneg l : ordered l -> 0 <= total_size l /\ (total_size l = 0 <-> l = []).
Proof.
  intros Hl. induction Hl as [|r l Hr Hl IH]; [by vm_compute|]. rewrite total_size_cons. unfold range_size.
  split; [lia|]. split; [lia|done].
Qed.

Lemma pick_room_sound p l idx :
  ordered l -> 0 <= idx < total_size l ->
  exists n, in_some n l /\ pick_room p idx l = Some (p +:+ padStart4 (toString16 n)).
Proof.
  intros Hl. revert idx. induction Hl as [|r l Hr Hl IH]; intros idx Hi; [unfold total_size in Hi; simpl in Hi; lia|].
  rewrite total_size_cons in Hi. simpl. destruct (Z.ltb_spec idx (range_size r)) as [Hlt|Hge].
  - exists (r.1 + idx). split; [|done]. exists r. split; [by left|]. unfold range_size in Hlt. lia.
  - destruct (IH (idx - range_size r)) as (n & (r' & Hin & Hn) & E); [lia|]. exists n. split; [|done].
    exists r'. split; [by right|done].
Qed.

Lemma pick_room_complete p l n :
  ordered l -> in_some n l ->
  exists idx, 0 <= idx < total_size l /\ pick_room p idx l = Some (p +:+ padStart4 (toString16 n)).
Proof.
  intros Hl (r & Hin & Hn). induction Hl as [|r' l Hr Hl IH]; [by apply elem_of_nil in Hin|].
  pose proof (total_size_nonneg l Hl) as [H0 _]. apply elem_of_cons in Hin as [->|Hin].
  - exists (n - r'.1). rewrite total_size_cons. unfold range_size. split; [lia|]. simpl. unfold range_size.
    replace (n - r'.1 <? r'.2 - r'.1 + 1) with true by lia. by replace (r'.1 + (n - r'.1)) with n by lia.
  - destruct (IH Hin) as (idx & Hi & E). exists (idx + range_size r'). rewrite total_size_cons. split.
    + unfold range_size. lia.
    + simpl. replace (idx + range_size r' <? range_size r') with false by lia.
      by replace (idx + range_size r' - range_size r') with idx by lia.
Qed.

(** The ranges of a host in a parsed map. *)
Definition host_ranges (h : string) (rs : list range) : list (Z * Z) :=
  omap (fun r => if String.eqb (host r) h && (low r <=? high r) then Some (low r, high r) else None) rs.

Lemma owned_ranges_parsed h l rs :
  parse_ranges l = Ok rs -> omap (owned_range h) l = host_ranges h rs.
Proof.
  revert rs. induction l as [|r l IH]; intros rs E; [by injection E as <-|]. simpl in E.
  destruct (parse_range r) as [x|e] eqn:Er; [|done]. simpl in E.
  destruct (parse_ranges l) as [xs|e]; [|done]. injection E as <-.
  assert (Hx : owned_range h r = if String.eqb (host x) h && (low x <=? high x) then Some (low x, high x) else None).
  { unfold parse_range in Er. unfold owned_range, jget. destruct r; try done.
    destruct (jinteger (jfind "low" kvs)), (jinteger (jfind "high" kvs)), (jstring (jfind "host" kvs)); try done.
    by injection Er as <-. }
  unfold host_ranges in *. cbn [omap list_omap]. unfold omap, list_omap in IH |- *. rewrite Hx.
  by rewrite (IH xs eq_refl).
Qed.

Lemma host_ranges_owned m h n :
  in_some n (host_ranges h (ranges m)) <-> n ∈ ownedBuckets m h.
Proof.
  rewrite elem_of_ownedBuckets. unfold in_some, host_ranges. split.
  - intros (r & Hin & Hn). apply list_elem_of_omap in Hin as (x & Hx & E).
    destruct (String.eqb_spec (host x) h); [|done]. simpl in E. destruct (Z.leb_spec (low x) (high x)); [|done].
    injection E as <-. simpl in Hn. exists x. split_and!; [done..|]. by apply covers_spec.
  - intros (x & Hx & <- & Hc). apply covers_spec in Hc. exists (low x, high x). split; [|done].
    apply list_elem_of_omap. exists x. split; [done|]. rewrite String.eqb_refl.
    by replace (low x <=? high x) with true by lia.
Qed.

Lemma host_ranges_ordered h rs : ordered (host_ranges h rs).
Proof.
  apply Forall_forall. intros r Hin. apply list_elem_of_omap in Hin as (x & _ & E).
  destruct (String.eqb (host x) h); [|done]. simpl in E. destruct (Z.leb_spec (low x) (high x)); [|done].
  injection E as <-. done.
Qed.

(** What a served text parses to, both ways. *)
Lemma parsed_ranges text j m :
  JSON_parse text = Some j -> parseShardMap text = Ok m ->
  exists l, filter_ranges j = Ok l /\ map_ranges j = Ok l /\ parse_ranges l = Ok (ranges m).
Proof.
  unfold parseShardMap. intros ->. destruct j; try done. destruct (jinteger (jfind "version" kvs)); [|done].
  destruct (jfind "ranges" kvs) as [[]|] eqn:E; try done.
  destruct (parse_ranges l) as [rs|e] eqn:Ep; [|done]. intros [= <-].
  exists l. unfold filter_ranges, map_ranges, jget. by rewrite E.
Qed.

(** The room built for a host, on the ranges the relays parse. *)
Lemma owned_room_pick j host p u l rs :
  PREFIX_RE p = true -> filter_ranges j = Ok l -> parse_ranges l = Ok rs ->
  ownedRoomForHost j host p u =
    let hs := host_ranges host rs in
    if total_size hs =? 0 then Ok None
    else Ok (pick_room p (Z.min (total_size hs - 1) (Z.max 0 (Qfloor (u * inject_Z (total_size hs))%Q))) hs).
Proof.
  intros Hp Hf Hl. unfold ownedRoomForHost. rewrite Hp, Hf. unfold rbind. cbv zeta. cbn [negb].
  by rewrite (owned_ranges_parsed host l _ Hl).
Qed.

(** ** Properties *)

(** [ownsBucket] of a box that holds the map. *)
Definition owns_bucket (m : shard_map) (host : string) (b : Z) : bool := bool_decide (b ∈ ownedBuckets m host).

(** Every index is drawn by some random number. *)
Lemma unit_draw idx total : 0 <= idx < total -> exists u, (0 <= u < 1)%Q /\ Qfloor (u * inject_Z total) = idx.
Proof.
  intros Hi. assert (Ht : ~ (inject_Z total == 0)%Q) by (rewrite (inject_Z_injective total 0); lia).
  exists (inject_Z idx / inject_Z total)%Q. split; [split; [apply Qle_shift_div_l|apply Qlt_shift_div_r]|].
  1-4: change 0%Q with (inject_Z 0); rewrite ?Qmult_1_l, <-?Zlt_Qlt; try lia.
  - change (inject_Z 0 * inject_Z total)%Q with (inject_Z (0 * total)). rewrite <-Zle_Qle. lia.
  - rewrite <-(Qfloor_Z idx) at 2. apply Qfloor_comp. rewrite Qmult_comm. by apply Qmult_div_r.
Qed.

(** The room built for a host on the text of a valid map. *)
Section Probed.
Context (text : string) (j : json) (m : shard_map) (host prefix60 : string).
Context (Ej : JSON_parse text = Some j) (Em : parseShardMap text = Ok m) (Hv : validateShardMap m = Ok tt).
Context (Hp : PREFIX_RE prefix60 = true).

Lemma owned_bucket_bound b : b ∈ ownedBuckets m host -> 0 <= b < N_BUCKETS.
Proof using Hv.
  apply validate_well_formed in Hv as (_ & Hw & _). intros (r & Hr & _ & Hc)%elem_of_ownedBuckets. rewrite Forall_forall in Hw.
  destruct (Hw r Hr) as (_ & ? & ?). apply covers_spec in Hc. unfold EXPECTED_BUCKETS, N_BUCKETS in *. lia.
Qed.

Lemma owned_room_built u :
  (ownedRoomForHost j host prefix60 u = Ok None /\ ownedBuckets m host = ∅)
  \/ exists b, b ∈ ownedBuckets m host /\ ownedRoomForHost j host prefix60 u = Ok (Some (prefix60 +:+ bucket_text b)).
Proof using Ej Em Hv Hp.
  destruct (parsed_ranges text j m Ej Em) as (l & Hf & _ & Hl).
  pose proof (host_ranges_ordered host (ranges m)) as Ho. pose proof (total_size_nonneg _ Ho) as [Hpos Hzero].
  rewrite (owned_room_pick _ _ _ _ _ _ Hp Hf Hl). cbv zeta.
  destruct (Z.eqb_spec (total_size (host_ranges host (ranges m))) 0) as [E|Hne].
  - left. apply Hzero in E. split; [done|]. apply set_eq. intros b. split; [|set_solver].
    intros Hb. apply host_ranges_owned in Hb as (r & Hr & _). rewrite E in Hr. by apply elem_of_nil in Hr.
  - right. match goal with |- context [pick_room _ ?i _] => assert (Hi : 0 <= i < total_size (host_ranges host (ranges m))) by lia; revert Hi; generalize i end.
    intros idx Hi. destruct (pick_room_sound prefix60 _ idx Ho Hi) as (n & Hn & En). apply host_ranges_owned in Hn.
    exists n. split; [done|]. rewrite En. by rewrite (padStart4_bucket n (owned_bucket_bound n Hn)).
Qed.

Lemma owned_room_admitted b :
  b ∈ ownedBuckets m host ->
  ROOM_NAME_RE (prefix60 +:+ bucket_text b) = true /\ hostForBucket m b = Some host
  /\ ownershipDecision MODE_DISTRIBUTED (prefix60 +:+ bucket_text b) (owns_bucket m host) = Admit (Some b).
Proof using Hv Hp.
  intros Hb. pose proof (owned_bucket_bound b Hb) as Hbd. apply validate_well_formed in Hv as Hw.
  destruct (room_in_bucket prefix60 b Hp Hbd) as [Hre Hbk]. split; [done|].
  split; [by apply (hostForBucket_owned m b host Hw Hbd)|].
  unfold ownershipDecision. unfold owns_bucket. by rewrite Hbk, bool_decide_eq_true_2.
Qed.
End Probed.

(** A probe asks a host about a room it owns.  On the text of a map the
    relays accept, the room built for a host is a valid room name which the
    ownership gate of exactly that host admits; there is none exactly when the
    host owns nothing; and every bucket the host owns is built for some draw of
    the random number, so repeated probes can reach all of them. *)
Theorem probe_room_is_owned (text : string) (j : json) (m : shard_map) (host prefix60 : string) :
  JSON_parse text = Some j -> parseShardMap text = Ok m -> validateShardMap m = Ok tt -> PREFIX_RE prefix60 = true ->
  (forall u, ownedRoomForHost j host prefix60 u = Ok None <-> ownedBuckets m host = ∅)
  /\ (forall u room, ownedRoomForHost j host prefix60 u = Ok (Some room) ->
        exists b, ROOM_NAME_RE room = true /\ hostForBucket m b = Some host
          /\ ownershipDecision MODE_DISTRIBUTED room (owns_bucket m host) = Admit (Some b))
  /\ (forall b, b ∈ ownedBuckets m host ->
        exists u, (0 <= u < 1)%Q /\
          ownedRoomForHost j host prefix60 u = Ok (Some (prefix60 +:+ bucket_text b))).
Proof.
  intros Ej Em Hv Hp. pose proof (owned_room_built text j m host prefix60 Ej Em Hv Hp) as Hbuilt. split_and!.
  - intros u. destruct (Hbuilt u) as [[-> ->]|(b & Hb & ->)]; [done|]. split; [done|]. set_solver.
  - intros u room E. destruct (Hbuilt u) as [[E' _]|(b & Hb & E')]; rewrite E' in E; [done|]. injection E as <-.
    exists b. by apply owned_room_admitted.
  - intros b Hb. destruct (parsed_ranges text j m Ej Em) as (l & Hf & _ & Hl).
    pose proof (host_ranges_ordered host (ranges m)) as Ho. apply host_ranges_owned in Hb as Hin.
    destruct (pick_room_complete prefix60 _ b Ho Hin) as (idx & Hi & E).
    set (total := total_size (host_ranges host (ranges m))) in *.
    destruct (unit_draw idx total Hi) as (u & Hu & Efl). exists u. split; [done|].
    rewrite (owned_room_pick _ _ _ _ _ _ Hp Hf Hl). cbv zeta. fold total. replace (total =? 0) with false by lia.
    rewrite Efl. replace (Z.min (total - 1) (Z.max 0 idx)) with idx by lia. rewrite E.
    by rewrite (padStart4_bucket b (owned_bucket_bound m host Hv b Hb)).
Qed.

Definition served_map : string :=
  requote "{'version':3,'ranges':[{'low':32768,'high':65535,'host':'b.example'},{'low':0,'high':32767,'host':'a.example'}]}".

Lemma probe_room_is_owned_witness :
  exists j, JSON_parse served_map = Some j /\ parseShardMap served_map = Ok two_hosts
    /\ validateShardMap two_hosts = Ok tt /\ PREFIX_RE (zeros 60) = true
    /\ ownedRoomForHost j "b.example" (zeros 60) (1 # 2) = Ok (Some (zeros 60 +:+ "c000"))
    /\ exists b, ROOM_NAME_RE (zeros 60 +:+ "c000") = true /\ hostForBucket two_hosts b = Some "b.example"%string
         /\ ownershipDecision MODE_DISTRIBUTED (zeros 60 +:+ "c000") (owns_bucket two_hosts "b.example") = Admit (Some b).
Proof.
  destruct (JSON_parse served_map) as [j|] eqn:Ej; [|vm_compute in Ej; discriminate].
  exists j. split; [done|].
  assert (Em : parseShardMap served_map = Ok two_hosts) by (vm_compute; reflexivity).
  assert (Hv : validateShardMap two_hosts = Ok tt) by (vm_compute; reflexivity).
  assert (Hp : PREFIX_RE (zeros 60) = true) by (vm_compute; reflexivity).
  assert (Hr : ownedRoomForHost j "b.example" (zeros 60) (1 # 2) = Ok (Some (zeros 60 +:+ "c000"))).
  { vm_compute in Ej. injection Ej as <-. vm_compute. reflexivity. }
  split_and!; [done..|].
  exact (proj1 (proj2 (probe_room_is_owned served_map j two_hosts "b.example" (zeros 60) Ej Em Hv Hp)) (1 # 2)%Q _ Hr).
Defined.
