(* ===== verification/MonitorProbe.v ===== *)
(** The monitor's probe against a relay of this library: the handshake of
    [probeHandshake] ([monitor/src/monitor.js]) driven into a room
    ([src/room.js]) that was never used. *)

From S2P Require Import Prelude Bytes Crypto Json Transcript Storage RoomState AttestApi Room RoomSteps MonitorFleet.

(** The frames of the probe, as the texts it sends. *)
Definition probe_hello : frame := Frame false (requote "{'v':1,'role':'mac'}").
Definition probe_proof : frame := Frame false "{}".

(** What a socket was sent, in order. *)
Fixpoint sent_to (ws : nat) (l : list output) : list json :=
  match l with
  | Sent ws' j :: l' => if (ws' =? ws)%nat then j :: sent_to ws l' else sent_to ws l'
  | _ :: l' => sent_to ws l'
  | [] => []
  end.

Lemma sent_to_app ws l k : sent_to ws (l ++ k) = sent_to ws l ++ sent_to ws k.
Proof. induction l as [|[] l IH]; simpl; try done. case_match; simpl; by rewrite IH. Qed.

(** The connection of the probe, and its two frames. *)
Definition probe_inputs (ws : nat) (name : string) (t1 t2 t3 t4 : Z) (r1 r2 r3 r4 : bytes) : list input :=
  [(t1, r1, EUpgrade ws name); (t2, r2, EResume 0); (t3, r3, EMessage ws probe_hello);
   (t4, r4, EMessage ws probe_proof)].

Section Fresh.
Context `{Crypto} `{AppAttest} (env : environment) (ws : nat) (name : string).

(** A room whose only socket ever is [ws], with nothing stored but an alarm. *)
Definition only_socket (a : attachment) (s : room) : Prop :=
  sockets s = [ws] /\ attachments s = {[ws := a]} /\ admissionWindow s = Window 0 0 /\ kv (storage s) = ∅.

Definition fresh_hello (t : Z) : attachment := Att SHello None "" name None false t.

Lemma upgrade_effect t :
  let s := exec (handleUpgrade t ws name) (new_room (RStore ∅ None)) in
  handleUpgrade t ws name (new_room (RStore ∅ None)) = (Done (Some (KUpgrade ws name)), s)
  /\ only_socket (fresh_hello t) s /\ sent_to ws (trace s) = [].
Proof. repeat split. Qed.

Lemma upgrade_resume_effect t now s :
  only_socket (fresh_hello t) s ->
  exists s', handleUpgrade_resume now ws name s = (Done tt, s')
    /\ only_socket (Att SHello None "" name (Some (roomTag (Some name))) false t) s'
    /\ sent_to ws (trace s') = sent_to ws (trace s).
Proof.
  destruct s as [socks atts sc cf st al aw fw q qf tr]. unfold only_socket.
  cbn [sockets attachments admissionWindow storage trace kv]. intros (-> & -> & -> & Hk).
  unfold handleUpgrade_resume, backfill_tag, deserializeAttachment, evictExcessPreAuth, ebind, eget, eret, emod.
  generalize (roomTag (Some name)) as tg. intros tg. cbn. rewrite lookup_singleton_eq. cbn. rewrite insert_singleton_eq.
  rewrite lookup_singleton_eq. cbn. rewrite (bool_decide_eq_false_2 (SHello = SAdmitted)) by done. cbn.
  unfold ensureAlarm, sgetAlarm, ssetAlarm, step_storage, ebind, eret, ewhen. cbn.
  destruct (Storage.alarm st) as [at_|]; cbn; [destruct (now + HOUSEKEEPING_INTERVAL_MS <? at_)|]; cbn; eexists; (split; [reflexivity|]); repeat split; try exact Hk.
  all: cbn [trace push set_alarmAt set_storage set_attachments]; rewrite sent_to_app; by rewrite app_nil_r.
Qed.


Definition challenged (t : Z) (n : string) : attachment :=
  Att SChallenged (Some mac) n name (Some (roomTag (Some name))) false t.

Lemma hello_effect t now rnd s :
  only_socket (Att SHello None "" name (Some (roomTag (Some name))) false t) s ->
  exists s', webSocketMessage env now rnd ws probe_hello s = (Done None, s')
    /\ only_socket (challenged t (b64 rnd)) s'
    /\ sent_to ws (trace s') = sent_to ws (trace s) ++ [JObj [("nonce", JStr (b64 rnd))]].
Proof.
  destruct s as [socks atts sc cf st al aw fw q qf tr]. unfold only_socket.
  cbn [sockets attachments admissionWindow storage trace kv]. intros (-> & -> & -> & Hk).
  unfold webSocketMessage, deserializeAttachment, ebind, eget, eret.
  unfold challenged. generalize (roomTag (Some name)) as tg. intros tg. cbn -[handleHello frame_size].
  rewrite lookup_singleton_eq. cbn -[handleHello frame_size].
  rewrite (bool_decide_eq_false_2 (SHello = SAdmitted)) by done.
  change (MAX_CONTROL_BYTES <? frame_size probe_hello) with false. cbn -[JSON_parse].
  unfold handleHello. destruct (JSON_parse (payload probe_hello)) as [j|] eqn:Ej; [|vm_compute in Ej; discriminate].
  vm_compute in Ej. injection Ej as <-. eexists. split; [reflexivity|]. cbn -[b64].
  rewrite insert_singleton_eq. repeat split; [exact Hk|]. rewrite sent_to_app. simpl. by rewrite Nat.eqb_refl.
Qed.

Lemma admit_effect tg t n now rnd via s :
  sockets s = [ws] -> attachments s = {[ws := Att SChallenged (Some mac) n name (Some tg) false t]} -> kv (storage s) = ∅ ->
  exists s', admit_socket now rnd ws mac None via s = (Done tt, s')
    /\ sent_to ws (trace s') = sent_to ws (trace s) ++ [JObj json_ok].
Proof.
  destruct s as [socks atts sc cf st al aw fw q qf tr].
  cbn [sockets attachments storage trace kv]. intros -> -> Hk.
  unfold admit_socket, admit_gate, take_slot, deserializeAttachment, sget, sput, step_storage, getWebSockets,
    exists_other, serializeAttachment, log, send, ewhen, ebind, eget, emod, eret.
  cbn. rewrite Hk, lookup_singleton_eq, lookup_empty. cbn.
  rewrite (bool_decide_eq_true_2 (mac = mac)), !(bool_decide_eq_false_2 (mac = phone)) by done. cbn. rewrite Nat.eqb_refl. cbn.
  eexists. split; [reflexivity|]. cbn. rewrite sent_to_app, sent_to_app. simpl. by rewrite Nat.eqb_refl, app_nil_r.
Qed.

Lemma proof_effect t n now rnd s :
  only_socket (challenged t n) s ->
  exists s', webSocketMessage env now rnd ws probe_proof s = (Done None, s')
    /\ sent_to ws (trace s') = sent_to ws (trace s) ++ [JObj json_ok].
Proof.
  destruct s as [socks atts sc cf st al aw fw q qf tr]. unfold only_socket, challenged.
  cbn [sockets attachments admissionWindow storage trace kv]. intros (-> & -> & -> & Hk).
  generalize (roomTag (Some name)) as tg. intros tg.
  unfold webSocketMessage, deserializeAttachment, ebind, eget, eret.
  cbn -[handleProof frame_size]. rewrite lookup_singleton_eq. cbn -[handleProof frame_size].
  rewrite (bool_decide_eq_false_2 (SChallenged = SAdmitted)) by done.
  change (MAX_CONTROL_BYTES <? frame_size probe_proof) with false. cbn -[handleProof].
  unfold handleProof, rateLimited, ebind, emod, eget, eret. cbn -[JSON_parse bump_window admit_socket].
  assert (Hw : MAX_ADMISSION_ATTEMPTS <? wcount (bump_window (Window 0 0) ADMISSION_WINDOW_MS now) = false)
    by (unfold bump_window; destruct (ADMISSION_WINDOW_MS <? now - _); reflexivity).
  rewrite Hw. destruct (JSON_parse "{}") as [j|] eqn:Ej; [|vm_compute in Ej; discriminate].
  vm_compute in Ej. injection Ej as <-. unfold sget, step_storage, ebind, eret. cbn -[admit_socket bump_window].
  rewrite Hk, lookup_empty. cbn -[admit_socket bump_window]. rewrite (bool_decide_eq_true_2 (mac = mac)) by done.
  destruct (attestationRequired env); cbn -[admit_socket bump_window];
    match goal with |- context [admit_socket _ _ _ _ _ ?via ?s] =>
      destruct (admit_effect tg t n now rnd via s eq_refl eq_refl Hk) as (s1 & E1 & Hs1) end;
    rewrite E1; by exists s1.
Qed.

Lemma upgrade_step t r : exists s,
  step env t r (EUpgrade ws name) initial = Some (World s [KUpgrade ws name] [])
  /\ only_socket (fresh_hello t) s /\ sent_to ws (trace s) = [].
Proof.
  destruct (upgrade_effect t) as (E & Hs & Ht). eexists. split; [|by split].
  simpl step. destruct (decide (∅ !! ws = None)) as [_|Hn]; [|by destruct Hn].
  unfold settle. simpl rm. by rewrite E.
Qed.

Lemma resume_step t r s s' :
  handleUpgrade_resume t ws name s = (Done tt, s') ->
  step env t r (EResume 0) (World s [KUpgrade ws name] []) = Some (World s' [] []).
Proof. intros E. simpl. unfold settle, resume, ebind. simpl rm. by rewrite E. Qed.

Lemma message_step t r f a s s' :
  webSocketMessage env t r ws f s = (Done None, s') -> attachments s = {[ws := a]} ->
  step env t r (EMessage ws f) (World s [] []) = Some (World s' [] []).
Proof.
  intros E Ha. unfold step. cbn [rm pending]. rewrite Ha, lookup_singleton_eq.
  rewrite bool_decide_eq_true_2 by done. unfold settle. cbn [rm negb busy existsb andb]. by rewrite E.
Qed.
End Fresh.

(** The monitor's probe against a healthy relay succeeds.  Whatever the mode,
    the times and the random bytes: a socket that connects to a room never used
    and sends the probe's two frames is sent exactly two messages, and on any
    JSON text of these [probeHandshake] reports a parked mac; an alert from the
    probe is therefore never the protocol's doing. *)
Theorem probe_succeeds_on_fresh_room `{Crypto} `{AppAttest} (env : environment) (ws : nat) (name : string)
    (t1 t2 t3 t4 : Z) (r1 r2 r3 r4 : bytes) :
  exists w j1 j2, run env (probe_inputs ws name t1 t2 t3 t4 r1 r2 r3 r4) initial = Some w
    /\ sent_to ws (trace (rm w)) = [j1; j2]
    /\ forall text1 text2, JSON_parse text1 = Some j1 -> JSON_parse text2 = Some j2 ->
         probeHandshake (Ok text1) (Ok text2) = Probe true "mac parked".
Proof.
  destruct (upgrade_step env ws name t1 r1) as (s1 & E1 & H1 & T1).
  destruct (upgrade_resume_effect ws name t1 t2 s1 H1) as (s2 & F2 & H2 & T2).
  pose proof (resume_step env ws name t2 r2 s1 s2 F2) as E2.
  destruct (hello_effect env ws name t1 t3 r3 s2 H2) as (s3 & F3 & H3 & T3).
  pose proof (message_step env ws t3 r3 _ _ _ _ F3 (proj1 (proj2 H2))) as E3.
  destruct (proof_effect env ws name t1 (b64 r3) t4 r4 s3 H3) as (s4 & F4 & T4).
  pose proof (message_step env ws t4 r4 _ _ _ _ F4 (proj1 (proj2 H3))) as E4.
  exists (World s4 [] []), (JObj [("nonce", JStr (b64 r3))]), (JObj json_ok). split.
  { unfold probe_inputs. cbn [run]. rewrite E1. cbn [mbind option_bind]. rewrite E2. cbn [mbind option_bind].
    rewrite E3. cbn [mbind option_bind]. by rewrite E4. }
  split; [cbn [rm]; by rewrite T4, T3, T2, T1|].
  intros text1 text2 J1 J2. unfold probeHandshake, probe_text. by rewrite J1, J2.
Qed.
