(* ===== verification/MonitorPush.v ===== *)
(** What the monitor reads from a metrics page ([monitor/src/monitor.js]): the
    exposition a relay serves in pull mode, and that of the push relays with the
    alerts drawn from them. *)

From Stdlib Require Import QArith Qround Qabs Ascii SpecFloat.
From stdpp Require Import pretty.
From S2P Require Import Prelude Bytes Json Monitor.
#[local] Open Scope Z_scope.

(** ** Lines of an exposition *)

(** [text.split("\n")] *)
Fixpoint split_lines (l : list ascii) (acc : list ascii) : list (list ascii) :=
  match l with
  | [] => [rev acc]
  | c :: l' => if is_char 10 c then rev acc :: split_lines l' [] else split_lines l' (c :: acc)
  end.

Definition lines (text : string) : list (list ascii) := split_lines (String.list_ascii_of_string text) [].

Definition trim_chars (l : list ascii) : list ascii := rev (trim_left (rev (trim_left l))).

Fixpoint take_while (p : ascii -> bool) (l : list ascii) : list ascii * list ascii :=
  match l with
  | c :: l' => if p c then let '(a, b) := take_while p l' in (c :: a, b) else ([], l)
  | [] => ([], [])
  end.

(** [(\{[^}]*\})?]: the labels, without braces, when the brace closes. *)
Definition take_labels (l : list ascii) : option (list ascii) * list ascii :=
  match l with
  | c :: l' =>
      if is_char 123 c then
        match take_while (fun c => negb (is_char 125 c)) l' with
        | (labels, _ :: r) => (Some labels, r)
        | (_, []) => (None, l)
        end
      else (None, l)
  | [] => (None, [])
  end.

(** [\s+(\S+)]: the value and what follows it. *)
Definition take_value (l : list ascii) : option (list ascii * list ascii) :=
  match take_while is_js_space l with
  | ([], _) => None
  | (_, r) => match take_while (fun c => negb (is_js_space c)) r with
              | ([], _) => None
              | (v, r') => Some (v, r')
              end
  end.

Definition in_range (lo hi : nat) (c : ascii) : bool := Nat.leb lo (nat_of_ascii c) && Nat.leb (nat_of_ascii c) hi.
Definition is_lower (c : ascii) : bool := in_range 97 122 c.
Definition is_digit (c : ascii) : bool := in_range 48 57 c.

Definition text_of (l : list ascii) : string := String.string_of_list_ascii l.

(** ** The exposition of a relay (pull mode) *)

Fixpoint drop_prefix (p : string) (l : list ascii) : option (list ascii) :=
  match p, l with
  | EmptyString, _ => Some l
  | String a p', c :: l' => if Ascii.eqb a c then drop_prefix p' l' else None
  | String _ _, [] => None
  end.

(** The pattern of [parseRelayMetrics], matched on a trimmed line: the name past
    [relay_], and the value's text. *)
Definition relay_line (l : list ascii) : option (string * string) :=
  l1 ← drop_prefix "relay_" (trim_chars l);
  match take_while (fun c => is_lower c || is_digit c || is_char 95 c) l1 with
  | ([], _) => None
  | (name, l2) => '(v, _) ← take_value (take_labels l2).2; Some (text_of name, text_of v)
  end.

Definition relay_metric (out : gmap string Q) (l : list ascii) : gmap string Q :=
  match relay_line l with
  | None => out
  | Some (name, v) =>
      if starts_with "socket_lifetime_seconds" name then out else
      match finite_number v with
      | None => out
      | Some q => <[name := (default 0 (out !! name) + q)%Q]> out
      end
  end.

Definition parseRelayMetrics (text : string) : result string (gmap string Q) :=
  let out := fold_left relay_metric (lines text) ∅ in
  if bool_decide (out = ∅) then Err "no relay_ metrics in response" else Ok out.

(** The double nearest a rational, to write it as a JSON number. *)
Definition q_to_float (q : Q) : spec_float :=
  match Qnum q with
  | Z0 => S754_zero false
  | Zpos p => match SFdiv_core_binary prec64 emax64 (Zpos p) 0 (Zpos (Qden q)) 0 with
              | (m, e, loc) => binary_round_aux prec64 emax64 false m e loc end
  | Zneg p => match SFdiv_core_binary prec64 emax64 (Zpos p) 0 (Zpos (Qden q)) 0 with
              | (m, e, loc) => binary_round_aux prec64 emax64 true m e loc end
  end.

(** The flat object [parseRelayMetrics] returns, as stored. *)
Definition snapshot_json (out : gmap string Q) : json :=
  JObj (List.map (fun kv => (kv.1, JNum (q_to_float kv.2))) (map_to_list out)).

Example pulled_snapshot :
  match parseRelayMetrics ("# HELP relay_http_requests_total n" +:+ String (ascii_of_nat 10)
      ("relay_http_requests_total 41" +:+ String (ascii_of_nat 10)
      ("relay_rejects_total{reason=x} 2" +:+ String (ascii_of_nat 10)
      ("relay_rejects_total{reason=y} 3.0" +:+ String (ascii_of_nat 10) "relay_sockets_live 7")))) with
  | Ok out => Qred <$> (out !! "rejects_total"%string) = Some 5%Q
              /\ normalizeSnapshot (snapshot_json out) = Ok (Counters 41 0 0 0, Gauges 7 0)
  | Err _ => False
  end.
Proof. vm_compute. by split. Qed.

(** ** The push relays to watch *)

Record push_relay := PushRelay {
  index : Z; label : string; metricsUrl : string; metricsAuth : option string;
  probeUrl : option string; dashboardUrl : option string }.

(** [env[k] || null] *)
Definition env_text (e : env) (k : string) : option string :=
  match e !! k with Some s => if String.eqb s "" then None else Some s | None => None end.

Definition push_relay_of (e : env) (n : Z) : option push_relay :=
  let p := if n =? 1 then "PUSH_"%string else "PUSH" +:+ pretty n +:+ "_" in
  url ← env_text e (p +:+ "METRICS_URL");
  Some (PushRelay n
          (default (if n =? 1 then "push"%string else "push" +:+ pretty n) (env_text e (p +:+ "HOST_LABEL"))) url
          ((fun basic => "Basic " +:+ b64 (utf8 basic)) <$> env_text e (p +:+ "METRICS_BASIC_AUTH"))
          (env_text e (p +:+ "PROBE_URL")) (env_text e (p +:+ "DASHBOARD_URL"))).

Definition pushRelaysFromEnv (e : env) : list push_relay := omap (push_relay_of e) (seqZ 1 9).

(** ** The exposition of a push relay *)

Record push_counters := PushCounters { pushes : Q; pdelivered : Q; pfailed : Q; timeouts : Q; authRejects : Q }.
Record push_gauges := PushGauges { sessions : Q; devices : Q; lastDeliveryTs : Q }.
Record peer := Peer { outbox : Q; skewMs : Q; dropped : Q; rejected : Q; lastOkTs : Q; hasLastOk : bool }.
Record push_metrics := PushMetrics { pcounters : push_counters; pgauges : push_gauges; ppeer : option peer }.

(** The pattern of [parsePushMetrics], anchored at both ends. *)
Definition push_line (l : list ascii) : option (string * option string * string) :=
  let first c := is_lower c || in_range 65 90 c || is_char 95 c || is_char 58 c in
  match l with
  | c :: _ =>
      if first c then
        let '(name, l2) := take_while (fun c => first c || is_digit c) l in
        let '(labels, l3) := take_labels l2 in
        match take_value l3 with
        | Some (v, []) => Some (text_of name, text_of <$> labels, text_of v)
        | _ => None
        end
      else None
  | [] => None
  end.

(** The first quoted reason among the labels. *)
Fixpoint find_reason (l : list ascii) : option string :=
  match drop_prefix ("reason=" +:+ dquote) l with
  | Some r => match take_while (fun c => negb (is_char 34 c)) r with
              | (v, _ :: _) => Some (text_of v)
              | (_, []) => match l with [] => None | _ :: l' => find_reason l' end
              end
  | None => match l with [] => None | _ :: l' => find_reason l' end
  end.

Definition PUSH_AUTH_REASONS : list string :=
  ["ExpiredProviderToken"; "InvalidProviderToken"; "MissingProviderToken"; "BadEnvironmentKeyInToken"]%string.

(** What the loop fills: the counters, the gauges, the peer and whether it is
    configured. *)
Record push_acc := PushAcc { acounters : push_counters; agauges : push_gauges; apeer : peer; configured : bool }.

Definition set_plain (name : string) (v : Q) (a : push_acc) : option push_acc :=
  let '(PushAcc (PushCounters p d f t r as c) (PushGauges s n l as g) pe cf) := a in
  let cc c' := Some (PushAcc c' g pe cf) in
  let gg g' := Some (PushAcc c g' pe cf) in
  if String.eqb name "pushrelay_push_total" then cc (PushCounters v d f t r)
  else if String.eqb name "pushrelay_push_delivered_total" then cc (PushCounters p v f t r)
  else if String.eqb name "pushrelay_push_failed_total" then cc (PushCounters p d v t r)
  else if String.eqb name "pushrelay_apns_request_timeouts_total" then cc (PushCounters p d f v r)
  else if String.eqb name "pushrelay_apns_sessions" then gg (PushGauges v n l)
  else if String.eqb name "pushrelay_devices" then gg (PushGauges s v l)
  else if String.eqb name "pushrelay_last_delivery_timestamp_seconds" then gg (PushGauges s n v)
  else None.

Definition set_peer (name : string) (v : Q) (a : push_acc) : option push_acc :=
  let '(PushAcc c g (Peer o s d r l h) cf) := a in
  if String.eqb name "pushrelay_peer_outbox" then Some (PushAcc c g (Peer v s d r l h) true)
  else if String.eqb name "pushrelay_peer_clock_skew_ms" then Some (PushAcc c g (Peer o v d r l h) cf)
  else if String.eqb name "pushrelay_peer_forward_dropped_total" then Some (PushAcc c g (Peer o s v r l h) cf)
  else if String.eqb name "pushrelay_peer_rejected_total" then Some (PushAcc c g (Peer o s d v l h) cf)
  else if String.eqb name "pushrelay_peer_last_ok_timestamp_seconds" then Some (PushAcc c g (Peer o s d r v true) cf)
  else None.

(** A rejection that means the signing identity is wrong. *)
Definition add_reject (labels : option string) (v : Q) (a : push_acc) : push_acc :=
  match find_reason (String.list_ascii_of_string (default ""%string labels)) with
  | Some reason =>
      if bool_decide (reason ∈ PUSH_AUTH_REASONS) then
        let '(PushAcc (PushCounters p d f t r) g pe cf) := a in PushAcc (PushCounters p d f t (r + v)%Q) g pe cf
      else a
  | None => a
  end.

Definition push_metric (a : push_acc) (raw : list ascii) : push_acc :=
  let line := trim_chars raw in
  match line with
  | [] => a
  | c :: _ =>
      if is_char 35 c then a else
      match push_line line with
      | None => a
      | Some (name, labels, text) =>
          match finite_number text with
          | None => a
          | Some v =>
              match (match labels with None => match set_plain name v a with
                                               | Some a' => Some a'
                                               | None => set_peer name v a
                                               end
                     | Some _ => None end) with
              | Some a' => a'
              | None => if String.eqb name "pushrelay_apns_rejected_total" then add_reject labels v a else a
              end
          end
      end
  end.

Definition parsePushMetrics (text : string) : push_metrics :=
  let a := fold_left push_metric (lines text)
             (PushAcc (PushCounters 0 0 0 0 0) (PushGauges 0 0 0) (Peer 0 0 0 0 0 false) false) in
  PushMetrics (acounters a) (agauges a) (if configured a then Some (apeer a) else None).

(** ** Intervals and alerts of a push relay *)

Definition q_counters (c : push_counters) : list Q :=
  [pushes c; pdelivered c; pfailed c; timeouts c; authRejects c].

(** The difference of two snapshots, or nothing when a counter went backwards. *)
Definition pushDeltas (prev : option push_counters) (cur : push_counters) : option push_counters :=
  match prev with
  | None => None
  | Some p =>
      let d f := (f cur - f p)%Q in
      if existsb (fun f => qlt (d f) 0) [pushes; pdelivered; pfailed; timeouts; authRejects] then None
      else Some (PushCounters (d pushes) (d pdelivered) (d pfailed) (d timeouts) (d authRejects))
  end.

Definition pushAlerts (interval : option push_counters) (c : config) : list alert :=
  match interval with
  | None => []
  | Some i =>
      let attempts := (pdelivered i + pfailed i)%Q in
      (if qge (timeouts i) 1 then
         let crit := qge (timeouts i) (pushTimeoutCrit c) || Qeq_bool (pdelivered i) 0 in
         [Alert "apns_timeouts" (if crit then critical else warn) None (FTimeouts (timeouts i) (pdelivered i))]
       else [])
      ++ (if qge (authRejects i) 1 then [Alert "apns_auth" critical None (FAuth (authRejects i))] else [])
      ++ (if qge attempts (pushFailMinAttempts c) && qge (pfailed i / attempts)%Q (pushFailRatio c)
             && negb (Qeq_bool attempts 0)
          then [Alert "push_failures" warn None (FPushFailures (pfailed i) attempts)] else [])
  end.

(** How long the peer has not answered, where the relay tells. *)
Definition silent_ms (p : peer) (now : Z) (neverAnsweredSince : option Z) : option Q :=
  if hasLastOk p then
    Some (if qlt 0 (lastOkTs p) then (inject_Z now - lastOkTs p * 1000)%Q
          else inject_Z (now - default now neverAnsweredSince))
  else None.

Definition peerAlerts (p : option peer) (prevPeer : option peer) (outboxStreak : Z) (c : config) (now : Z)
    (neverAnsweredSince : option Z) : list alert :=
  match p with
  | None => []
  | Some p =>
      let skew := Qabs (skewMs p) in
      (match silent_ms p now neverAnsweredSince with
       | Some silent =>
           if qge silent (peerSilentMs c) then
             [Alert "peer_silent" warn None
                (FPeerSilent (if qlt 0 (lastOkTs p) then Some (math_round (silent / 60000)%Q) else None))]
           else []
       | None => []
       end)
      ++ (if qge (inject_Z outboxStreak) (peerOutboxStreak c) then
            [Alert "peer_outbox" warn None (FPeerOutbox (outbox p) outboxStreak)] else [])
      ++ (if qge skew (peerSkewWarnMs c) then
            [Alert "peer_skew" (if qge skew (peerSkewCritMs c) then critical else warn) None (FPeerSkew (skewMs p))]
          else [])
      ++ (match prevPeer with
          | Some q =>
              let dropped := (dropped p - dropped q)%Q in
              let rejected := (rejected p - rejected q)%Q in
              (if qlt 0 dropped then [Alert "peer_dropped" warn None (FPeerDropped dropped)] else [])
              ++ (if qlt 0 rejected then [Alert "peer_rejected" warn None (FPeerRejected rejected)] else [])
          | None => []
          end)
  end.
