(* ===== verification/Metrics.v ===== *)
(** The relay's metrics ([host/metrics.js]): counters, reasons, the histogram of
    socket lifetimes, the flat snapshot that is pushed and the exposition that is
    served; and that a monitor which pulls the exposition reads what a push would
    have told it. *)

From Stdlib Require Import QArith Ascii Sorted.
From stdpp Require Import pretty.
From S2P Require Import Prelude Bytes Json Monitor MonitorPush.
#[local] Open Scope Z_scope.

(** ** The counters: a JS [Map], in insertion order *)

Definition NUL : ascii := ascii_of_nat 0.

Fixpoint map_get (k : string) (m : list (string * Z)) : option Z :=
  match m with
  | [] => None
  | (k', v) :: m' => if String.eqb k' k then Some v else map_get k m'
  end.

Fixpoint map_set (k : string) (v : Z) (m : list (string * Z)) : list (string * Z) :=
  match m with
  | [] => [(k, v)]
  | (k', v') :: m' => if String.eqb k' k then (k', v) :: m' else (k', v') :: map_set k v m'
  end.

Definition LIFETIME_BUCKETS : list Z := [1; 5; 15; 60; 300; 1800].

Record metrics := Metrics { counters : list (string * Z); bucketCounts : list Z; lifetimeInf : Z; lifetimeSum : Q }.

Definition new_metrics : metrics := Metrics [] (List.map (fun _ => 0) LIFETIME_BUCKETS) 0 0.

Definition inc (name : string) (by_ : Z) (m : metrics) : metrics :=
  Metrics (map_set name (default 0 (map_get name (counters m)) + by_) (counters m))
    (bucketCounts m) (lifetimeInf m) (lifetimeSum m).

Definition reason_key (name reason : string) : string := name +:+ String NUL reason.

Definition incReason (name reason : string) (m : metrics) : metrics := inc (reason_key name reason) 1 m.

Definition observeSocketLifetime (seconds : Q) (m : metrics) : metrics :=
  Metrics (counters m)
    (zip_with (fun bound n => if Qle_bool seconds (inject_Z bound) then n + 1 else n) LIFETIME_BUCKETS (bucketCounts m))
    (lifetimeInf m + 1) (lifetimeSum m + seconds)%Q.

(** ** The snapshot that is pushed *)

Abbreviation gauge_list := (list (string * Z)).

(** [g.name || 0] *)
Definition gauge (g : gauge_list) (name : string) : Z := default 0 (map_get name g).

Definition sum_of (l : list (string * Z)) : Z := fold_left (fun n kv => n + kv.2) l 0.

Definition snapshot (m : metrics) (g : gauge_list) : list (string * Z) :=
  let c name := default 0 (map_get name (counters m)) in
  let rejected := sum_of (List.filter (fun kv => starts_with (reason_key "ws_upgrades_rejected_total" "") kv.1)
                            (counters m)) in
  [("ws_upgrades_total", c "ws_upgrades_total"); ("ws_upgrades_rejected_total", rejected);
   ("http_requests_total", c "http_requests_total"); ("http_errors_total", c "http_errors_total");
   ("process_exceptions_total", c "process_exceptions_total"); ("quota_exceeded_total", c "quota_exceeded_total");
   ("rooms_live", gauge g "rooms_live"); ("sockets_live", gauge g "sockets_live");
   ("shard_reject_total", c "shard_reject_total"); ("shard_map_reloads_total", c "shard_map_reloads_total");
   ("shard_map_fetch_errors_total", c "shard_map_fetch_errors_total");
   ("shard_map_version", default (-1) (map_get "shard_map_version" g));
   ("shard_owned_buckets", gauge g "shard_owned_buckets");
   ("shard_draining_buckets", gauge g "shard_draining_buckets")]%string.

(** ** The exposition *)

Definition COUNTER_HELP : list (string * string) :=
  [("ws_upgrades_total", "WebSocket upgrades accepted.");
   ("ws_upgrades_rejected_total", "WebSocket upgrades rejected before handshake, by reason.");
   ("http_requests_total", "HTTP (non-upgrade) requests received.");
   ("http_errors_total", "HTTP requests that threw and returned 500.");
   ("process_exceptions_total", "Process-level exceptions swallowed to keep serving.");
   ("metrics_push_errors_total", "Outbound metrics-push attempts that failed (network or non-2xx).");
   ("quota_exceeded_total", "Sockets closed because their room exceeded its daily byte quota.");
   ("phone_no_mac_total", "Phones turned away because no mac was parked in their room (admit -> " +:+ dquote +:+ "mac offline" +:+ dquote +:+ ").");
   ("ws_keepalive_terminated_total", "Sockets terminated by keepalive after a missed ping/pong (dead peer or path).");
   ("shard_reject_total", "Requests rejected because this box does not own the bucket (reject-on-doubt).");
   ("shard_map_reloads_total", "Shard-map versions adopted (distributed mode).");
   ("shard_map_fetch_errors_total", "Shard-map fetch polls that failed after all retries (kept last-known-good).");
   ("shard_map_fetch_errors_by_cause_total", "Shard-map fetch failures by cause (dns/timeout/conn/tls/http_5xx/http_4xx/parse/other), for attributing an outage after the fact.");
   ("shard_map_fetch_retries_total", "Shard-map fetch attempts retried after a transient failure (per-attempt; a climbing rate with a flat errors_total means the path is lossy but retries are absorbing it).")]%string.

Definition GAUGE_HELP : list (string * string) :=
  [("rooms_live", "Rooms currently resident in memory.");
   ("sockets_live", "WebSocket connections currently open.");
   ("rooms_both", "Resident rooms with both a mac and a phone admitted (spliced).");
   ("rooms_mac_only", "Resident rooms with a mac parked but no phone.");
   ("rooms_phone_only", "Resident rooms with a phone admitted but no mac (should stay 0; invariant tripwire).");
   ("rooms_neither", "Resident rooms with no admitted socket (pre-auth only, or idle established).");
   ("shard_map_version", "Adopted shard-map version, or -1 if none (distributed mode).");
   ("shard_owned_buckets", "Buckets this box currently owns (distributed mode).");
   ("shard_draining_buckets", "Buckets currently draining after a reshard (distributed mode).")]%string.

Fixpoint assoc (k : string) (l : list (string * string)) : option string :=
  match l with [] => None | (k', v) :: l' => if String.eqb k' k then Some v else assoc k l' end.

Definition help_text (name : string) : option string :=
  match assoc name COUNTER_HELP with Some h => Some h | None => assoc name GAUGE_HELP end.

(** [help(name, type)]: once per name, the lines and the names done. *)
Definition help (name type : string) (emitted : list string) : list string * list string :=
  if bool_decide (name ∈ emitted) then ([], emitted) else
  (match help_text name with Some h => ["# HELP relay_" +:+ name +:+ " " +:+ h] | None => [] end
   ++ ["# TYPE relay_" +:+ name +:+ " " +:+ type], name :: emitted).

(** [key.indexOf("\x00")], with what precedes and follows it *)
Fixpoint split_nul (s : string) : option (string * string) :=
  match s with
  | EmptyString => None
  | String c s' =>
      if Ascii.eqb c NUL then Some (EmptyString, s')
      else '(a, b) ← split_nul s'; Some (String c a, b)
  end.

Definition plain_counters (cs : list (string * Z)) : list (string * Z) :=
  List.filter (fun kv => match split_nul kv.1 with None => true | Some _ => false end) cs.

(** The names that have reasons, in order, each with its reasons. *)
Definition reasons_of (name : string) (cs : list (string * Z)) : list (string * Z) :=
  omap (fun kv => match split_nul kv.1 with
                  | Some (n, r) => if String.eqb n name then Some (r, kv.2) else None
                  | None => None
                  end) cs.

Definition labeled_names (cs : list (string * Z)) : list string :=
  fold_left (fun names kv => match split_nul kv.1 with
                             | Some (n, _) => if bool_decide (n ∈ names) then names else names ++ [n]
                             | None => names
                             end) cs [].

Definition value_line (name : string) (labels : string) (v : string) : string :=
  "relay_" +:+ name +:+ labels +:+ " " +:+ v.

Definition reason_label (reason : string) : string :=
  "{reason=" +:+ dquote +:+ reason +:+ dquote +:+ "}".

(** The lines of a list of plain series. *)
Fixpoint plain_lines (type : string) (l : list (string * Z)) (emitted : list string) : list string * list string :=
  match l with
  | [] => ([], emitted)
  | (name, v) :: l' =>
      let '(h, emitted) := help name type emitted in
      let '(rest, emitted) := plain_lines type l' emitted in
      (h ++ value_line name "" (pretty v) :: rest, emitted)
  end.

Section Render.
(** The order of [localeCompare] on the reasons, and the text of a number that is
    not an integer (the sum of the lifetimes). *)
Context (sort_reasons : list (string * Z) -> list (string * Z)) (number_text : Q -> string).

Fixpoint labeled_lines (cs : list (string * Z)) (names : list string) (emitted : list string) : list string * list string :=
  match names with
  | [] => ([], emitted)
  | name :: names' =>
      let '(h, emitted) := help name "counter" emitted in
      let '(rest, emitted) := labeled_lines cs names' emitted in
      (h ++ List.map (fun rv => value_line name (reason_label rv.1) (pretty rv.2)) (sort_reasons (reasons_of name cs))
       ++ rest, emitted)
  end.

Definition le_label (bound : string) : string := "{le=" +:+ dquote +:+ bound +:+ dquote +:+ "}".

Definition histogram_lines (m : metrics) : list string :=
  let name := "socket_lifetime_seconds"%string in
  ["# HELP relay_socket_lifetime_seconds How long WebSocket connections lived."%string;
   "# TYPE relay_socket_lifetime_seconds histogram"%string]
  ++ zip_with (fun bound n => value_line (name +:+ "_bucket") (le_label (pretty bound)) (pretty n))
       LIFETIME_BUCKETS (bucketCounts m)
  ++ [value_line (name +:+ "_bucket") (le_label "+Inf") (pretty (lifetimeInf m));
      value_line (name +:+ "_sum") "" (number_text (lifetimeSum m));
      value_line (name +:+ "_count") "" (pretty (lifetimeInf m))].

Definition render_lines (m : metrics) (g : gauge_list) : list string :=
  let '(l1, e1) := plain_lines "counter" (plain_counters (counters m)) [] in
  let '(l2, e2) := labeled_lines (counters m) (labeled_names (counters m)) e1 in
  let '(l3, _) := plain_lines "gauge" g e2 in
  l1 ++ l2 ++ l3 ++ histogram_lines m.

Definition newline : string := String (ascii_of_nat 10) EmptyString.

Fixpoint join_lines (l : list string) : string :=
  match l with
  | [] => ""
  | [s] => s
  | s :: l' => s +:+ newline +:+ join_lines l'
  end.

Definition render (m : metrics) (g : gauge_list) : string := join_lines (render_lines m g) +:+ newline.
End Render.

(** ** Lemmas: decimal text *)

Definition chars (s : string) : list ascii := String.list_ascii_of_string s.

Lemma chars_app s t : chars (s +:+ t) = chars s ++ chars t.
Proof. induction s as [|c s IH]; [done|]. rewrite string_app_cons. simpl. by rewrite IH. Qed.

Lemma chars_of l : chars (text_of l) = l.
Proof. induction l as [|c l IH]; [done|]. simpl. by rewrite IH. Qed.

Lemma text_of_chars s : text_of (chars s) = s.
Proof. induction s as [|c s IH]; [done|]. simpl. by rewrite IH. Qed.

Lemma digit_char n : (n < 10)%N -> digit_value (pretty_N_char n) = Some (Z.of_N n).
Proof.
  intros Hn. assert (Hall : Forall (fun k => digit_value (pretty_N_char k) = Some (Z.of_N k)) (N.of_nat <$> seq 0 10))
    by (by repeat constructor).
  rewrite Forall_forall in Hall. apply Hall, list_elem_of_fmap. exists (N.to_nat n). split; [lia|]. apply elem_of_seq. lia.
Qed.

(** The digits of a positive number, the first one not zero. *)
Lemma pretty_digits (n : N) : (0 < n)%N ->
  exists c l, digit_value c <> Some 0
    /\ (forall s, chars (pretty_N_go n s) = c :: l ++ chars s)
    /\ Forall (fun c => digit_value c <> None) (c :: l)
    /\ forall acc k rest, read_digits ((c :: l) ++ rest) acc k
         = read_digits rest (acc * 10 ^ Z.of_nat (length (c :: l)) + Z.of_N n) (k + Z.of_nat (length (c :: l))).
Proof.
  induction (N.lt_wf_0 n) as [n _ IH]. intros Hn.
  pose proof (digit_char (n `mod` 10) (N.mod_lt n 10 ltac:(done))) as Hd.
  destruct (decide (n < 10)%N) as [Hs|Hs].
  - exists (pretty_N_char (n `mod` 10)), []. rewrite N.mod_small in Hd |- * by done.
    split_and!.
    + rewrite Hd. intros [=]. lia.
    + intros s. rewrite pretty_N_go_step by done. rewrite N.div_small, N.mod_small by done. done.
    + constructor; [by rewrite Hd|done].
    + intros acc k rest. simpl. rewrite Hd. f_equal; lia.
  - destruct (IH (n `div` 10)%N) as (c & l & Hc & Hp & Hf & Hr).
    { apply N.div_lt; lia. }
    { apply N.div_str_pos. lia. }
    exists c, (l ++ [pretty_N_char (n `mod` 10)]). split_and!; [done| | |].
    + intros s. rewrite pretty_N_go_step by done. rewrite Hp. simpl. by rewrite <-app_assoc.
    + change (c :: l ++ ?x) with ((c :: l) ++ x). apply Forall_app. split; [done|]. constructor; [by rewrite Hd|done].
    + intros acc k rest. change (c :: l ++ ?x) with ((c :: l) ++ x). rewrite <-app_assoc, Hr. simpl. rewrite Hd.
      rewrite length_app. simpl. rewrite !Nat2Z.inj_succ, Nat2Z.inj_add. simpl.
      change (Z.of_nat 1) with 1. rewrite !Z.add_1_r, !Z.pow_succ_r by lia.
      assert (En : Z.of_N n = 10 * Z.of_N (n / 10) + Z.of_N (n mod 10)).
      { rewrite <-(N2Z.inj_mul 10), <-N2Z.inj_add. f_equal. apply N.div_mod. done. }
      f_equal; [|lia]. rewrite En. ring.
Qed.

Lemma digit_not_space c : digit_value c <> None -> is_js_space c = false /\ is_char 45 c = false /\ is_char 43 c = false
   /\ is_char 120 c = false /\ is_char 88 c = false /\ is_char 111 c = false /\ is_char 79 c = false
   /\ is_char 98 c = false /\ is_char 66 c = false /\ is_char 46 c = false /\ is_char 10 c = false /\ is_char 125 c = false.
Proof.
  unfold digit_value, is_js_space, is_char. intros H. generalize dependent (nat_of_ascii c). intros n H.
  destruct (Z.leb_spec 48 (Z.of_nat n)); [|done]. destruct (Z.leb_spec (Z.of_nat n) 57); [|done].
  repeat match goal with |- context [Nat.eqb ?a ?b] => replace (Nat.eqb a b) with false by (symmetry; apply Nat.eqb_neq; lia) end.
  replace (Nat.leb n 13) with false by (symmetry; apply Nat.leb_gt; lia). by rewrite andb_false_r.
Qed.

Definition small (z : Z) : Prop := - 2 ^ 53 <= z <= 2 ^ 53.

Lemma unsigned_decimal_pretty n : (0 < n)%N ->
  exists c l, chars (pretty_N_go n "") = c :: l /\ Forall (fun c => digit_value c <> None) (c :: l)
    /\ is_char 48 c = false /\ unsigned_decimal (c :: l) = Some (inject_Z (Z.of_N n)).
Proof.
  intros Hn. destruct (pretty_digits n Hn) as (c & l & Hc & Hp & Hf & Hr). exists c, l.
  split; [by rewrite Hp; simpl; rewrite app_nil_r|]. split; [done|]. split.
  { destruct (is_char 48 c) eqn:E; [|done]. destruct Hc. unfold is_char in E. apply Nat.eqb_eq in E.
    unfold digit_value. by rewrite E. }
  unfold unsigned_decimal. specialize (Hr 0 0 []). rewrite app_nil_r in Hr. rewrite Hr. cbn [read_digits].
  rewrite Z.mul_0_l, !Z.add_0_l, Z.add_0_r. replace (_ =? 0) with false by (simpl; lia).
  unfold read_exp, scaled. simpl. by rewrite Z.mul_1_r.
Qed.

Lemma trim_left_solid l : Forall (fun c => is_js_space c = false) l -> trim_left l = l.
Proof. intros H. destruct H as [|c l Hc _]; [done|]. simpl. by rewrite Hc. Qed.

Lemma trim_chars_ends l :
  match l with c :: _ => is_js_space c = false | [] => True end ->
  match rev l with c :: _ => is_js_space c = false | [] => True end -> trim_chars l = l.
Proof.
  unfold trim_chars. intros H1 H2. assert (E : trim_left l = l) by (destruct l; [done|]; simpl; by rewrite H1).
  rewrite E. assert (E2 : trim_left (rev l) = rev l) by (destruct (rev l); [done|]; simpl; by rewrite H2).
  rewrite E2. apply rev_involutive.
Qed.

Lemma trim_solid s : Forall (fun c => is_js_space c = false) (chars s) -> trim s = chars s.
Proof.
  intros H. unfold trim. fold (chars s). rewrite (trim_left_solid _ H), trim_left_solid.
  - apply rev_involutive.
  - apply Forall_forall. intros x Hx. rewrite Forall_forall in H. apply H, list_elem_of_In, in_rev. by apply list_elem_of_In.
Qed.

Lemma digits_solid l : Forall (fun c => digit_value c <> None) l -> Forall (fun c => is_js_space c = false) l.
Proof. intros H. eapply Forall_impl; [exact H|]. intros c Hc. by apply digit_not_space. Qed.

Lemma small_finite z : small z ->
  (if qlt (inject_Z z) double_overflow && qlt (- inject_Z z) double_overflow then Some (inject_Z z) else None)
  = Some (inject_Z z).
Proof.
  unfold small, double_overflow. intros Hz.
  assert (H1 : qlt (inject_Z z) (inject_Z (2 ^ 1024 - 2 ^ 970)) = true).
  { apply qlt_spec. rewrite <-Zlt_Qlt. eapply Z.le_lt_trans; [apply Hz|]. vm_compute. done. }
  assert (H2 : qlt (- inject_Z z) (inject_Z (2 ^ 1024 - 2 ^ 970)) = true).
  { apply qlt_spec. rewrite <-inject_Z_opp, <-Zlt_Qlt. eapply Z.le_lt_trans; [instantiate (1 := 2 ^ 53); lia|]. vm_compute. done. }
  by rewrite H1, H2.
Qed.

(** [Number] reads back the text of a number. *)
Lemma pretty_Z_reads (z : Z) : small z ->
  Forall (fun c => is_js_space c = false) (chars (pretty z)) /\ chars (pretty z) <> []
  /\ finite_number (pretty z) = Some (inject_Z z).
Proof.
  intros Hz. destruct z as [|p|p].
  - split_and!; [by repeat constructor|done|by vm_compute].
  - destruct (unsigned_decimal_pretty (Npos p) ltac:(lia)) as (c & l & E & Hd & H48 & Hu).
    change (pretty (Z.pos p)) with (pretty_N_go (Npos p) ""). pose proof (digits_solid _ Hd) as Hs.
    rewrite E. split_and!; [done|done|]. unfold finite_number. rewrite trim_solid by by rewrite E. rewrite E.
    apply Forall_cons in Hd as [Hc _]. apply digit_not_space in Hc as (_ & H45 & H43 & _).
    rewrite <-(small_finite (Z.pos p)) by done. change (Z.pos p) with (Z.of_N (Npos p)) in *.
    destruct l as [|x l]; [by rewrite Hu|]. by rewrite H48, H45, H43, Hu.
  - destruct (unsigned_decimal_pretty (Npos p) ltac:(lia)) as (c & l & E & Hd & H48 & Hu).
    change (pretty (Z.neg p)) with (String "-" (pretty_N_go (Npos p) "")). pose proof (digits_solid _ Hd) as Hs.
    change (chars (String "-" ?s)) with ("-"%char :: chars s). rewrite E.
    assert (Hs' : Forall (fun c => is_js_space c = false) ("-"%char :: c :: l)) by by constructor.
    split_and!; [done|done|]. unfold finite_number.
    rewrite trim_solid by by (change (chars (String "-" ?s)) with ("-"%char :: chars s); rewrite E).
    change (chars (String "-" ?s)) with ("-"%char :: chars s). rewrite E.
    rewrite <-(small_finite (Z.neg p)) by done. change (is_char 48 "-") with false. change (is_char 45 "-") with true.
    cbn [andb]. by rewrite Hu.
Qed.

Lemma pretty_solid (z : Z) : Forall (fun c => is_js_space c = false) (chars (pretty z)) /\ chars (pretty z) <> [].
Proof.
  destruct z as [|p|p]; [by repeat constructor|..];
    destruct (unsigned_decimal_pretty (Npos p) ltac:(lia)) as (c & l & E & Hd & _);
    [change (pretty (Z.pos p)) with (pretty_N_go (Npos p) "")
    |change (pretty (Z.neg p)) with (String "-" (pretty_N_go (Npos p) ""));
     change (chars (String "-" ?s)) with ("-"%char :: chars s)]; rewrite E;
    (split; [|done]); [|constructor; [done|]]; by apply digits_solid.
Qed.

(** ** Lemmas: one line of the exposition *)

Lemma drop_prefix_app p l : drop_prefix p (chars p ++ l) = Some l.
Proof. induction p as [|c p IH]; [done|]. simpl. by rewrite Ascii.eqb_refl. Qed.

Lemma take_while_app p l r :
  Forall (fun c => p c = true) l -> match r with c :: _ => p c = false | [] => True end ->
  take_while p (l ++ r) = (l, r).
Proof.
  intros Hl Hr. induction Hl as [|c l Hc Hl IH]; simpl; [destruct r; [done|]; simpl; by rewrite Hr|].
  by rewrite Hc, IH.
Qed.

Lemma trim_left_last l c : is_js_space c = false -> exists l', trim_left (l ++ [c]) = l' ++ [c].
Proof.
  intros Hc. induction l as [|d l IH]; simpl; [rewrite Hc; by exists []|].
  destruct (is_js_space d); [done|]. by exists (d :: l).
Qed.

Lemma trim_chars_first c l : is_js_space c = false -> exists l', trim_chars (c :: l) = c :: l'.
Proof.
  intros Hc. unfold trim_chars. simpl. rewrite Hc. simpl.
  destruct (trim_left_last (rev l) c Hc) as [l' ->]. rewrite rev_app_distr. simpl. eauto.
Qed.

Lemma trim_chars_solid_end c l v :
  is_js_space c = false -> Forall (fun c => is_js_space c = false) v -> v <> [] -> trim_chars (c :: l ++ v) = c :: l ++ v.
Proof.
  intros Hc Hv Hne. apply trim_chars_ends; [done|].
  destruct (last_snoc_cases v) as [->|(v' & d & ->)]; [done|]. apply Forall_app in Hv as [_ Hd].
  apply Forall_cons in Hd as [Hd _]. rewrite app_assoc, app_comm_cons, rev_app_distr. done.
Qed.

(** The names of series: letters of the pattern, and not the histogram's. *)
Definition name_char (c : ascii) : bool := is_lower c || is_digit c || is_char 95 c.

Definition series_name (n : string) : Prop := n <> EmptyString /\ Forall (fun c => name_char c = true) (chars n).

(** No labels, or labels that close once. *)
Definition label_text (s : string) : Prop :=
  s = EmptyString \/ exists inner, chars s = "{"%char :: inner ++ ["}"%char]
    /\ Forall (fun c => is_char 125 c = false) inner.

Lemma take_labels_text s c l :
  label_text s -> is_char 123 c = false ->
  exists o, take_labels (chars s ++ c :: l) = (o, c :: l).
Proof.
  intros [->|(inner & E & Hi)] Hc; [exists None; simpl; by rewrite Hc|].
  rewrite E. exists (Some inner). simpl. rewrite <-app_assoc. simpl.
  rewrite take_while_app; [done| |done]. eapply Forall_impl; [exact Hi|]. by intros d ->.
Qed.

Lemma label_first s c l :
  label_text s -> name_char c = false -> match chars s ++ c :: l with d :: _ => name_char d = false | [] => True end.
Proof. intros [->|(inner & E & Hi)] Hc; [done|]. by rewrite E. Qed.

Lemma relay_line_value name labels v :
  series_name name -> label_text labels -> Forall (fun c => is_js_space c = false) (chars v) -> chars v <> [] ->
  relay_line (chars (value_line name labels v)) = Some (name, v).
Proof.
  intros [Hn Hc] Hl Hv Hne. unfold relay_line, value_line. rewrite !chars_app.
  change (chars "relay_") with ("r"%char :: chars "elay_"). rewrite <-app_comm_cons.
  rewrite !(app_assoc (chars "elay_")), !(app_assoc _ _ (chars v)), trim_chars_solid_end by done.
  rewrite <-!app_assoc, app_comm_cons. change ("r"%char :: chars "elay_") with (chars "relay_").
  rewrite drop_prefix_app. cbn [mbind option_bind]. fold name_char.
  rewrite (take_while_app _ (chars name)); [|exact Hc|by apply (label_first labels " "%char)].
  destruct (chars name) as [|c l] eqn:E; [by destruct name|]. rewrite <-E, text_of_chars.
  destruct (take_labels_text labels " "%char (chars v) Hl eq_refl) as [o Ho].
  change (chars " " ++ chars v) with (" "%char :: chars v). rewrite Ho. cbn [snd].
  unfold take_value. change (" "%char :: chars v) with ([" "%char] ++ chars v).
  rewrite take_while_app; [|by repeat constructor|by destruct Hv].
  rewrite <-(app_nil_r (chars v)), take_while_app; [|eapply Forall_impl; [exact Hv|]; by intros d ->|done].
  destruct (chars v) eqn:Ev; [done|]. rewrite <-Ev. cbn [mbind option_bind]. by rewrite text_of_chars.
Qed.

Lemma relay_metric_value name labels v out :
  series_name name -> starts_with "socket_lifetime_seconds" name = false -> label_text labels -> small v ->
  relay_metric out (chars (value_line name labels (pretty v)))
  = <[name := (default 0 (out !! name) + inject_Z v)%Q]> out.
Proof.
  intros Hn Hs Hl Hv. destruct (pretty_Z_reads v Hv) as (H1 & H2 & H3).
  unfold relay_metric. rewrite relay_line_value by done. by rewrite Hs, H3.
Qed.

Lemma relay_metric_histogram name labels v out :
  series_name name -> starts_with "socket_lifetime_seconds" name = true -> label_text labels ->
  Forall (fun c => is_js_space c = false) (chars v) -> chars v <> [] ->
  relay_metric out (chars (value_line name labels v)) = out.
Proof. intros Hn Hs Hl H1 H2. unfold relay_metric. rewrite relay_line_value by done. by rewrite Hs. Qed.

Lemma relay_metric_comment l out : relay_metric out ("#"%char :: l) = out.
Proof.
  unfold relay_metric, relay_line. destruct (trim_chars_first "#" l eq_refl) as [l' ->]. done.
Qed.

(** ** Lemmas: what a list of lines adds *)

Definition one_line (s : string) : Prop := Forall (fun c => is_char 10 c = false) (chars s).

(** Lines, and what reading them does to the totals. *)
Definition lines_do (ls : list string) (f : gmap string Q -> gmap string Q) : Prop :=
  Forall one_line ls /\ forall out, fold_left relay_metric (List.map chars ls) out = f out.

Lemma lines_do_app l1 l2 f g : lines_do l1 f -> lines_do l2 g -> lines_do (l1 ++ l2) (fun out => g (f out)).
Proof.
  intros [H1 F1] [H2 F2]. split; [by apply Forall_app|]. intros out. rewrite List.map_app, fold_left_app. by rewrite F1, F2.
Qed.

Lemma lines_do_nil : lines_do [] (fun out => out).
Proof. by split. Qed.

Lemma lines_do_cons s l f g :
  one_line s -> (forall out, relay_metric out (chars s) = f out) -> lines_do l g -> lines_do (s :: l) (fun out => g (f out)).
Proof. intros Hs Hf [Hl Hg]. split; [by constructor|]. intros out. simpl. by rewrite Hf, Hg. Qed.

Lemma split_lines_one l r acc :
  Forall (fun c => is_char 10 c = false) l ->
  split_lines (l ++ ascii_of_nat 10 :: r) acc = (rev acc ++ l) :: split_lines r [].
Proof.
  intros H. revert acc. induction H as [|c l Hc Hl IH]; intros acc; simpl; [by rewrite app_nil_r|].
  rewrite Hc, IH. simpl. by rewrite <-app_assoc.
Qed.

Lemma lines_of_join ls : ls <> [] -> Forall one_line ls ->
  lines (join_lines ls +:+ newline) = List.map chars ls ++ [[]].
Proof.
  intros Hne H. unfold lines. fold (chars (join_lines ls +:+ newline)). rewrite chars_app.
  change (chars newline) with [ascii_of_nat 10].
  induction H as [|s ls Hs Hls IH]; [done|]. destruct ls as [|t ls].
  - simpl. by rewrite (split_lines_one (chars s) [] []).
  - change (join_lines (s :: t :: ls)) with (s +:+ newline +:+ join_lines (t :: ls)).
    rewrite !chars_app. change (chars newline) with [ascii_of_nat 10]. rewrite <-!app_assoc. simpl app at 2.
    rewrite split_lines_one by done. simpl. f_equal. apply IH. done.
Qed.

(** The names and reasons the relay uses. *)
Definition good_name (n : string) : Prop := series_name n /\ starts_with "socket_lifetime_seconds" n = false.

Definition good_reason (r : string) : Prop :=
  Forall (fun c => is_char 10 c = false /\ is_char 125 c = false) (chars r).

Definition add_series (out : gmap string Q) (kv : string * Z) : gmap string Q :=
  <[kv.1 := (default 0 (out !! kv.1) + inject_Z kv.2)%Q]> out.

Lemma solid_one_line l : Forall (fun c => is_js_space c = false) l -> Forall (fun c => is_char 10 c = false) l.
Proof.
  intros H. eapply Forall_impl; [exact H|]. intros c. unfold is_js_space, is_char. intros Hc.
  destruct (Nat.eqb_spec (nat_of_ascii c) 10) as [E|]; [|done]. by rewrite E in Hc.
Qed.

Lemma name_one_line l : Forall (fun c => name_char c = true) l -> Forall (fun c => is_char 10 c = false) l.
Proof.
  intros H. eapply Forall_impl; [exact H|]. intros c. unfold name_char, is_lower, is_digit, in_range, is_char. intros Hc.
  destruct (Nat.eqb_spec (nat_of_ascii c) 10) as [E|]; [|done]. by rewrite E in Hc.
Qed.

Lemma one_line_app s t : one_line (s +:+ t) <-> one_line s /\ one_line t.
Proof. unfold one_line. rewrite chars_app. apply Forall_app. Qed.

Lemma value_one_line name labels v :
  series_name name -> one_line labels -> Forall (fun c => is_js_space c = false) (chars v) ->
  one_line (value_line name labels v).
Proof.
  intros [_ Hn] Hl Hv. unfold value_line. rewrite !one_line_app. split_and!; try done.
  - by repeat constructor.
  - by apply name_one_line.
  - by repeat constructor.
  - by apply solid_one_line.
Qed.

Lemma assoc_one_line k l h :
  assoc k l = Some h -> forallb (fun kv => forallb (fun c => negb (is_char 10 c)) (chars kv.2)) l = true -> one_line h.
Proof.
  induction l as [|[k' v] l IH]; [done|]. simpl. intros E [Hv Hl]%andb_true_iff.
  destruct (String.eqb k' k); [|by apply IH]. injection E as <-. apply Forall_forall. intros c Hc.
  rewrite forallb_forall in Hv. apply negb_true_iff, Hv. by apply list_elem_of_In.
Qed.

Lemma help_do name type emitted :
  good_name name -> one_line type ->
  lines_do (help name type emitted).1 (fun out => out).
Proof.
  intros [[_ Hn] _] Ht. unfold help. destruct (bool_decide (name ∈ emitted)); [apply lines_do_nil|].
  assert (Hn1 : one_line name) by by apply name_one_line.
  assert (Htype : lines_do ["# TYPE relay_" +:+ name +:+ " " +:+ type] (fun out => out)).
  { apply (lines_do_cons _ [] (fun out => out) (fun out => out)); [|intros out; apply relay_metric_comment|apply lines_do_nil].
    rewrite !one_line_app. split_and!; try done; by repeat constructor. }
  destruct (help_text name) as [h|] eqn:E; [|done].
  apply (lines_do_cons _ _ (fun out => out) (fun out => out)); [|intros out; apply relay_metric_comment|done].
  rewrite !one_line_app. split_and!; try done; [by repeat constructor..|].
  unfold help_text in E. destruct (assoc name COUNTER_HELP) eqn:E1; [injection E as <-|];
    (eapply assoc_one_line; [eassumption|by vm_compute]).
Qed.

Lemma plain_lines_do type l emitted :
  one_line type -> Forall (fun kv => good_name kv.1 /\ small kv.2) l ->
  lines_do (plain_lines type l emitted).1 (fun out => fold_left add_series l out).
Proof.
  intros Ht H. revert emitted. induction H as [|[name v] l [Hn Hv] Hl IH]; intros emitted; [apply lines_do_nil|].
  simpl. pose proof (help_do name type emitted Hn Ht) as Hh. destruct (help name type emitted) as [h e].
  specialize (IH e). destruct (plain_lines type l e) as [rest e']. cbn [fst] in *.
  apply (lines_do_app h _ (fun out => out)); [done|].
  apply (lines_do_cons _ rest (fun out => add_series out (name, v)) (fun out => fold_left add_series l out)); [| |done].
  - apply value_one_line; [apply Hn|constructor|apply pretty_solid].
  - intros out. apply relay_metric_value; [apply Hn|apply Hn|by left|done].
Qed.

Lemma reason_label_text r : good_reason r -> label_text (reason_label r) /\ one_line (reason_label r).
Proof.
  intros Hr. split.
  - right. exists (chars ("reason=" +:+ dquote +:+ r +:+ dquote)). split.
    + unfold reason_label. rewrite !chars_app. simpl. by rewrite <-!app_assoc.
    + rewrite !chars_app. repeat (apply Forall_app; split); try by repeat constructor.
      eapply Forall_impl; [exact Hr|]. by intros c [_ ?].
  - unfold reason_label. rewrite !one_line_app. split_and!; try by repeat constructor.
    eapply Forall_impl; [exact Hr|]. by intros c [? _].
Qed.

Lemma labeled_names_fold cs names :
  NoDup names ->
  let names' := fold_left (fun names kv => match split_nul kv.1 with
                             | Some (n, _) => if bool_decide (n ∈ names) then names else names ++ [n]
                             | None => names
                             end) cs names in
  NoDup names' /\ forall n, n ∈ names' <-> n ∈ names \/ reasons_of n cs <> [].
Proof.
  revert names. induction cs as [|[s v] cs IH]; intros names Hn; simpl.
  { split; [done|]. intros n. split; [by left|by intros [?|?]]. }
  destruct (split_nul s) as [[n r]|] eqn:E.
  - specialize (IH (if bool_decide (n ∈ names) then names else names ++ [n])). cbv zeta in IH.
    destruct IH as [H1 H2].
    { destruct (bool_decide_reflect (n ∈ names)); [done|]. apply NoDup_app. split; [done|]. split; [|apply NoDup_singleton].
      by intros x Hx ->%list_elem_of_singleton. }
    split; [done|]. intros k. rewrite H2. destruct (String.eqb_spec n k) as [->|Hne].
    + split; [by right|]. intros _. left. destruct (bool_decide_reflect (k ∈ names)); [done|]. set_solver.
    + destruct (bool_decide_reflect (n ∈ names)); [done|]. rewrite elem_of_app, list_elem_of_singleton. naive_solver.
  - by apply IH.
Qed.

Lemma labeled_names_spec cs :
  NoDup (labeled_names cs) /\ forall n, n ∈ labeled_names cs <-> reasons_of n cs <> [].
Proof.
  destruct (labeled_names_fold cs [] ltac:(constructor)) as [H1 H2]. split; [done|]. intros n. rewrite H2. set_solver.
Qed.

Lemma elem_of_reasons name r v cs :
  (r, v) ∈ reasons_of name cs <-> exists k, (k, v) ∈ cs /\ split_nul k = Some (name, r).
Proof.
  unfold reasons_of. rewrite list_elem_of_omap. split.
  - intros ([k v'] & Hin & E). simpl in E. destruct (split_nul k) as [[n r']|] eqn:Ek; [|done].
    destruct (String.eqb_spec n name) as [->|]; [|done]. injection E as -> ->. eauto.
  - intros (k & Hin & E). exists (k, v). split; [done|]. simpl. by rewrite E, String.eqb_refl.
Qed.

Lemma labeled_name_inv name cs : name ∈ labeled_names cs -> exists k r v, (k, v) ∈ cs /\ split_nul k = Some (name, r).
Proof.
  intros Hin. apply labeled_names_spec in Hin. destruct (reasons_of name cs) as [|[r v] l] eqn:E; [done|].
  assert (H : (r, v) ∈ reasons_of name cs) by (rewrite E; by left). apply elem_of_reasons in H as (k & ? & ?). eauto.
Qed.

Section Rendered.
Context (sort_reasons : list (string * Z) -> list (string * Z)) (number_text : Q -> string).
Context (Hsort : forall l, sort_reasons l ≡ₚ l).
Context (Htext : forall q, Forall (fun c => is_js_space c = false) (chars (number_text q)) /\ chars (number_text q) <> []).

Definition of_name (name : string) (l : list (string * Z)) : list (string * Z) := List.map (fun rv => (name, rv.2)) l.

Lemma reason_lines_do name l :
  good_name name -> Forall (fun rv => good_reason rv.1 /\ small rv.2) l ->
  lines_do (List.map (fun rv => value_line name (reason_label rv.1) (pretty rv.2)) l)
    (fun out => fold_left add_series (of_name name l) out).
Proof.
  intros Hn H. induction H as [|[r v] l [Hr Hv] Hl IH]; [apply lines_do_nil|]. simpl.
  destruct (reason_label_text r Hr) as [H1 H2].
  apply (lines_do_cons _ _ (fun out => add_series out (name, v)) (fun out => fold_left add_series (of_name name l) out)); [| |done].
  - apply value_one_line; [apply Hn|done|apply pretty_solid].
  - intros out. apply relay_metric_value; [apply Hn|apply Hn|done|done].
Qed.

Definition labeled_series (cs : list (string * Z)) (names : list string) : list (string * Z) :=
  List.flat_map (fun name => of_name name (sort_reasons (reasons_of name cs))) names.

Lemma labeled_lines_do cs names emitted :
  Forall good_name names -> (forall name, name ∈ names -> Forall (fun rv => good_reason rv.1 /\ small rv.2) (reasons_of name cs)) ->
  lines_do (labeled_lines sort_reasons cs names emitted).1
    (fun out => fold_left add_series (labeled_series cs names) out).
Proof.
  intros H. revert emitted. induction H as [|name names Hn Hns IH]; intros emitted Hr; [apply lines_do_nil|].
  simpl. pose proof (help_do name "counter" emitted Hn ltac:(by repeat constructor)) as Hh.
  destruct (help name "counter" emitted) as [h e].
  specialize (IH e (fun n Hin => Hr n (list_elem_of_further _ _ _ Hin))).
  destruct (labeled_lines sort_reasons cs names e) as [rest e']. cbn [fst] in *.
  unfold labeled_series. simpl.
  split.
  - destruct Hh as [H1 _], IH as [H2 _].
    destruct (reason_lines_do name (sort_reasons (reasons_of name cs)) Hn) as [H3 _].
    { rewrite Hsort. apply Hr. by left. }
    by repeat (apply Forall_app; split).
  - intros out. rewrite !List.map_app, !fold_left_app. destruct Hh as [_ ->], IH as [_ Hrest].
    destruct (reason_lines_do name (sort_reasons (reasons_of name cs)) Hn) as [_ ->].
    { rewrite Hsort. apply Hr. by left. }
    apply Hrest.
Qed.

Lemma le_label_text b : Forall (fun c => is_char 10 c = false /\ is_char 125 c = false) (chars b) ->
  label_text (le_label b) /\ one_line (le_label b).
Proof.
  intros Hr. split.
  - right. exists (chars ("le=" +:+ dquote +:+ b +:+ dquote)). split.
    + unfold le_label. rewrite !chars_app. simpl. by rewrite <-!app_assoc.
    + rewrite !chars_app. repeat (apply Forall_app; split); try by repeat constructor.
      eapply Forall_impl; [exact Hr|]. by intros c [_ ?].
  - unfold le_label. rewrite !one_line_app. split_and!; try by repeat constructor.
    eapply Forall_impl; [exact Hr|]. by intros c [? _].
Qed.

Lemma histogram_line_do suffix labels v ls :
  Forall (fun c => name_char c = true) (chars suffix) -> label_text labels -> one_line labels ->
  Forall (fun c => is_js_space c = false) (chars v) -> chars v <> [] ->
  lines_do ls (fun out => out) ->
  lines_do (value_line ("socket_lifetime_seconds" +:+ suffix) labels v :: ls) (fun out => out).
Proof.
  intros Hs Hl H1 Hv Hne Hls.
  assert (Hn : series_name ("socket_lifetime_seconds" +:+ suffix)).
  { split; [done|]. rewrite chars_app. apply Forall_app. split; [by repeat constructor|done]. }
  apply (lines_do_cons _ ls (fun out => out) (fun out => out)); [by apply value_one_line| |done].
  intros out. by apply relay_metric_histogram.
Qed.

Lemma histogram_do m : lines_do (histogram_lines number_text m) (fun out => out).
Proof.
  unfold histogram_lines.
  assert (Hb : forall (bounds ns : list Z) ls, Forall (fun b => Forall (fun c => is_char 10 c = false /\ is_char 125 c = false) (chars (pretty b))) bounds ->
    lines_do ls (fun out => out) ->
    lines_do (zip_with (fun bound n => value_line ("socket_lifetime_seconds" +:+ "_bucket") (le_label (pretty bound)) (pretty n))
       bounds ns ++ ls) (fun out => out)).
  { induction bounds as [|b bounds IH]; intros [|n ns] ls Hbs Hls; try done. apply Forall_cons in Hbs as [Hb Hbs]. simpl.
    destruct (le_label_text _ Hb). destruct (pretty_solid n).
    apply histogram_line_do; try done; [by repeat constructor|]. by apply IH. }
  assert (Hc : forall s ls, lines_do ls (fun out => out) -> one_line (String "#" s) -> lines_do (String "#" s :: ls) (fun out => out)).
  { intros s ls Hls H1. apply (lines_do_cons _ ls (fun out => out) (fun out => out)); [done| |done].
    intros out. apply relay_metric_comment. }
  destruct (pretty_solid (lifetimeInf m)), (Htext (lifetimeSum m)).
  destruct (le_label_text "+Inf" ltac:(by repeat constructor)).
  apply Hc; [|by repeat constructor]. apply Hc; [|by repeat constructor].
  apply Hb; [by repeat constructor|].
  apply histogram_line_do; [by repeat constructor|done..|].
  apply histogram_line_do; [by repeat constructor|by left|constructor|done..|].
  apply histogram_line_do; [by repeat constructor|by left|constructor|done..|]. apply lines_do_nil.
Qed.

(** ** Lemmas: totals *)

Definition add_z (t : gmap string Z) (kv : string * Z) : gmap string Z := <[kv.1 := default 0 (t !! kv.1) + kv.2]> t.

Definition sum_name (k : string) (l : list (string * Z)) : Z := sum_of (List.filter (fun kv => String.eqb kv.1 k) l).

Lemma inject_Z_add a b : (inject_Z a + inject_Z b)%Q = inject_Z (a + b).
Proof. unfold inject_Z, Qplus. simpl. by rewrite !Z.mul_1_r. Qed.

Lemma add_series_z l t : fold_left add_series l (inject_Z <$> t) = inject_Z <$> fold_left add_z l t.
Proof.
  revert t. induction l as [|[k v] l IH]; intros t; [done|]. simpl. rewrite <-IH. f_equal.
  unfold add_series, add_z. simpl. rewrite fmap_insert. f_equal. rewrite lookup_fmap.
  destruct (t !! k); simpl; [by rewrite inject_Z_add|]. by rewrite (inject_Z_add 0).
Qed.

Lemma sum_of_cons kv l : sum_of (kv :: l) = kv.2 + sum_of l.
Proof.
  unfold sum_of. simpl.
  assert (H : forall c b, fold_left (fun n kv => n + kv.2) l (c + b) = b + fold_left (fun n (kv : string * Z) => n + kv.2) l c).
  { induction l as [|x l IH]; intros c b; simpl; [lia|]. replace (c + b + x.2) with ((c + x.2) + b) by lia. apply IH. }
  apply (H 0 kv.2).
Qed.

Lemma sum_of_app l1 l2 : sum_of (l1 ++ l2) = sum_of l1 + sum_of l2.
Proof. induction l1 as [|x l1 IH]; [done|]. simpl. rewrite !sum_of_cons. lia. Qed.

Lemma sum_of_perm l k : List.map snd l ≡ₚ List.map snd k -> sum_of l = sum_of k.
Proof.
  assert (H : forall l : list (string * Z), sum_of l = foldr Z.add 0 (List.map snd l)).
  { induction l0 as [|x l0 IH]; [done|]. rewrite sum_of_cons, IH. done. }
  rewrite !H. intros E. induction E; simpl; lia.
Qed.

Lemma sum_name_app k l1 l2 : sum_name k (l1 ++ l2) = sum_name k l1 + sum_name k l2.
Proof. unfold sum_name. by rewrite List.filter_app, sum_of_app. Qed.

Lemma totals_lookup l t k : default 0 (fold_left add_z l t !! k) = default 0 (t !! k) + sum_name k l.
Proof.
  revert t. induction l as [|[k' v] l IH]; intros t; [by rewrite Z.add_0_r|]. simpl. rewrite IH.
  unfold sum_name, add_z. simpl. destruct (String.eqb_spec k' k) as [->|Hne].
  - rewrite lookup_insert_eq, sum_of_cons. simpl. lia.
  - by rewrite lookup_insert_ne.
Qed.

Lemma totals_nonempty l t : l <> [] \/ t <> ∅ -> fold_left add_z l t <> ∅.
Proof.
  revert t. induction l as [|kv l IH]; intros t; [by intros [?|?]|]. intros _. simpl. apply IH. right.
  apply insert_non_empty.
Qed.

(** A key without reasons. *)
Lemma sum_name_unique k l : NoDup (List.map fst l) -> sum_name k l = default 0 (map_get k l).
Proof.
  induction l as [|[k' v] l IH]; [done|]. intros [Hk Hl]%NoDup_cons. unfold sum_name. simpl.
  destruct (String.eqb_spec k' k) as [->|Hne]; [|by apply IH]. rewrite sum_of_cons. simpl.
  assert (H0 : List.filter (fun kv : string * Z => String.eqb kv.1 k) l = []).
  { clear -Hk. induction l as [|[k' v'] l IH]; [done|]. simpl in *. apply not_elem_of_cons in Hk as [Hne Hk].
    destruct (String.eqb_spec k' k); [done|by apply IH]. }
  rewrite H0. unfold sum_of. simpl. lia.
Qed.

Definition no_nul (s : string) : Prop := split_nul s = None.

Lemma sum_name_plain k cs :
  no_nul k -> sum_name k (plain_counters cs) = sum_name k cs.
Proof.
  intros Hk. unfold sum_name, plain_counters. f_equal. induction cs as [|[k' v] cs IH]; [done|]. simpl.
  destruct (split_nul k') as [[n r]|] eqn:E; simpl; rewrite IH; destruct (String.eqb_spec k' k) as [->|]; try done.
  by rewrite Hk in E.
Qed.

Lemma split_nul_app k r : no_nul k -> split_nul (reason_key k r) = Some (k, r).
Proof.
  unfold no_nul, reason_key. induction k as [|c k IH]; [done|]. rewrite string_app_cons. simpl.
  destruct (Ascii.eqb c NUL); [done|]. destruct (split_nul k) as [[a b]|]; [done|]. intros _. by rewrite IH.
Qed.

Lemma split_nul_starts k s : no_nul k ->
  starts_with (reason_key k "") s = match split_nul s with Some (n, _) => String.eqb n k | None => false end.
Proof.
  unfold no_nul, reason_key. revert s. induction k as [|c k IH]; intros s Hk.
  - destruct s as [|d s]; [done|]. change ("" +:+ String NUL "") with (String NUL ""). cbn [starts_with split_nul].
    rewrite (Ascii.eqb_sym NUL d). destruct (Ascii.eqb d NUL); [by destruct s|]. by destruct (split_nul s) as [[? ?]|].
  - rewrite string_app_cons. destruct s as [|d s]; [done|]. cbn [starts_with split_nul] in *.
    destruct (Ascii.eqb c NUL) eqn:Ec; [done|]. destruct (split_nul k) as [[a b]|] eqn:Ek; [done|].
    rewrite (IH s eq_refl). destruct (Ascii.eqb_spec c d) as [->|Hne].
    + rewrite Ec. destruct (split_nul s) as [[n r]|]; [|done]. cbn [mbind option_bind].
      cbn [String.eqb]. by rewrite Ascii.eqb_refl.
    + destruct (Ascii.eqb d NUL) eqn:Ed; [done|]. destruct (split_nul s) as [[n r]|]; [|done].
      cbn [mbind option_bind String.eqb]. destruct (Ascii.eqb_spec d c); [congruence|done].
Qed.

Lemma reasons_sum k cs : no_nul k ->
  sum_of (reasons_of k cs) = sum_of (List.filter (fun kv => starts_with (reason_key k "") kv.1) cs).
Proof.
  intros Hk. apply sum_of_perm. unfold reasons_of. induction cs as [|[s v] cs IH]; [done|]. simpl.
  rewrite (split_nul_starts k s Hk). destruct (split_nul s) as [[n r]|]; [|done].
  destruct (String.eqb n k); [|done]. simpl. by rewrite IH.
Qed.

Lemma sum_name_zero k l : (forall kv, kv ∈ l -> kv.1 <> k) -> sum_name k l = 0.
Proof.
  intros H. unfold sum_name. induction l as [|kv l IH]; [done|]. simpl.
  destruct (String.eqb_spec kv.1 k) as [E|_]; [by destruct (H kv ltac:(by left))|]. apply IH. set_solver.
Qed.

Lemma sum_name_of_name k name l :
  sum_name k (of_name name l) = if String.eqb name k then sum_of l else 0.
Proof.
  unfold sum_name, of_name. destruct (String.eqb_spec name k) as [->|Hne].
  - apply sum_of_perm. induction l as [|rv l IH]; [done|]. simpl. rewrite String.eqb_refl. simpl. by rewrite IH.
  - induction l as [|rv l IH]; [done|]. simpl. by destruct (String.eqb_spec name k).
Qed.

Lemma sum_name_labeled k cs : sum_name k (labeled_series cs (labeled_names cs)) = sum_of (reasons_of k cs).
Proof.
  destruct (labeled_names_spec cs) as [Hn Hin].
  assert (H : forall names, NoDup names -> sum_name k (labeled_series cs names) = if bool_decide (k ∈ names) then sum_of (reasons_of k cs) else 0).
  { induction names as [|name names IH]; intros Hd; [done|]. apply NoDup_cons in Hd as [Hk Hd].
    unfold labeled_series. simpl. fold (labeled_series cs names). rewrite sum_name_app, sum_name_of_name, (IH Hd).
    assert (Hp : sum_of (sort_reasons (reasons_of name cs)) = sum_of (reasons_of name cs)).
    { apply sum_of_perm. by rewrite Hsort. }
    destruct (String.eqb_spec name k) as [->|Hne].
    - rewrite Hp, bool_decide_eq_false_2 by done. rewrite bool_decide_eq_true_2 by by left. lia.
    - destruct (bool_decide_reflect (k ∈ names)); [rewrite bool_decide_eq_true_2 by by right|rewrite bool_decide_eq_false_2 by set_solver]; done. }
  rewrite H by done. destruct (bool_decide_reflect (k ∈ labeled_names cs)) as [|Hk]; [done|].
  rewrite Hin in Hk. destruct (reasons_of k cs); [done|]. by destruct Hk.
Qed.

(** ** What the host keeps in these maps *)

Definition SNAPSHOT_COUNTERS : list string :=
  ["ws_upgrades_total"; "http_requests_total"; "http_errors_total"; "process_exceptions_total";
   "quota_exceeded_total"; "shard_reject_total"; "shard_map_reloads_total"; "shard_map_fetch_errors_total"]%string.
Definition SNAPSHOT_GAUGES : list string :=
  ["rooms_live"; "sockets_live"; "shard_map_version"; "shard_owned_buckets"; "shard_draining_buckets"]%string.
Definition REJECTED : string := "ws_upgrades_rejected_total".

(** Names of the pattern, each of one kind: a counter, a counter by reason or a
    gauge; numbers a double holds. *)
Record well_formed (m : metrics) (g : gauge_list) : Prop := {
  wf_keys : NoDup (List.map fst (counters m));
  wf_gauges : NoDup (List.map fst g);
  wf_some : g <> [];
  wf_counters : forall k v, (k, v) ∈ counters m -> small v /\
    match split_nul k with
    | None => good_name k /\ k ∉ REJECTED :: SNAPSHOT_GAUGES
    | Some (n, r) => good_name n /\ good_reason r /\ n ∉ SNAPSHOT_COUNTERS ++ SNAPSHOT_GAUGES
    end;
  wf_g : forall k v, (k, v) ∈ g -> small v /\ good_name k /\ k ∉ REJECTED :: SNAPSHOT_COUNTERS;
}.

Definition all_series (m : metrics) (g : gauge_list) : list (string * Z) :=
  plain_counters (counters m) ++ labeled_series (counters m) (labeled_names (counters m)) ++ g.

Lemma render_do m g : well_formed m g ->
  exists ls, render_lines sort_reasons number_text m g = ls /\ ls <> [] /\
    lines_do ls (fun out => fold_left add_series (all_series m g) out).
Proof.
  intros W. eexists. split; [done|]. unfold render_lines.
  pose proof (plain_lines_do "counter" (plain_counters (counters m)) [] ltac:(by repeat constructor)) as H1.
  destruct (plain_lines "counter" (plain_counters (counters m)) []) as [l1 e1]. cbn [fst] in H1.
  pose proof (labeled_lines_do (counters m) (labeled_names (counters m)) e1) as H2.
  destruct (labeled_lines sort_reasons (counters m) (labeled_names (counters m)) e1) as [l2 e2]. cbn [fst] in H2.
  pose proof (plain_lines_do "gauge" g e2 ltac:(by repeat constructor)) as H3.
  destruct (plain_lines "gauge" g e2) as [l3 e3]. cbn [fst] in H3.
  split. { intros E. apply (f_equal (@length _)) in E. rewrite !length_app in E. simpl in E. lia. }
  destruct H1 as [H1 F1].
  { apply Forall_forall. intros [k v] Hin. apply list_elem_of_In, List.filter_In in Hin as [Hin Hk].
    apply list_elem_of_In in Hin. destruct (wf_counters m g W k v Hin) as [Hv Hn]. simpl in *.
    destruct (split_nul k) as [[? ?]|]; [done|]. by destruct Hn. }
  destruct H2 as [H2 F2].
  { apply Forall_forall. intros name (k & r & v & Hin & E)%labeled_name_inv.
    destruct (wf_counters m g W k v Hin) as [_ Hn]. rewrite E in Hn. by destruct Hn. }
  { intros name _. apply Forall_forall. intros [r v] (k & Hin & E)%elem_of_reasons.
    destruct (wf_counters m g W k v Hin) as [Hv Hn]. rewrite E in Hn. destruct Hn as (_ & Hr & _). by split. }
  destruct H3 as [H3 F3].
  { apply Forall_forall. intros [k v] Hin. by destruct (wf_g m g W k v Hin) as (? & ? & _). }
  destruct (histogram_do m) as [H4 F4]. split; [by rewrite !Forall_app|].
  intros out. unfold all_series. rewrite !List.map_app, !fold_left_app. by rewrite F1, F2, F3, F4.
Qed.

Lemma jfind_fold k (l : list (string * json)) acc :
  fold_left (fun acc kv => if String.eqb (fst kv) k then Some (snd kv) else acc) l acc
  = match jfind k l with Some v => Some v | None => acc end.
Proof.
  unfold jfind. revert acc. induction l as [|[k' v] l IH]; intros acc; [done|]. simpl. rewrite IH.
  rewrite (IH (if String.eqb k' k then Some v else None)). by destruct (String.eqb k' k); destruct (fold_left _ l None).
Qed.

Lemma jfind_cons k k' v l :
  jfind k ((k', v) :: l) = match jfind k l with Some w => Some w | None => if String.eqb k' k then Some v else None end.
Proof. unfold jfind at 1. simpl. apply jfind_fold. Qed.

Lemma jfind_map_list {A} (f : A -> json) k (l : list (string * A)) :
  NoDup (List.map fst l) ->
  jfind k (List.map (fun kv => (kv.1, f kv.2)) l) = f <$> (list_to_map l : gmap string A) !! k.
Proof.
  induction l as [|[k' v] l IH]; [done|]. intros [Hk Hl]%NoDup_cons. simpl. rewrite jfind_cons, (IH Hl).
  destruct (String.eqb_spec k' k) as [->|Hne].
  - rewrite lookup_insert_eq. rewrite (not_elem_of_list_to_map_1 l k); [done|].
    intros Hin. by apply Hk.
  - rewrite lookup_insert_ne by done. by destruct (f <$> _).
Qed.

Lemma jprop_snapshot k out : jprop (snapshot_json out) k = Ok ((fun q => JNum (q_to_float q)) <$> out !! k).
Proof.
  unfold snapshot_json. simpl. f_equal. rewrite (jfind_map_list (fun q => JNum (q_to_float q))).
  - by rewrite list_to_map_to_list.
  - apply NoDup_fst_map_to_list.
Qed.

(** The JSON a relay pushes. *)
Definition pushed_json (m : metrics) (g : gauge_list) : json :=
  JObj (List.map (fun kv => (kv.1, JNum (q_to_float (inject_Z kv.2)))) (snapshot m g)).

Lemma jprop_pushed m g k v :
  (k, v) ∈ snapshot m g -> jprop (pushed_json m g) k = Ok (Some (JNum (q_to_float (inject_Z v)))).
Proof.
  intros Hin. unfold pushed_json. cbn [jprop].
  assert (Hn : NoDup (List.map fst (snapshot m g))).
  { change (List.map fst (snapshot m g)) with (List.map fst (snapshot new_metrics [])).
    apply (bool_decide_unpack _). vm_compute. done. }
  f_equal. rewrite (jfind_map_list (fun v => JNum (q_to_float (inject_Z v)))) by done.
  by rewrite (elem_of_list_to_map_1 (snapshot m g) k v Hn Hin).
Qed.

Lemma count_missing (o : option Q) v :
  default 0%Q o = inject_Z v ->
  count_of ((fun q => JNum (q_to_float q)) <$> o) = count_of (Some (JNum (q_to_float (inject_Z v)))).
Proof. destruct o as [q|]; simpl; [by intros ->|]. intros E. apply (f_equal Qnum) in E. simpl in E. by subst v. Qed.

(** The total under each name of the snapshot. *)
Lemma snapshot_totals m g k v :
  well_formed m g -> (k, v) ∈ snapshot m g -> k <> "shard_map_version"%string \/ map_get k g <> None ->
  sum_name k (all_series m g) = v.
Proof.
  intros W Hin Hv. unfold all_series. rewrite !sum_name_app, sum_name_labeled.
  assert (Hg : k ∈ REJECTED :: SNAPSHOT_COUNTERS -> sum_name k g = 0).
  { intros Hk. apply sum_name_zero. intros [k' w] Hin' E. destruct (wf_g m g W k' w Hin') as (_ & _ & Hn). simpl in E. congruence. }
  assert (Hl : k ∈ SNAPSHOT_COUNTERS ++ SNAPSHOT_GAUGES -> sum_of (reasons_of k (counters m)) = 0).
  { intros Hk. destruct (reasons_of k (counters m)) as [|[r w] l] eqn:E; [done|].
    assert (Hr : (r, w) ∈ reasons_of k (counters m)) by (rewrite E; by left). apply elem_of_reasons in Hr as (s & Hs & Es).
    destruct (wf_counters m g W s w Hs) as [_ Hn]. rewrite Es in Hn. by destruct Hn as (_ & _ & Hn). }
  assert (Hp : k ∈ REJECTED :: SNAPSHOT_GAUGES -> sum_name k (plain_counters (counters m)) = 0).
  { intros Hk. apply sum_name_zero. intros [s w] Hs E. simpl in E. subst s. apply list_elem_of_In, List.filter_In in Hs as [Hs En].
    apply list_elem_of_In in Hs. simpl in En. destruct (wf_counters m g W k w Hs) as [_ Hn].
    destruct (split_nul k) as [[? ?]|]; [done|]. by destruct Hn as [_ Hn]. }
  pose proof (sum_name_unique k (counters m) (wf_keys m g W)) as Hc.
  pose proof (sum_name_unique k g (wf_gauges m g W)) as Hgu.
  unfold snapshot in Hin. cbv zeta in Hin.
  repeat (apply elem_of_cons in Hin as [E|Hin];
    [pose proof (f_equal fst E) as E1; pose proof (f_equal snd E) as E2; cbn [fst snd] in E1, E2; subst k v; clear E;
     first [rewrite sum_name_plain, Hc, Hl, Hg by ((vm_compute; done) || by (apply list_elem_of_In; vm_compute; tauto)); lia
           |rewrite Hp, Hl, Hgu by (apply list_elem_of_In; vm_compute; tauto); unfold gauge; lia
           |rewrite Hp, Hg by (apply list_elem_of_In; vm_compute; tauto); rewrite reasons_sum by (vm_compute; done); unfold REJECTED; lia
           |rewrite Hp, Hl, Hgu by (apply list_elem_of_In; vm_compute; tauto); destruct Hv as [Hv|Hv]; [done|];
            destruct (map_get "shard_map_version" g); [simpl; lia|done]]|]).
  by apply elem_of_nil in Hin.
Qed.

(** Pulling a relay's metrics tells the monitor what a push would have.  The
    exposition [render] writes, whatever order the reasons come in, parses; and
    every number of the pushed [snapshot] is the total the monitor reads under
    that name, the sum over the reasons for the labelled one (a missing map
    version reads 0 where the push says -1); so both snapshots normalise to the
    same counters and gauges. *)
Theorem pulled_equals_pushed (m : metrics) (g : gauge_list) :
  well_formed m g ->
  exists out, parseRelayMetrics (render sort_reasons number_text m g) = Ok out
    /\ (forall k v, (k, v) ∈ snapshot m g -> k <> "shard_map_version"%string \/ map_get k g <> None ->
          default 0%Q (out !! k) = inject_Z v)
    /\ normalizeSnapshot (snapshot_json out) = normalizeSnapshot (pushed_json m g).
Proof.
  intros W. destruct (render_do m g W) as (ls & Els & Hne & H1 & HF).
  assert (Hout : fold_left relay_metric (lines (render sort_reasons number_text m g)) ∅
                 = inject_Z <$> fold_left add_z (all_series m g) ∅).
  { unfold render. rewrite Els, lines_of_join by done. rewrite fold_left_app, HF. simpl.
    rewrite <-(fmap_empty inject_Z) at 1. by rewrite add_series_z. }
  assert (Hlook : forall k v, (k, v) ∈ snapshot m g -> k <> "shard_map_version"%string \/ map_get k g <> None ->
     default 0%Q ((inject_Z <$> fold_left add_z (all_series m g) ∅) !! k) = inject_Z v).
  { intros k v Hin Hv. rewrite lookup_fmap. pose proof (totals_lookup (all_series m g) ∅ k) as Ht.
    rewrite lookup_empty, (snapshot_totals m g k v W Hin Hv) in Ht. simpl in Ht.
    destruct (fold_left add_z (all_series m g) ∅ !! k); simpl in *; by rewrite Ht. }
  exists (inject_Z <$> fold_left add_z (all_series m g) ∅). split; [|split; [done|]].
  - unfold parseRelayMetrics. rewrite Hout. rewrite bool_decide_eq_false_2; [done|]. intros E%fmap_empty_inv.
    revert E. apply totals_nonempty. left. unfold all_series. intros E%app_nil. destruct E as [_ E%app_nil].
    by apply (wf_some m g W), E.
  - assert (Hsame : forall k v, (k, v) ∈ snapshot m g -> k <> "shard_map_version"%string ->
      exists w, jprop (pushed_json m g) k = Ok w /\ count_of ((fun q => JNum (q_to_float q)) <$>
        (inject_Z <$> fold_left add_z (all_series m g) ∅) !! k) = count_of w).
    { intros k v Hin Hk. eexists. split; [by apply jprop_pushed|]. apply count_missing, Hlook; [done|by left]. }
    unfold normalizeSnapshot. rewrite !jprop_snapshot. unfold snapshot in Hsame. cbv zeta in Hsame.
    edestruct (Hsame "http_requests_total"%string) as (w1 & -> & F1); [member|done|].
    edestruct (Hsame "http_errors_total"%string) as (w2 & -> & F2); [member|done|].
    edestruct (Hsame "process_exceptions_total"%string) as (w3 & -> & F3); [member|done|].
    edestruct (Hsame "shard_map_fetch_errors_total"%string) as (w4 & -> & F4); [member|done|].
    edestruct (Hsame "sockets_live"%string) as (w5 & -> & F5); [member|done|].
    edestruct (Hsame "rooms_live"%string) as (w6 & -> & F6); [member|done|].
    unfold rbind. by rewrite F1, F2, F3, F4, F5, F6.
Qed.
End Rendered.

(** A relay that refused two upgrades and served some requests. *)
Definition some_metrics : metrics :=
  observeSocketLifetime 42 (incReason REJECTED "rate" (incReason REJECTED "cap"
    (inc "http_requests_total" 40 (inc "http_requests_total" 1 (inc "http_errors_total" 2 new_metrics))))).
Definition some_gauges : gauge_list := [("rooms_live", 5); ("sockets_live", 7)]%string.

Lemma pulled_equals_pushed_witness :
  exists out, parseRelayMetrics (render id (fun _ => "42"%string) some_metrics some_gauges) = Ok out
    /\ default 0%Q (out !! REJECTED) = 2%Q
    /\ normalizeSnapshot (snapshot_json out) = Ok (Monitor.Counters 41 2 0 0, Gauges 7 5).
Proof.
  assert (W : well_formed some_metrics some_gauges).
  { constructor.
    - apply (bool_decide_unpack _). vm_compute. done.
    - apply (bool_decide_unpack _). vm_compute. done.
    - done.
    - intros k v Hin. change (counters some_metrics) with
        [("http_errors_total", 2); ("http_requests_total", 41); (reason_key REJECTED "cap", 1); (reason_key REJECTED "rate", 1)]%string in Hin.
      repeat (apply elem_of_cons in Hin as [E|Hin];
        [pose proof (f_equal fst E) as E1; pose proof (f_equal snd E) as E2; cbn [fst snd] in E1, E2; subst k v;
         split; [unfold small; lia|]; cbn;
         split_and!; repeat (constructor || done); apply (bool_decide_unpack _); vm_compute; done|]).
      by apply elem_of_nil in Hin.
    - intros k v Hin. unfold some_gauges in Hin.
      repeat (apply elem_of_cons in Hin as [E|Hin];
        [pose proof (f_equal fst E) as E1; pose proof (f_equal snd E) as E2; cbn [fst snd] in E1, E2; subst k v;
         split; [unfold small; lia|]; split; [repeat (constructor || done)|]; apply (bool_decide_unpack _); vm_compute; done|]).
      by apply elem_of_nil in Hin. }
  assert (Hs : forall l : list (string * Z), id l ≡ₚ l) by reflexivity.
  assert (Ht : forall q : Q, Forall (fun c => is_js_space c = false) (chars ((fun _ => "42"%string) q))
     /\ chars ((fun _ => "42"%string) q) <> []) by (intros q; split; [by repeat constructor|done]).
  pose proof (pulled_equals_pushed id (fun _ => "42"%string) Hs Ht some_metrics some_gauges W) as P.
  destruct P as (out & E & H1 & H2).
  exists out. split; [exact E|]. split.
  - apply (H1 REJECTED 2); [by right; left|by left].
  - rewrite H2. vm_compute. reflexivity.
Defined.
