(* ===== verification/HostServer.v ===== *)
(** The relay host around its rooms ([host/server.js], [host/metricspush.js]):
    the HTTP handler, the metrics each event counts, the keepalive sweep, the
    outbound push of the metrics and what the constructor refuses to start with.

    The upgrade's gates and socket counters are those of the file Host; a room's
    answer to a request comes from the file Room and is an argument here. *)

From Stdlib Require Import QArith Ascii.
From S2P Require Import Prelude Bytes ShardGate ShardMap ShardStore Runtime Host Monitor Metrics.
#[local] Open Scope Z_scope.

(** ** Headers *)

(** Node's header object: each name in lower case, with one value or several. *)
Abbreviation node_headers := (list (string * list string)).

Definition HOP_BY_HOP : list string :=
  ["connection"; "keep-alive"; "transfer-encoding"; "upgrade"; "content-length"; "host"]%string.

(** [Headers.append]: a second value joins the first. *)
Definition append_header (h : headers) (k v : string) : headers :=
  <[lower k := match h !! lower k with Some old => old +:+ ", " +:+ v | None => v end]> h.

Definition toHeaders (l : node_headers) : headers :=
  fold_left (fun h kv =>
    if existsb (String.eqb (lower kv.1)) HOP_BY_HOP then h else fold_left (fun h v => append_header h kv.1 v) kv.2 h) l ∅.

Definition node_header (l : node_headers) (name : string) : option string :=
  match List.find (fun kv => String.eqb kv.1 name) l with Some (_, v :: _) => Some v | _ => None end.

(** ** Request bodies *)

Definition MAX_BODY_BYTES : Z := 64 * 1024.

Inductive body_read : Type := BodyOk (b : bytes) | BodyTooLarge | BodyCut.

(** [readBody]: the chunks as they arrive; [cut] when the stream then fails. *)
Fixpoint readBody (limit size : Z) (chunks : list bytes) (cut : bool) (acc : bytes) : body_read :=
  match chunks with
  | [] => if cut then BodyCut else BodyOk acc
  | c :: rest =>
      let size := size + Z.of_nat (length c) in
      if limit <? size then BodyTooLarge else readBody limit size rest cut (acc ++ c)
  end.

(** ** The relay *)

Record relay := Relay { rhost : host; attestBuckets : option buckets; rmetrics : metrics }.

Record relay_config := RelayConfig {
  rupgrade : host_config; rproxy : proxy_config; attestLimit : Z * Z; attestMaxKeys : nat }.

Definition count_metric (name : string) (r : relay) : relay :=
  Relay (rhost r) (attestBuckets r) (inc name 1 (rmetrics r)).

Definition count_reason (name reason : string) (r : relay) : relay :=
  Relay (rhost r) (attestBuckets r) (incReason name reason (rmetrics r)).

(** The counters that exist before anything happens. *)
Definition PRE_REGISTERED : list string :=
  ["quota_exceeded_total"; "phone_no_mac_total"; "ws_keepalive_terminated_total"; "shard_map_fetch_retries_total";
   "shard_reject_total"; "shard_map_reloads_total"; "shard_map_fetch_errors_total"; "metrics_push_errors_total"]%string.

Definition boot_metrics : metrics := fold_left (fun m k => inc k 0 m) PRE_REGISTERED new_metrics.

Definition new_relay (ws attest : option buckets) : relay := Relay (Host 0 ∅ ws) attest boot_metrics.

(** [onServerClose]: the closes the host counts. *)
Definition onServerClose (code : Z) (reason : string) (r : relay) : relay :=
  let r := if (code =? 1008) && includes "quota" reason then count_metric "quota_exceeded_total" r else r in
  if (code =? 1008) && String.eqb reason "mac offline" then count_metric "phone_no_mac_total" r else r.

Definition ownershipGate (m : mode) (s : store) (room : string) : decision :=
  match m with MODE_DIRECT => Admit None | _ => ownershipDecision m room (ownsBucket s) end.

Definition shardGauges (m : mode) (s : store) (draining : Z) : gauge_list :=
  match m with
  | MODE_DIRECT => []
  | _ => [("shard_map_version", store_version s); ("shard_owned_buckets", Z.of_nat (ownedCount s));
          ("shard_draining_buckets", draining)]%string
  end.

(** A scrape from the box itself, not through a proxy; an empty header counts as
    none. *)
Definition isLocalScrape (remoteAddress : option string) (h : headers) : bool :=
  let addr := default ""%string remoteAddress in
  existsb (String.eqb addr) ["127.0.0.1"; "::1"; "::ffff:127.0.0.1"]%string
  && negb (truthy (hget h "x-forwarded-for")) && negb (truthy (hget h "cf-connecting-ip")).

(** The gauges of the metrics page. *)
Definition page_gauges (rooms_live : Z) (o : occupancy_counts) (m : mode) (s : store) (draining : Z) (r : relay) : gauge_list :=
  [("rooms_live", rooms_live); ("sockets_live", totalSockets (rhost r)); ("rooms_both", both o);
   ("rooms_mac_only", mac_only o); ("rooms_phone_only", phone_only o); ("rooms_neither", neither o)]%string
  ++ shardGauges m s draining.

(** The gauges of a push. *)
Definition push_gauges (rooms_live : Z) (m : mode) (s : store) (draining : Z) (r : relay) : gauge_list :=
  [("rooms_live", rooms_live); ("sockets_live", totalSockets (rhost r))]%string ++ shardGauges m s draining.

(** ** The HTTP handler *)

(** A request as it arrives; [None] for a target the URL parser throws on. *)
Record http_request := HttpRequest {
  hr_path : option string; hr_headers : node_headers; hr_addr : option string;
  hr_chunks : list bytes; hr_cut : bool }.

Inductive http_answer : Type :=
| APlain (status : Z) (message : string)
| AMetrics
| ANone                                       (* the connection is gone *)
| AToRoom (room path : string) (h : headers) (body : bytes).

Definition attestOver (cfg : relay_config) (now : Z) (ip : string) (r : relay) : bool * relay :=
  match attestBuckets r with
  | None => (false, r)
  | Some l =>
      let '(o, l') := over (attestLimit cfg).1 (attestLimit cfg).2 (attestMaxKeys cfg) now ip l in
      (o, Relay (rhost r) (Some l') (rmetrics r))
  end.

(** [Number.isFinite(declared) && declared > MAX_BODY_BYTES] *)
Definition declared_too_large (content_length : option string) : bool :=
  match content_length ≫= finite_number with Some n => qlt (inject_Z MAX_BODY_BYTES) n | None => false end.

(** [handleRequest], to its answer or to the room's handler. *)
Definition handleRequest (cfg : relay_config) (now : Z) (gate : string -> decision) (has_room : string -> bool) (size : Z)
    (q : http_request) (r : relay) : http_answer * relay :=
  let h := toHeaders (hr_headers q) in
  match hr_path q with
  | None => (APlain 500 "internal error", count_metric "http_errors_total" r)
  | Some path =>
      if String.eqb path "/metrics" then
        (if isLocalScrape (hr_addr q) h then AMetrics else APlain 403 "forbidden", r)
      else
        match entryReject h with
        | Some rej => (APlain (ShardGate.status rej) (message rej), r)
        | None =>
            let r := count_metric "http_requests_total" r in
            let room := default ""%string (hget h ROOM_HEADER) in
            match gate room with
            | Refuse s _ _ => (APlain s "misdirected", count_metric "shard_reject_total" r)
            | Admit _ =>
                let ip := default "undefined"%string (clientIp h (hr_addr q) (rproxy cfg)) in
                let '(limited, r) := if starts_with "/attest" path then attestOver cfg now ip r else (false, r) in
                if limited then (APlain 429 "rate limited", r)
                else if negb (has_room room) && (maxRooms (rupgrade cfg) <=? size) then (APlain 503 "capacity", r)
                else if declared_too_large (node_header (hr_headers q) "content-length") then (APlain 413 "payload too large", r)
                else match readBody MAX_BODY_BYTES 0 (hr_chunks q) (hr_cut q) [] with
                     | BodyTooLarge => (APlain 413 "payload too large", r)
                     | BodyCut => (ANone, r)
                     | BodyOk b => (AToRoom room path h b, r)
                     end
            end
        end
  end.

(** The room's answer goes out; an exception is counted and answered 500. *)
Definition finishRequest (reply : result string (Z * string)) (r : relay) : http_answer * relay :=
  match reply with
  | Ok (s, body) => (APlain s body, r)
  | Err _ => (APlain 500 "internal error", count_metric "http_errors_total" r)
  end.

(** ** Upgrades, counted *)

Definition REJECTED_TOTAL : string := "ws_upgrades_rejected_total".

Definition upgrade (cfg : relay_config) (now : Z) (h : headers) (remote : option string) (gate : string -> decision)
    (has_room : string -> bool) (size : Z) (r : relay) : verdict * relay :=
  let ip := default "undefined"%string (clientIp h remote (rproxy cfg)) in
  let '(v, h') := handleUpgrade (rupgrade cfg) now h ip gate has_room size (rhost r) in
  let r := Relay h' (attestBuckets r) (rmetrics r) in
  (v, match v with
      | Rejected _ reason => count_reason REJECTED_TOTAL reason r
      | Misdirected _ => count_metric "shard_reject_total" r
      | Upgraded => r
      end).

Definition socket_opened (ip : string) (r : relay) : relay :=
  count_metric "ws_upgrades_total" (Relay (opened ip (rhost r)) (attestBuckets r) (rmetrics r)).

(** [lived] in seconds *)
Definition socket_closed (ip : string) (lived : Q) (r : relay) : relay :=
  Relay (Host.gone ip (rhost r)) (attestBuckets r) (observeSocketLifetime lived (rmetrics r)).

(** ** The outbound push *)

Record push_request := PushRequest { push_url : string; push_token : string; push_ts : Z; push_body : list (string * Z) }.

(** [startMetricsPushIfConfigured] and one [push]: the request sent, with the
    timestamp before the snapshot's members; a failed one is counted. *)
Definition push_once (url token : string) (now : Z) (gauges : gauge_list) (delivered : result string bool) (r : relay)
    : option push_request * relay :=
  if String.eqb url "" || String.eqb token "" then (None, r) else
  (Some (PushRequest url token now (("ts"%string, now) :: Metrics.snapshot (rmetrics r) gauges)),
   match delivered with Ok true => r | _ => count_metric "metrics_push_errors_total" r end).

(** ** Keepalive *)

(** A connected client: what the sweep reads of it. *)
Record client := Client { cws : nat; isAlive : bool }.

(** One sweep: the clients terminated, those pinged. *)
Definition sweepKeepalive (l : list client) : list nat * list client :=
  (omap (fun c => if isAlive c then None else Some (cws c)) l,
   List.map (fun c => Client (cws c) false) l).

Inductive alive_event : Type :=
| KOpen (ws : nat)
| KPong (ws : nat)
| KSweep
| KClosed (ws : nat).

(** The server's clients, and those terminated so far; a terminated client is on
    the list until its ['close']. *)
Definition alive_step (s : list client * list nat) (e : alive_event) : list client * list nat :=
  let '(l, dead) := s in
  match e with
  | KOpen ws => (l ++ [Client ws true], dead)
  | KPong ws => (List.map (fun c => if Nat.eqb (cws c) ws then Client ws true else c) l, dead)
  | KSweep => let '(killed, l') := sweepKeepalive l in (l', dead ++ killed)
  | KClosed ws => (List.filter (fun c => negb (Nat.eqb (cws c) ws)) l, dead)
  end.

Definition alive_run (es : list alive_event) (s : list client * list nat) : list client * list nat := fold_left alive_step es s.

(** ** What the constructor refuses *)

(** The texts of the last two errors leave out the numbers. *)
Definition createRelay_checks (shardMapUrl selfHost : option string) (relayOrigin : string)
    (pollMs drainMs rate : Q) : result string mode :=
  (let! m := resolveMode shardMapUrl selfHost in
   match m with
   | MODE_DIRECT => Ok MODE_DIRECT
   | _ =>
       let! _ := assertOriginMatches relayOrigin (default ""%string selfHost) in
       if qlt drainMs (2 * pollMs) then Err "drainDelayMs too short"%string
       else if Qle_bool rate 0 then Err "evictionRate must be positive"%string
       else Ok m
   end)%res.

(** ** Swallowed exceptions ([bin/relay.js]) *)

Definition EXC_WINDOW_MS : Z := 60000.
Definition EXC_LIMIT : nat := 25.

(** [while (excTimes.length && now - excTimes[0] > EXC_WINDOW_MS) excTimes.shift()] *)
Fixpoint drop_old (now : Z) (times : list Z) : list Z :=
  match times with
  | t :: times' => if EXC_WINDOW_MS <? now - t then drop_old now times' else times
  | [] => []
  end.

(** The exception counted; whether the process gives up; the times kept. *)
Definition onProcessException (now : Z) (excTimes : list Z) (r : relay) : bool * list Z * relay :=
  let times := drop_old now (excTimes ++ [now]) in
  ((EXC_LIMIT <? length times)%nat, times, count_metric "process_exceptions_total" r).
