(* ===== verification/Launch.v ===== *)
(** The relay's executable ([bin/relay.js]): the configuration it reads from the
    environment, what it refuses and warns about, the limits the host then runs
    with, its start up to the listening port, and the signals.

    A number is the exact value of its decimal text. *)

From Stdlib Require Import QArith Qround Lqa.
From S2P Require Import Prelude Bytes ShardGate ShardMap ShardStore ShardFetch Host Monitor HostServer.
#[local] Open Scope Z_scope.

(** ** The environment *)

(** [Number(v)], where it is finite: blank text is zero. *)
Definition number (v : string) : option Q := if bool_decide (trim v = []) then Some 0%Q else finite_number v.

(** [numEnv(name)] *)
Definition numEnv (e : env) (name : string) : option Q :=
  v ← e !! name; q ← number v; if qlt 0 q then Some q else None.

(** [process.env[name]] where it is truthy. *)
Definition strEnv (e : env) (name : string) : option string := if truthy (e !! name) then e !! name else None.

Definition is_true (e : env) (name : string) : bool := bool_decide (e !! name = Some "true"%string).

Definition HOST (e : env) : string := default "127.0.0.1"%string (strEnv e "RELAY_HOST").
Definition DB_PATH (e : env) : string := default "relay.db"%string (strEnv e "RELAY_DB").

(** Nothing is [NaN] or an infinity, with which [listen] throws. *)
Definition PORT (e : env) : option Q :=
  match strEnv e "RELAY_PORT" with
  | Some v => number v
  | None => match strEnv e "PORT" with Some v => number v | None => Some (inject_Z 8787) end
  end.

(** ** The overrides *)

Record overrides := Overrides {
  oMaxRooms : option Q; oMaxSocketsPerIp : option Q; oMaxTotalSockets : option Q; oKeepaliveMs : option Q;
  oTrustedHops : option Q; oMetricsPushMs : option Q;
  oShardMapUrl : option string; oSelfHost : option string;
  oPollIntervalMs : option Q; oDrainDelayMs : option Q; oEvictionRate : option Q;
  oMetricsPushUrl : option string; oMetricsPushToken : option string;
  oTrustProxy : bool; oTrustCloudflare : bool }.

Definition read_overrides (e : env) : overrides := {|
  oMaxRooms := numEnv e "RELAY_MAX_ROOMS";
  oMaxSocketsPerIp := numEnv e "RELAY_MAX_SOCKETS_PER_IP";
  oMaxTotalSockets := numEnv e "RELAY_MAX_TOTAL_SOCKETS";
  oKeepaliveMs := numEnv e "RELAY_KEEPALIVE_MS";
  oTrustedHops := numEnv e "RELAY_TRUSTED_HOPS";
  oMetricsPushMs := numEnv e "RELAY_METRICS_PUSH_MS";
  oShardMapUrl := strEnv e "RELAY_SHARDMAP_URL";
  oSelfHost := strEnv e "RELAY_SELF_HOST";
  oPollIntervalMs := numEnv e "RELAY_SHARDMAP_POLL_MS";
  oDrainDelayMs := numEnv e "RELAY_DRAIN_DELAY_MS";
  oEvictionRate := numEnv e "RELAY_EVICTION_RATE";
  oMetricsPushUrl := strEnv e "RELAY_METRICS_PUSH_URL";
  oMetricsPushToken := strEnv e "RELAY_METRICS_PUSH_TOKEN";
  oTrustProxy := is_true e "RELAY_TRUST_PROXY";
  oTrustCloudflare := is_true e "RELAY_TRUST_CLOUDFLARE" |}.

(** *** Warnings *)

Inductive warning := HalfConfiguredPush | LoopbackWithoutTrust.

Definition loopback (host : string) : bool := existsb (String.eqb host) ["127.0.0.1"; "::1"; "localhost"]%string.

Definition warnings (e : env) : list warning :=
  let o := read_overrides e in
  (if xorb (truthy (oMetricsPushUrl o)) (truthy (oMetricsPushToken o)) then [HalfConfiguredPush] else [])
  ++ (if negb (oTrustProxy o) && negb (oTrustCloudflare o) && loopback (HOST e) then [LoopbackWithoutTrust] else []).

(** ** What the host runs with *)

(** [{ ...DEFAULTS, ...options }], and the defaults the constructor supplies. *)
Record settings := Settings {
  s_maxRooms : Q; s_maxSocketsPerIp : Q; s_maxTotalSockets : Q; s_keepaliveMs : Q;
  s_trustProxy : bool; s_trustCloudflare : bool; s_trustedHops : Q;
  s_metricsPushUrl : string; s_metricsPushToken : string; s_metricsPushMs : Q;
  s_shardMapUrl : option string; s_selfHost : option string;
  s_pollMs : Q; s_drainMs : Q; s_rate : Q }.

Definition settings_of (o : overrides) : settings := {|
  s_maxRooms := default (inject_Z 200000) (oMaxRooms o);
  s_maxSocketsPerIp := default (inject_Z 64) (oMaxSocketsPerIp o);
  s_maxTotalSockets := default (inject_Z 200000) (oMaxTotalSockets o);
  s_keepaliveMs := default (inject_Z 30000) (oKeepaliveMs o);
  s_trustProxy := oTrustProxy o; s_trustCloudflare := oTrustCloudflare o;
  s_trustedHops := default 1%Q (oTrustedHops o);
  s_metricsPushUrl := default ""%string (oMetricsPushUrl o);
  s_metricsPushToken := default ""%string (oMetricsPushToken o);
  s_metricsPushMs := default (inject_Z 60000) (oMetricsPushMs o);
  s_shardMapUrl := oShardMapUrl o; s_selfHost := oSelfHost o;
  s_pollMs := default (inject_Z SHARDMAP_POLL_INTERVAL_MS) (oPollIntervalMs o);
  s_drainMs := default (inject_Z RESHARD_DRAIN_DELAY_MS) (oDrainDelayMs o);
  s_rate := default RESHARD_EVICTION_RATE (oEvictionRate o) |}.

(** [createRelay(...)] of the executable: [exit 1] with the message, or the mode
    and the settings it serves with. *)
Definition launch (e : env) : result string (mode * settings) :=
  let s := settings_of (read_overrides e) in
  (let! m := createRelay_checks (s_shardMapUrl s) (s_selfHost s) (default ""%string (e !! "RELAY_ORIGIN"))
               (s_pollMs s) (s_drainMs s) (s_rate s) in
   Ok (m, s))%res.

(** *** The start *)

(** What the start meets: the database file, the rooms in it, what each attempt to
    fetch the map gives, the address to bind. *)
Record services := Services {
  open_db : string -> result string unit; rehydrated : result string unit;
  map_text : nat -> result string string; bind : string -> Z -> result string unit }.

Definition bootMaxRetries : Z := 60.

Definition is_integer (q : Q) : bool := Qeq_bool q (inject_Z (Qfloor q)).

(** The ports [httpServer.listen] takes; it throws on any other number. *)
Definition valid_port (q : option Q) : option Z :=
  match q with
  | Some q => if is_integer q && Qle_bool 0 q && Qle_bool q 65535 then Some (Qfloor q) else None
  | None => None
  end.

(** [relay.listen(PORT, HOST)] *)
Definition listen (e : env) (w : services) (m : mode) (s : settings) : result string Z :=
  (let! _ := rehydrated w in
   let! _ := match m with
             | MODE_DIRECT => Ok tt
             | _ => let! _ := bootstrapShardMap (map_text w) bootMaxRetries (new_store (default ""%string (s_selfHost s))) in Ok tt
             end in
   match valid_port (PORT e) with
   | Some p => let! _ := bind w (HOST e) p in Ok p
   | None => Err "ERR_SOCKET_BAD_PORT"%string
   end)%res.

(** Why the process exits with 1, or what it serves with and where. *)
Inductive startup := InvalidConfiguration (err : string) | FailedToStart (err : string) | Serving (m : mode) (s : settings) (p : Z).

Definition start_relay (e : env) (w : services) : startup :=
  match (let! _ := open_db w (DB_PATH e) in launch e)%res with
  | Err err => InvalidConfiguration err
  | Ok (m, s) => match listen e w m s with Err err => FailedToStart err | Ok p => Serving m s p end
  end.

(** Whether the metrics are pushed. *)
Definition pushes (s : settings) : bool :=
  negb (String.eqb (s_metricsPushUrl s) "") && negb (String.eqb (s_metricsPushToken s) "").

(** *** A hop count that need not be an integer *)

(** [parts[idx >= 0 ? idx : parts.length - 1]]: at a fraction there is nothing. *)
Definition nth_hop (parts : list string) (n : Q) : option string :=
  let idx := (inject_Z (Z.of_nat (length parts)) - n)%Q in
  if Qle_bool 0 idx then if is_integer idx then parts !! Z.to_nat (Qfloor idx) else None
  else last parts.

(** *** Signals *)

(** [shutdown(signal)]: whether the flag was down, so that the relay is closed. *)
Definition shutdown (shuttingDown : bool) : bool * bool := (negb shuttingDown, true).

Fixpoint signals (n : nat) (shuttingDown : bool) : list bool :=
  match n with O => [] | S n => let '(closes, f) := shutdown shuttingDown in closes :: signals n f end.

(** SIGUSR2 *)
Definition toggle_log (e : env) : env :=
  <["RELAY_LOG"%string := (if bool_decide (e !! "RELAY_LOG"%string = Some "true") then "false" else "true")%string]> e.

(** ** Theorems *)

Definition distributed (e : env) : bool := truthy (e !! "RELAY_SHARDMAP_URL"%string) && truthy (e !! "RELAY_SELF_HOST"%string).

(** What keeps the relay from starting. *)
Definition misconfigured (e : env) : Prop :=
  truthy (e !! "RELAY_SHARDMAP_URL"%string) <> truthy (e !! "RELAY_SELF_HOST"%string)
  \/ (distributed e = true
      /\ (default ""%string (e !! "RELAY_ORIGIN"%string) <> originForHost (default ""%string (e !! "RELAY_SELF_HOST"%string))
          \/ (default (inject_Z RESHARD_DRAIN_DELAY_MS) (numEnv e "RELAY_DRAIN_DELAY_MS")
              < 2 * default (inject_Z SHARDMAP_POLL_INTERVAL_MS) (numEnv e "RELAY_SHARDMAP_POLL_MS"))%Q)).

(** A port to listen on. *)
Definition names_port (e : env) (p : Z) : Prop := exists q, PORT e = Some q /\ (q == inject_Z p)%Q /\ 0 <= p <= 65535.

Record positive (s : settings) : Prop := {
  pos_rooms : (0 < s_maxRooms s)%Q; pos_ip : (0 < s_maxSocketsPerIp s)%Q; pos_total : (0 < s_maxTotalSockets s)%Q;
  pos_keepalive : (0 < s_keepaliveMs s)%Q; pos_hops : (0 < s_trustedHops s)%Q; pos_push : (0 < s_metricsPushMs s)%Q;
  pos_poll : (0 < s_pollMs s)%Q; pos_drain : (0 < s_drainMs s)%Q; pos_rate : (0 < s_rate s)%Q }.

Lemma numEnv_positive e k d : (0 < d)%Q -> (0 < default d (numEnv e k))%Q.
Proof.
  intros Hd. unfold numEnv. destruct (e !! k) as [v|]; [|done]. simpl. destruct (number v) as [q|]; [|done]. simpl.
  destruct (qlt 0 q) eqn:E; [by apply qlt_spec|done].
Qed.

Lemma settings_positive e : positive (settings_of (read_overrides e)).
Proof. split; by apply numEnv_positive. Qed.

Lemma strEnv_truthy e k : truthy (strEnv e k) = truthy (e !! k).
Proof. unfold strEnv. destruct (truthy (e !! k)) eqn:E; [exact E|done]. Qed.

Lemma strEnv_value e k : truthy (e !! k) = true -> strEnv e k = e !! k.
Proof. unfold strEnv. by intros ->. Qed.

(** The constructor's last check never fails here: no rate that is not positive
    gets past [numEnv]. *)
Lemma rate_check_passes e : Qle_bool (s_rate (settings_of (read_overrides e))) 0 = false.
Proof.
  pose proof (pos_rate _ (settings_positive e)) as H. destruct (Qle_bool _ 0) eqn:E; [|done]. apply Qle_bool_iff in E. lra.
Qed.

Lemma launch_cases e :
  let s := settings_of (read_overrides e) in
  (misconfigured e /\ exists err, launch e = Err err)
  \/ (~ misconfigured e /\ launch e = Ok (if distributed e then MODE_DISTRIBUTED else MODE_DIRECT, s)).
Proof.
  intros s. pose proof (rate_check_passes e) as Hrate. unfold launch, createRelay_checks, resolveMode. subst s.
  cbn [settings_of read_overrides s_shardMapUrl s_selfHost oShardMapUrl oSelfHost].
  rewrite !strEnv_truthy. unfold misconfigured, distributed.
  destruct (truthy (e !! "RELAY_SHARDMAP_URL"%string)) eqn:E1, (truthy (e !! "RELAY_SELF_HOST"%string)) eqn:E2; cbn [andb negb rbind].
  - rewrite (strEnv_value _ _ E2). unfold assertOriginMatches.
    destruct (String.eqb_spec (default ""%string (e !! "RELAY_ORIGIN"%string)) (originForHost (default ""%string (e !! "RELAY_SELF_HOST"%string)))) as [Eo|Eo].
    + cbn [rbind]. rewrite Hrate.
      cbn [settings_of read_overrides s_drainMs s_pollMs oDrainDelayMs oPollIntervalMs].
      destruct (qlt _ _) eqn:E3; cbn [rbind].
      * left. apply qlt_spec in E3. split; [|by eexists]. right. split; [done|]. by right.
      * right. split; [|done]. intros [?|[_ [?|H]]]; [done|done|]. apply qlt_spec in H. congruence.
    + left. split; [|by eexists]. right. split; [done|]. by left.
  - left. split; [by left|by eexists].
  - left. split; [by left|by eexists].
  - right. split; [|done]. by intros [?|[? _]].
Qed.

Lemma pushes_both e :
  pushes (settings_of (read_overrides e)) = truthy (e !! "RELAY_METRICS_PUSH_URL"%string) && truthy (e !! "RELAY_METRICS_PUSH_TOKEN"%string).
Proof.
  unfold pushes. cbn. rewrite <-(strEnv_truthy e "RELAY_METRICS_PUSH_URL"), <-(strEnv_truthy e "RELAY_METRICS_PUSH_TOKEN").
  assert (H : forall v, negb (String.eqb (default ""%string v) "") = truthy v) by by intros [[|]|]. by rewrite !H.
Qed.

Lemma launch_settings e m s :
  launch e = Ok (m, s) ->
  positive s
  /\ (m = MODE_DISTRIBUTED <-> distributed e = true)
  /\ (m = MODE_DISTRIBUTED -> (2 * s_pollMs s <= s_drainMs s)%Q
     /\ exists host, s_selfHost s = Some host /\ e !! "RELAY_ORIGIN"%string = Some (originForHost host))
  /\ (pushes s = true <-> truthy (e !! "RELAY_METRICS_PUSH_URL"%string) = true /\ truthy (e !! "RELAY_METRICS_PUSH_TOKEN"%string) = true)
  /\ (In HalfConfiguredPush (warnings e)
    <-> truthy (e !! "RELAY_METRICS_PUSH_URL"%string) <> truthy (e !! "RELAY_METRICS_PUSH_TOKEN"%string)).
Proof.
  destruct (launch_cases e) as [[Hm [err E]]|[Hm E]]; rewrite E; [done|]. intros [= <- <-].
  split; [apply settings_positive|]. split; [by destruct (distributed e)|]. split; [|split].
  - destruct (distributed e) eqn:Ed; [|done]. intros _. unfold misconfigured in Hm. rewrite Ed in Hm.
    destruct (decide (default ""%string (e !! "RELAY_ORIGIN"%string) = originForHost (default ""%string (e !! "RELAY_SELF_HOST"%string)))) as [Eo|?];
      [|exfalso; apply Hm; right; auto].
    apply andb_prop in Ed as [_ Eh]. split.
    { cbn. destruct (Qlt_le_dec (default (inject_Z RESHARD_DRAIN_DELAY_MS) (numEnv e "RELAY_DRAIN_DELAY_MS"))
          (2 * default (inject_Z SHARDMAP_POLL_INTERVAL_MS) (numEnv e "RELAY_SHARDMAP_POLL_MS"))); [|done].
      exfalso. apply Hm. right. auto. }
    cbn. rewrite strEnv_value by done. destruct (e !! "RELAY_SELF_HOST"%string) as [host|]; [|done]. exists host. split; [done|].
    destruct (e !! "RELAY_ORIGIN"%string) as [o|]; simpl in Eo; [by rewrite Eo|done].
  - rewrite pushes_both. by rewrite andb_true_iff.
  - unfold warnings. rewrite in_app_iff. cbn [read_overrides oMetricsPushUrl oMetricsPushToken]. rewrite !strEnv_truthy.
    assert (Hno : forall b : bool, ~ In HalfConfiguredPush (if b then [LoopbackWithoutTrust] else [])) by (intros []; simpl; naive_solver).
    match goal with |- context [In _ (if ?b then [LoopbackWithoutTrust] else [])] => specialize (Hno b) end.
    destruct (truthy (e !! "RELAY_METRICS_PUSH_URL"%string)), (truthy (e !! "RELAY_METRICS_PUSH_TOKEN"%string)); cbn [xorb];
      split; intros H; try done; try (by left; left); by destruct H as [[]|].
Qed.

Lemma valid_port_spec e p : valid_port (PORT e) = Some p <-> names_port e p.
Proof.
  unfold valid_port, names_port, is_integer. destruct (PORT e) as [q|]; [|split; [done|by intros (? & ? & _)]].
  assert (Hz : forall a b, (inject_Z a <= inject_Z b)%Q <-> a <= b) by (intros; by rewrite Zle_Qle).
  split.
  - destruct (Qeq_bool q _ && Qle_bool 0 q && Qle_bool q 65535) eqn:E; [|done]. intros [= <-].
    rewrite !andb_true_iff in E. destruct E as [[E1%Qeq_bool_iff E2%Qle_bool_iff] E3%Qle_bool_iff]. exists q. split; [done|].
    split; [done|]. rewrite E1 in E2, E3. change 0%Q with (inject_Z 0) in E2. change 65535%Q with (inject_Z 65535) in E3.
    by rewrite Hz in E2, E3.
  - intros (q' & [= <-] & Hq & H1 & H2).
    assert (Hf : Qfloor q = p) by (rewrite Hq; apply Qfloor_Z). rewrite Hf.
    assert (E1 : Qeq_bool q (inject_Z p) = true) by by apply Qeq_bool_iff.
    assert (E2 : Qle_bool 0 q = true) by (apply Qle_bool_iff; rewrite Hq; change 0%Q with (inject_Z 0); by apply Hz).
    assert (E3 : Qle_bool q 65535 = true) by (apply Qle_bool_iff; rewrite Hq; change 65535%Q with (inject_Z 65535); by apply Hz).
    by rewrite E1, E2, E3.
Qed.

Lemma bootstrap_loop_ok fetched left : forall i s, hasMap s = false ->
  (is_ok (bootstrap_loop fetched i left s) = true <-> exists j, (i <= j < i + left)%nat /\ is_Some (fetched_map (fetched j))).
Proof.
  induction left as [|left IH]; intros i s Hs; cbn [bootstrap_loop]; rewrite Hs; [split; [done|intros (j & ? & _); lia]|].
  change (fetchOnce s (fetched i)).2 with (poll s (fetched i)). rewrite poll_fetched.
  destruct (fetched_map (fetched i)) as [m|] eqn:Em.
  - unfold applyFetched. unfold hasMap in Hs. destruct (held s); [done|]. cbn [snd].
    split; [intros _; exists i; split; [lia|by eexists]|]. intros _. by destruct left.
  - rewrite (IH (S i) s Hs). split; intros (j & Hj & H); exists j; (split; [|done]); [lia|].
    destruct (decide (j = i)) as [->|]; [|lia]. rewrite Em in H. by destruct H.
Qed.

Lemma bootstrap_ok w self : is_ok (bootstrapShardMap (map_text w) bootMaxRetries (new_store self)) = true
  <-> exists j, (j < 60)%nat /\ is_Some (fetched_map (map_text w j)).
Proof.
  unfold bootstrapShardMap. rewrite bootstrap_loop_ok by done. change (Z.to_nat (Z.max 1 bootMaxRetries)) with 60%nat.
  split; intros (j & ? & ?); exists j; (split; [lia|done]).
Qed.

(** C37: what the executable makes of its environment and of what it meets. It serves
    exactly when the database opens; not just one of the map address and the own
    host name is set, and if both are, the origin is the host's and the drain delay
    is two poll intervals or more; the rooms can be read; one of a distributed box's
    first sixty fetches gives a valid map; the port is a whole number from 0
    (any free one) to 65535; and the address can be bound. Otherwise it exits with 1, as a
    configuration that is refused exactly when the database or the sharding
    variables are what is wrong. When it serves, every limit is positive whatever
    the variables hold, the mode is distributed exactly when both are set, a
    distributed box has the orderings its drain relies on, the metrics are pushed
    exactly when address and token are set, and it has warned when only one of them
    is. *)
Theorem launch_exact (e : env) (w : services) :
  ((exists err, start_relay e w = InvalidConfiguration err)
     <-> (exists err, open_db w (DB_PATH e) = Err err) \/ misconfigured e)
  /\ (forall p, (exists m s, start_relay e w = Serving m s p)
       <-> open_db w (DB_PATH e) = Ok tt /\ ~ misconfigured e /\ rehydrated w = Ok tt
           /\ (distributed e = true -> exists j, (j < 60)%nat /\ is_Some (fetched_map (map_text w j)))
           /\ names_port e p /\ bind w (HOST e) p = Ok tt)
  /\ forall m s p, start_relay e w = Serving m s p ->
       positive s
       /\ (m = MODE_DISTRIBUTED <-> distributed e = true)
       /\ (m = MODE_DISTRIBUTED -> (2 * s_pollMs s <= s_drainMs s)%Q
            /\ exists host, s_selfHost s = Some host /\ e !! "RELAY_ORIGIN"%string = Some (originForHost host))
       /\ (pushes s = true <-> truthy (e !! "RELAY_METRICS_PUSH_URL"%string) = true /\ truthy (e !! "RELAY_METRICS_PUSH_TOKEN"%string) = true)
       /\ (In HalfConfiguredPush (warnings e)
           <-> truthy (e !! "RELAY_METRICS_PUSH_URL"%string) <> truthy (e !! "RELAY_METRICS_PUSH_TOKEN"%string)).
Proof.
  unfold start_relay. destruct (open_db w (DB_PATH e)) as [[]|err]; cbn [rbind].
  2: { split; [split; [intros _; left; by eexists|by eexists]|]. split; [|done]. intros p. split; [by intros (? & ? & ?)|by intros [? _]]. }
  destruct (launch_cases e) as [[Hm [err E]]|[Hm E]]; rewrite E.
  { split; [split; [by right|by eexists]|]. split; [|done]. intros p. split; [by intros (? & ? & ?)|by intros (_ & ? & _)]. }
  split; [split; [intros [err Hx]; by destruct (listen _ _ _ _)|by intros [[? ?]|?]]|]. split.
  - intros p. rewrite <-valid_port_spec. unfold listen. destruct (rehydrated w) as [[]|err]; cbn [rbind].
    2: { split; [by intros (? & ? & ?)|by intros (_ & _ & ? & _)]. }
    set (boot := match (if distributed e then MODE_DISTRIBUTED else MODE_DIRECT) with MODE_DIRECT => Ok tt | _ => _ end).
    assert (Hb : is_ok boot = true <-> (distributed e = true -> exists j, (j < 60)%nat /\ is_Some (fetched_map (map_text w j)))).
    { subst boot. destruct (distributed e); [|by split]. rewrite <-(bootstrap_ok w (default ""%string (s_selfHost (settings_of (read_overrides e))))).
      destruct (bootstrapShardMap _ _ _); cbn [rbind is_ok]; split; auto. }
    rewrite <-Hb. destruct boot as [[]|err]; cbn [rbind is_ok]; [|split; [by intros (? & ? & ?)|by intros (_ & _ & _ & ? & _)]].
    destruct (valid_port (PORT e)) as [p'|]; [|split; [by intros (? & ? & ?)|by intros (_ & _ & _ & _ & ? & _)]].
    destruct (bind w (HOST e) p') as [[]|err] eqn:Ebind; cbn [rbind].
    + split; [intros (m & s & [= _ _ <-]); by split_and!|]. intros (_ & _ & _ & _ & [= ->] & _). by eexists _, _.
    + split; [by intros (? & ? & ?)|]. intros (_ & _ & _ & _ & [= ->] & ?). congruence.
  - intros m s p Hx. apply launch_settings. rewrite E. destruct (listen _ _ _ _); [|done]. by injection Hx as <- <- _.
Qed.

(** Ports given with a unit, as a fraction, or past 16 bits keep the relay from
    starting; an empty one is the default. *)
Example ports : List.map (fun v => valid_port (PORT {["RELAY_PORT"%string := v]})) ["8787"; "0x1F90"; "80.5"; "70000"; "-1"; "http"; " "; ""]%string
  = [Some 8787; Some 8080; None; None; None; None; Some 0; Some 8787].
Proof. vm_compute. reflexivity. Qed.

(** With nothing set and everything in order it serves on its default address; with
    half of the sharding variables, or on an address in use, it does not. *)
Definition nothing_wrong : services := Services (fun _ => Ok tt) (Ok tt) (fun _ => Err ""%string) (fun _ _ => Ok tt).

Example starts :
  match start_relay ∅ nothing_wrong with Serving MODE_DIRECT _ 8787 => true | _ => false end = true
  /\ match start_relay {["RELAY_SELF_HOST"%string := "a.example"%string]} nothing_wrong with InvalidConfiguration _ => true | _ => false end = true
  /\ start_relay ∅ (Services (fun _ => Ok tt) (Ok tt) (fun _ => Err ""%string) (fun _ _ => Err "EADDRINUSE"%string)) = FailedToStart "EADDRINUSE".
Proof. split_and!; vm_compute; reflexivity. Qed.

(** *** Hops *)

Lemma nth_hop_integer parts (n : Z) : nth_hop parts (inject_Z n) = nth_from_right parts n.
Proof.
  unfold nth_hop, nth_from_right. set (k := Z.of_nat (length parts)).
  assert (E : (inject_Z k - inject_Z n == inject_Z (k - n))%Q) by (unfold Z.sub; by rewrite inject_Z_plus, inject_Z_opp).
  assert (Hf : Qfloor (inject_Z k - inject_Z n) = k - n) by (rewrite E; apply Qfloor_Z).
  unfold is_integer. rewrite Hf. assert (Hq : Qeq_bool (inject_Z k - inject_Z n) (inject_Z (k - n)) = true) by by apply Qeq_bool_iff.
  rewrite Hq. destruct (Z.leb_spec 0 (k - n)) as [H|H].
  - assert (H0 : Qle_bool 0 (inject_Z k - inject_Z n) = true) by (apply Qle_bool_iff; rewrite E; change 0%Q with (inject_Z 0); by rewrite <-Zle_Qle).
    by rewrite H0.
  - assert (H0 : Qle_bool 0 (inject_Z k - inject_Z n) = false).
    { destruct (Qle_bool _ _) eqn:E0; [|done]. apply Qle_bool_iff in E0. rewrite E in E0. change 0%Q with (inject_Z 0) in E0. rewrite <-Zle_Qle in E0. lia. }
    by rewrite H0.
Qed.

(** A hop count between two integers finds no address in any long enough header:
    every client is then keyed the same. *)
Lemma fractional_hops_lose_the_address parts n :
  is_integer n = false -> (n <= inject_Z (Z.of_nat (length parts)))%Q -> nth_hop parts n = None.
Proof.
  intros Hn Hle. unfold nth_hop. set (k := Z.of_nat (length parts)) in *.
  assert (H0 : Qle_bool 0 (inject_Z k - n) = true) by (apply Qle_bool_iff; lra). rewrite H0.
  destruct (is_integer (inject_Z k - n)) eqn:E; [|done]. exfalso. unfold is_integer in *.
  apply Qeq_bool_iff in E. set (f := Qfloor (inject_Z k - n)) in *.
  assert (Hkn : (n == inject_Z (k - f))%Q) by (unfold Z.sub; rewrite inject_Z_plus, inject_Z_opp; lra).
  assert (Hfl : Qfloor n = k - f) by (rewrite Hkn; apply Qfloor_Z). rewrite Hfl in Hn.
  apply not_true_iff_false in Hn. by apply Hn, Qeq_bool_iff.
Qed.

Example fractional_hops :
  numEnv {["RELAY_TRUSTED_HOPS"%string := "1.5"%string]} "RELAY_TRUSTED_HOPS" = Some (15 # 10)%Q
  /\ nth_hop ["203.0.113.7"; "198.51.100.2"]%string (15 # 10) = None.
Proof. split; vm_compute; reflexivity. Qed.

(** *** Signals *)

Lemma closed_once n f : (length (List.filter id (signals n f)) <= (if f then 0 else 1))%nat.
Proof.
  revert f. induction n as [|n IH]; intros [|]; cbn; try lia; [exact (IH true)|apply le_n_S, (IH true)].
Qed.

Lemma toggle_log_twice e : (e !! "RELAY_LOG"%string = Some "true"%string \/ e !! "RELAY_LOG"%string = Some "false"%string) -> toggle_log (toggle_log e) = e.
Proof.
  intros H. unfold toggle_log. rewrite lookup_insert_eq, insert_insert_eq. apply insert_id.
  destruct H as [-> | ->]; reflexivity.
Qed.
