(* ===== verification/HostMetrics.v ===== *)
(** What the relay's metrics mean: in every order of upgrades, closes, requests,
    replies, pushes and polls, each counter is the number of the events it names,
    and a monitor that reads the metrics page reads those numbers. *)

From Stdlib Require Import QArith Ascii Sorted.
From S2P Require Import Prelude Bytes ShardGate ShardMap ShardStore ShardFetch Runtime Host Json Monitor MonitorPush Metrics HostServer.
#[local] Open Scope Z_scope.

(** ** The host's events *)

(** The relay, the handshakes under way and the open sockets, by address. *)
Record world := World { wrelay : relay; whands : list string; wopen : list string }.

Inductive relay_event : Type :=
| EUpgrade (now : Z) (h : headers) (remote : option string) (m : mode) (s : store) (has_room : string -> bool) (size : Z)
| EOpened (i : nat)
| EAborted (i : nat)
| EClosed (i : nat) (lived : Q)
| ERequest (now : Z) (m : mode) (s : store) (has_room : string -> bool) (size : Z) (q : http_request)
| EReply (reply : result string (Z * string))
| EServerClose (code : Z) (reason : string)
| EPush (url token : string) (now : Z) (gauges : gauge_list) (delivered : result string bool)
| ENoPong
| EAdopted
| EFetchFailed (error : option fetch_error)
| EFetchRetried
| EException.

(** What came of an event. *)
Inductive outcome : Type :=
| OUpgrade (v : verdict)
| OOpened
| OClosed
| OAnswer (a : http_answer)
| OReply (served : bool)
| OOther.

Definition relay_step (cfg : relay_config) (e : relay_event) (w : world) : option (outcome * world) :=
  let r := wrelay w in
  let keep r := World r (whands w) (wopen w) in
  match e with
  | EUpgrade now h remote m s has_room size =>
      let '(v, r') := upgrade cfg now h remote (ownershipGate m s) has_room size r in
      let ip := default "undefined"%string (clientIp h remote (rproxy cfg)) in
      Some (OUpgrade v, World r' (match v with Upgraded => whands w ++ [ip] | _ => whands w end) (wopen w))
  | EOpened i =>
      ip ← whands w !! i; Some (OOpened, World (socket_opened ip r) (delete i (whands w)) (wopen w ++ [ip]))
  | EAborted i => _ ← whands w !! i; Some (OOther, World r (delete i (whands w)) (wopen w))
  | EClosed i lived =>
      ip ← wopen w !! i; Some (OClosed, World (socket_closed ip lived r) (whands w) (delete i (wopen w)))
  | ERequest now m s has_room size q =>
      let '(a, r') := handleRequest cfg now (ownershipGate m s) has_room size q r in Some (OAnswer a, keep r')
  | EReply reply => Some (OReply (match reply with Ok _ => true | Err _ => false end), keep (finishRequest reply r).2)
  | EServerClose code reason => Some (OOther, keep (onServerClose code reason r))
  | EPush url token now gauges delivered => Some (OOther, keep (push_once url token now gauges delivered r).2)
  | ENoPong => Some (OOther, keep (count_metric "ws_keepalive_terminated_total" r))
  | EAdopted => Some (OOther, keep (count_metric "shard_map_reloads_total" r))
  | EFetchFailed error =>
      Some (OOther, keep (count_reason "shard_map_fetch_errors_by_cause_total" (classifyShardFetchError error).1
                            (count_metric "shard_map_fetch_errors_total" r)))
  | EFetchRetried => Some (OOther, keep (count_metric "shard_map_fetch_retries_total" r))
  | EException => Some (OOther, keep (count_metric "process_exceptions_total" r))
  end.

Fixpoint relay_run (cfg : relay_config) (es : list relay_event) (w : world) : option (list outcome * world) :=
  match es with
  | [] => Some ([], w)
  | e :: es' => '(o, w1) ← relay_step cfg e w; '(os, w2) ← relay_run cfg es' w1; Some (o :: os, w2)
  end.

Definition new_world (ws attest : option buckets) : world := World (new_relay ws attest) [] [].

(** ** What each counter should count *)

Definition opened_now (o : outcome) : bool := match o with OOpened => true | _ => false end.
Definition closed_now (o : outcome) : bool := match o with OClosed => true | _ => false end.
Definition refused (o : outcome) : bool := match o with OUpgrade (Rejected _ _) => true | _ => false end.

(** Past the metrics page and the entry gate, which answer 400 and 403. *)
Definition past_gate (o : outcome) : bool :=
  match o with
  | OAnswer (APlain s _) => existsb (Z.eqb s) [421; 429; 503; 413]
  | OAnswer ANone | OAnswer (AToRoom _ _ _ _) => true
  | _ => false
  end.

Definition misdirected (o : outcome) : bool :=
  match o with OUpgrade (Misdirected _) => true | OAnswer (APlain s _) => s =? 421 | _ => false end.

Definition errored (o : outcome) : bool :=
  match o with OAnswer (APlain s _) => s =? 500 | OReply false => true | _ => false end.

Definition n_of (p : outcome -> bool) (os : list outcome) : Z := Z.of_nat (countb p os).

(** The value of a counter. *)
Definition cnt (name : string) (m : metrics) : Z := default 0 (map_get name (Metrics.counters m)).

Definition rejected_sum (m : metrics) : Z :=
  sum_of (List.filter (fun kv => starts_with (reason_key REJECTED_TOTAL "") kv.1) (Metrics.counters m)).

(** What each counter should count, of the events with their outcomes. *)
Definition tally_pred := (relay_event * outcome -> bool)%type.

Definition failed_push (e : relay_event) : bool :=
  match e with
  | EPush url token _ _ delivered =>
      negb (String.eqb url "") && negb (String.eqb token "") && match delivered with Ok true => false | _ => true end
  | _ => false
  end.

Definition closed_over_quota (e : relay_event) : bool :=
  match e with EServerClose code reason => (code =? 1008) && includes "quota" reason | _ => false end.

Definition closed_without_mac (e : relay_event) : bool :=
  match e with EServerClose code reason => (code =? 1008) && String.eqb reason "mac offline" | _ => false end.

Definition TALLIES : list (string * tally_pred) :=
  [("ws_upgrades_total", fun eo => match eo.1 with EOpened _ => true | _ => false end);
   ("http_requests_total", fun eo => past_gate eo.2);
   ("http_errors_total", fun eo => errored eo.2);
   ("shard_reject_total", fun eo => misdirected eo.2);
   ("quota_exceeded_total", fun eo => closed_over_quota eo.1);
   ("phone_no_mac_total", fun eo => closed_without_mac eo.1);
   ("metrics_push_errors_total", fun eo => failed_push eo.1);
   ("ws_keepalive_terminated_total", fun eo => match eo.1 with ENoPong => true | _ => false end);
   ("shard_map_reloads_total", fun eo => match eo.1 with EAdopted => true | _ => false end);
   ("shard_map_fetch_errors_total", fun eo => match eo.1 with EFetchFailed _ => true | _ => false end);
   ("shard_map_fetch_retries_total", fun eo => match eo.1 with EFetchRetried => true | _ => false end);
   ("process_exceptions_total", fun eo => match eo.1 with EException => true | _ => false end)]%string.

(** The upgrades refused for a reason, the polls that failed by a cause, the sockets
    that lived no longer than a bound. *)
Definition refused_for (reason : string) : tally_pred :=
  fun eo => match eo.2 with OUpgrade (Rejected _ r) => String.eqb r reason | _ => false end.
Definition failed_by (cause : string) : tally_pred :=
  fun eo => match eo.1 with EFetchFailed error => String.eqb (classifyShardFetchError error).1 cause | _ => false end.
Definition lived_within (bound : Z) : tally_pred :=
  fun eo => match eo.1 with EClosed _ lived => Qle_bool lived (inject_Z bound) | _ => false end.

Definition lived (e : relay_event) : Q := match e with EClosed _ l => l | _ => 0 end.
Definition total_lived (es : list relay_event) : Q := fold_right (fun e q => (lived e + q)%Q) 0%Q es.

Definition n_events (p : tally_pred) (es : list relay_event) (os : list outcome) : Z := Z.of_nat (countb p (zip es os)).

Definition BY_CAUSE : string := "shard_map_fetch_errors_by_cause_total".

(** ** Lemmas: counters *)

Lemma map_get_set k v k' l : map_get k' (map_set k v l) = if String.eqb k k' then Some v else map_get k' l.
Proof.
  induction l as [|[k2 v2] l IH]; [done|]. cbn [map_set map_get].
  destruct (String.eqb_spec k2 k) as [->|Hne]; cbn [map_get]; [by destruct (String.eqb k k')|].
  destruct (String.eqb_spec k2 k') as [->|]; [|done]. destruct (String.eqb_spec k k'); [congruence|done].
Qed.

Lemma cnt_inc k n b m : cnt k (inc n b m) = cnt k m + (if String.eqb n k then b else 0).
Proof.
  unfold cnt, inc. cbn [Metrics.counters]. rewrite map_get_set. destruct (String.eqb_spec n k) as [->|]; simpl; lia.
Qed.

Lemma sum_filter_set (p : string -> bool) k v l :
  sum_of (List.filter (fun kv => p kv.1) (map_set k v l))
  = sum_of (List.filter (fun kv => p kv.1) l) + (if p k then v - default 0 (map_get k l) else 0).
Proof.
  induction l as [|[k2 v2] l IH]; cbn [map_set map_get List.filter fst].
  - destruct (p k); rewrite ?sum_of_cons; simpl; lia.
  - destruct (String.eqb_spec k2 k) as [->|Hne]; cbn [List.filter fst].
    + destruct (p k); rewrite ?sum_of_cons; simpl; lia.
    + destruct (p k2); rewrite ?sum_of_cons; simpl; lia.
Qed.

Lemma rejected_inc n b m :
  rejected_sum (inc n b m) = rejected_sum m + (if starts_with (reason_key REJECTED_TOTAL "") n then b else 0).
Proof.
  unfold rejected_sum, inc. cbn [Metrics.counters]. rewrite (sum_filter_set (fun k => starts_with (reason_key REJECTED_TOTAL "") k)).
  destruct (starts_with _ n); lia.
Qed.

(** What an outcome does to the metrics. *)
Definition bump (b : bool) (name : string) (m : metrics) : metrics := if b then inc name 1 m else m.

Lemma bump_cnt k b n m : cnt k (bump b n m) = cnt k m + (if b && String.eqb n k then 1 else 0).
Proof. destruct b; simpl; [apply cnt_inc|lia]. Qed.

Lemma bump_rejected b n m :
  rejected_sum (bump b n m) = rejected_sum m + (if b && starts_with (reason_key REJECTED_TOTAL "") n then 1 else 0).
Proof. destruct b; simpl; [apply rejected_inc|lia]. Qed.

Lemma ownershipGate_status m s room : match ownershipGate m s room with Refuse st _ _ => st = 421 | Admit _ => True end.
Proof. unfold ownershipGate. destruct m; [done|]. simpl. destruct (bucketForRoomName room); [by destruct (ownsBucket s z)|done]. Qed.

Lemma entryReject_status h rej : entryReject h = Some rej -> ShardGate.status rej = 403 \/ ShardGate.status rej = 400.
Proof. unfold entryReject. repeat case_match; intros [= <-]; simpl; auto. Qed.

Lemma handleRequest_counts cfg now m s has_room size q r a r' :
  handleRequest cfg now (ownershipGate m s) has_room size q r = (a, r') ->
  rhost r' = rhost r
  /\ rmetrics r' = bump (errored (OAnswer a)) "http_errors_total" (bump (misdirected (OAnswer a)) "shard_reject_total"
                    (bump (past_gate (OAnswer a)) "http_requests_total" (rmetrics r))).
Proof.
  unfold handleRequest. destruct (hr_path q) as [path|]; [|by intros [= <- <-]].
  destruct (String.eqb path "/metrics"). { intros [= <- <-]. by destruct (isLocalScrape _ _). }
  destruct (entryReject _) as [rej|] eqn:Er.
  { intros [= <- <-]. by destruct (entryReject_status _ _ Er) as [-> | ->]. }
  cbv zeta. pose proof (ownershipGate_status m s (default ""%string (hget (toHeaders (hr_headers q)) ROOM_HEADER))) as Hg.
  destruct (ownershipGate m s _) as [o|st re bu]; [|intros [= <- <-]; by subst st].
  assert (Ha : forall now ip r0, rhost (attestOver cfg now ip r0).2 = rhost r0 /\ rmetrics (attestOver cfg now ip r0).2 = rmetrics r0).
  { intros. unfold attestOver. destruct (attestBuckets r0); [|done]. by destruct (over _ _ _ _ _ _). }
  set (ip := default "undefined"%string _). specialize (Ha now ip (count_metric "http_requests_total" r)).
  assert (Hb : exists b r2, (if starts_with "/attest" path then attestOver cfg now ip (count_metric "http_requests_total" r)
                  else (false, count_metric "http_requests_total" r)) = (b, r2) /\ rhost r2 = rhost r
                  /\ rmetrics r2 = inc "http_requests_total" 1 (rmetrics r)).
  { destruct (starts_with "/attest" path); [|by eexists _, _].
    destruct (attestOver _ _ _ _) as [b r2]. cbn [snd] in Ha. destruct Ha as [H1 H2]. by exists b, r2. }
  destruct Hb as (b & r2 & -> & H1 & H2).
  destruct b; [intros [= <- <-]; by split|]. destruct (_ && _); [intros [= <- <-]; by split|].
  destruct (declared_too_large _); [intros [= <- <-]; by split|].
  destruct (readBody _ _ _ _ _); intros [= <- <-]; by split.
Qed.

(** ** The accounts *)

Definition b2z (b : bool) : Z := if b then 1 else 0.

(** One event moves each counter by what its outcome is counted for. *)
Record delta (o : outcome) (m m' : metrics) : Prop := {
  d_upgrades : cnt "ws_upgrades_total" m' = cnt "ws_upgrades_total" m + b2z (opened_now o);
  d_lifetimes : lifetimeInf m' = lifetimeInf m + b2z (closed_now o);
  d_requests : cnt "http_requests_total" m' = cnt "http_requests_total" m + b2z (past_gate o);
  d_errors : cnt "http_errors_total" m' = cnt "http_errors_total" m + b2z (errored o);
  d_shard : cnt "shard_reject_total" m' = cnt "shard_reject_total" m + b2z (misdirected o);
  d_rejected : rejected_sum m' = rejected_sum m + b2z (refused o) }.

Lemma delta_other_inc n o m :
  opened_now o = false -> closed_now o = false -> past_gate o = false -> errored o = false -> misdirected o = false ->
  refused o = false ->
  existsb (String.eqb n) ["ws_upgrades_total"; "http_requests_total"; "http_errors_total"; "shard_reject_total"]%string = false ->
  starts_with (reason_key REJECTED_TOTAL "") n = false -> delta o m (inc n 1 m).
Proof.
  intros H1 H2 H3 H4 H5 H6 Hn Hr. simpl in Hn. rewrite !orb_false_iff in Hn. destruct Hn as (N1 & N2 & N3 & N4 & _).
  constructor; rewrite ?H1, ?H2, ?H3, ?H4, ?H5, ?H6, ?cnt_inc, ?rejected_inc, ?N1, ?N2, ?N3, ?N4, ?Hr; simpl; lia.
Qed.

Lemma delta_none o m :
  opened_now o = false -> closed_now o = false -> past_gate o = false -> errored o = false -> misdirected o = false ->
  refused o = false -> delta o m m.
Proof. intros H1 H2 H3 H4 H5 H6. constructor; rewrite ?H1, ?H2, ?H3, ?H4, ?H5, ?H6; simpl; lia. Qed.

Lemma delta_trans_other o m m1 m2 :
  delta OOther m m1 -> delta o m1 m2 -> delta o m m2.
Proof. intros [A1 A2 A3 A4 A5 A6] [B1 B2 B3 B4 B5 B6]. simpl in *. constructor; lia. Qed.

Lemma relay_step_delta cfg e w o w' :
  relay_step cfg e w = Some (o, w') -> delta o (rmetrics (wrelay w)) (rmetrics (wrelay w')).
Proof.
  destruct e as [now h remote m s has_room size|i|i|i lived|now m s has_room size q|reply|code reason
                |url token now gauges delivered| | |error| |]; cbn [relay_step].
  - unfold upgrade. destruct (handleUpgrade _ _ _ _ _ _ _ _) as [v h']. intros [= <- <-]. cbn [wrelay].
    destruct v as [st reason|st|]; [| |by apply delta_none].
    + unfold count_reason, incReason. constructor; cbn [rmetrics]; rewrite ?cnt_inc, ?rejected_inc; simpl; lia.
    + constructor; cbn [rmetrics count_metric]; rewrite ?cnt_inc, ?rejected_inc; simpl; lia.
  - destruct (whands w !! i); [|done]. intros [= <- <-].
    constructor; cbn [wrelay rmetrics socket_opened count_metric]; rewrite ?cnt_inc, ?rejected_inc; simpl; lia.
  - destruct (whands w !! i); [|done]. intros [= <- <-]. by apply delta_none.
  - destruct (wopen w !! i); [|done]. intros [= <- <-]. constructor; simpl; unfold cnt, rejected_sum; simpl; lia.
  - destruct (handleRequest _ _ _ _ _ _ _) as [a r'] eqn:E. intros [= <- <-]. cbn [wrelay].
    destruct (handleRequest_counts _ _ _ _ _ _ _ _ _ _ E) as [_ ->].
    constructor; rewrite ?bump_cnt, ?bump_rejected;
      destruct (errored (OAnswer a)), (misdirected (OAnswer a)), (past_gate (OAnswer a)); simpl; lia.
  - intros [= <- <-]. unfold finishRequest. destruct reply as [[st b]|err]; cbn [wrelay snd]; [by apply delta_none|].
    constructor; cbn [rmetrics count_metric]; rewrite ?cnt_inc, ?rejected_inc; simpl; lia.
  - intros [= <- <-]. cbn [wrelay]. unfold onServerClose.
    apply (delta_trans_other _ _ (rmetrics (if (code =? 1008) && includes "quota" reason then count_metric "quota_exceeded_total" (wrelay w) else wrelay w))).
    + destruct (_ && _); [by apply delta_other_inc|by apply delta_none].
    + destruct (_ && String.eqb _ _); [by apply delta_other_inc|by apply delta_none].
  - intros [= <- <-]. cbn [wrelay]. unfold push_once. destruct (_ || _); [by apply delta_none|]. cbn [snd].
    destruct delivered as [[]|]; [by apply delta_none|by apply delta_other_inc..].
  - intros [= <- <-]. by apply delta_other_inc.
  - intros [= <- <-]. by apply delta_other_inc.
  - intros [= <- <-]. cbn [wrelay].
    apply (delta_trans_other _ _ (inc "shard_map_fetch_errors_total" 1 (rmetrics (wrelay w)))); by apply delta_other_inc.
  - intros [= <- <-]. by apply delta_other_inc.
  - intros [= <- <-]. by apply delta_other_inc.
Qed.

(** *** Every counter, by name *)

(** The counters an event moves. *)
Definition names_of (eo : relay_event * outcome) : list string :=
  (if past_gate eo.2 then ["http_requests_total"] else []) ++ (if misdirected eo.2 then ["shard_reject_total"] else [])
  ++ (if errored eo.2 then ["http_errors_total"] else [])
  ++ (match eo.2 with OUpgrade (Rejected _ r) => [reason_key REJECTED_TOTAL r] | _ => [] end)
  ++ (if closed_over_quota eo.1 then ["quota_exceeded_total"] else [])
  ++ (if closed_without_mac eo.1 then ["phone_no_mac_total"] else [])
  ++ (if failed_push eo.1 then ["metrics_push_errors_total"] else [])
  ++ match eo.1 with
     | EOpened _ => ["ws_upgrades_total"]
     | ENoPong => ["ws_keepalive_terminated_total"]
     | EAdopted => ["shard_map_reloads_total"]
     | EFetchFailed error => ["shard_map_fetch_errors_total"; reason_key BY_CAUSE (classifyShardFetchError error).1]
     | EFetchRetried => ["shard_map_fetch_retries_total"]
     | EException => ["process_exceptions_total"]
     | _ => []
     end%string.

Definition names_tally (k : string) (l : list string) : Z := Z.of_nat (countb (fun n => String.eqb n k) l).

Lemma cnt_incs k l m : cnt k (fold_left (fun m n => inc n 1 m) l m) = cnt k m + names_tally k l.
Proof.
  revert m. unfold names_tally. induction l as [|n l IH]; intros m; cbn [fold_left countb]; [simpl; lia|].
  rewrite IH, cnt_inc. destruct (String.eqb n k); simpl; lia.
Qed.

Lemma relay_step_names cfg e w o w' :
  relay_step cfg e w = Some (o, w') ->
  rmetrics (wrelay w') = match e with EClosed _ lived => observeSocketLifetime lived (rmetrics (wrelay w))
                         | _ => fold_left (fun m n => inc n 1 m) (names_of (e, o)) (rmetrics (wrelay w)) end.
Proof.
  destruct e as [now h remote m s has_room size|i|i|i lived|now m s has_room size q|reply|code reason
                |url token now gauges delivered| | |error| |]; cbn [relay_step]; unfold names_of; cbn [fst snd].
  - unfold upgrade. destruct (handleUpgrade _ _ _ _ _ _ _ _) as [v h']. intros [= <- <-]. by destruct v.
  - destruct (whands w !! i); [|done]. by intros [= <- <-].
  - destruct (whands w !! i); [|done]. by intros [= <- <-].
  - destruct (wopen w !! i); [|done]. by intros [= <- <-].
  - destruct (handleRequest _ _ _ _ _ _ _) as [a r'] eqn:E. intros [= <- <-]. cbn [wrelay].
    destruct (handleRequest_counts _ _ _ _ _ _ _ _ _ _ E) as [_ ->].
    by destruct (errored (OAnswer a)), (misdirected (OAnswer a)), (past_gate (OAnswer a)).
  - intros [= <- <-]. unfold finishRequest. by destruct reply as [[st b]|err].
  - intros [= <- <-]. unfold onServerClose, closed_over_quota, closed_without_mac.
    by destruct (_ && includes _ _), (_ && String.eqb _ _).
  - intros [= <- <-]. unfold push_once, failed_push. destruct (String.eqb url ""), (String.eqb token ""); try done.
    by destruct delivered as [[]|].
  - by intros [= <- <-].
  - by intros [= <- <-].
  - by intros [= <- <-].
  - by intros [= <- <-].
  - by intros [= <- <-].
Qed.

Lemma relay_step_cnt cfg e w o w' k :
  relay_step cfg e w = Some (o, w') ->
  cnt k (rmetrics (wrelay w')) = cnt k (rmetrics (wrelay w)) + names_tally k (names_of (e, o)).
Proof.
  intros E. pose proof (relay_step_names _ _ _ _ _ E) as Hn.
  destruct e; try (rewrite Hn; by rewrite cnt_incs).
  cbn [relay_step] in E. destruct (wopen w !! i); [|done]. injection E as <- <-. rewrite Hn. unfold cnt, names_tally. simpl. lia.
Qed.

Lemma n_events_cons p e es o os : n_events p (e :: es) (o :: os) = b2z (p (e, o)) + n_events p es os.
Proof. unfold n_events. cbn [zip_with countb]. destruct (p (e, o)); simpl; lia. Qed.

Lemma relay_run_cnt cfg k (p : tally_pred) es : forall w os w',
  (forall eo, names_tally k (names_of eo) = b2z (p eo)) -> relay_run cfg es w = Some (os, w') ->
  cnt k (rmetrics (wrelay w')) = cnt k (rmetrics (wrelay w)) + n_events p es os.
Proof.
  intros w os w' Hp. revert w os w'. induction es as [|e es IH]; intros w os w' E; cbn [relay_run] in E.
  { injection E as <- <-. unfold n_events. simpl. lia. }
  destruct (relay_step cfg e w) as [[o w1]|] eqn:E1; [|done]. simpl in E.
  destruct (relay_run cfg es w1) as [[os1 w2]|] eqn:E2; [|done]. simpl in E. injection E as <- <-.
  rewrite n_events_cons, <-Hp, (IH _ _ _ E2), (relay_step_cnt _ _ _ _ _ k E1). lia.
Qed.

(** The lifetimes observed are those of the closes. *)
Lemma relay_run_lifetimes cfg es : forall w os w' f,
  relay_run cfg es w = Some (os, w') -> bucketCounts (rmetrics (wrelay w)) = List.map f [1; 5; 15; 60; 300; 1800] ->
  bucketCounts (rmetrics (wrelay w')) = List.map (fun b => f b + n_events (lived_within b) es os) [1; 5; 15; 60; 300; 1800]
  /\ (lifetimeSum (rmetrics (wrelay w')) == lifetimeSum (rmetrics (wrelay w)) + total_lived es)%Q.
Proof.
  induction es as [|e es IH]; intros w os w' f E Hf; cbn [relay_run] in E.
  { injection E as <- <-. rewrite Hf. split; [|unfold total_lived; simpl; by rewrite Qplus_0_r].
    apply List.map_ext. intros b. unfold n_events. simpl. lia. }
  destruct (relay_step cfg e w) as [[o w1]|] eqn:E1; [|done]. simpl in E.
  destruct (relay_run cfg es w1) as [[os1 w2]|] eqn:E2; [|done]. simpl in E. injection E as <- <-.
  pose proof (relay_step_names _ _ _ _ _ E1) as Hn.
  assert (Hi : forall l m, bucketCounts (fold_left (fun m n => inc n 1 m) l m) = bucketCounts m
    /\ lifetimeSum (fold_left (fun m n => inc n 1 m) l m) = lifetimeSum m).
  { induction l as [|n l IHl]; intros m; [done|]. cbn [fold_left]. by destruct (IHl (inc n 1 m)) as [-> ->]. }
  destruct (IH w1 os1 w2 (fun b => f b + b2z (lived_within b (e, o))) E2) as [Hb Hs].
  - rewrite Hn. destruct e; try (rewrite (proj1 (Hi _ _)), Hf; apply List.map_ext; intros b; unfold lived_within; simpl; lia).
    unfold observeSocketLifetime. cbn [bucketCounts]. rewrite Hf. unfold LIFETIME_BUCKETS, lived_within. cbn [zip_with List.map fst].
    assert (Hb : forall (b : bool) n, (if b then n + 1 else n) = n + b2z b) by (intros [] n; simpl; lia). by rewrite !Hb.
  - split.
    + rewrite Hb. apply List.map_ext. intros b. rewrite n_events_cons. lia.
    + rewrite Hs, Hn. unfold total_lived. cbn [fold_right]. fold (total_lived es).
      destruct e; try (rewrite (proj2 (Hi _ _)); cbn [lived]; ring). cbn [observeSocketLifetime lifetimeSum lived]. ring.
Qed.

(** Each name's count is that of its events. *)
Lemma names_tally_app k l1 l2 : names_tally k (l1 ++ l2) = names_tally k l1 + names_tally k l2.
Proof. unfold names_tally. rewrite countb_app. lia. Qed.

Lemma names_tally_if k (b : bool) n : names_tally k (if b then [n] else []) = b2z (b && String.eqb n k).
Proof. unfold names_tally. destruct b; simpl; [by destruct (String.eqb n k)|done]. Qed.

Lemma TALLIES_names : Forall (fun kp => forall eo, names_tally kp.1 (names_of eo) = b2z (kp.2 eo)) TALLIES.
Proof.
  unfold TALLIES. repeat (constructor; [intros [e o]; unfold names_of; cbn [fst snd];
    rewrite !names_tally_app, !names_tally_if; unfold names_tally;
    destruct o as [[]| | | | |]; destruct e; simpl; rewrite ?andb_false_r, ?andb_true_r; simpl; try lia|]); [..|constructor].
Qed.

Lemma eqb_reason_key n r r' : String.eqb (reason_key n r) (reason_key n r') = String.eqb r r'.
Proof.
  unfold reason_key. apply eq_true_iff_eq. rewrite !String.eqb_eq. split; [|by intros ->].
  intros E%string_app_inj_l. by injection E.
Qed.

Ltac other_name :=
  repeat match goal with
  | |- context [String.eqb (String ?c ?s) (reason_key ?n ?r)] =>
      replace (String.eqb (String c s) (reason_key n r)) with false by reflexivity
  end.

#[local] Arguments reason_key : simpl never.
#[local] Arguments String.eqb : simpl never.

Lemma refused_names reason eo : names_tally (reason_key REJECTED_TOTAL reason) (names_of eo) = b2z (refused_for reason eo).
Proof.
  destruct eo as [e o]; unfold names_of, refused_for; cbn [fst snd]. rewrite !names_tally_app, !names_tally_if. other_name.
  assert (He : forall e, names_tally (reason_key REJECTED_TOTAL reason) match e with
     | EOpened _ => ["ws_upgrades_total"] | ENoPong => ["ws_keepalive_terminated_total"]
     | EAdopted => ["shard_map_reloads_total"]
     | EFetchFailed error => ["shard_map_fetch_errors_total"; reason_key BY_CAUSE (classifyShardFetchError error).1]
     | EFetchRetried => ["shard_map_fetch_retries_total"] | EException => ["process_exceptions_total"] | _ => [] end%string = 0).
  { intros []; try done; unfold names_tally; cbn [countb]; other_name; done. }
  rewrite He, !andb_false_r. destruct o as [[st r| |]| | | | |]; try done.
  unfold names_tally. cbn [countb]. rewrite eqb_reason_key. by destruct (String.eqb r reason).
Qed.

Lemma cause_names cause eo : names_tally (reason_key BY_CAUSE cause) (names_of eo) = b2z (failed_by cause eo).
Proof.
  destruct eo as [e o]; unfold names_of, failed_by; cbn [fst snd]. rewrite !names_tally_app, !names_tally_if. other_name.
  replace (names_tally (reason_key BY_CAUSE cause) match o with OUpgrade (Rejected _ r) => [reason_key REJECTED_TOTAL r] | _ => [] end)
    with 0 by (by destruct o as [[]| | | | |]).
  rewrite !andb_false_r. destruct e; unfold names_tally; cbn [countb]; other_name; try done.
  rewrite eqb_reason_key. by destruct (String.eqb _ cause).
Qed.

(** The host's counters are those of the file Host. *)
Definition door_of (w : world) : door := Door (rhost (wrelay w)) (whands w) (wopen w).

Lemma relay_step_doors cfg e w o w' :
  relay_step cfg e w = Some (o, w') -> counts_ok (door_of w) ->
  counts_ok (door_of w') /\ Z.of_nat (length (wopen w')) = Z.of_nat (length (wopen w)) + b2z (opened_now o) - b2z (closed_now o).
Proof.
  intros E Hd. destruct e as [now h remote m s has_room size|i|i|i lived|now m s has_room size q|reply|code reason
                |url token now gauges delivered| | |error| |]; cbn [relay_step] in E.
  - unfold upgrade in E.
    pose proof (handleUpgrade_counters (rupgrade cfg) now h (default "undefined"%string (clientIp h remote (rproxy cfg)))
      (ownershipGate m s) has_room size (rhost (wrelay w))) as [H1 H2].
    destruct (handleUpgrade _ _ _ _ _ _ _ _) as [v h']. injection E as <- <-. cbn [fst snd] in H1, H2.
    split; [|simpl; lia]. destruct v; by eapply (counts_same _ _ _ (door_of w)).
  - destruct (whands w !! i) as [ip|]; [|done]. injection E as <- <-. split; [|simpl; rewrite length_app; simpl; lia].
    eapply (counts_same _ _ _ (Door (opened ip (rhost (wrelay w))) (whands w) (wopen w ++ [ip]))); try done.
    by apply (opened_ok ip (door_of w)).
  - destruct (whands w !! i) as [ip|]; [|done]. injection E as <- <-. split; [|simpl; lia]. by eapply (counts_same _ _ _ (door_of w)).
  - destruct (wopen w !! i) as [ip|] eqn:Ei; [|done]. injection E as <- <-. split; [by apply (gone_ok i ip (door_of w))|].
    simpl. rewrite length_delete by done. apply lookup_lt_Some in Ei. lia.
  - destruct (handleRequest _ _ _ _ _ _ _) as [a r'] eqn:Er. injection E as <- <-.
    destruct (handleRequest_counts _ _ _ _ _ _ _ _ _ _ Er) as [Hr _]. unfold door_of. cbn [wrelay whands wopen]. rewrite Hr.
    split; [done|simpl; lia].
  - injection E as <- <-. split; [|by destruct reply as [[]|]; simpl; lia]. unfold finishRequest. by destruct reply as [[? ?]|].
  - injection E as <- <-. split; [|simpl; lia]. unfold onServerClose, door_of. cbn [wrelay]. by repeat case_match.
  - injection E as <- <-. split; [|simpl; lia]. unfold push_once, door_of. cbn [wrelay]. by repeat case_match.
  - injection E as <- <-. split; [done|simpl; lia].
  - injection E as <- <-. split; [done|simpl; lia].
  - injection E as <- <-. split; [done|simpl; lia].
  - injection E as <- <-. split; [done|simpl; lia].
  - injection E as <- <-. split; [done|simpl; lia].
Qed.

(** ** The names in use *)

Definition REASONS : list string := ["gate"; "rate_limited"; "ip_cap"; "total_cap"; "room_cap"]%string.
Definition CAUSES : list string :=
  ["other"; "http_5xx"; "http_4xx"; "http_other"; "parse"; "timeout"; "dns"; "conn"; "tls"]%string.
Definition KNOWN : list string :=
  ["ws_upgrades_total"; "http_requests_total"; "http_errors_total"; "process_exceptions_total"]%string ++ PRE_REGISTERED
  ++ List.map (reason_key REJECTED_TOTAL) REASONS ++ List.map (reason_key BY_CAUSE) CAUSES.

Definition good_key (k : string) : Prop :=
  match split_nul k with
  | None => good_name k /\ k ∉ REJECTED :: SNAPSHOT_GAUGES
  | Some (n, r) => good_name n /\ good_reason r /\ n ∉ SNAPSHOT_COUNTERS ++ SNAPSHOT_GAUGES
  end.

Lemma known_good : Forall good_key KNOWN.
Proof.
  unfold KNOWN. cbn [app PRE_REGISTERED REASONS CAUSES List.map].
  repeat (constructor; [cbn; split_and!; repeat (constructor || done); apply (bool_decide_unpack _); vm_compute; done|]).
  constructor.
Qed.

(** Counters of known names, each once, with at most [b] counted. *)
Definition known (b : Z) (m : metrics) : Prop :=
  NoDup (List.map fst (Metrics.counters m)) /\ forall k v, (k, v) ∈ Metrics.counters m -> k ∈ KNOWN /\ 0 <= v <= b.

Lemma counter_of_set k v l k' v' : (k', v') ∈ map_set k v l -> (k' = k /\ v' = v) \/ (k', v') ∈ l.
Proof.
  induction l as [|[k2 v2] l IH]; cbn [map_set].
  - intros H%list_elem_of_singleton. injection H as -> ->. by left.
  - destruct (String.eqb_spec k2 k) as [->|Hne].
    + intros [H|H]%elem_of_cons; [injection H as -> ->; by left|right; by right].
    + intros [H|H]%elem_of_cons; [right; rewrite H; by left|]. destruct (IH H); [by left|right; by right].
Qed.

Lemma map_get_elem k v l : map_get k l = Some v -> (k, v) ∈ l.
Proof.
  induction l as [|[k2 v2] l IH]; [done|]. cbn [map_get]. destruct (String.eqb_spec k2 k) as [->|].
  - intros [= ->]. by left.
  - intros H. right. by apply IH.
Qed.

Lemma map_set_nodup k v l : NoDup (List.map fst l) -> NoDup (List.map fst (map_set k v l)).
Proof.
  induction l as [|[k2 v2] l IH]; cbn [map_set List.map fst]; [intros _; by apply NoDup_singleton|].
  intros [Hk Hl]%NoDup_cons. destruct (String.eqb_spec k2 k) as [->|Hne]; cbn [List.map fst]; [by constructor|].
  constructor; [|by apply IH]. intros Hin. apply list_elem_of_fmap in Hin as ([k3 v3] & -> & Hin).
  apply counter_of_set in Hin as [[-> _]|Hin]; [done|]. apply Hk, list_elem_of_fmap. by exists (k3, v3).
Qed.

Lemma known_mono b b' m : b <= b' -> known b m -> known b' m.
Proof. intros Hb [Hn Hk]. split; [done|]. intros k v Hin. destruct (Hk k v Hin). split; [done|lia]. Qed.

Lemma known_inc b n m : 0 <= b -> n ∈ KNOWN -> known b m -> known (b + 1) (inc n 1 m).
Proof.
  intros Hb Hn [Hd Hk]. split; [by apply map_set_nodup|]. intros k v Hin. cbn [inc Metrics.counters] in Hin.
  apply counter_of_set in Hin as [[-> ->]|Hin].
  - split; [done|]. destruct (map_get n (Metrics.counters m)) as [v0|] eqn:E; simpl; [|lia].
    apply map_get_elem, Hk in E. lia.
  - destruct (Hk _ _ Hin). split; [done|lia].
Qed.

Lemma handleUpgrade_reason cfg now h ip gate has_room size ho st reason :
  (handleUpgrade cfg now h ip gate has_room size ho).1 = Rejected st reason -> reason ∈ REASONS.
Proof.
  unfold handleUpgrade. destruct (entryReject h); [intros [= _ <-]; by left|]. destruct (gate _); [|done].
  destruct (wsOver _ _ _ _) as [b h']. repeat case_match; intros [= _ <-]; apply list_elem_of_In; simpl; tauto.
Qed.

Lemma classify_cause error : (classifyShardFetchError error).1 ∈ CAUSES.
Proof.
  unfold classifyShardFetchError. repeat case_match; simpl; apply list_elem_of_In; simpl; tauto.
Qed.

(** Unknown names never appear: one event adds at most two to a counter. *)
Lemma known_inc2 b n m : 0 <= b -> n ∈ KNOWN -> known b m -> known (b + 2) (inc n 1 m).
Proof. intros Hb Hn Hk. apply (known_mono (b + 1)); [lia|]. by apply known_inc. Qed.

Lemma known_bump b c n m : 0 <= b -> n ∈ KNOWN -> known b m -> known (b + 1) (bump c n m).
Proof. intros Hb Hn Hk. destruct c; [by apply known_inc|]. by apply (known_mono b); [lia|]. Qed.

Ltac known_name := by (apply list_elem_of_In; vm_compute; tauto).

Lemma reason_known n r l : r ∈ l -> List.map (reason_key n) l ⊆ KNOWN -> reason_key n r ∈ KNOWN.
Proof. intros Hr Hl. apply Hl. by apply list_elem_of_fmap_2. Qed.

Lemma KNOWN_split : List.map (reason_key REJECTED_TOTAL) REASONS ⊆ KNOWN /\ List.map (reason_key BY_CAUSE) CAUSES ⊆ KNOWN.
Proof. unfold KNOWN. set_solver. Qed.

Lemma relay_step_known cfg e w o w' b :
  relay_step cfg e w = Some (o, w') -> 0 <= b -> known b (rmetrics (wrelay w)) -> known (b + 3) (rmetrics (wrelay w')).
Proof.
  intros E Hb Hk. assert (Hsame : known (b + 3) (rmetrics (wrelay w))) by (by apply (known_mono b); [lia|]).
  assert (Hinc : forall n, n ∈ KNOWN -> known (b + 3) (inc n 1 (rmetrics (wrelay w)))).
  { intros n Hn. apply (known_mono (b + 1)); [lia|]. by apply known_inc. }
  destruct KNOWN_split as [HR HC].
  destruct e as [now h remote m s has_room size|i|i|i lived|now m s has_room size q|reply|code reason
                |url token now gauges delivered| | |error| |]; cbn [relay_step] in E.
  - unfold upgrade in E.
    pose proof (handleUpgrade_reason (rupgrade cfg) now h (default "undefined"%string (clientIp h remote (rproxy cfg)))
      (ownershipGate m s) has_room size (rhost (wrelay w))) as Hr.
    destruct (handleUpgrade _ _ _ _ _ _ _ _) as [v h']. injection E as <- <-. cbn [fst] in Hr.
    destruct v as [st reason|st|]; cbn [wrelay rmetrics count_reason count_metric]; [|apply Hinc; known_name|done].
    apply Hinc, (reason_known _ _ REASONS); [by eapply Hr|done].
  - destruct (whands w !! i); [|done]. injection E as <- <-. apply Hinc; known_name.
  - destruct (whands w !! i); [|done]. by injection E as <- <-.
  - destruct (wopen w !! i); [|done]. by injection E as <- <-.
  - destruct (handleRequest _ _ _ _ _ _ _) as [a r'] eqn:Er. injection E as <- <-. cbn [wrelay].
    destruct (handleRequest_counts _ _ _ _ _ _ _ _ _ _ Er) as [_ ->].
    replace (b + 3) with (b + 1 + 1 + 1) by lia. repeat (apply known_bump; [lia|known_name|]). done.
  - injection E as <- <-. cbn [wrelay]. unfold finishRequest. destruct reply as [[? ?]|]; [done|apply Hinc; known_name].
  - injection E as <- <-. cbn [wrelay]. unfold onServerClose.
    assert (H1 : known (b + 1) (rmetrics (if (code =? 1008) && includes "quota" reason then count_metric "quota_exceeded_total" (wrelay w) else wrelay w))).
    { destruct (_ && _); [apply known_inc; [lia|known_name|done]|by apply (known_mono b); [lia|]]. }
    destruct (_ && String.eqb _ _); [|by apply (known_mono (b + 1)); [lia|]].
    apply (known_mono (b + 1 + 1)); [lia|]. apply known_inc; [lia|known_name|done].
  - injection E as <- <-. cbn [wrelay]. unfold push_once. destruct (_ || _); [done|]. cbn [snd].
    destruct delivered as [[]|]; [done|apply Hinc; known_name..].
  - injection E as <- <-. apply Hinc; known_name.
  - injection E as <- <-. apply Hinc; known_name.
  - injection E as <- <-. cbn [wrelay rmetrics count_reason count_metric]. apply (known_mono (b + 1 + 1)); [lia|].
    apply known_inc; [lia|apply (reason_known _ _ CAUSES); [apply classify_cause|done]|]. apply known_inc; [lia|known_name|done].
  - injection E as <- <-. apply Hinc; known_name.
  - injection E as <- <-. apply Hinc; known_name.
Qed.

(** ** A whole run *)

Record accounts (os : list outcome) (w : world) : Prop := {
  a_doors : counts_ok (door_of w);
  a_open : Z.of_nat (length (wopen w)) = n_of opened_now os - n_of closed_now os;
  a_upgrades : cnt "ws_upgrades_total" (rmetrics (wrelay w)) = n_of opened_now os;
  a_lifetimes : lifetimeInf (rmetrics (wrelay w)) = n_of closed_now os;
  a_requests : cnt "http_requests_total" (rmetrics (wrelay w)) = n_of past_gate os;
  a_errors : cnt "http_errors_total" (rmetrics (wrelay w)) = n_of errored os;
  a_shard : cnt "shard_reject_total" (rmetrics (wrelay w)) = n_of misdirected os;
  a_rejected : rejected_sum (rmetrics (wrelay w)) = n_of refused os;
  a_known : known (3 * Z.of_nat (length os)) (rmetrics (wrelay w)) }.

Lemma n_of_snoc p os o : n_of p (os ++ [o]) = n_of p os + b2z (p o).
Proof. unfold n_of. rewrite countb_app. cbn [countb]. destruct (p o); simpl; lia. Qed.

Lemma relay_step_accounts cfg e w o w' os :
  relay_step cfg e w = Some (o, w') -> accounts os w -> accounts (os ++ [o]) w'.
Proof.
  intros E [D O U L Q R S J K]. destruct (relay_step_delta _ _ _ _ _ E) as [d1 d2 d3 d4 d5 d6].
  destruct (relay_step_doors _ _ _ _ _ E D) as [D' O'].
  constructor; rewrite ?n_of_snoc; [done|lia..|].
  rewrite length_app. cbn [length]. apply (known_mono (3 * Z.of_nat (length os) + 3)); [lia|].
  eapply relay_step_known; [exact E|lia|done].
Qed.

Lemma relay_run_accounts cfg es : forall w os os' w',
  relay_run cfg es w = Some (os', w') -> accounts os w -> accounts (os ++ os') w'.
Proof.
  induction es as [|e es IH]; intros w os os' w' E H; cbn [relay_run] in E.
  { injection E as <- <-. by rewrite app_nil_r. }
  destruct (relay_step cfg e w) as [[o w1]|] eqn:E1; [|done]. simpl in E.
  destruct (relay_run cfg es w1) as [[os1 w2]|] eqn:E2; [|done]. simpl in E. injection E as <- <-.
  replace (os ++ o :: os1) with ((os ++ [o]) ++ os1) by by rewrite <-app_assoc.
  eapply IH; [exact E2|]. by eapply relay_step_accounts.
Qed.

Lemma new_world_accounts ws attest : accounts [] (new_world ws attest).
Proof.
  constructor; try done. split; [apply (bool_decide_unpack _); by vm_compute|].
  intros k v Hin. apply list_elem_of_In in Hin. vm_compute in Hin.
  repeat (destruct Hin as [Hin|Hin]; [injection Hin as <- <-; split; [known_name|lia]|]). done.
Qed.

Lemma run_length cfg es : forall w os w', relay_run cfg es w = Some (os, w') -> length os = length es.
Proof.
  induction es as [|e es IH]; intros w os w' E; cbn [relay_run] in E; [by injection E as <- <-|].
  destruct (relay_step cfg e w) as [[o w1]|]; [|done]. simpl in E.
  destruct (relay_run cfg es w1) as [[os1 w2]|] eqn:E2; [|done]. simpl in E. injection E as <- <-. simpl. by rewrite (IH _ _ _ E2).
Qed.

(** The counters that are pushed. *)
Lemma TALLIES_pushed m g : Forall (fun kp => kp.1 ∈ SNAPSHOT_COUNTERS -> (kp.1, cnt kp.1 m) ∈ Metrics.snapshot m g) TALLIES.
Proof.
  unfold TALLIES. repeat (constructor; [cbn [fst snd]; intros Hin;
    first [unfold cnt, Metrics.snapshot; cbv zeta; member | exfalso; revert Hin; by apply (bool_decide_unpack _)]|]).
  constructor.
Qed.

(** Every counter of a run from boot. *)
Lemma relay_run_tallies cfg ws attest es os w :
  relay_run cfg es (new_world ws attest) = Some (os, w) ->
  Forall (fun kp => cnt kp.1 (rmetrics (wrelay w)) = n_events kp.2 es os) TALLIES
  /\ (forall reason, cnt (reason_key REJECTED_TOTAL reason) (rmetrics (wrelay w)) = n_events (refused_for reason) es os)
  /\ (forall cause, cnt (reason_key BY_CAUSE cause) (rmetrics (wrelay w)) = n_events (failed_by cause) es os)
  /\ bucketCounts (rmetrics (wrelay w)) = List.map (fun bound => n_events (lived_within bound) es os) [1; 5; 15; 60; 300; 1800]
  /\ (lifetimeSum (rmetrics (wrelay w)) == total_lived es)%Q.
Proof.
  intros E.
  assert (H0 : forall k (p : tally_pred), (forall eo, names_tally k (names_of eo) = b2z (p eo)) -> cnt k boot_metrics = 0 ->
    cnt k (rmetrics (wrelay w)) = n_events p es os).
  { intros k p Hp Hk. rewrite (relay_run_cnt cfg k p es _ _ _ Hp E). cbn [wrelay new_world new_relay rmetrics]. rewrite Hk. lia. }
  destruct (relay_run_lifetimes cfg es _ _ _ (fun _ => 0) E eq_refl) as [Hb Hs]. split_and!.
  - assert (Hz : Forall (fun kp => cnt kp.1 boot_metrics = 0) TALLIES) by by repeat constructor.
    eapply Forall_impl; [exact (proj2 (Forall_and _ _) (conj TALLIES_names Hz))|]. intros kp [Hp Hk]. by apply H0.
  - intros reason. apply H0; [apply refused_names|]. unfold cnt, boot_metrics. cbn. other_name. done.
  - intros cause. apply H0; [apply cause_names|]. unfold cnt, boot_metrics. cbn. other_name. done.
  - exact Hb.
  - rewrite Hs. cbn. ring.
Qed.

(** ** Properties *)

Section Page.
Context (sort_reasons : list (string * Z) -> list (string * Z)) (number_text : Q -> string).
Context (sort_reasons_perm : forall l, sort_reasons l ≡ₚ l).
Context (number_text_solid : forall q, Forall (fun c => is_js_space c = false) (chars (number_text q)) /\ chars (number_text q) <> []).

Lemma page_well_formed os w rooms_live o md st draining :
  accounts os w -> Z.of_nat (length os) < 2 ^ 50 ->
  Forall (fun kv : string * Z => small kv.2) (page_gauges rooms_live o md st draining (wrelay w)) ->
  well_formed (rmetrics (wrelay w)) (page_gauges rooms_live o md st draining (wrelay w)).
Proof.
  intros A Hl Hg. destruct (a_known _ _ A) as [Hn Hk]. constructor.
  - done.
  - destruct md; apply (bool_decide_unpack _); by vm_compute.
  - done.
  - intros k v Hin. destruct (Hk k v Hin) as [Hkn Hv]. split; [unfold small; lia|].
    pose proof known_good as Hgood. rewrite Forall_forall in Hgood. exact (Hgood k Hkn).
  - intros k v Hin. rewrite Forall_forall in Hg. split; [exact (Hg _ Hin)|].
    assert (Hkeys : Forall (fun k => good_name k /\ k ∉ REJECTED :: SNAPSHOT_COUNTERS)
              ["rooms_live"; "sockets_live"; "rooms_both"; "rooms_mac_only"; "rooms_phone_only"; "rooms_neither";
               "shard_map_version"; "shard_owned_buckets"; "shard_draining_buckets"]%string).
    { repeat (constructor; [split; [repeat (constructor || done)|apply (bool_decide_unpack _); by vm_compute]|]). constructor. }
    rewrite Forall_forall in Hkeys. apply Hkeys.
    apply (list_elem_of_fmap_2 fst) in Hin. cbn [fst] in Hin. apply list_elem_of_In. apply list_elem_of_In in Hin.
    destruct md; simpl in Hin; simpl; tauto.
Qed.

(** C25: The relay's numbers are true, and the monitor reads them.  In every order
    of upgrades, closes, requests, replies, polls, pushes, terminations and swallowed
    errors from boot: the sockets counted are those opened and not closed, each
    address's its own; every counter of the relay is the number of events it is named
    for, upgrades, requests, errors, quota and mac-offline closes, failed pushes, dead
    peers, adopted maps, failed and retried polls and exceptions alike, and by reason
    or cause where it has one; each bucket of the lifetimes is the closes of sockets
    that lived no longer, and their sum the time these lived; and a monitor that
    pulls the metrics page reads those numbers under their names, the same as a push
    of the moment tells it. *)
Theorem relay_metrics_exact (cfg : relay_config) (ws attest : option buckets) (es : list relay_event) (os : list outcome)
    (w : world) (rooms_live draining : Z) (o : occupancy_counts) (md : mode) (st : store) :
  relay_run cfg es (new_world ws attest) = Some (os, w) -> Z.of_nat (length es) < 2 ^ 50 ->
  let r := wrelay w in
  let open_now := n_of opened_now os - n_of closed_now os in
  let reads (out : gmap string Q) name p := default 0%Q (out !! name) = inject_Z (n_events p es os) in
  totalSockets (rhost r) = open_now /\ (forall ip, sockets_of (rhost r) ip = Host.count_of ip (wopen w))
  /\ Forall (fun kp => cnt kp.1 (rmetrics r) = n_events kp.2 es os) TALLIES
  /\ (forall reason, cnt (reason_key REJECTED_TOTAL reason) (rmetrics r) = n_events (refused_for reason) es os)
  /\ (forall cause, cnt (reason_key BY_CAUSE cause) (rmetrics r) = n_events (failed_by cause) es os)
  /\ lifetimeInf (rmetrics r) = n_of closed_now os
  /\ bucketCounts (rmetrics r) = List.map (fun bound => n_events (lived_within bound) es os) [1; 5; 15; 60; 300; 1800]
  /\ (lifetimeSum (rmetrics r) == total_lived es)%Q
  /\ (Forall (fun kv : string * Z => small kv.2) (page_gauges rooms_live o md st draining r) ->
      exists out, parseRelayMetrics (render sort_reasons number_text (rmetrics r) (page_gauges rooms_live o md st draining r)) = Ok out
      /\ Forall (fun kv => default 0%Q (out !! kv.1) = inject_Z kv.2)
           [("ws_upgrades_total", n_of opened_now os); ("ws_upgrades_rejected_total", n_of refused os);
            ("http_requests_total", n_of past_gate os); ("http_errors_total", n_of errored os);
            ("shard_reject_total", n_of misdirected os); ("sockets_live", open_now); ("rooms_live", rooms_live)]%string
      /\ Forall (fun kp => kp.1 ∈ SNAPSHOT_COUNTERS -> reads out kp.1 kp.2) TALLIES
      /\ normalizeSnapshot (snapshot_json out) = normalizeSnapshot (pushed_json (rmetrics r) (push_gauges rooms_live md st draining r))).
Proof.
  intros E Hl r open_now reads. pose proof (relay_run_accounts _ _ _ _ _ _ E (new_world_accounts ws attest)) as A. cbn [app] in A.
  assert (Ht : totalSockets (rhost r) = open_now) by (etransitivity; [exact (total_exact _ (a_doors _ _ A))|exact (a_open _ _ A)]).
  pose proof (relay_run_tallies _ _ _ _ _ _ E) as (T1 & T2 & T3 & T4 & T5).
  split; [done|]. split; [exact (ip_exact _ (a_doors _ _ A))|]. split; [exact T1|]. split; [exact T2|]. split; [exact T3|].
  split; [exact (a_lifetimes _ _ A)|]. split; [exact T4|]. split; [exact T5|]. intros Hg.
  rewrite <-(run_length _ _ _ _ _ E) in Hl. pose proof (page_well_formed os w rooms_live o md st draining A Hl Hg) as W.
  destruct (pulled_equals_pushed sort_reasons number_text sort_reasons_perm number_text_solid _ _ W) as (out & Hout & Hread & Hnorm).
  exists out. split; [exact Hout|]. split; [|split].
  - destruct A as [_ _ U _ Q R S J _]. unfold cnt in U, Q, R, S. unfold rejected_sum in J. subst r open_now.
    unfold REJECTED_TOTAL in J.
    repeat (constructor; [apply Hread; [|by left]; cbn [fst snd]; unfold snapshot; cbv zeta;
      rewrite ?U, ?Q, ?R, ?S, ?J; first [member|rewrite <-Ht; member]|]).
    constructor.
  - eapply Forall_impl; [exact (proj2 (Forall_and _ _) (conj T1 (TALLIES_pushed (rmetrics r) (page_gauges rooms_live o md st draining r))))|]. intros [k p] [Hk Hp] Hin.
    cbn [fst snd] in *. unfold reads. rewrite <-Hk. apply Hread; [by apply Hp|].
    left. intros ->. revert Hin. by apply (bool_decide_unpack _).
  - rewrite Hnorm. unfold pushed_json. by destruct md.
Qed.
End Page.

(** *** A run *)

Definition some_relay_config : relay_config := RelayConfig small_config (ProxyConfig false false 1) (5, 1000) 5.

Definition room_request (path : string) : http_request :=
  HttpRequest (Some path) [("x-relay-room"%string, [String.concat "" (repeat "0"%string 64)])] (Some "a"%string) [] false.

(** Two sockets open and one closes, a third is refused and a request fails. *)
Definition some_relay_events (s : store) : list relay_event :=
  [EUpgrade 0 room_headers (Some "a"%string) MODE_DIRECT s (fun _ => false) 0; EOpened 0;
   EUpgrade 1 room_headers (Some "b"%string) MODE_DIRECT s (fun _ => true) 1; EOpened 0;
   EUpgrade 2 ∅ (Some "b"%string) MODE_DIRECT s (fun _ => true) 1;
   EClosed 0 (3 # 2); EServerClose 1008 "mac offline";
   ERequest 3 MODE_DIRECT s (fun _ => true) 1 (room_request "/challenge"); EReply (Err "boom"%string);
   EPush "https://m" "t" 4 [] (Ok false); EPush "" "t" 5 [] (Ok false); EException].

Lemma relay_metrics_exact_witness :
  exists os w, relay_run some_relay_config (some_relay_events (new_store "")) (new_world (Some []) None) = Some (os, w)
    /\ wopen w = ["b"%string] /\ totalSockets (rhost (wrelay w)) = 1
    /\ cnt "phone_no_mac_total" (rmetrics (wrelay w)) = 1 /\ cnt "metrics_push_errors_total" (rmetrics (wrelay w)) = 1
    /\ exists out, parseRelayMetrics (render id (fun _ => "42"%string) (rmetrics (wrelay w))
                     (page_gauges 1 (Occupancy 0 1 0 0) MODE_DIRECT (new_store "") 0 (wrelay w))) = Ok out
       /\ Forall (fun kv : string * Z => default 0%Q (out !! kv.1) = inject_Z kv.2)
            [("ws_upgrades_total", 2); ("ws_upgrades_rejected_total", 1); ("http_requests_total", 1); ("http_errors_total", 1);
             ("shard_reject_total", 0); ("sockets_live", 1); ("rooms_live", 1)]%string.
Proof.
  destruct (relay_run some_relay_config (some_relay_events (new_store "")) (new_world (Some []) None)) as [[os w]|] eqn:E;
    [|by vm_compute in E].
  exists os, w. split; [done|].
  assert (Hperm : forall l : list (string * Z), id l ≡ₚ l) by reflexivity.
  assert (Htext : forall q : Q, Forall (fun c => is_js_space c = false) (chars ((fun _ => "42"%string) q))
     /\ chars ((fun _ => "42"%string) q) <> []) by (intros q; split; [by repeat constructor|done]).
  destruct (relay_metrics_exact id (fun _ => "42"%string) Hperm Htext some_relay_config (Some []) None
    (some_relay_events (new_store "")) os w 1 0 (Occupancy 0 1 0 0) MODE_DIRECT (new_store "") E (ltac:(simpl; lia)))
    as (Ht & _ & Hc & _ & _ & _ & _ & _ & Hpage).
  assert (Hos : n_of opened_now os = 2 /\ n_of closed_now os = 1 /\ n_of refused os = 1 /\ n_of past_gate os = 1
                /\ n_of errored os = 1 /\ n_of misdirected os = 0 /\ wopen w = ["b"%string])
    by (vm_compute in E; injection E as <- <-; split_and!; reflexivity).
  destruct Hos as (H1 & H2 & H3 & H4 & H5 & H6 & H7). rewrite H1, H2 in *.
  split; [done|]. split; [exact Ht|].
  assert (Hn : cnt "phone_no_mac_total" (rmetrics (wrelay w)) = 1 /\ cnt "metrics_push_errors_total" (rmetrics (wrelay w)) = 1).
  { assert (H8 := Hc). unfold TALLIES in H8. do 5 apply Forall_cons in H8 as [_ H8].
    apply Forall_cons in H8 as [H9 H8]. apply Forall_cons in H8 as [H10 _]. cbn [fst snd] in H9, H10. rewrite H9, H10.
    vm_compute in E. by injection E as <- _. }
  split; [apply Hn|]. split; [apply Hn|].
  destruct Hpage as (out & Hout & Hread & _).
  - unfold page_gauges. rewrite Ht. repeat (constructor; [unfold small; simpl; lia|]). constructor.
  - exists out. split; [exact Hout|]. rewrite H3, H4, H5, H6 in Hread. exact Hread.
Defined.
