(* ===== verification/Process.v ===== *)
(** The relay process ([createRelay] of [host/server.js]): the host's gates and
    counters over the registry of rooms they guard, with the operations that are
    under way between a gate and what it lets in.

    The caps are checked when an upgrade or a request arrives, and what they bound
    grows later: when the handshake completes, or the body has been read. *)

From Stdlib Require Import QArith.
From S2P Require Import Prelude Bytes ShardGate ShardMap ShardStore RoomState Drain Runtime Host Metrics HostServer HostMetrics.
#[local] Open Scope Z_scope.

(** ** The process *)

(** The relay with the addresses of its handshakes and sockets; the rooms of the
    handshakes and the sockets with their contexts, in the same orders; the rooms of
    the requests whose body is being read; the next socket; the rooms. *)
Record process := Process {
  pworld : world; phands : list string; psocks : list (nat * nat); pbodies : list string; pnext : nat; prt : runtime }.

Inductive proc_event : Type :=
| VUpgrade (now : Z) (h : headers) (remote : option string) (m : mode) (s : store)
| VOpened (i : nat) (persisted : option Z)
| VAborted (i : nat)
| VClosed (i : nat) (lived : Q)
| VRequest (now : Z) (m : mode) (s : store) (q : http_request)
| VBody (i : nat) (persisted : option Z)
| VBodyLost (i : nat)
| VRelay (e : relay_event)
| VRuntime (e : revent).

(** What else happens to the counters, and to the rooms. *)
Definition only_counts (e : relay_event) : bool :=
  match e with EUpgrade _ _ _ _ _ _ _ | EOpened _ | EAborted _ | EClosed _ _ | ERequest _ _ _ _ _ _ => false | _ => true end.
Definition adds_nothing (e : revent) : bool := match e with RBegin _ _ | RAccept _ _ | RGone _ _ => false | _ => true end.

Definition has_room (rt : runtime) (name : string) : bool := bool_decide (is_Some (registered rt name)).

(** [runtime.rooms.has(room)] and [runtime.size] are read when the caps are. *)
Definition proc_step (cfg : relay_config) (e : proc_event) (p : process) : option process :=
  let rt := prt p in
  let resident := Z.of_nat (size rt) in
  match e with
  | VUpgrade now h remote m s =>
      '(o, w) ← relay_step cfg (EUpgrade now h remote m s (has_room rt) resident) (pworld p);
      Some (Process w (match o with OUpgrade Upgraded => phands p ++ [default ""%string (hget h ROOM_HEADER)] | _ => phands p end)
              (psocks p) (pbodies p) (pnext p) rt)
  | VOpened i persisted =>
      name ← phands p !! i;
      '(_, w) ← relay_step cfg (EOpened i) (pworld p);
      let id := (get name persisted rt).1 in
      rt' ← rrun [RBegin name persisted; RAccept id (pnext p)] rt;
      Some (Process w (delete i (phands p)) (psocks p ++ [(pnext p, id)]) (pbodies p) (S (pnext p)) rt')
  | VAborted i =>
      _ ← phands p !! i;
      '(_, w) ← relay_step cfg (EAborted i) (pworld p); Some (Process w (delete i (phands p)) (psocks p) (pbodies p) (pnext p) rt)
  | VClosed i lived =>
      '(ws, id) ← psocks p !! i;
      '(_, w) ← relay_step cfg (EClosed i lived) (pworld p);
      rt' ← rstep (RGone id ws) rt;
      Some (Process w (phands p) (delete i (psocks p)) (pbodies p) (pnext p) rt')
  | VRequest now m s q =>
      '(o, w) ← relay_step cfg (ERequest now m s (has_room rt) resident q) (pworld p);
      Some (Process w (phands p) (psocks p) (match o with OAnswer (AToRoom room _ _ _) => pbodies p ++ [room] | _ => pbodies p end) (pnext p) rt)
  | VBody i persisted =>
      name ← pbodies p !! i;
      rt' ← rstep (RBegin name persisted) rt;
      Some (Process (pworld p) (phands p) (psocks p) (delete i (pbodies p)) (pnext p) rt')
  | VBodyLost i => _ ← pbodies p !! i; Some (Process (pworld p) (phands p) (psocks p) (delete i (pbodies p)) (pnext p) rt)
  | VRelay e =>
      if only_counts e then '(_, w) ← relay_step cfg e (pworld p); Some (Process w (phands p) (psocks p) (pbodies p) (pnext p) rt)
      else None
  | VRuntime e =>
      if adds_nothing e then rt' ← rstep e rt; Some (Process (pworld p) (phands p) (psocks p) (pbodies p) (pnext p) rt') else None
  end.

Fixpoint proc_run (cfg : relay_config) (l : list proc_event) (p : process) : option process :=
  match l with [] => Some p | e :: l' => p' ← proc_step cfg e p; proc_run cfg l' p' end.

(** After [rehydrate]. *)
Definition boot_process (ws attest : option buckets) (names : list (string * option Z)) : process :=
  Process (new_world ws attest) [] [] [] 0 (rehydrate names new_runtime).

(** The operations under way. *)
Definition under_way (p : process) : list string := phands p ++ pbodies p.

(** At most [k] of them at any time of a run. *)
Fixpoint narrow (cfg : relay_config) (k : nat) (l : list proc_event) (p : process) : bool :=
  (length (under_way p) <=? k)%nat
  && match l with [] => true | e :: l' => match proc_step cfg e p with Some p' => narrow cfg k l' p' | None => true end end.

(** What can happen next to a handshake, a socket or a body. *)
Definition proc_enabled (e : proc_event) (p : process) : bool :=
  match e with
  | VUpgrade _ _ _ _ _ | VRequest _ _ _ _ => true
  | VOpened i _ | VAborted i => (i <? length (phands p))%nat
  | VClosed i _ => (i <? length (psocks p))%nat
  | VBody i _ | VBodyLost i => (i <? length (pbodies p))%nat
  | VRelay e => only_counts e
  | VRuntime _ => false
  end.

(** The live sockets of the registered rooms. *)
Definition live_sockets (rt : runtime) : list nat := flat_map (fun r => live_context rt r.2) (rooms rt).

(** ** Lemmas: the registry *)

Definition names (rt : runtime) : list string := map fst (rooms rt).

(** Names and contexts are each registered once, contexts are fresh, the registered
    ones are there, and no context is unpinned more often than pinned. *)
Record once (rt : runtime) : Prop := {
  once_names : NoDup (names rt); once_ids : NoDup (map snd (rooms rt)); once_there : forall r, r ∈ rooms rt -> is_Some (contexts rt !! r.2);
  once_contexts : forall id c, contexts rt !! id = Some c -> (id < next rt)%nat /\ 0 <= cpending c }.

(** Every socket a context was ever given is older than [n]. *)
Definition wired_below (n : nat) (rt : runtime) : Prop :=
  forall id c ws, contexts rt !! id = Some c -> ws ∈ cwired c -> (ws < n)%nat.

(** Nothing is added: rooms and their sockets are among what was there. *)
Record fewer (rt rt' : runtime) : Prop := {
  fewer_rooms : sublist (rooms rt') (rooms rt); fewer_next : next rt' = next rt;
  fewer_none : forall id, contexts rt !! id = None -> contexts rt' !! id = None;
  fewer_some : forall id c, contexts rt !! id = Some c ->
    exists c', contexts rt' !! id = Some c' /\ (0 <= cpending c -> 0 <= cpending c') /\ cwired c' = cwired c;
  fewer_live : forall id, sublist (live_context rt' id) (live_context rt id) }.

Lemma fewer_refl rt : fewer rt rt.
Proof. split; try done. by eauto. Qed.

Lemma fewer_trans a b c : fewer a b -> fewer b c -> fewer a c.
Proof.
  intros [H1 H2 H3 H5 H4] [K1 K2 K3 K5 K4]. split; [by transitivity (rooms b)|congruence|auto| |].
  - intros id x (y & Ey & Hy & Wy)%H5. destruct (K5 _ _ Ey) as (z & Ez & Hz & Wz). exists z. split_and!; [done|auto|congruence].
  - intros id. by transitivity (live_context b id).
Qed.

Lemma fewer_once rt rt' : fewer rt rt' -> once rt -> once rt'.
Proof.
  intros [H1 H2 H3 H5 _] [N I F C]. split.
  - eapply sublist_NoDup; [exact N|]. by apply (fmap_sublist fst).
  - eapply sublist_NoDup; [exact I|]. by apply (fmap_sublist snd).
  - intros r Hr. destruct (F r) as [c Ec]; [by eapply elem_of_sublist|]. destruct (H5 _ _ Ec) as (c' & Ec' & _). by eexists.
  - intros id c' E. rewrite H2. destruct (contexts rt !! id) as [c|] eqn:E'; [|by rewrite H3 in E].
    destruct (H5 _ _ E') as (c2 & E2 & Hp & _). destruct (C _ _ E'). split; [done|]. simplify_eq. auto.
Qed.

Lemma fewer_wired n rt rt' : fewer rt rt' -> wired_below n rt -> wired_below n rt'.
Proof.
  intros [_ _ H3 H5 _] Hw id c' ws E Hin. destruct (contexts rt !! id) as [c|] eqn:E'; [|by rewrite H3 in E].
  destruct (H5 _ _ E') as (c2 & E2 & _ & W). simplify_eq. rewrite W in Hin. by eapply Hw.
Qed.

Lemma on_context_fewer id f rt :
  (forall c, contexts rt !! id = Some c ->
     sublist (csockets (f c)) (csockets c) /\ (0 <= cpending c -> 0 <= cpending (f c)) /\ cwired (f c) = cwired c) ->
  fewer rt (on_context id f rt).
Proof.
  intros Hf. unfold on_context. destruct (contexts rt !! id) as [c|] eqn:E; [|apply fewer_refl]. unfold set_context.
  destruct (Hf c eq_refl) as (Hs & Hp & Hw). split; cbn [rooms next contexts]; [done|done| | |].
  - intros i Hi. rewrite lookup_insert_ne; [done|]. intros <-. congruence.
  - intros i x. destruct (decide (id = i)) as [<-|]; [|rewrite lookup_insert_ne by done; eauto].
    rewrite lookup_insert_eq. intros Ex. assert (x = c) as -> by congruence. eauto.
  - intros i. unfold live_context. cbn [contexts]. destruct (decide (id = i)) as [<-|];
      [rewrite lookup_insert_eq, E; apply Hs|by rewrite lookup_insert_ne].
Qed.

Lemma maybeEvict_fewer id rt : fewer rt (maybeEvict id rt).
Proof.
  unfold maybeEvict, evict. destruct (contexts rt !! id) as [c|]; [|apply fewer_refl]. destruct (_idle c); [|apply fewer_refl].
  destruct (bool_decide _); [|apply fewer_refl]. split; cbn [rooms next contexts]; [apply sublist_filter|done|done|by eauto|done].
Qed.

Lemma filter_out_sublist ws (l : list nat) : sublist (filter (fun x => x <> ws) l) l.
Proof. apply sublist_filter. Qed.

Lemma gone_fewer id ws rt : fewer rt (socket_gone id ws rt).
Proof. unfold socket_gone. eapply fewer_trans; [|apply maybeEvict_fewer]. apply on_context_fewer. intros c _. split; [apply filter_out_sublist|done]. Qed.

(** A context is changed in place. *)
Ltac in_place := apply on_context_fewer; intros ? ?; cbn [csockets cpending cwired]; simplify_eq; split_and!;
  [first [done|apply filter_out_sublist]|lia|done].

Lemma rstep_fewer e rt rt' : adds_nothing e = true -> rstep e rt = Some rt' -> fewer rt rt'.
Proof.
  intros Ha E. destruct e as [name pr|id|id ws|id at_|id ws|id ws|id ws|id ws|id again|]; try done; simpl in E.
  - destruct (contexts rt !! id) eqn:Ec; [|done]. simpl in E. destruct (Z.ltb_spec 0 (cpending c)); [|done]. injection E as <-.
    unfold unpin. eapply fewer_trans; [|apply maybeEvict_fewer]. in_place.
  - destruct (contexts rt !! id); [|done]. simpl in E. destruct (0 <? _); [|done]. injection E as <-.
    unfold _reschedule. destruct (closed rt); [apply fewer_refl|in_place].
  - destruct (contexts rt !! id); [|done]. simpl in E. destruct (decide _); [|done]. injection E as <-. unfold pin. in_place.
  - destruct (contexts rt !! id); [|done]. simpl in E. destruct (_ && _); [|done]. injection E as <-. unfold pin. in_place.
  - injection E as <-. unfold delete_socket. in_place.
  - destruct (contexts rt !! id); [|done]. simpl in E. destruct (calarm _); [|done]. injection E as <-.
    unfold _fire. destruct (closed rt); [apply fewer_refl|].
    apply (fewer_trans _ (on_context id (fun c => Context (cname c) (csockets c) (cwired c) None (cpending c)) rt));
      [in_place|]. eapply fewer_trans; [|apply maybeEvict_fewer].
    destruct again; [|apply fewer_refl]. unfold _reschedule. case_match; [apply fewer_refl|in_place].
  - injection E as <-. unfold shutdown. split; cbn [rooms next contexts]; [apply sublist_nil_l|done|done|by eauto|done].
Qed.

Lemma registered_none rt name : registered rt name = None -> name ∉ names rt.
Proof.
  unfold registered, names. intros E Hin. apply list_elem_of_fmap in Hin as ([n i] & -> & Hin). simpl in E.
  destruct (find _ (rooms rt)) eqn:Ef; [done|]. apply find_none with (x := (n, i)) in Ef; [|by apply list_elem_of_In].
  by rewrite String.eqb_refl in Ef.
Qed.

Lemma registered_some rt name : is_Some (registered rt name) -> name ∈ names rt.
Proof. intros [id E%registered_In]. unfold names. apply list_elem_of_fmap. by exists (name, id). Qed.

(** Taking a context registers at most its name, and makes no socket live. *)
Lemma get_once name pr rt : once rt ->
  once (get name pr rt).2 /\ (forall n, n ∈ names (get name pr rt).2 -> n ∈ names rt \/ n = name)
  /\ is_Some (contexts (get name pr rt).2 !! (get name pr rt).1)
  /\ (forall id, live_context (get name pr rt).2 id = live_context rt id)
  /\ forall m, wired_below m rt -> wired_below m (get name pr rt).2.
Proof.
  intros [N I F C]. unfold get. destruct (registered rt name) as [id|] eqn:E; cbn [fst snd].
  { split_and!; auto; [by split|]. apply (F (name, id)). by apply registered_In. }
  assert (Hfresh : contexts rt !! next rt = None).
  { destruct (contexts rt !! next rt) eqn:E'; [|done]. apply C in E'. lia. }
  split_and!; [split; unfold names; cbn [rooms next contexts]| | | |].
  - rewrite map_app. apply NoDup_app. split_and!; [done| |apply NoDup_singleton].
    intros n Hn Hin. apply list_elem_of_singleton in Hin as ->. by apply (registered_none _ _ E).
  - rewrite map_app. apply NoDup_app. split_and!; [done| |apply NoDup_singleton].
    intros i (r & -> & Hr)%list_elem_of_fmap Hin. apply list_elem_of_singleton in Hin. cbn [snd] in Hin.
    destruct (F r Hr) as [c Ec]. rewrite Hin in Ec. congruence.
  - intros r [Hr|Hr]%elem_of_app; [|apply list_elem_of_singleton in Hr as ->; cbn [snd]; rewrite lookup_insert_eq; by eexists].
    destruct (F r Hr) as [c Ec]. rewrite lookup_insert_ne by congruence. by eexists.
  - intros i c. destruct (decide (next rt = i)) as [<-|].
    + rewrite lookup_insert_eq. intros [= <-]. simpl. lia.
    + rewrite lookup_insert_ne by done. intros Ei%C. lia.
  - unfold names. cbn [rooms]. intros n. rewrite map_app, elem_of_app. intros [?|Hn]; [by left|]. right.
    by apply list_elem_of_singleton in Hn.
  - cbn [contexts]. rewrite lookup_insert_eq. by eexists.
  - intros i. unfold live_context. cbn [contexts]. destruct (decide (next rt = i)) as [<-|];
      [by rewrite lookup_insert_eq, Hfresh|by rewrite lookup_insert_ne].
  - intros m Hm i c ws. cbn [contexts]. destruct (decide (next rt = i)) as [<-|].
    + rewrite lookup_insert_eq. intros [= <-] Hin. by apply not_elem_of_nil in Hin.
    + rewrite lookup_insert_ne by done. apply Hm.
Qed.

Lemma fewer_names rt rt' n : fewer rt rt' -> n ∈ names rt' -> n ∈ names rt.
Proof. intros Hf Hn. eapply elem_of_sublist; [exact Hn|]. apply (fmap_sublist fst), Hf. Qed.

Lemma begin_once name pr rt : once rt -> exists rt', rstep (RBegin name pr) rt = Some rt'
  /\ once rt' /\ (forall n, n ∈ names rt' -> n ∈ names rt \/ n = name) /\ (forall id, sublist (live_context rt' id) (live_context rt id))
  /\ (exists c, contexts rt' !! (get name pr rt).1 = Some c /\ 0 < cpending c) /\ forall m, wired_below m rt -> wired_below m rt'.
Proof.
  intros Ho. destruct (get_once name pr rt Ho) as (H1 & H2 & [c Ec] & H4 & H5). cbn [rstep]. destruct (get name pr rt) as [id rt1].
  cbn [fst snd] in *. exists (pin id rt1). split; [done|].
  assert (Hp : fewer rt1 (pin id rt1)) by (unfold pin; in_place).
  split_and!; [by eapply fewer_once|intros n Hn; by apply H2, (fewer_names _ (pin id rt1))| | |].
  - intros i. rewrite <-H4. apply (fewer_live _ _ Hp).
  - unfold pin, on_context, set_context. rewrite Ec. cbn [contexts]. rewrite lookup_insert_eq. eexists. split; [done|].
    simpl. destruct (once_contexts _ H1 _ _ Ec). lia.
  - intros m Hm. eapply fewer_wired; [done|by apply H5].
Qed.

Lemma accept_once id ws rt c : once rt -> contexts rt !! id = Some c -> 0 < cpending c -> wired_below ws rt ->
  exists rt', rstep (RAccept id ws) rt = Some rt' /\ once rt' /\ names rt' = names rt
  /\ live_context rt' id = live_context rt id ++ [ws] /\ (forall i, i <> id -> live_context rt' i = live_context rt i)
  /\ wired_below (S ws) rt'.
Proof.
  intros [N I F C] Ec Hp Hw. cbn [rstep]. rewrite Ec. cbn [mbind option_bind]. destruct (Z.ltb_spec 0 (cpending c)); [|lia].
  rewrite bool_decide_false by (intros Hin; specialize (Hw _ _ _ Ec Hin); lia). cbn [andb negb].
  eexists. split; [done|]. unfold acceptWebSocket, on_context, set_context. rewrite Ec. split_and!.
  - split; unfold names in *; cbn [rooms next contexts]; [done..| |].
    + intros r Hr. destruct (F r Hr) as [c' Ec']. destruct (decide (id = r.2)) as [->|]; [rewrite lookup_insert_eq|rewrite lookup_insert_ne by done];
        by eexists.
    + intros i c'. destruct (decide (id = i)) as [<-|]; [|rewrite lookup_insert_ne by done; apply C].
      rewrite lookup_insert_eq. intros [= <-]. simpl. by apply (C _ _ Ec).
  - done.
  - unfold live_context. cbn [contexts]. by rewrite lookup_insert_eq, Ec.
  - intros i Hi. unfold live_context. cbn [contexts]. by rewrite lookup_insert_ne.
  - intros i c' w. cbn [contexts]. destruct (decide (id = i)) as [<-|].
    + rewrite lookup_insert_eq. intros [= <-]. cbn [cwired]. intros [->|Hin]%elem_of_cons; [lia|]. specialize (Hw _ _ _ Ec Hin). lia.
    + rewrite lookup_insert_ne by done. intros Ei Hin. specialize (Hw _ _ _ Ei Hin). lia.
Qed.

(** ** Lemmas: the host's lists *)

Lemma quiet_lists cfg e w o w' : relay_step cfg e w = Some (o, w') ->
  match e with
  | EUpgrade _ _ _ _ _ _ _ => True
  | EOpened i => exists ip, whands w !! i = Some ip /\ whands w' = delete i (whands w) /\ wopen w' = wopen w ++ [ip]
  | EAborted i => is_Some (whands w !! i) /\ whands w' = delete i (whands w) /\ wopen w' = wopen w
  | EClosed i _ => is_Some (wopen w !! i) /\ whands w' = whands w /\ wopen w' = delete i (wopen w)
  | _ => whands w' = whands w /\ wopen w' = wopen w
  end.
Proof.
  destruct e; cbn [relay_step]; try (intros [= <- <-]; by split); [done|..].
  - destruct (whands w !! i) as [ip|]; [|done]. intros [= <- <-]. by exists ip.
  - destruct (whands w !! i) as [ip|]; [|done]. intros [= <- <-]. split_and!; [by eexists|done|done].
  - destruct (wopen w !! i) as [ip|]; [|done]. intros [= <- <-]. split_and!; [by eexists|done|done].
  - destruct (handleRequest _ _ _ _ _ _ _). intros [= <- <-]. by split.
Qed.

(** An upgrade that goes through found every cap unreached. *)
Lemma upgrade_lists cfg now h remote m s has n w o w' :
  relay_step cfg (EUpgrade now h remote m s has n) w = Some (o, w') ->
  wopen w' = wopen w
  /\ match o with
     | OUpgrade Upgraded => exists ip, whands w' = whands w ++ [ip]
         /\ sockets_of (rhost (wrelay w)) ip < maxSocketsPerIp (rupgrade cfg)
         /\ totalSockets (rhost (wrelay w)) < maxTotalSockets (rupgrade cfg)
         /\ (has (default ""%string (hget h ROOM_HEADER)) = true \/ n < maxRooms (rupgrade cfg))
     | _ => whands w' = whands w
     end.
Proof.
  cbn [relay_step]. unfold upgrade. set (ip := default "undefined"%string _).
  destruct (handleUpgrade _ _ _ _ _ _ _ _) as [v h'] eqn:E. intros [= <- <-].
  split; [by destruct v|]. destruct v; [done|done|]. exists ip. split; [done|].
  unfold handleUpgrade in E. destruct (entryReject h); [done|]. destruct (ownershipGate m s _); [|done].
  destruct (wsOver (rupgrade cfg) now ip (rhost (wrelay w))) as [l h1] eqn:Ew.
  assert (Hs : sockets_of h1 ip = sockets_of (rhost (wrelay w)) ip /\ totalSockets h1 = totalSockets (rhost (wrelay w))).
  { unfold wsOver in Ew. destruct (wsBuckets _); [destruct (over _ _ _ _ _ _)|]; injection Ew as <- <-; by split. }
  destruct Hs as [Hs Ht]. destruct l; [done|].
  destruct (Z.leb_spec (maxSocketsPerIp (rupgrade cfg)) (sockets_of h1 ip)); [done|].
  destruct (Z.leb_spec (maxTotalSockets (rupgrade cfg)) (totalSockets h1)); [done|].
  destruct (negb (has _) && (maxRooms (rupgrade cfg) <=? n)) eqn:Er; [done|].
  split_and!; [lia|lia|]. apply andb_false_iff in Er as [Er%negb_false_iff|Er%Z.leb_gt]; [by left|by right].
Qed.

(** A request that reaches its room found the cap on rooms unreached, or the room. *)
Lemma request_capped cfg now gate has n q r room path h b r' :
  handleRequest cfg now gate has n q r = (AToRoom room path h b, r') -> has room = true \/ n < maxRooms (rupgrade cfg).
Proof.
  unfold handleRequest. destruct (hr_path q) as [pa|]; [|done]. destruct (String.eqb pa "/metrics"); [by destruct (isLocalScrape _ _)|].
  destruct (entryReject _); [done|]. cbv zeta. destruct (gate _); [|done].
  destruct (if starts_with "/attest" pa then _ else _) as [[] r2]; [done|].
  destruct (negb (has _) && (maxRooms (rupgrade cfg) <=? n)) eqn:Er; [done|].
  destruct (declared_too_large _); [done|]. destruct (readBody _ _ _ _ _); [|done|done]. intros [= <- <- <- <- <-].
  apply andb_false_iff in Er as [Er%negb_false_iff|Er%Z.leb_gt]; [by left|by right].
Qed.

(** ** The invariant *)

(** Every room there is or may soon be. *)
Definition reach (p : process) : gset string := list_to_set (names (prt p)) ∪ list_to_set (under_way p).

Section Caps.
Context (cfg : relay_config) (k : nat) (booted : Z).

Definition room_bound : Z := Z.max booted (maxRooms (rupgrade cfg) - 1 + Z.of_nat k).
Definition total_bound : Z := Z.max 0 (maxTotalSockets (rupgrade cfg) - 1 + Z.of_nat k).
Definition ip_bound : Z := Z.max 0 (maxSocketsPerIp (rupgrade cfg) - 1 + Z.of_nat k).

Record proc_ok (p : process) : Prop := {
  p_doors : counts_ok (door_of (pworld p));
  p_once : once (prt p);
  p_hands : length (phands p) = length (whands (pworld p));
  p_socks : length (psocks p) = length (wopen (pworld p));
  p_fresh : forall s, s ∈ psocks p -> (s.1 < pnext p)%nat;
  p_wired : wired_below (pnext p) (prt p);
  p_distinct : NoDup (map fst (psocks p));
  p_live : forall id ws, ws ∈ live_context (prt p) id -> (ws, id) ∈ psocks p;
  p_live_once : forall id, NoDup (live_context (prt p) id);
  p_total : Z.of_nat (length (wopen (pworld p)) + length (whands (pworld p))) <= total_bound;
  p_ip : forall ip, Host.count_of ip (wopen (pworld p)) + Host.count_of ip (whands (pworld p)) <= ip_bound;
  p_rooms : Z.of_nat (base.size (reach p)) <= room_bound }.

Lemma size_names rt : once rt -> base.size (list_to_set (names rt) : gset string) = Runtime.size rt.
Proof. intros Ho. rewrite size_list_to_set by apply Ho. unfold names, Runtime.size. by rewrite length_map. Qed.

Lemma size_of_list (l : list string) : (base.size (list_to_set l : gset string) <= length l)%nat.
Proof.
  induction l as [|x l IH]; [by rewrite list_to_set_nil, size_empty|]. rewrite list_to_set_cons. simpl.
  pose proof (size_union_alt {[x]} (list_to_set l : gset string)) as E. rewrite size_singleton in E.
  pose proof (subseteq_size (list_to_set l ∖ {[x]} : gset string) (list_to_set l) ltac:(set_solver)). lia.
Qed.

Lemma rooms_same p p' : reach p' ⊆ reach p -> Z.of_nat (base.size (reach p)) <= room_bound -> Z.of_nat (base.size (reach p')) <= room_bound.
Proof. intros Hs Hb. apply subseteq_size in Hs. lia. Qed.

(** Letting one more room in while the cap is not reached. *)
Lemma rooms_admitted p p' room :
  once (prt p) -> prt p' = prt p -> (forall n, n ∈ under_way p' -> n ∈ under_way p \/ n = room) -> (length (under_way p') <= k)%nat ->
  has_room (prt p) room = true \/ Z.of_nat (Runtime.size (prt p)) < maxRooms (rupgrade cfg) ->
  Z.of_nat (base.size (reach p)) <= room_bound -> Z.of_nat (base.size (reach p')) <= room_bound.
Proof.
  intros Ho Ert Hu Hk Hcap Hb. destruct Hcap as [Hr|Hn].
  - apply (rooms_same p); [|done]. unfold has_room in Hr. apply bool_decide_eq_true, registered_some in Hr.
    unfold reach. rewrite Ert. intros n. rewrite !elem_of_union, !elem_of_list_to_set. intros [?|Hin]; [by left|].
    destruct (Hu n Hin) as [?| ->]; [by right|by left].
  - unfold reach. rewrite Ert. rewrite size_union_alt, size_names by done.
    pose proof (subseteq_size (list_to_set (under_way p') ∖ list_to_set (names (prt p)) : gset string) (list_to_set (under_way p')) ltac:(set_solver)).
    pose proof (size_of_list (under_way p')). unfold room_bound. lia.
Qed.

(** A room that is taken was under way. *)
Lemma rooms_taken p p' room :
  (forall n, n ∈ names (prt p') -> n ∈ names (prt p) \/ n = room) -> room ∈ under_way p ->
  (forall n, n ∈ under_way p' -> n ∈ under_way p) ->
  Z.of_nat (base.size (reach p)) <= room_bound -> Z.of_nat (base.size (reach p')) <= room_bound.
Proof.
  intros Hn Hr Hu. apply rooms_same. unfold reach. intros n. rewrite !elem_of_union, !elem_of_list_to_set.
  intros [Hin|Hin]; [|right; auto]. destruct (Hn n Hin) as [?| ->]; [by left|by right].
Qed.

Lemma count_of_app ip l l' : Host.count_of ip (l ++ l') = Host.count_of ip l + Host.count_of ip l'.
Proof. unfold Host.count_of. rewrite filter_app, length_app. lia. Qed.

Lemma count_of_le ip l : 0 <= Host.count_of ip l <= Z.of_nat (length l).
Proof. unfold Host.count_of. pose proof (length_filter (fun x => x = ip) l). lia. Qed.

Lemma count_of_sublist ip l l' : sublist l l' -> Host.count_of ip l <= Host.count_of ip l'.
Proof.
  unfold Host.count_of. induction 1 as [|x l l' _ IH|x l l' _ IH]; [done|..];
    rewrite !filter_cons; destruct (decide (x = ip)); cbn [length]; lia.
Qed.

(** ** Steps *)

Lemma live_fewer p rt' : fewer (prt p) rt' ->
  (forall id ws, ws ∈ live_context (prt p) id -> (ws, id) ∈ psocks p) -> (forall id, NoDup (live_context (prt p) id)) ->
  (forall id ws, ws ∈ live_context rt' id -> (ws, id) ∈ psocks p) /\ forall id, NoDup (live_context rt' id).
Proof.
  intros [_ _ _ _ Hf] H1 H2. split; [|intros id; eapply sublist_NoDup; [apply H2|apply Hf]].
  intros id ws Hin. apply H1. eapply elem_of_sublist; [exact Hin|apply Hf].
Qed.

Lemma upgrade_ok now h remote m s p p' :
  proc_step cfg (VUpgrade now h remote m s) p = Some p' -> proc_ok p -> (length (under_way p') <= k)%nat -> proc_ok p'.
Proof.
  intros E [D O Hh Hs F W N L LN T I R] Hk. cbn [proc_step] in E.
  destruct (relay_step cfg _ (pworld p)) as [[o w]|] eqn:Ew; [|done]. simpl in E. injection E as <-.
  destruct (relay_step_doors _ _ _ _ _ Ew D) as [D' _]. destruct (upgrade_lists _ _ _ _ _ _ _ _ _ _ _ Ew) as [Eo Hc].
  assert (Hup : (o = OUpgrade Upgraded) \/ (o <> OUpgrade Upgraded)) by (destruct o as [[]| | | | |]; auto; by right).
  destruct Hup as [->|Hno].
  - destruct Hc as (ip & Eh & Hip & Htot & Hroom). unfold under_way in Hk. cbn [phands pbodies] in Hk. rewrite length_app in Hk. 
    rewrite length_app in Hk. cbn [length] in Hk.
    split; cbn [pworld prt phands psocks pbodies pnext]; try done.
    + rewrite Eh, !length_app. simpl. lia.
    + congruence.
    + rewrite Eo, Eh, length_app. pose proof (total_exact _ D) as Et. cbn in Et. unfold total_bound. simpl. lia.
    + intros ip'. rewrite Eo, Eh, count_of_app. specialize (I ip').
      assert (E1 : Host.count_of ip' [ip] = if decide (ip = ip') then 1 else 0).
      { rewrite <-(app_nil_l [ip]), count_of_snoc. unfold Host.count_of. simpl. lia. }
      rewrite E1. destruct (decide (ip = ip')) as [<-|]; [|lia]. pose proof (ip_exact _ D ip) as Ei. cbn in Ei.
      pose proof (count_of_le ip (whands (pworld p))). unfold ip_bound. lia.
    + eapply (rooms_admitted p _ (default ""%string (hget h ROOM_HEADER))); [done|done| |
        unfold under_way; cbn [phands pbodies]; rewrite !length_app; simpl; lia|exact Hroom|done].
      unfold under_way. cbn [phands pbodies]. intros n. rewrite !elem_of_app. intros [[?|Hn]|?]; [auto| |auto].
      right. by apply list_elem_of_singleton in Hn.
  - assert (Hw : whands w = whands (pworld p)) by by destruct o as [[]| | | | |].
    assert (Hp : (match o with OUpgrade Upgraded => phands p ++ [default ""%string (hget h ROOM_HEADER)] | _ => phands p end) = phands p)
      by by destruct o as [[]| | | | |].
    rewrite Hp in *. split; cbn [pworld prt phands psocks pbodies pnext]; rewrite ?Hw, ?Eo; done.
Qed.

Lemma step_doors e w o w' : relay_step cfg e w = Some (o, w') -> counts_ok (door_of w) -> counts_ok (door_of w').
Proof. intros E D. exact (proj1 (relay_step_doors _ _ _ _ _ E D)). Qed.

Lemma delete_same_length {A B} i (l : list A) (l' : list B) : length l = length l' -> length (delete i l) = length (delete i l').
Proof.
  revert i l'. induction l as [|x l IH]; intros i [|y l']; try done. intros [= H]. destruct i as [|i]; [done|].
  simpl. f_equal. by apply IH.
Qed.

Lemma elem_of_deleted {A} i (l : list A) x : x ∈ delete i l -> x ∈ l.
Proof. intros H. eapply elem_of_sublist; [exact H|apply sublist_delete]. Qed.

Lemma opened_proc_ok i persisted p p' :
  proc_step cfg (VOpened i persisted) p = Some p' -> proc_ok p -> proc_ok p'.
Proof.
  intros E [D O Hh Hs F W N L LN T I R]. cbn [proc_step] in E.
  destruct (phands p !! i) as [name|] eqn:En; [|done]. cbn [mbind option_bind] in E.
  destruct (relay_step cfg (EOpened i) (pworld p)) as [[o w]|] eqn:Ew; [|done]. cbn [mbind option_bind] in E.
  pose proof (step_doors _ _ _ _ Ew D) as D'. destruct (quiet_lists _ _ _ _ _ Ew) as (ip & Eip & Eh & Eo).
  destruct (begin_once name persisted (prt p) O) as (rt1 & E1 & O1 & Hn1 & Hl1 & (c & Ec & Hp) & W1).
  set (id := (get name persisted (prt p)).1) in *.
  destruct (accept_once id (pnext p) rt1 c O1 Ec Hp (W1 _ W)) as (rt2 & E2 & O2 & Hn2 & Hl2 & Hl3 & W2).
  cbn [rrun] in E. rewrite E1 in E. cbn [mbind option_bind] in E. rewrite E2 in E. cbn [mbind option_bind] in E. injection E as <-.
  assert (Hold : forall i ws, ws ∈ live_context rt1 i -> (ws, i) ∈ psocks p).
  { intros j ws Hin. apply L. eapply elem_of_sublist; [exact Hin|apply Hl1]. }
  split; cbn [pworld prt phands psocks pbodies pnext]; [done|done|..].
  - rewrite Eh. by apply delete_same_length.
  - rewrite Eo, !length_app. simpl. lia.
  - intros x [Hx|Hx]%elem_of_app; [specialize (F x Hx); lia|]. apply list_elem_of_singleton in Hx as ->. simpl. lia.
  - exact W2.
  - rewrite map_app. apply NoDup_app. split_and!; [done| |apply NoDup_singleton].
    intros x (y & -> & Hy)%list_elem_of_fmap Hin. apply list_elem_of_singleton in Hin. simpl in Hin. specialize (F y Hy). lia.
  - intros j ws. destruct (decide (j = id)) as [->|Hj]; [|rewrite Hl3 by done; intros ?; apply elem_of_app; left; auto].
    rewrite Hl2, !elem_of_app. intros [?|Hin]; [left; auto|right]. apply list_elem_of_singleton in Hin as ->. by left.
  - intros j. destruct (decide (j = id)) as [->|Hj]; [|rewrite Hl3 by done; eapply sublist_NoDup; [apply LN|apply Hl1]].
    rewrite Hl2. apply NoDup_app. split_and!; [eapply sublist_NoDup; [apply LN|apply Hl1]| |apply NoDup_singleton].
    intros ws Hin Hin'. apply list_elem_of_singleton in Hin' as ->. specialize (F _ (Hold _ _ Hin)). simpl in F. lia.
  - rewrite Eo, Eh, length_app, length_delete by by eexists. apply lookup_lt_Some in Eip. simpl. lia.
  - intros ip'. rewrite Eo, Eh, count_of_snoc, (count_of_delete _ _ _ _ Eip). specialize (I ip'). lia.
  - apply (rooms_taken p _ name); [cbn [prt]; rewrite Hn2; exact Hn1| | |done].
    + apply elem_of_app. left. by apply list_elem_of_lookup_2 in En.
    + unfold under_way. cbn [phands pbodies]. intros n [Hin%elem_of_deleted|?]%elem_of_app; apply elem_of_app; auto.
Qed.

Lemma closed_proc_ok i lived p p' : proc_step cfg (VClosed i lived) p = Some p' -> proc_ok p -> proc_ok p'.
Proof.
  intros E [D O Hh Hs F W N L LN T I R]. cbn [proc_step] in E.
  destruct (psocks p !! i) as [[ws id]|] eqn:En; [|done]. cbn [mbind option_bind] in E.
  destruct (relay_step cfg (EClosed i lived) (pworld p)) as [[o w]|] eqn:Ew; [|done]. cbn [mbind option_bind rstep] in E. injection E as <-.
  pose proof (step_doors _ _ _ _ Ew D) as D'. destruct (quiet_lists _ _ _ _ _ Ew) as ([ip Eip] & Eh & Eo).
  pose proof (gone_fewer id ws (prt p)) as Hf. destruct (live_fewer p _ Hf L LN) as [L' LN'].
  split; cbn [pworld prt phands psocks pbodies pnext]; [done|by eapply fewer_once|..].
  - by rewrite Eh.
  - rewrite Eo. by apply delete_same_length.
  - intros x Hx%elem_of_deleted. by apply F.
  - by eapply fewer_wired.
  - eapply sublist_NoDup; [exact N|]. apply (fmap_sublist fst), sublist_delete.
  - intros j ws' Hin. pose proof (L' _ _ Hin) as Hps.
    assert (Hne : (ws', j) <> (ws, id)).
    { intros [= -> ->]. revert Hin. unfold socket_gone. intros Hin.
      assert (Hd : ws ∈ live_context (delete_socket id ws (prt p)) id) by (eapply elem_of_sublist; [exact Hin|apply maybeEvict_fewer]).
      unfold delete_socket, on_context, live_context in Hd. destruct (contexts (prt p) !! id) as [c|] eqn:Ec; [|rewrite Ec in Hd; by apply not_elem_of_nil in Hd].
      cbn [set_context contexts] in Hd. rewrite lookup_insert_eq in Hd. cbn [csockets] in Hd. by apply list_elem_of_filter in Hd as [? _]. }
    apply list_elem_of_lookup in Hps as [m Em]. apply list_elem_of_lookup.
    destruct (lt_eq_lt_dec m i) as [[Hlt| ->]|Hgt]; [exists m; by rewrite list_lookup_delete_lt|congruence|].
    exists (m - 1)%nat. rewrite list_lookup_delete_ge by lia. by replace (S (m - 1)) with m by lia.
  - done.
  - rewrite Eo, Eh, length_delete by by eexists. apply lookup_lt_Some in Eip. lia.
  - intros ip'. rewrite Eo, Eh, (count_of_delete _ _ _ _ Eip). specialize (I ip'). destruct (decide _); lia.
  - apply (rooms_same p); [|done]. unfold reach. intros n. cbn [prt under_way phands pbodies]. rewrite !elem_of_union, !elem_of_list_to_set.
    intros [Hn|Hn]; [left; by eapply fewer_names|by right].
Qed.

(** Fewer rooms, sockets, handshakes or bodies. *)
Lemma fewer_proc_ok p w hands bodies rt' :
  proc_ok p -> counts_ok (door_of w) -> wopen w = wopen (pworld p) -> length hands = length (whands w) ->
  sublist (whands w) (whands (pworld p)) -> sublist hands (phands p) -> sublist bodies (pbodies p) -> fewer (prt p) rt' ->
  proc_ok (Process w hands (psocks p) bodies (pnext p) rt').
Proof.
  intros [D O Hh Hs F W N L LN T I R] D' Eo El Hw Hsub Hb Hf. destruct (live_fewer p _ Hf L LN) as [L' LN'].
  split; cbn [pworld prt phands psocks pbodies pnext]; [done|by eapply fewer_once|done|by rewrite Eo|done|by eapply fewer_wired|done..| | |].
  - rewrite Eo. apply sublist_length in Hw. lia.
  - intros ip. rewrite Eo. specialize (I ip). pose proof (count_of_sublist ip _ _ Hw). lia.
  - apply (rooms_same p); [|done]. unfold reach, under_way. cbn [prt phands pbodies]. intros n.
    rewrite !elem_of_union, !elem_of_list_to_set, !elem_of_app.
    intros [Hn|[Hn|Hn]]; [left; by eapply fewer_names|right; left; by eapply elem_of_sublist|right; right; by eapply elem_of_sublist].
Qed.

(** A handshake is aborted, a body is lost, or only counters or rooms move. *)
Lemma lesser_proc_ok e p p' : match e with VAborted _ | VBodyLost _ | VRelay _ | VRuntime _ => true | _ => false end = true ->
  proc_step cfg e p = Some p' -> proc_ok p -> proc_ok p'.
Proof.
  intros He E Hok. pose proof (p_doors _ Hok) as D. pose proof (p_hands _ Hok) as Hh.
  destruct e as [|?|i|?|?|?|i|e|e]; try done; cbn [proc_step] in E.
  - destruct (phands p !! i) as [n|] eqn:En; [|done]. cbn [mbind option_bind] in E.
    destruct (relay_step cfg (EAborted i) (pworld p)) as [[o w]|] eqn:Ew; [|done]. simpl in E. injection E as <-.
    destruct (quiet_lists _ _ _ _ _ Ew) as (_ & Eh & Eo).
    apply fewer_proc_ok; [done|by eapply step_doors|done| | |apply sublist_delete|done|apply fewer_refl]; rewrite Eh;
      [by apply delete_same_length|apply sublist_delete].
  - destruct (pbodies p !! i) as [n|] eqn:En; [|done]. simpl in E. injection E as <-.
    apply fewer_proc_ok; try done; [apply sublist_delete|apply fewer_refl].
  - destruct (only_counts e) eqn:Hc; [|done]. destruct (relay_step cfg e (pworld p)) as [[o w]|] eqn:Ew; [|done].
    simpl in E. injection E as <-.
    assert (Hq : whands w = whands (pworld p) /\ wopen w = wopen (pworld p)).
    { pose proof (quiet_lists _ _ _ _ _ Ew) as Hq. by destruct e. }
    destruct Hq as [Eh Eo]. apply fewer_proc_ok; try done; [by eapply step_doors|by rewrite Eh|by rewrite Eh|apply fewer_refl].
  - destruct (adds_nothing e) eqn:Hc; [|done]. destruct (rstep e (prt p)) as [rt'|] eqn:Er; [|done]. simpl in E. injection E as <-.
    apply fewer_proc_ok; try done. by eapply rstep_fewer.
Qed.

Lemma request_proc_ok now m s q p p' :
  proc_step cfg (VRequest now m s q) p = Some p' -> proc_ok p -> (length (under_way p') <= k)%nat -> proc_ok p'.
Proof.
  intros E [D O Hh Hs F W N L LN T I R] Hk. cbn [proc_step] in E.
  destruct (relay_step cfg _ (pworld p)) as [[o w]|] eqn:Ew; [|done]. simpl in E. injection E as <-.
  pose proof (step_doors _ _ _ _ Ew D) as D'. destruct (quiet_lists _ _ _ _ _ Ew) as [Eh Eo].
  split; cbn [pworld prt phands psocks pbodies pnext]; rewrite ?Eh, ?Eo; try done.
  destruct o as [v| | |a| |]; try (by apply (rooms_same p)). destruct a as [| | |room pa h b]; try (by apply (rooms_same p)).
  cbn [relay_step] in Ew. destruct (handleRequest _ _ _ _ _ _ _) as [a' r'] eqn:Ea. injection Ew as -> _.
  apply request_capped in Ea. eapply (rooms_admitted p _ room); [done|done| |exact Hk|exact Ea|done].
  unfold under_way. cbn [phands pbodies]. intros n. rewrite !elem_of_app, list_elem_of_singleton. tauto.
Qed.

Lemma body_proc_ok i persisted p p' : proc_step cfg (VBody i persisted) p = Some p' -> proc_ok p -> proc_ok p'.
Proof.
  intros E [D O Hh Hs F W N L LN T I R]. cbn [proc_step] in E.
  destruct (pbodies p !! i) as [name|] eqn:En; [|done]. cbn [mbind option_bind] in E.
  destruct (begin_once name persisted (prt p) O) as (rt' & E1 & O1 & Hn1 & Hl1 & _ & W1). rewrite E1 in E.
  cbn [mbind option_bind] in E. injection E as <-.
  split; cbn [pworld prt phands psocks pbodies pnext]; try done.
  - by apply W1.
  - intros j ws Hin. apply L. eapply elem_of_sublist; [exact Hin|apply Hl1].
  - intros j. eapply sublist_NoDup; [apply LN|apply Hl1].
  - apply (rooms_taken p _ name); [exact Hn1| | |done].
    + apply elem_of_app. right. by apply list_elem_of_lookup_2 in En.
    + unfold under_way. cbn [phands pbodies]. intros n [?|Hin%elem_of_deleted]%elem_of_app; apply elem_of_app; auto.
Qed.

Lemma proc_step_ok e p p' : proc_step cfg e p = Some p' -> proc_ok p -> (length (under_way p') <= k)%nat -> proc_ok p'.
Proof.
  intros E Hok Hk. destruct e; first [eapply lesser_proc_ok; [|exact E|exact Hok]; reflexivity|by eapply upgrade_ok|by eapply opened_proc_ok
    |by eapply closed_proc_ok|by eapply request_proc_ok|by eapply body_proc_ok].
Qed.

Lemma narrow_now l p : narrow cfg k l p = true -> (length (under_way p) <= k)%nat.
Proof. destruct l; simpl; intros [H _]%andb_true_iff; by apply Nat.leb_le in H. Qed.

Lemma proc_run_ok l : forall p p', narrow cfg k l p = true -> proc_run cfg l p = Some p' -> proc_ok p -> proc_ok p'.
Proof.
  induction l as [|e l IH]; intros p p' Hn E Hok; cbn [proc_run] in E; [by injection E as <-|].
  destruct (proc_step cfg e p) as [p1|] eqn:E1; [|done]. cbn [narrow] in Hn. rewrite E1 in Hn.
  apply andb_true_iff in Hn as [_ Hn]. simpl in E. eapply IH; [exact Hn|exact E|].
  eapply proc_step_ok; [exact E1|done|by eapply narrow_now].
Qed.

(** Nothing that can happen to a handshake, a socket or a body gets stuck. *)
Lemma proc_progress e p : proc_ok p -> proc_enabled e p = true -> is_Some (proc_step cfg e p).
Proof.
  intros [D O Hh Hs F W N L LN T I R] He.
  destruct e as [now h remote m s|i persisted|i|i lived|now m s q|i persisted|i|e|e]; cbn [proc_step proc_enabled] in *; try done.
  - cbn [relay_step]. destruct (upgrade _ _ _ _ _ _ _ _). simpl. by eexists.
  - apply Nat.ltb_lt in He. destruct (lookup_lt_is_Some_2 (phands p) i He) as [name En].
    destruct (lookup_lt_is_Some_2 (whands (pworld p)) i ltac:(lia)) as [ip Eip]. rewrite En. cbn [mbind option_bind relay_step].
    rewrite Eip. cbn [mbind option_bind rrun].
    destruct (begin_once name persisted (prt p) O) as (rt1 & E1 & O1 & _ & _ & (c & Ec & Hp) & W1).
    destruct (accept_once (get name persisted (prt p)).1 (pnext p) rt1 c O1 Ec Hp (W1 _ W)) as (rt2 & E2 & _).
    rewrite E1. cbn [mbind option_bind]. rewrite E2. by eexists.
  - apply Nat.ltb_lt in He. destruct (lookup_lt_is_Some_2 (phands p) i He) as [name En].
    destruct (lookup_lt_is_Some_2 (whands (pworld p)) i ltac:(lia)) as [ip Eip]. rewrite En. cbn [mbind option_bind relay_step].
    rewrite Eip. by eexists.
  - apply Nat.ltb_lt in He. destruct (lookup_lt_is_Some_2 (psocks p) i He) as [[ws id] En].
    destruct (lookup_lt_is_Some_2 (wopen (pworld p)) i ltac:(lia)) as [ip Eip]. rewrite En. cbn [mbind option_bind relay_step].
    rewrite Eip. by eexists.
  - cbn [relay_step]. destruct (handleRequest _ _ _ _ _ _ _). simpl. by eexists.
  - apply Nat.ltb_lt in He. destruct (lookup_lt_is_Some_2 (pbodies p) i He) as [name En]. rewrite En. cbn [mbind option_bind].
    destruct (begin_once name persisted (prt p) O) as (rt1 & E1 & _). rewrite E1. by eexists.
  - apply Nat.ltb_lt in He. destruct (lookup_lt_is_Some_2 (pbodies p) i He) as [name En]. rewrite En. by eexists.
  - rewrite He. destruct e; cbn in He |- *; try done; by eexists.
Qed.

(** The sockets of the registered rooms are different open sockets of the host. *)
Lemma live_bounded p : proc_ok p ->
  NoDup (live_sockets (prt p)) /\ forall ws, ws ∈ live_sockets (prt p) -> ws ∈ map fst (psocks p).
Proof.
  intros [D O Hh Hs F W N L LN T I R]. unfold live_sockets. pose proof (once_ids _ O) as Hids.
  assert (Hone : forall i j ws, ws ∈ live_context (prt p) i -> ws ∈ live_context (prt p) j -> i = j).
  { intros i j ws Hi%L Hj%L. apply list_elem_of_lookup in Hi as [m Em], Hj as [n En].
    assert (m = n) as ->; [|congruence].
    apply (NoDup_lookup (map fst (psocks p)) m n ws N); rewrite list_lookup_fmap; [by rewrite Em|by rewrite En]. }
  induction (rooms (prt p)) as [|[name id] l IH]; cbn [flat_map snd]; [split; [apply NoDup_nil_2|by intros ws ?%not_elem_of_nil]|].
  cbn [map] in Hids. apply NoDup_cons in Hids as [Hid Hids]. destruct (IH Hids) as [IH1 IH2]. split.
  - apply NoDup_app. split_and!; [apply LN| |done]. intros ws Hin ([n j] & Hj & Hin')%list_elem_of_In%in_flat_map.
    apply Hid, list_elem_of_fmap. exists (n, j). split; [|by apply list_elem_of_In]. apply list_elem_of_In in Hin'.
    exact (Hone _ _ _ Hin Hin').
  - intros ws [Hin|Hin]%elem_of_app; [|auto]. apply L in Hin. by apply (list_elem_of_fmap_2 fst) in Hin.
Qed.
End Caps.

(** Booting registers each room once. *)
Lemma rehydrate_once l : forall rt, once rt -> (forall id, live_context rt id = []) -> wired_below 0 rt ->
  once (rehydrate l rt) /\ (forall id, live_context (rehydrate l rt) id = []) /\ wired_below 0 (rehydrate l rt).
Proof.
  induction l as [|[name pr] l IH]; intros rt Ho Hl Hw; [done|]. cbn [rehydrate].
  destruct (get_once name pr rt Ho) as (H1 & _ & _ & H4 & H5). destruct (get name pr rt) as [id rt1]. cbn [snd] in *.
  pose proof (maybeEvict_fewer id rt1) as Hf. apply IH; [by eapply fewer_once| |by eapply fewer_wired, H5].
  intros i. apply sublist_nil_r. rewrite <-(Hl i), <-H4. apply Hf.
Qed.

Lemma boot_proc_ok cfg k ws attest boot :
  proc_ok cfg k (Z.of_nat (Runtime.size (prt (boot_process ws attest boot)))) (boot_process ws attest boot).
Proof.
  assert (Hn : once new_runtime) by (split; cbn; [apply NoDup_nil_2|apply NoDup_nil_2|by intros r ?%not_elem_of_nil|done]).
  destruct (rehydrate_once boot new_runtime Hn) as (Ho & Hl & Hw); [done|by intros ???|].
  split; unfold boot_process; cbn [pworld prt phands psocks pbodies pnext new_world whands wopen length map]; try done.
  - by intros s ?%not_elem_of_nil.
  - apply NoDup_nil_2.
  - intros id w. rewrite Hl. by intros ?%not_elem_of_nil.
  - intros id. rewrite Hl. apply NoDup_nil_2.
  - unfold total_bound. lia.
  - intros ip. unfold Host.count_of, ip_bound. simpl. lia.
  - unfold reach, under_way. cbn [phands pbodies app prt]. rewrite list_to_set_nil, (right_id_L ∅ (∪)), size_names by done.
    unfold room_bound. lia.
Qed.

(** What the invariant says of the caps. *)
Definition within_caps (cfg : relay_config) (k : nat) (booted : Z) (p : process) : Prop :=
  let h := rhost (wrelay (pworld p)) in
  totalSockets h = Z.of_nat (length (psocks p))
  /\ totalSockets h <= Z.max 0 (maxTotalSockets (rupgrade cfg) - 1 + Z.of_nat k)
  /\ (forall ip, sockets_of h ip <= Z.max 0 (maxSocketsPerIp (rupgrade cfg) - 1 + Z.of_nat k))
  /\ Z.of_nat (size (prt p)) <= Z.max booted (maxRooms (rupgrade cfg) - 1 + Z.of_nat k)
  /\ NoDup (live_sockets (prt p)) /\ (forall ws, ws ∈ live_sockets (prt p) -> ws ∈ map fst (psocks p)).

Lemma caps_of_ok cfg k booted p : proc_ok cfg k booted p -> within_caps cfg k booted p.
Proof.
  intros Hok. destruct (live_bounded _ _ _ _ Hok) as [L1 L2]. pose proof Hok as [[Dt Di _] O _ Hs _ _ _ _ _ T I R]. cbn in Dt, Di.
  pose proof (subseteq_size (list_to_set (names (prt p)) : gset string) (reach p) ltac:(unfold reach; set_solver)) as Hr.
  rewrite size_names in Hr by done. unfold total_bound in T. unfold ip_bound in I. unfold room_bound in R.
  unfold within_caps. split_and!; [rewrite Dt; lia|rewrite Dt; lia| |lia|done|done].
  intros ip. rewrite Di. specialize (I ip). pose proof (count_of_le ip (whands (pworld p))). lia.
Qed.

(** ** Properties *)

(** The caps hold up to the operations under way. The check and what it bounds
    are not one step, so a burst overshoots; with at most [k] handshakes and request
    bodies under way at any time, in every order of upgrades, handshakes, closes,
    requests, bodies and room events: the open sockets stay within
    [maxTotalSockets - 1 + k] and those of an address within
    [maxSocketsPerIp - 1 + k]; the resident rooms within [maxRooms - 1 + k], or the
    number [rehydrate] brought back where that is more. The counter is the number of
    open sockets, the sockets the registered rooms hold are different ones of them,
    and no handshake, socket or body is stuck. *)
Theorem caps_hold (cfg : relay_config) (k : nat) (ws attest : option buckets) (boot : list (string * option Z))
    (l : list proc_event) (p : process) :
  proc_run cfg l (boot_process ws attest boot) = Some p ->
  narrow cfg k l (boot_process ws attest boot) = true ->
  let h := rhost (wrelay (pworld p)) in
  totalSockets h = Z.of_nat (length (psocks p))
  /\ totalSockets h <= Z.max 0 (maxTotalSockets (rupgrade cfg) - 1 + Z.of_nat k)
  /\ (forall ip, sockets_of h ip <= Z.max 0 (maxSocketsPerIp (rupgrade cfg) - 1 + Z.of_nat k))
  /\ Z.of_nat (size (prt p))
     <= Z.max (Z.of_nat (size (rehydrate boot new_runtime))) (maxRooms (rupgrade cfg) - 1 + Z.of_nat k)
  /\ NoDup (live_sockets (prt p)) /\ (forall ws, ws ∈ live_sockets (prt p) -> ws ∈ map fst (psocks p))
  /\ forall e, proc_enabled e p = true -> is_Some (proc_step cfg e p).
Proof.
  intros E Hn. pose proof (proc_run_ok cfg k _ l _ _ Hn E (boot_proc_ok cfg k ws attest boot)) as Hok.
  destruct (caps_of_ok _ _ _ _ Hok) as (H1 & H2 & H3 & H4 & H5 & H6). split_and!; try done. intros e. by eapply proc_progress.
Qed.

(** ** Witnesses *)

(** Two upgrades pass the cap of three sockets together. *)
Definition burst (s : store) : list proc_event :=
  let up (ip : string) := VUpgrade 0 room_headers (Some ip) MODE_DIRECT s in
  [up "a"; VOpened 0 None; up "b"; VOpened 0 None; up "a"; up "b"; VOpened 1 None; VOpened 0 None; up "c"]%string.

Lemma caps_hold_witness :
  exists p, proc_run some_relay_config (burst (new_store "")) (boot_process (Some []) None []) = Some p
    /\ narrow some_relay_config 2 (burst (new_store "")) (boot_process (Some []) None []) = true
    /\ maxTotalSockets (rupgrade some_relay_config) = 3 /\ totalSockets (rhost (wrelay (pworld p))) = 4
    /\ totalSockets (rhost (wrelay (pworld p))) <= 4.
Proof.
  destruct (proc_run some_relay_config (burst (new_store "")) (boot_process (Some []) None [])) as [p|] eqn:E; [|by vm_compute in E].
  exists p. split; [done|]. assert (Hn : narrow some_relay_config 2 (burst (new_store "")) (boot_process (Some []) None []) = true)
    by (vm_compute; reflexivity).
  split; [exact Hn|]. split; [reflexivity|]. split; [vm_compute in E; injection E as <-; reflexivity|].
  exact (proj1 (proj2 (caps_hold some_relay_config 2 (Some []) None [] (burst (new_store "")) p E Hn))).
Defined.
