(* ===== verification/MonitorCore.v ===== *)
(** One tick of the monitor ([monitor/src/core.js]): the hosts to watch, the
    checks of each, the push relays, the alerts that are mailed, and the state and
    health document that are kept; and the pulling of metrics.

    What the tick reads from outside is the record [deps]: each function gives the
    outcome of the call this tick makes. *)

From Stdlib Require Import QArith Qround Ascii.
From stdpp Require Import pretty.
From S2P Require Import Prelude Bytes Json Monitor MonitorFleet MonitorPush.
#[local] Open Scope Z_scope.

(** ** Documents *)

Definition LATEST_KEY : string := "latest".
Definition DIRECT_HOST : string := "__direct__".

Definition latestKeyFor (host : string) : string :=
  if String.eqb host DIRECT_HOST then LATEST_KEY else "latest:" +:+ host.

(** A snapshot as stored when it is pushed or pulled. *)
Record latest_doc := Latest { receivedAt : Z; snapshot : json }.

(** What is kept of a host; an absent streak is 0. *)
Record host_state := HostState {
  prev : option counters; hourAnchor : option hour; hhistory : history; lastRecordedHour : option Z;
  livenessFailStreak : Z; probeFailStreak : Z }.

Definition no_host_state : host_state := HostState None None ∅ None 0 0.

Record push_state := PushState {
  pprev : option push_counters; pprevPeer : option peer; ppeerOutboxStreak : Z; ppeerNeverSince : option Z;
  scrapeFailStreak : Z; pprobeFailStreak : Z }.

Definition no_push_state : push_state := PushState None None 0 None 0 0.

(** The state document; [hosts] in the order of its keys, [legacy_push] the place
    the first push relay's state used to be in. *)
Record monitor_state := MonitorState {
  hosts : list (string * host_state); mapFailStreak : Z;
  pushes : list (string * push_state); legacy_push : option push_state; sentAt : sent_map }.

Definition no_state : monitor_state := MonitorState [] 0 [] None ∅.

Inductive status : Type := OK | WARN | CRIT.
#[export] Instance status_eq_dec : EqDecision status.
Proof. solve_decision. Defined.

Record push_summary := PushSummary {
  sdevices : Q; ssessions : Q; lastDeliveryAgeMs : option Q; sdelivered : option Q; sfailed : option Q; stimeouts : option Q;
  speerOutbox : option Q; speerSkewMs : option Q; speerLastOkKnown : bool; speerLastOkAgeMs : option Q }.

(** One card of the health document; [checkedAt] and [spush] on push relays. *)
Record summary := Summary {
  shost : string; is_push : bool; sstatus : status; ageMs : option Z; sockets : option Z; rooms : option Z;
  buckets : option Z; probeOk : option bool; reasons : list string;
  checkedAt : option Z; detailUrl : option string; spush : option push_summary }.

Record health := Health {
  hat : Z; hfleet : bool; mapError : option string; mapVersion : option json;
  total : Z; n_ok : Z; n_warn : Z; n_crit : Z; hhosts : list summary; hdue : list string }.

(** ** The outside world, this tick *)

Record deps := Deps {
  fetchMap : result string json;
  probeOne : string -> option string -> probe_result;
  roomForHost : json -> string -> result string (option string);
  scrapePush : push_relay -> result string string;
  probePush : string -> probe_result;
  sendEmail : list alert -> result string unit;
  hostOf : string -> option string;
}.

Fixpoint find_state {A : Type} (k : string) (l : list (string * A)) : option A :=
  match l with [] => None | (k', v) :: l' => if String.eqb k' k then Some v else find_state k l' end.

Definition hostAlert (host : string) (fleet : bool) (a : alert) : alert :=
  if fleet then Alert (host +:+ "|" +:+ akey a) (aseverity a) (Some host) (afinding a) else a.

Definition ownedBucketCount (map : json) (host : string) : Z :=
  match map_ranges map with Ok l => total_size (omap (owned_range host) l) | Err _ => 0 end.

(** ** One host *)

(** The push side: the alerts raised, their reasons, the next state, the gauges. *)
Definition push_side (cfg : config) (now : Z) (fleet : bool) (host : string) (latest : option latest_doc) (hs : host_state)
    : result string (list alert * list string * host_state * option gauges) :=
  let stale_side detail :=
    let a := livenessAlert detail in
    let streak := livenessFailStreak hs + 1 in
    Ok (if qge (inject_Z streak) (alertFailStreak cfg) then [hostAlert host fleet a] else [], [akey a],
        HostState (prev hs) (hourAnchor hs) (hhistory hs) (lastRecordedHour hs) streak (probeFailStreak hs), None) in
  match latest with
  | None => stale_side "no snapshot received yet"%string
  | Some doc =>
      let age := now - receivedAt doc in
      if qlt (staleMs cfg) (inject_Z age) then
        stale_side ("no snapshot for " +:+ pretty (math_round (inject_Z age / 60000)%Q) +:+ " min")
      else
        (let! snap := normalizeSnapshot (snapshot doc) in
         let '(c, g) := snap in
         let i := deltas (prev hs) c in
         let '(lastHour, anchor) := rollHour (hourAnchor hs) c (hourKey now) in
         let an := analyze g i lastHour (hhistory hs) (lastRecordedHour hs) cfg in
         Ok (List.map (hostAlert host fleet) (aalerts an), List.map akey (aalerts an),
             HostState (Some c) (Some anchor) (ahistory an) (alastRecordedHour an) 0 0, Some g))%res
  end.

(** The inbound side: the probe of this tick, when there is one to make. *)
Definition host_probe (e : env) (cfg : config) (d : deps) (map : option json) (host : string)
    : result string (option probe_result) :=
  if bool_decide (is_Some (env_text e "SHARD_MAP_URL")) then
    match map with
    | Some m => (let! room := roomForHost d m host in
                 Ok ((fun r => probeOne d ("https://" +:+ host +:+ "/") (Some r)) <$> room))%res
    | None => Ok None
    end
  else Ok ((fun url => probeOne d url None) <$> env_text e "RELAY_PROBE_URL").

Definition set_probe_streak (s : host_state) (n : Z) : host_state :=
  HostState (prev s) (hourAnchor s) (hhistory s) (lastRecordedHour s) (livenessFailStreak s) n.

Definition is_stale (cfg : config) (now : Z) (latest : option latest_doc) : bool :=
  match latest with None => true | Some d => qlt (staleMs cfg) (inject_Z (now - receivedAt d)) end.

Definition other_reason (k : string) : bool := negb (String.eqb k "liveness") && negb (String.eqb k "probe").

Definition status_of (crit : bool) (reasons : list string) : status :=
  if crit then CRIT else if existsb other_reason reasons then WARN else OK.

(** [hostOf(url) || "relay"] *)
Definition direct_name (h : option string) : string :=
  match h with Some s => if String.eqb s "" then "relay" else s | None => "relay" end.

Definition check_host (e : env) (cfg : config) (d : deps) (now : Z) (map : option json)
    (latest : option latest_doc) (hs : host_state) (host : string)
    : result string (list alert * host_state * summary) :=
  let fleet := bool_decide (is_Some (env_text e "SHARD_MAP_URL")) in
  (let! side := push_side cfg now fleet host latest hs in
   let '(alerts, reasons, next, g) := side in
   let! probe := host_probe e cfg d map host in
   let '(alerts, reasons, next) :=
     match probe with
     | Some p =>
         let streak := if ok p then 0 else probeFailStreak hs + 1 in
         (alerts ++ (if negb (ok p) && qge (inject_Z streak) (alertFailStreak cfg)
                     then [hostAlert host fleet (probeAlert (pdetail p))] else []),
          reasons ++ (if ok p then [] else ["probe"%string]), set_probe_streak next streak)
     | None => (alerts, reasons, set_probe_streak next (probeFailStreak hs))
     end in
   let crit := is_stale cfg now latest || match probe with Some p => negb (ok p) | None => false end in
   Ok (alerts, next,
       Summary (if fleet then host else direct_name (hostOf d (default ""%string (env_text e "RELAY_PROBE_URL"))))
         false (status_of crit reasons) ((fun l => now - receivedAt l) <$> latest)
         (socketsLive <$> g) (roomsLive <$> g)
         (if fleet then (fun m => ownedBucketCount m host) <$> map else None)
         (ok <$> probe) reasons None None None))%res.

(** ** One push relay *)

Definition push_parsed (text : result string string) : option push_metrics :=
  match text with Ok t => Some (parsePushMetrics t) | Err _ => None end.

Definition scrape_error (text : result string string) : string := match text with Ok _ => "" | Err e => e end.

Definition previous_push (st : monitor_state) (r : push_relay) : push_state :=
  match find_state (label r) (pushes st) with
  | Some s => s
  | None => if index r =? 1 then default no_push_state (legacy_push st) else no_push_state
  end.

Definition peer_never_since (p : option peer) (ps : push_state) (now : Z) : option Z :=
  match p with
  | Some p => if hasLastOk p && Qeq_bool (lastOkTs p) 0 then Some (default now (ppeerNeverSince ps)) else None
  | None => None
  end.

Definition push_card (cur : push_metrics) (interval : option push_counters) (now : Z) : push_summary :=
  let age ts := if qlt 0 ts then Some (let x := (inject_Z now - ts * 1000)%Q in if Qle_bool 0 x then x else 0%Q) else None in
  let p := ppeer cur in
  PushSummary (devices (pgauges cur)) (sessions (pgauges cur)) (age (lastDeliveryTs (pgauges cur)))
    (pdelivered <$> interval) (pfailed <$> interval) (timeouts <$> interval)
    (outbox <$> p) (skewMs <$> p) (match p with Some p => hasLastOk p | None => false end)
    (match p with Some p => if hasLastOk p then age (lastOkTs p) else None | None => None end).

Definition check_push (cfg : config) (d : deps) (now : Z) (st : monitor_state) (r : push_relay)
    : list alert * push_state * summary :=
  let ps := previous_push st r in
  let text := scrapePush d r in
  let cur := push_parsed text in
  let scrapeStreak := match cur with Some _ => 0 | None => scrapeFailStreak ps + 1 end in
  let lost := match cur with
              | Some _ => []
              | None => [Alert "liveness" critical None (FScrape (scrape_error text))]
              end in
  let probe := probePush d <$> probeUrl r in
  let failed := match probe with Some p => negb (ok p) | None => false end in
  let probeStreak := if failed then pprobeFailStreak ps + 1 else 0 in
  let interval := cur ≫= fun c => pushDeltas (pprev ps) (pcounters c) in
  let p := cur ≫= ppeer in
  let outboxStreak := match p with Some p => if qlt 0 (outbox p) then ppeerOutboxStreak ps + 1 else 0 | None => 0 end in
  let neverSince := peer_never_since p ps now in
  let rates := pushAlerts interval cfg in
  let peers := peerAlerts p (pprevPeer ps) outboxStreak cfg now neverSince in
  let raised := (if qge (inject_Z scrapeStreak) (alertFailStreak cfg) then lost else [])
                ++ (match probe with
                    | Some q => if negb (ok q) && qge (inject_Z probeStreak) (alertFailStreak cfg)
                                then [probeAlert (pdetail q)] else []
                    | None => []
                    end) ++ rates ++ peers in
  let reasons := List.map akey lost ++ (if failed then ["probe"%string] else []) ++ List.map akey rates ++ List.map akey peers in
  let is_critical a := bool_decide (aseverity a = critical) in
  let crit := negb (bool_decide (is_Some cur)) || failed || existsb (String.eqb "apns_auth") reasons
              || existsb is_critical rates || existsb is_critical peers in
  (List.map (hostAlert (label r) true) raised,
   PushState (match cur with Some c => Some (pcounters c) | None => pprev ps end)
     (match cur with Some c => ppeer c | None => pprevPeer ps end)
     (match cur with Some _ => outboxStreak | None => ppeerOutboxStreak ps end)
     (match cur with Some _ => neverSince | None => ppeerNeverSince ps end)
     scrapeStreak probeStreak,
   Summary (label r) true (status_of crit reasons) ((fun _ => 0) <$> cur) None None None (ok <$> probe) reasons
     (Some now) (dashboardUrl r) ((fun c => push_card c interval now) <$> cur)).

(** ** The tick *)

(** What a tick leaves: the health document, and, unless it was a dry run, the
    mail it tried, the state and the health it wrote. *)
Record tick := Tick { thealth : health; tmail : option (list alert * bool); tstate : option monitor_state }.

Fixpoint check_hosts (e : env) (cfg : config) (d : deps) (now : Z) (map : option json)
    (latest : string -> option latest_doc) (st : monitor_state) (l : list string)
    : result string (list alert * list (string * host_state) * list summary) :=
  match l with
  | [] => Ok ([], [], [])
  | h :: l' =>
      (let! one := check_host e cfg d now map (latest (latestKeyFor h)) (default no_host_state (find_state h (hosts st))) h in
       let '(a, s, c) := one in
       let! rest := check_hosts e cfg d now map latest st l' in
       let '(alerts, states, cards) := rest in
       Ok (a ++ alerts, (h, s) :: states, c :: cards))%res
  end.

(** [nextPushes[label] = ...]: a label used twice is kept once, at its first place. *)
Fixpoint set_state {A : Type} (k : string) (v : A) (l : list (string * A)) : list (string * A) :=
  match l with
  | (name, old) :: rest => if String.eqb name k then (name, v) :: rest else (name, old) :: set_state k v rest
  | [] => [(k, v)]
  end.

Definition check_pushes (cfg : config) (d : deps) (now : Z) (st : monitor_state) (l : list push_relay)
    : list alert * list (string * push_state) * list summary :=
  fold_left (fun acc r =>
    let '(alerts, states, cards) := acc in
    let '(a, s, c) := check_push cfg d now st r in
    (alerts ++ a, set_state (label r) s states, cards ++ [c])) l ([], [], []).

Definition n_status (s : status) (l : list summary) : Z :=
  Z.of_nat (countb (fun c => bool_decide (sstatus c = s)) l).

Definition nonfalsy (j : json) : option json := if jtruthy (Some j) then Some j else None.

(** The hosts to watch: those the map names, those of the last tick when it
    cannot be read, or the one relay of a direct deployment. *)
Definition watched (fleet : bool) (map : option json) (st : monitor_state) : result string (list string) :=
  if fleet then match map with Some m => mapHosts m | None => Ok (List.map fst (hosts st)) end
  else Ok [DIRECT_HOST].

(** What the checks of a tick find, before anything is mailed or written. *)
Record checks := Checks {
  craised : list alert; cnext_hosts : list (string * host_state); cnext_pushes : list (string * push_state);
  ccards : list summary; cmap : option json; cmap_error : option string; cmap_streak : Z }.

Definition is_fleet (e : env) : bool := bool_decide (is_Some (env_text e "SHARD_MAP_URL")).

(** [run], to the last alert pushed. *)
Definition check_all (e : env) (now : Z) (d : deps) (latest : string -> option latest_doc) (st : monitor_state)
    : result string checks :=
  let cfg := parseConfig e in
  let fleet := is_fleet e in
  let fetched := if fleet then Some (fetchMap d) else None in
  let map := match fetched with Some (Ok j) => nonfalsy j | _ => None end in
  let mapErr := match fetched with Some (Err err) => Some err | _ => None end in
  let mapStreak := if fleet then match mapErr with Some _ => mapFailStreak st + 1 | None => 0 end else 0 in
  let mapAlerts := match mapErr with
                   | Some err => if qge (inject_Z mapStreak) (alertFailStreak cfg)
                                 then [probeAlert ("shard map fetch failed: " +:+ err)] else []
                   | None => []
                   end in
  (let! hs := watched fleet map st in
   let! checked := check_hosts e cfg d now map latest st hs in
   let '(hostAlerts, nextHosts, hostCards) := checked in
   let '(pushAlerts_, nextPushes, pushCards) := check_pushes cfg d now st (pushRelaysFromEnv e) in
   Ok (Checks (mapAlerts ++ hostAlerts ++ pushAlerts_) nextHosts nextPushes (hostCards ++ pushCards)
         map mapErr mapStreak))%res.

Definition health_of (e : env) (now : Z) (c : checks) (due : list alert) : health :=
  Health now (is_fleet e) (cmap_error c)
    (cmap c ≫= fun m => match jget m "version" with Some JNull => None | v => v end)
    (Z.of_nat (length (ccards c))) (n_status OK (ccards c)) (n_status WARN (ccards c)) (n_status CRIT (ccards c))
    (ccards c) (List.map akey due).

Definition run (e : env) (now : Z) (dry : bool) (d : deps) (latest : string -> option latest_doc)
    (kept : option monitor_state) : result string tick :=
  let st := if dry then no_state else default no_state kept in
  (let! c := check_all e now d latest st in
   let '(due, sentAt') := dueAlerts (craised c) (sentAt st) now (cooldownMs (parseConfig e)) in
   let h := health_of e now c due in
   if dry then Ok (Tick h None None) else
   let sent := match sendEmail d due with Ok _ => true | Err _ => false end in
   let '(_, delivered, memory) := send_due due sentAt' (sentAt st) sent in
   Ok (Tick h (if Nat.eqb (length due) 0 then None else Some (due, delivered))
         (Some (MonitorState (cnext_hosts c) (cmap_streak c) (cnext_pushes c) None memory))))%res.

(** ** Pull mode *)

(** [template.replace("{host}", host)], the first occurrence *)
Fixpoint replace_host (template host : string) : string :=
  if starts_with "{host}" template then host +:+ string_drop 6 template
  else match template with
       | EmptyString => EmptyString
       | String c t => String c (replace_host t host)
       end.

Record pulled := Pulled { pull_hosts : list string; pull_ok : Z; pull_failed : list (string * string) }.

(** [pullRelays]: what each host answered, and the snapshots written. *)
Definition pullRelays (e : env) (now : Z) (fetched : result string json)
    (scrape : string -> option string -> result string string) (lastHosts : list string)
    : pulled * list (string * latest_doc) :=
  let hosts := if is_fleet e then match fetched with
                                  | Ok j => match mapHosts j with Ok l => l | Err _ => lastHosts end
                                  | Err _ => lastHosts
                                  end
               else lastHosts in
  let authorization := (fun b => "Basic " +:+ b64 (utf8 b)) <$> env_text e "RELAY_PULL_BASIC_AUTH" in
  let template := default ""%string (e !! "RELAY_PULL_URL_TEMPLATE"%string) in
  let answer host := (let! text := scrape (replace_host template host) authorization in parseRelayMetrics text)%res in
  let good := omap (fun h => match answer h with Ok out => Some (latestKeyFor h, Latest now (snapshot_json out)) | Err _ => None end) hosts in
  let bad := omap (fun h => match answer h with Ok _ => None | Err err => Some (h, err) end) hosts in
  (Pulled hosts (Z.of_nat (length good)) bad, good).
