(* ===== verification/MonitorPaging.v ===== *)
(** The monitor as a dead man's switch: what a sequence of its ticks
    ([monitor/src/core.js]) mails about a relay that stops reporting. *)

From Stdlib Require Import QArith Ascii Sorted.
From S2P Require Import Prelude Bytes Json Monitor MonitorFleet MonitorPush MonitorCore.
#[local] Open Scope Z_scope.

(** ** Alert keys *)

Definition HOST_KEYS : list string :=
  ["liveness"; "cap:sockets"; "cap:rooms"; "errors"; "exceptions"; "shard_fetch"; "anomaly:requests"; "probe"]%string.
Definition PUSH_KEYS : list string :=
  ["liveness"; "probe"; "apns_timeouts"; "apns_auth"; "push_failures"; "peer_silent"; "peer_outbox"; "peer_skew";
   "peer_dropped"; "peer_rejected"]%string.

Definition keys (l : list alert) : list string := akey <$> l.

Definition host_key (host k : string) : string := host +:+ "|" +:+ k.

Lemma keys_app l1 l2 : keys (l1 ++ l2) = keys l1 ++ keys l2.
Proof. apply fmap_app. Qed.

Lemma keys_hostAlert host l : keys (List.map (hostAlert host true) l) = host_key host <$> keys l.
Proof. induction l as [|a l IH]; [done|]. simpl. f_equal. exact IH. Qed.

(** At most one alert. *)
Lemma keys_option (o : option alert) k : (forall a, o = Some a -> akey a = k) -> keys (option_list o) `sublist_of` [k].
Proof. destruct o as [a|]; intros H; simpl; [rewrite (H a eq_refl)|]; repeat constructor. Qed.

Lemma keys_if (b : bool) a : keys (if b then [a] else []) `sublist_of` [akey a].
Proof. destruct b; repeat constructor. Qed.

Lemma keys_if_nil b a : keys (if b : bool then [] else [a]) `sublist_of` [akey a].
Proof. destruct b; repeat constructor. Qed.

Lemma capAlert_key m a : capAlert m = Some a -> akey a = "cap:" +:+ mkey m.
Proof. unfold capAlert. repeat case_match; by intros [= <-]. Qed.

Lemma rate_alert_keys c t : (forall a, exceptionAlert c t = Some a -> akey a = "exceptions"%string)
  /\ (forall a, shardFetchErrorAlert c t = Some a -> akey a = "shard_fetch"%string).
Proof. unfold exceptionAlert, shardFetchErrorAlert. split; intros a; case_match; by intros [= <-]. Qed.

Lemma errorAlert_key r e t n a : errorAlert r e t n = Some a -> akey a = "errors"%string.
Proof. unfold errorAlert. case_match; [done|]. cbv zeta. case_match; [done|]. by intros [= <-]. Qed.

Lemma anomalyAlert_key k lb c s f d b n a : anomalyAlert k lb c s f d b n = Some a -> akey a = "anomaly:" +:+ k.
Proof. unfold anomalyAlert. repeat case_match; by intros [= <-]. Qed.

Lemma omap_cap_keys l : keys (omap capAlert l) `sublist_of` ((fun m => "cap:" +:+ mkey m) <$> l).
Proof.
  induction l as [|m l IH]; [done|]. simpl. destruct (capAlert m) as [a|] eqn:E.
  - simpl. rewrite (capAlert_key m a E). by apply sublist_skip.
  - by apply sublist_cons.
Qed.

Lemma analyze_keys g i lh h lr c :
  keys (aalerts (analyze g i lh h lr c))
  `sublist_of` ["cap:sockets"; "cap:rooms"; "errors"; "exceptions"; "shard_fetch"; "anomaly:requests"]%string.
Proof.
  unfold analyze. cbv zeta.
  set (caps := capAlerts _). set (rates := if reset i then [] else _).
  assert (Hc : keys caps `sublist_of` ["cap:sockets"; "cap:rooms"]%string) by apply omap_cap_keys.
  assert (Hr : keys rates `sublist_of` ["errors"; "exceptions"; "shard_fetch"]%string).
  { subst rates. destruct (reset i); [apply sublist_nil_l|]. rewrite !keys_app.
    apply (sublist_app _ ["errors"%string] _ ["exceptions"; "shard_fetch"]%string); [apply keys_option, errorAlert_key|].
    apply (sublist_app _ ["exceptions"%string] _ ["shard_fetch"]%string); apply keys_option, rate_alert_keys. }
  assert (Hcr : keys (caps ++ rates) `sublist_of` ["cap:sockets"; "cap:rooms"; "errors"; "exceptions"; "shard_fetch"]%string).
  { rewrite keys_app. by apply (sublist_app _ ["cap:sockets"; "cap:rooms"]%string). }
  destruct lh as [lh|].
  - set (an := anomalyAlert _ _ _ _ _ _ _ _).
    assert (Ha : keys (caps ++ rates ++ option_list an) `sublist_of`
      ["cap:sockets"; "cap:rooms"; "errors"; "exceptions"; "shard_fetch"; "anomaly:requests"]%string).
    { rewrite app_assoc, keys_app. apply (sublist_app _ ["cap:sockets"; "cap:rooms"; "errors"; "exceptions"; "shard_fetch"]%string); [done|].
      apply keys_option. intros a. apply anomalyAlert_key. }
    by case_match.
  - simpl. apply (sublist_app _ ["cap:sockets"; "cap:rooms"; "errors"; "exceptions"; "shard_fetch"]%string [] ["anomaly:requests"]%string) in Hcr;
      [by rewrite app_nil_r in Hcr|apply sublist_nil_l].
Qed.

(** ** Keys of the fleet: a host or a label, a bar, a bare key without one *)

Definition bare (k : string) : bool := negb (includes "|" k) && negb (Nat.ltb (String.length k) 4) && negb (ends_in ":sev" k).

Lemma bare_keys : Forall (fun k => bare k = true) (HOST_KEYS ++ PUSH_KEYS).
Proof. repeat constructor. Qed.

Lemma ends_in_length s k : (String.length k < String.length s)%nat -> ends_in s k = false.
Proof.
  induction k as [|c k IH]; intros H; cbn [ends_in].
  - destruct s; [simpl in H; lia|done].
  - rewrite IH by (simpl in H; lia). rewrite orb_false_r. apply String.eqb_neq. intros <-. lia.
Qed.

Lemma ends_in_suffix s p k : (String.length s <= String.length k)%nat -> ends_in s (p +:+ k) = ends_in s k.
Proof.
  intros H. induction p as [|c p IH]; [done|]. change (String c p +:+ k) with (String c (p +:+ k)). cbn [ends_in]. rewrite IH.
  replace (String.eqb (String c (p +:+ k)) s) with false; [done|]. symmetry. apply String.eqb_neq. intros <-.
  simpl in H. rewrite string_length_app in H. lia.
Qed.

Lemma host_key_plain h k : bare k = true -> plain_key (host_key h k).
Proof.
  intros [[_ Hl]%andb_true_iff Hs]%andb_true_iff. apply negb_true_iff in Hl, Hs. apply Nat.ltb_ge in Hl.
  unfold plain_key, host_key. rewrite (ends_in_suffix _ h); [by rewrite (ends_in_suffix _ "|")|].
  rewrite string_length_app. simpl. lia.
Qed.

Lemma host_key_barred h k : includes "|" (host_key h k) = true.
Proof. unfold host_key. induction h as [|c h IH]; [done|]. simpl. by rewrite IH, orb_true_r. Qed.

Lemma host_key_inj h h' k k' : bare k = true -> bare k' = true -> host_key h k = host_key h' k' -> h = h' /\ k = k'.
Proof.
  intros [[Hk _]%andb_true_iff _]%andb_true_iff [[Hk' _]%andb_true_iff _]%andb_true_iff.
  apply negb_true_iff in Hk, Hk'. unfold host_key.
  revert h'. induction h as [|c h IH]; intros [|c' h'] E; simpl in E.
  - by injection E.
  - injection E as _ E. change ("" +:+ k) with k in E. rewrite E in Hk. fold (host_key h' k') in Hk. by rewrite host_key_barred in Hk.
  - injection E as _ E. change ("" +:+ k') with k' in E. rewrite <-E in Hk'. fold (host_key h k) in Hk'. by rewrite host_key_barred in Hk'.
  - injection E as <- E. by destruct (IH h' E) as [-> ->].
Qed.

Lemma active_or k l1 l2 :
  active k (l1 ++ l2) = match active k l1 with Some a => Some a | None => active k l2 end.
Proof. unfold active. induction l1 as [|a l1 IH]; simpl; [done|]. by destruct (String.eqb (akey a) k). Qed.

Lemma active_count k l : active k l = None <-> countb (fun a => String.eqb (akey a) k) l = O.
Proof. unfold active. induction l as [|a l IH]; simpl; [done|]. destruct (String.eqb (akey a) k); [done|]. by rewrite IH. Qed.

(** The alerts raised about host [h], among those of a host or of a label. *)
Lemma host_alerts_about h k h' (l : list alert) :
  bare k = true -> Forall (fun a => bare (akey a) = true) l ->
  active (host_key h k) (List.map (hostAlert h' true) l)
    = (if String.eqb h' h then hostAlert h' true <$> active k l else None)
  /\ countb (fun a => String.eqb (akey a) (host_key h k)) (List.map (hostAlert h' true) l)
    = (if String.eqb h' h then countb (fun a => String.eqb (akey a) k) l else O).
Proof.
  intros Hk Hl. unfold active. induction Hl as [|a l Ha _ [IH1 IH2]]; simpl; [by destruct (String.eqb h' h)|].
  assert (E : String.eqb (host_key h' (akey a)) (host_key h k) = String.eqb h' h && String.eqb (akey a) k).
  { apply eq_true_iff_eq. rewrite andb_true_iff, !String.eqb_eq. split; [by apply host_key_inj|]. by intros [-> ->]. }
  change (h' +:+ "|" +:+ akey a) with (host_key h' (akey a)). rewrite E, IH1, IH2.
  destruct (String.eqb h' h); simpl; [by destruct (String.eqb (akey a) k)|done].
Qed.

(** ** What the checks of one host raise *)

(** [l] are alerts with these keys in this order, among them a critical alert that
    the host does not report exactly when [n] stale ticks in a row are enough. *)
Definition host_checks (cfg : config) (ks : list string) (n : Z) (l : list alert) : Prop :=
  keys l `sublist_of` ks
  /\ if (0 <? n) && qge (inject_Z n) (alertFailStreak cfg)
     then exists a, active "liveness" l = Some a /\ aseverity a = critical else active "liveness" l = None.

Definition SIDE_KEYS : list string :=
  ["liveness"; "cap:sockets"; "cap:rooms"; "errors"; "exceptions"; "shard_fetch"; "anomaly:requests"]%string.

(** The ticks in a row a host has been stale. *)
Definition next_streak (stale : bool) (n : Z) : Z := if stale then n + 1 else 0.

Lemma stale_checks cfg n detail : 0 <= n ->
  host_checks cfg SIDE_KEYS (n + 1) (if qge (inject_Z (n + 1)) (alertFailStreak cfg) then [livenessAlert detail] else []).
Proof.
  intros Hn. unfold host_checks. rewrite (proj2 (Z.ltb_lt _ _)) by lia. cbn [andb].
  destruct (qge _ _); split; [apply sublist_skip, sublist_nil_l|by eexists|apply sublist_nil_l|done].
Qed.

Lemma push_side_alerts cfg now h latest hs alerts reasons next g :
  push_side cfg now true h latest hs = Ok (alerts, reasons, next, g) -> 0 <= livenessFailStreak hs ->
  livenessFailStreak next = next_streak (is_stale cfg now latest) (livenessFailStreak hs)
  /\ exists b, alerts = List.map (hostAlert h true) b /\ host_checks cfg SIDE_KEYS (livenessFailStreak next) b.
Proof.
  unfold push_side, next_streak. cbv zeta. intros E Hn.
  assert (Hlate : forall detail, Ok (E := string) (if qge (inject_Z (livenessFailStreak hs + 1)) (alertFailStreak cfg)
        then [hostAlert h true (livenessAlert detail)] else [], [akey (livenessAlert detail)],
        HostState (prev hs) (hourAnchor hs) (hhistory hs) (lastRecordedHour hs) (livenessFailStreak hs + 1) (probeFailStreak hs), None)
      = Ok (alerts, reasons, next, g) -> livenessFailStreak next = livenessFailStreak hs + 1
    /\ exists b, alerts = List.map (hostAlert h true) b /\ host_checks cfg SIDE_KEYS (livenessFailStreak next) b).
  { intros detail E1. injection E1 as <- _ <- _. split; [done|]. eexists. split; [|by apply (stale_checks _ _ detail)].
    simpl. by destruct (qge _ _). }
  unfold is_stale. destruct latest as [doc|]; [|exact (Hlate _ E)].
  destruct (qlt (staleMs cfg) (inject_Z (now - receivedAt doc))) eqn:Es; [exact (Hlate _ E)|]. clear Hlate.
  destruct (normalizeSnapshot (snapshot doc)) as [[c gs]|e]; [|done]. simpl in E.
  destruct (rollHour (hourAnchor hs) c (hourKey now)) as [lh anchor]. injection E as <- _ <- _. split; [done|].
  pose proof (analyze_keys gs (deltas (prev hs) c) lh (hhistory hs) (lastRecordedHour hs) cfg) as Hk.
  eexists. split; [done|]. split; [by apply sublist_cons|]. simpl. apply active_none. intros Hin.
  eapply elem_of_sublist in Hin; [|exact Hk].
  rewrite list_elem_of_In in Hin. simpl in Hin. by destruct_or!.
Qed.

(** The inbound probe only adds its own alert. *)
Lemma host_checks_probe cfg n l o : host_checks cfg SIDE_KEYS n l -> (forall a, o = Some a -> akey a = "probe"%string) ->
  host_checks cfg HOST_KEYS n (l ++ option_list o).
Proof.
  intros [Hk Ha] Ho. split.
  - rewrite keys_app. apply (sublist_app _ SIDE_KEYS _ ["probe"]%string); [done|]. by apply keys_option.
  - rewrite active_or. replace (active "liveness" (option_list o)) with (@None alert);
      [by destruct (_ && _); [destruct Ha as (a & -> & ?); eexists|rewrite Ha]|].
    destruct o as [a|]; [|done]. unfold active. simpl. by rewrite (Ho a eq_refl).
Qed.

Lemma check_host_alerts e cfg d now map latest hs h alerts next card :
  is_fleet e = true -> check_host e cfg d now map latest hs h = Ok (alerts, next, card) -> 0 <= livenessFailStreak hs ->
  livenessFailStreak next = next_streak (is_stale cfg now latest) (livenessFailStreak hs)
  /\ exists b, alerts = List.map (hostAlert h true) b /\ host_checks cfg HOST_KEYS (livenessFailStreak next) b.
Proof.
  unfold is_fleet, check_host. intros -> E Hn.
  destruct (push_side cfg now true h latest hs) as [[[[a r] nx] g]|err] eqn:Es; [|done]. simpl in E.
  destruct (push_side_alerts _ _ _ _ _ _ _ _ _ Es Hn) as [Hs (b & -> & Hb)].
  destruct (host_probe e cfg d map h) as [[p|]|err]; [| |done]; simpl in E; injection E as <- <- _; (split; [done|]).
  - exists (b ++ option_list (if negb (ok p) && qge (inject_Z (if ok p then 0 else probeFailStreak hs + 1)) (alertFailStreak cfg)
                              then Some (probeAlert (pdetail p)) else None)).
    rewrite List.map_app. split; [|apply host_checks_probe; [done|intros ?; case_match; by intros [= <-]]]. by destruct (_ && _).
  - exists b. split; [done|]. rewrite <-(app_nil_r b). by apply (host_checks_probe _ _ _ None).
Qed.

(** ** What a tick raises about one host *)

Definition down_key (h : string) : string := host_key h "liveness".

(** Among the alerts of a tick, host [h] is reported silent, once and critically,
    exactly when [n] stale ticks in a row are enough. *)
Definition reports (cfg : config) (h : string) (n : Z) (l : list alert) : Prop :=
  Forall plain_key (akey <$> l) /\ once (down_key h) l
  /\ if (0 <? n) && qge (inject_Z n) (alertFailStreak cfg)
     then exists a, active (down_key h) l = Some a /\ aseverity a = critical else active (down_key h) l = None.

(** Nothing is said of [h]. *)
Definition silent_on (h : string) (l : list alert) : Prop :=
  Forall plain_key (akey <$> l) /\ active (down_key h) l = None.

Lemma silent_once h l : silent_on h l -> countb (fun a => String.eqb (akey a) (down_key h)) l = O.
Proof. intros [_ H]. by apply active_count. Qed.

Lemma silent_app h l1 l2 : silent_on h l1 -> silent_on h l2 -> silent_on h (l1 ++ l2).
Proof. intros [H1 H2] [H3 H4]. split; [rewrite fmap_app; by apply Forall_app|]. by rewrite active_or, H2. Qed.

Lemma reports_silent cfg h n l1 l2 l3 : silent_on h l1 -> reports cfg h n l2 -> silent_on h l3 -> reports cfg h n (l1 ++ l2 ++ l3).
Proof.
  intros S1 (Hp & Ho & Ha) S3. pose proof (silent_once _ _ S1) as C1. pose proof (silent_once _ _ S3) as C3.
  destruct S1 as [P1 A1], S3 as [P3 A3]. split_and!.
  - rewrite !fmap_app. by repeat apply Forall_app_2.
  - unfold once in *. rewrite !countb_app. lia.
  - rewrite !active_or, A1. destruct (_ && _); [destruct Ha as (a & -> & ?); by exists a|by rewrite Ha].
Qed.

Lemma silent_reports cfg h l : silent_on h l -> reports cfg h 0 l.
Proof. intros H. pose proof (silent_once _ _ H). destruct H as [H1 H2]. split_and!; [done|unfold once; lia|done]. Qed.

Lemma host_alerts_plain h' l : Forall (fun a => bare (akey a) = true) l -> Forall plain_key (akey <$> List.map (hostAlert h' true) l).
Proof.
  induction 1 as [|a l Ha _ IH]; simpl; [constructor|]. constructor; [|done].
  change (h' +:+ "|" +:+ akey a) with (host_key h' (akey a)). by apply host_key_plain.
Qed.

(** Other hosts, and push relays of another label, say nothing of [h]. *)
Lemma others_silent h h' l : h' <> h -> Forall (fun a => bare (akey a) = true) l -> silent_on h (List.map (hostAlert h' true) l).
Proof.
  intros Hne Hl. split; [by apply host_alerts_plain|].
  unfold down_key. rewrite (proj1 (host_alerts_about h "liveness" h' l eq_refl Hl)). by rewrite (proj2 (String.eqb_neq _ _)).
Qed.

Lemma host_bare l : keys l `sublist_of` HOST_KEYS -> Forall (fun a => bare (akey a) = true) l.
Proof.
  intros Hk. apply Forall_forall. intros a Ha. pose proof bare_keys as Hb. rewrite Forall_app in Hb. destruct Hb as [Hb _].
  rewrite Forall_forall in Hb. apply Hb. eapply elem_of_sublist; [|exact Hk]. by apply list_elem_of_fmap_2.
Qed.

Lemma own_reports cfg h n l : host_checks cfg HOST_KEYS n l -> reports cfg h n (List.map (hostAlert h true) l).
Proof.
  intros [Hk Ha]. pose proof (host_bare _ Hk) as Hb. split; [by apply host_alerts_plain|]. unfold down_key.
  destruct (host_alerts_about h "liveness" h l eq_refl Hb) as [-> Hc]. rewrite String.eqb_refl in Hc |- *. split.
  - unfold once. rewrite Hc. change (countb (fun a => String.eqb (akey a) "liveness") l) with
      (countb (fun a => (fun k => String.eqb k "liveness") (akey a)) l).
    assert (Hm : forall l k, sublist (keys l) k -> (countb (fun a => String.eqb (akey a) "liveness") l <= countb (fun k => String.eqb k "liveness") k)%nat).
    { clear. induction l as [|a l IH]; intros k Hk; simpl; [lia|]. apply sublist_cons_l in Hk as (k1 & k2 & -> & Hk).
      specialize (IH _ Hk). rewrite countb_app. cbn [countb]. lia. }
    apply (Hm _ _ Hk).
  - destruct (_ && _); [destruct Ha as (a & -> & Hs); by eexists|by rewrite Ha].
Qed.

Definition streak_in (h : string) (l : list (string * host_state)) : Z :=
  livenessFailStreak (default no_host_state (find_state h l)).

Lemma find_state_none {A} h (l : list (string * A)) : h ∉ List.map fst l -> find_state h l = None.
Proof.
  induction l as [|[k v] l IH]; simpl; [done|]. rewrite not_elem_of_cons. intros [Hne Hl].
  rewrite (proj2 (String.eqb_neq _ _)) by done. by apply IH.
Qed.

Lemma check_hosts_reports e cfg d now map latest st l alerts states cards h :
  is_fleet e = true -> check_hosts e cfg d now map latest st l = Ok (alerts, states, cards) -> NoDup l ->
  (forall k, 0 <= streak_in k (hosts st)) ->
  List.map fst states = l
  /\ streak_in h states = (if bool_decide (h ∈ l)
                           then next_streak (is_stale cfg now (latest (latestKeyFor h))) (streak_in h (hosts st)) else 0)
  /\ reports cfg h (streak_in h states) alerts.
Proof.
  intros Hf E Hnd Hn. revert alerts states cards E. induction Hnd as [|k l Hk Hnd IH]; intros alerts states cards E.
  { injection E as <- <- _. split_and!; [done..|]. apply silent_reports. by split. }
  cbn [check_hosts] in E.
  destruct (check_host _ _ _ _ _ _ _ k) as [[[a s] c]|err] eqn:E1; [|done]. simpl in E.
  destruct (check_hosts _ _ _ _ _ _ _ l) as [[[al sl] cl]|err]; [|done]. simpl in E. injection E as <- <- _.
  destruct (IH _ _ _ eq_refl) as (IHk & IHs & IHr). pose proof (check_host_alerts _ _ _ _ _ _ _ _ _ _ _ Hf E1 (Hn k)) as (Hs & b & -> & Hb).
  split; [simpl; by f_equal|]. unfold streak_in at 1 3. cbn [find_state]. destruct (String.eqb k h) eqn:Ek.
  - apply String.eqb_eq in Ek as <-. simpl. rewrite bool_decide_eq_true_2 by by left. split; [done|].
    apply (reports_silent _ _ _ [] _ al); [by split|by apply own_reports|].
    rewrite bool_decide_eq_false_2 in IHs by done. rewrite IHs in IHr. by destruct IHr as (? & _ & ?).
  - apply String.eqb_neq in Ek. fold (streak_in h sl). rewrite IHs at 1. split.
    + apply f_equal with (f := fun b : bool => if b then _ else _). apply bool_decide_ext. rewrite elem_of_cons. naive_solver.
    + rewrite <-(app_nil_r al). apply (reports_silent _ _ _ _ al []); [|done|by split].
      destruct Hb as [Hb _]. apply others_silent; [done|by apply host_bare].
Qed.

Lemma push_alert_keys i c a : a ∈ pushAlerts i c -> akey a ∈ PUSH_KEYS.
Proof.
  unfold pushAlerts. destruct i as [i|]; [|by intros ?%elem_of_nil]. cbv zeta. rewrite !elem_of_app.
  intros [Ha|[Ha|Ha]]; case_match; try (by apply elem_of_nil in Ha); apply list_elem_of_singleton in Ha as ->; set_solver.
Qed.

Lemma peer_alert_keys p q n c now since a : a ∈ peerAlerts p q n c now since -> akey a ∈ PUSH_KEYS.
Proof.
  unfold peerAlerts. destruct p as [p|]; [|by intros ?%elem_of_nil]. cbv zeta. rewrite !elem_of_app.
  intros [Ha|[Ha|[Ha|Ha]]]; repeat case_match; rewrite ?elem_of_app in Ha; destruct_or?;
    try (by apply elem_of_nil in Ha); repeat case_match; try (by apply elem_of_nil in Ha);
    apply list_elem_of_singleton in Ha as ->; set_solver.
Qed.

Lemma check_push_alerts cfg d now st r a s c h :
  check_push cfg d now st r = (a, s, c) -> label r <> h -> silent_on h a.
Proof.
  unfold check_push. intros [= <- _ _] Hne. apply others_silent; [done|].
  assert (Hb : forall b, akey b ∈ PUSH_KEYS -> bare (akey b) = true).
  { intros b Hb. pose proof bare_keys as Hk. rewrite Forall_app, !Forall_forall in Hk. by apply Hk. }
  apply Forall_forall. intros b Hin. apply Hb. rewrite !elem_of_app in Hin. destruct Hin as [Hin|[Hin|[Hin|Hin]]].
  - repeat case_match; try (by apply elem_of_nil in Hin); apply list_elem_of_singleton in Hin as ->; set_solver.
  - repeat case_match; try (by apply elem_of_nil in Hin); apply list_elem_of_singleton in Hin as ->; set_solver.
  - by eapply push_alert_keys.
  - by eapply peer_alert_keys.
Qed.

Lemma check_pushes_silent cfg d now st l a s c h :
  check_pushes cfg d now st l = (a, s, c) -> h ∉ label <$> l -> silent_on h a.
Proof.
  unfold check_pushes. intros E Hl. revert a s c E.
  induction l as [|r l IH] using rev_ind; intros a s c E; [injection E as <- _ _; by split|].
  rewrite fold_left_app in E. cbn [fold_left] in E.
  rewrite fmap_app, not_elem_of_app in Hl. destruct Hl as [Hl Hr].
  destruct (fold_left _ l _) as [[a0 s0] c0]. specialize (IH Hl _ _ _ eq_refl).
  destruct (check_push cfg d now st r) as [[a1 s1] c1] eqn:E1. injection E as <- _ _.
  apply silent_app; [done|]. eapply check_push_alerts; [exact E1|]. intros <-. apply Hr. by left.
Qed.

Lemma map_alert_silent h (o : option string) (b : bool) :
  silent_on h (match o with Some err => if b then [probeAlert ("shard map fetch failed: " +:+ err)] else [] | None => [] end).
Proof.
  destruct o as [err|]; [|by split]. destruct b; [|by split].
  split; [by repeat constructor|]. apply active_none. intros [E|Hin]%elem_of_cons; [|by apply elem_of_nil in Hin].
  pose proof (host_key_barred h "liveness") as Hb. unfold down_key in E. by rewrite E in Hb.
Qed.

(** ** A run of ticks *)

(** What a tick meets: the time, the outside world, the snapshots stored. *)
Record tick_in := TickIn { tnow : Z; tdeps : deps; tlatest : string -> option latest_doc }.

(** The ticks that completed; one that throws leaves the state as it was. *)
Fixpoint ticks (e : env) (l : list tick_in) (st : option monitor_state) : list (tick_in * tick) :=
  match l with
  | [] => []
  | i :: l' => match run e (tnow i) false (tdeps i) (tlatest i) st with
               | Ok t => (i, t) :: ticks e l' (tstate t)
               | Err _ => ticks e l' st
               end
  end.

(** What a tick mailed, and whether its mail, if any, went out. *)
Definition mail_of (p : tick_in * tick) : list alert := match tmail p.2 with Some (due, true) => due | _ => [] end.
Definition sent_out (p : tick_in * tick) : bool := match tmail p.2 with Some (_, sent) => sent | None => true end.

(** The map a tick has, if it could be fetched. *)
Definition map_of (i : tick_in) : option json := match fetchMap (tdeps i) with Ok j => nonfalsy j | Err _ => None end.

(** Completed ticks, the last one first: whether the last knew of host [h] from
    its map or, without one, from the ticks before. *)
Fixpoint watching (h : string) (past : list tick_in) : bool :=
  match past with
  | [] => false
  | i :: past' => match map_of i with
                  | Some m => match mapHosts m with Ok l => bool_decide (h ∈ l) | Err _ => false end
                  | None => watching h past'
                  end
  end.

(** For how many of these ticks in a row, up to the last, [h] was watched and had
    no snapshot fresh enough. *)
Fixpoint down_for (cfg : config) (h : string) (past : list tick_in) : Z :=
  match past with
  | [] => 0
  | i :: past' => if watching h past && is_stale cfg (tnow i) (tlatest i (latestKeyFor h)) then down_for cfg h past' + 1 else 0
  end.

#[local] Arguments parseConfig : simpl never.

Section Run.
Context (e : env) (Hf : is_fleet e = true).
#[local] Abbreviation cfg := (parseConfig e).

Lemma down_for_nonneg h past : 0 <= down_for cfg h past.
Proof. induction past as [|i past IH]; cbn [down_for]; [done|]. case_match; lia. Qed.

(** The state holds the hosts watched and how long each has been down. *)
Definition tracks (past : list tick_in) (st : monitor_state) : Prop :=
  NoDup (List.map fst (hosts st))
  /\ forall h, streak_in h (hosts st) = down_for cfg h past /\ bool_decide (h ∈ List.map fst (hosts st)) = watching h past.

Lemma no_state_tracks : tracks [] no_state.
Proof. split; [constructor|]. by intros h. Qed.

Lemma mapHosts_nodup m l : mapHosts m = Ok l -> NoDup l.
Proof.
  unfold mapHosts. destruct (map_ranges m) as [rs|err]; [|done]. simpl. intros [= <-].
  assert (H : forall rs acc, NoDup acc -> NoDup (fold_left add_host rs acc)); [|apply H; constructor].
  clear. induction rs as [|r rs IH]; intros acc Ha; simpl; [done|]. apply IH. unfold add_host.
  repeat case_match; try done. apply NoDup_app. split_and!; [done| |by apply NoDup_singleton].
  intros x Hx ->%list_elem_of_singleton. by eapply bool_decide_eq_false in Hx.
Qed.

(** The hosts a tick watches are those of the specification. *)
Lemma watched_watching i past st hs :
  tracks past st -> watched true (map_of i) st = Ok hs ->
  NoDup hs /\ forall h, bool_decide (h ∈ hs) = watching h (i :: past).
Proof.
  intros [Hn Ht]. unfold watched. cbn [watching]. destruct (map_of i) as [m|]; intros E.
  - rewrite E. split; [by eapply mapHosts_nodup|done].
  - injection E as <-. split; [done|]. intros h. apply Ht.
Qed.

(** A tick keeps track, and reports a host exactly when it has been down for long
    enough. *)
Lemma check_all_tracks i past st c :
  tracks past st -> check_all e (tnow i) (tdeps i) (tlatest i) st = Ok c ->
  (forall mem, tracks (i :: past) (MonitorState (cnext_hosts c) (cmap_streak c) (cnext_pushes c) None mem))
  /\ forall h, h ∉ label <$> pushRelaysFromEnv e -> reports cfg h (down_for cfg h (i :: past)) (craised c).
Proof.
  unfold check_all. rewrite Hf. cbv zeta. intros Htr E.
  fold (map_of i) in E.
  destruct (watched true (map_of i) st) as [hs|err] eqn:Ew; [|done]. simpl in E.
  destruct (watched_watching _ _ _ _ Htr Ew) as [Hnd Hw]. destruct Htr as [_ Htr].
  destruct (check_hosts _ _ _ _ _ _ _ hs) as [[[al sl] cl]|err] eqn:Eh; [|done]. simpl in E.
  destruct (check_pushes _ _ _ _ _) as [[pa ps] pc] eqn:Ep. injection E as <-. cbn [craised cnext_hosts cmap_streak cnext_pushes].
  assert (Hr : forall h, List.map fst sl = hs /\ streak_in h sl = down_for cfg h (i :: past)
                         /\ reports cfg h (streak_in h sl) al).
  { intros h. destruct (check_hosts_reports _ _ _ _ _ _ _ _ _ _ _ h Hf Eh Hnd) as (H1 & H2 & H3).
    { intros k. destruct (Htr k) as [-> _]. apply down_for_nonneg. }
    split_and!; [done| |done]. rewrite H2, Hw. destruct (Htr h) as [-> _]. cbn [down_for].
    destruct (watching h (i :: past)); [|done]. unfold next_streak. by destruct (is_stale _ _ _). }
  split.
  - intros mem. unfold tracks. cbn [hosts]. destruct (Hr ""%string) as (-> & _ & _). split; [done|].
    intros h. destruct (Hr h) as (_ & ? & _). by split.
  - intros h Hl. destruct (Hr h) as (_ & <- & H). apply reports_silent; [apply map_alert_silent|done|by eapply check_pushes_silent].
Qed.

(** One tick is one round of mail. *)
Lemma run_round i past kept t :
  tracks past (default no_state kept) -> run e (tnow i) false (tdeps i) (tlatest i) kept = Ok t ->
  exists r st, round_step (cooldownMs cfg) r (sentAt (default no_state kept)) = (mail_of (i, t), sent_out (i, t), sentAt st)
    /\ tstate t = Some st /\ at_ r = tnow i /\ tracks (i :: past) st
    /\ forall h, h ∉ label <$> pushRelaysFromEnv e -> reports cfg h (down_for cfg h (i :: past)) (raised r).
Proof.
  unfold run. intros Htr E. destruct (check_all _ _ _ _ _) as [c|err] eqn:Ec; [|done].
  destruct (check_all_tracks _ _ _ _ Htr Ec) as [Ht Hr]. cbn [rbind] in E.
  destruct (dueAlerts (craised c) (sentAt (default no_state kept)) (tnow i) (cooldownMs cfg)) as [due s'] eqn:Ed.
  set (ok := match sendEmail (tdeps i) due with Ok _ => true | Err _ => false end) in E.
  exists (Round (tnow i) (craised c) ok). unfold round_step. cbn [raised at_ mail_ok]. rewrite Ed.
  unfold send_due in E |- *. injection E as <-.
  eexists. split; [|by split_and!]. unfold mail_of, sent_out. simpl.
  destruct due as [|a due]; simpl; [done|]. by destruct ok.
Qed.

(** Each tick with all the ticks up to it, the last one first. *)
Fixpoint with_past (past : list tick_in) (l : list (tick_in * tick)) : list ((tick_in * tick) * list tick_in) :=
  match l with [] => [] | p :: l' => (p, p.1 :: past) :: with_past (p.1 :: past) l' end.

(** A tick as a round of mail. *)
Definition same_tick (h : string) (x : (tick_in * tick) * list tick_in) (o : outcome_of_round) : Prop :=
  mailed o = mail_of x.1 /\ delivered o = sent_out x.1 /\ time_of o = tnow x.1.1
  /\ reports cfg h (down_for cfg h x.2) (raised (of_round o)).

Lemma ticks_rounds h l past kept :
  h ∉ label <$> pushRelaysFromEnv e -> tracks past (default no_state kept) ->
  exists rs t s, rounds (cooldownMs cfg) rs (sentAt (default no_state kept)) = (t, s)
    /\ rs = of_round <$> t /\ Forall2 (same_tick h) (with_past past (ticks e l kept)) t.
Proof.
  intros Hh. revert past kept. induction l as [|i l IH]; intros past kept Ht.
  { exists [], [], (sentAt (default no_state kept)). split_and!; [done..|constructor]. }
  cbn [ticks]. destruct (run e (tnow i) false (tdeps i) (tlatest i) kept) as [t|err] eqn:Er; [|by apply IH].
  destruct (run_round _ _ _ _ Ht Er) as (r & st & Hr & Hst & Hat & Ht' & Hrep). rewrite Hst.
  destruct (IH (i :: past) (Some st) Ht') as (rs & tr & s & Hrs & -> & Hall). change (default no_state (Some st)) with st in Hrs.
  exists (r :: (of_round <$> tr)), (Ran r (mail_of (i, t)) (sent_out (i, t)) :: tr), s. split_and!; [|done|].
  - cbn [rounds]. rewrite Hr, Hrs. done.
  - constructor; [|done]. split_and!; [done..|]. by apply Hrep.
Qed.

Lemma fail_streak_positive : (1 <= alertFailStreak cfg)%Q.
Proof.
  unfold parseConfig. cbn [alertFailStreak]. unfold qmax. destruct (Qle_bool _ _) eqn:E; [by apply Qle_bool_iff|apply Qle_refl].
Qed.

(** Down for as many ticks as an alert takes. *)
Definition enough (h : string) (x : (tick_in * tick) * list tick_in) : Prop :=
  (alertFailStreak cfg <= inject_Z (down_for cfg h x.2))%Q.

Lemma enough_active h x o : same_tick h x o -> (active_at (down_key h) o <> None <-> enough h x).
Proof.
  intros (_ & _ & _ & _ & _ & Ha). unfold active_at, enough. pose proof fail_streak_positive as Hp.
  destruct (qge (inject_Z (down_for cfg h x.2)) (alertFailStreak cfg)) eqn:Eq.
  - apply qge_spec in Eq. assert (0 < down_for cfg h x.2).
    { apply Z.lt_le_trans with (m := 1); [lia|]. rewrite Zle_Qle. by eapply Qle_trans; [apply Hp|]. }
    rewrite (proj2 (Z.ltb_lt _ _)) in Ha by done. destruct Ha as (a & -> & _). done.
  - rewrite andb_false_r in Ha. rewrite Ha. split; [done|]. intros H. apply qge_spec in H. congruence.
Qed.

Lemma active_critical h x o a : same_tick h x o -> active_at (down_key h) o = Some a -> aseverity a = critical.
Proof.
  intros (_ & _ & _ & _ & _ & Ha) E. unfold active_at in E. destruct (_ && _) in Ha; [|congruence].
  destruct Ha as (b & Eb & Hb). congruence.
Qed.

Lemma stays_enough h l t : Forall2 (same_tick h) l t ->
  (stays_active (down_key h) t <-> Forall (fun x => sent_out x.1 = true -> enough h x) l).
Proof.
  unfold stays_active. induction 1 as [|x o l t Hs _ IH]; [done|]. rewrite !Forall_cons, IH.
  rewrite (enough_active h x o Hs). destruct Hs as (_ & -> & _). done.
Qed.

Lemma stays_critical h l t s : Forall2 (same_tick h) l t -> s = critical -> last_severity (down_key h) s t = critical.
Proof.
  unfold last_severity. intros Hall. revert s. induction Hall as [|x o l t Hs _ IH]; intros s Es; [done|]. simpl.
  destruct (active_at (down_key h) o) as [a|] eqn:Ea; [|by apply IH]. apply IH. destruct (delivered o); [|done].
  by eapply active_critical.
Qed.

Lemma same_clean h l t : Forall2 (same_tick h) l t -> Forall (clean (down_key h)) (of_round <$> t).
Proof. induction 1 as [|x o l t (_ & _ & _ & Hp & Ho & _) _ IH]; simpl; constructor; by try split. Qed.

Lemma same_times h l t : Forall2 (same_tick h) l t -> (fun x => tnow x.1.1) <$> l = at_ <$> (of_round <$> t).
Proof. induction 1 as [|x o l t (_ & _ & Ht & _) _ IH]; simpl; [done|]. by f_equal. Qed.
End Run.

(** What a dead man's switch does for relay [h], over ticks each with those up to it:
    (1) a mail says that the host stopped reporting only if it has been without a
    fresh snapshot for ALERT_FAIL_STREAK watched ticks in a row; (2) whenever it has,
    and the tick's mail did not fail, a mail saying so went out less than a cooldown
    before, the host being down ever since; and (3) two such mails in one outage are a
    cooldown apart. *)
Definition dead_mans_switch (e : env) (h : string) (t : list ((tick_in * tick) * list tick_in)) : Prop :=
  (forall p, p ∈ t -> down_key h ∈ akey <$> mail_of p.1 -> enough e h p)
  /\ (forall t1 p t2, t = t1 ++ p :: t2 -> sent_out p.1 = true -> enough e h p -> (0 < cooldownMs (parseConfig e))%Q ->
        exists u1 q u2, t1 ++ [p] = u1 ++ q :: u2 /\ down_key h ∈ akey <$> mail_of q.1
          /\ Forall (fun x => sent_out x.1 = true -> enough e h x) u2
          /\ (inject_Z (tnow p.1.1 - tnow q.1.1) < cooldownMs (parseConfig e))%Q)
  /\ (forall t1 p t2 q t3, t = t1 ++ p :: t2 ++ q :: t3 ->
        down_key h ∈ akey <$> mail_of p.1 -> down_key h ∈ akey <$> mail_of q.1 ->
        Forall (fun x => sent_out x.1 = true -> enough e h x) t2 ->
        (cooldownMs (parseConfig e) <= inject_Z (tnow q.1.1 - tnow p.1.1))%Q).

(** Over any run of ticks from an empty state, with whatever map, probe and mail
    failures and with ticks that throw left out. *)
Lemma silent_host_is_mailed (e : env) (l : list tick_in) (h : string) (t : list ((tick_in * tick) * list tick_in)) :
  is_fleet e = true -> h ∉ label <$> pushRelaysFromEnv e ->
  with_past [] (ticks e l None) = t -> StronglySorted Z.le ((fun x => tnow x.1.1) <$> t) ->
  dead_mans_switch e h t.
Proof.
  intros Hf Hh Et Hsort. unfold dead_mans_switch. pose proof (host_key_plain h "liveness" eq_refl) as Hk.
  destruct (ticks_rounds e Hf h l [] None Hh (no_state_tracks e)) as (rs & tr & s & Hrs & -> & Hall).
  rewrite Et in Hall. pose proof (same_clean _ _ _ _ Hall) as Hc.
  rewrite (same_times _ _ _ _ Hall) in Hsort. split_and!.
  - intros p Hp Hm. apply list_elem_of_lookup in Hp as [i Hi]. destruct (Forall2_lookup_l _ _ _ _ _ Hall Hi) as (o & Ho & Hs).
    apply (enough_active e h p o Hs). eapply (mailed_active _ _ Hk _ _ _ o Hc Hrs); [by eapply list_elem_of_lookup_2|].
    unfold mailed_at. by rewrite (proj1 Hs).
  - intros t1 p t2 -> Hd He Hpos. apply Forall2_app_inv_l in Hall as (T1 & T2 & Ht1 & Hall & ->).
    apply Forall2_cons_inv_l in Hall as (o & T3 & Hs & _ & ->). pose proof Hs as (_ & Hd' & Hti & _).
    destruct (mail_in_time _ _ Hk _ T1 o T3 _ Hc Hrs) as (U1 & o0 & U2 & EU & Hm & Hst & Hlt); [congruence| |done|].
    { by apply (enough_active e h p o Hs). }
    assert (Hcut : Forall2 (same_tick e h) (t1 ++ [p]) (U1 ++ o0 :: U2)).
    { rewrite <-EU. apply Forall2_app; [done|]. by constructor. }
    apply Forall2_app_inv_r in Hcut as (u1 & u2 & _ & Hcut & ->). apply Forall2_cons_inv_r in Hcut as (q & u3 & Hq & Hu & ->).
    exists u1, q, u3. split; [done|]. rewrite <-(stays_enough e h u3 U2 Hu). pose proof Hq as (<- & _ & <- & _).
    by rewrite <-Hti.
  - intros t1 p t2 q t3 -> Hp Hq Hst. apply Forall2_app_inv_l in Hall as (T1 & T2 & _ & Hall & ->).
    apply Forall2_cons_inv_l in Hall as (o & T3 & Ho & Hall & ->).
    apply Forall2_app_inv_l in Hall as (T4 & T5 & Hmid & Hall & ->). apply Forall2_cons_inv_l in Hall as (o' & T6 & Ho' & _ & ->).
    rewrite <-(stays_enough e h t2 T4 Hmid) in Hst. pose proof Ho as (Em & _ & <- & _). pose proof Ho' as (Em' & _ & <- & _).
    rewrite <-Em in Hp. rewrite <-Em' in Hq.
    destruct (mailed_active _ _ Hk _ _ _ o Hc Hrs ltac:(set_solver) Hp) as [_ Ha].
    destruct (mailed_active _ _ Hk _ _ _ o' Hc Hrs ltac:(set_solver) Hq) as [_ Ha'].
    destruct (active_at _ o) as [a|] eqn:Ea; [|done]. destruct (active_at _ o') as [a'|] eqn:Ea'; [|done].
    refine (mails_apart _ _ Hk _ T1 o T4 o' T6 _ a a' Hc Hrs Hsort Hp Hq Hst Ea Ea' _).
    rewrite (stays_critical e h t2 T4 _ Hmid); [by intros []|exact (active_critical e h p o a Ho Ea)].
Qed.

(** A relay that never reports: the map names it in the first tick and cannot be
    fetched in the second, and the first mail past the cooldown fails. *)
Definition silent_deps (served : result string json) (mail : result string unit) : deps :=
  Deps served (fun _ _ => Probe true "ok") (fun _ _ => Ok None) (fun _ => Err "no"%string) (fun _ => Probe true "ok")
    (fun _ => mail) (fun _ => None).

Definition silent_env : env := {[ "SHARD_MAP_URL" := "https://map.example/map.json" ]}%string.

Definition silent_ticks : list tick_in :=
  let served := Ok (JObj [("ranges", JArr [JObj [("host", JStr "r1.example")]])]%string) in
  let tick_at ms m mail := TickIn ms (silent_deps m mail) (fun _ => None) in
  [tick_at 0 served (Ok tt); tick_at 300000 (Err "HTTP 503"%string) (Ok tt); tick_at 600000 served (Ok tt);
   tick_at 21900000 served (Err "Resend 503"%string); tick_at 22200000 served (Ok tt)].

Lemma silent_ticks_mailed :
  let t := with_past [] (ticks silent_env silent_ticks None) in
  List.map (fun x => length (mail_of x.1)) t = [0; 1; 0; 0; 1]%nat
  /\ (exists x, t !! 1%nat = Some x /\ enough silent_env "r1.example" x)
  /\ (cooldownMs (parseConfig silent_env) <= inject_Z (22200000 - 300000))%Q.
Proof.
  cbv zeta. remember (with_past [] (ticks silent_env silent_ticks None)) as t eqn:Et. symmetry in Et.
  assert (Hh : "r1.example"%string ∉ label <$> pushRelaysFromEnv silent_env).
  { intros Hin. apply list_elem_of_In in Hin. vm_compute in Hin. done. }
  assert (Hsort : StronglySorted Z.le ((fun x => tnow x.1.1) <$> t)).
  { subst t. vm_compute. repeat constructor; done. }
  destruct (silent_host_is_mailed silent_env silent_ticks "r1.example" t eq_refl Hh Et Hsort) as (H1 & _ & H3).
  split; [subst t; by vm_compute|].
  subst t. vm_compute (with_past _ _) in H1, H3 |- *. split.
  - eexists. split; [reflexivity|]. apply H1; [by right; left|by left].
  - refine (H3 [_] _ [_; _] _ [] eq_refl _ _ _); [by left|by left|].
    repeat constructor; intros _; by vm_compute.
Qed.
