(* ===== verification/MonitorServer.v ===== *)
(** The monitor's HTTP side ([monitor/src/server.js]): who may push a snapshot, see
    the dashboard or use the operator tools; what a push stores; the dashboard's
    refresh of the last tick's verdicts; the settings the process refuses to start
    without.

    A request comes with what the runtime's URL parser, header parser and socket
    make of it. *)

From Stdlib Require Import QArith Ascii.
From S2P Require Import Prelude Bytes Utf8 Json Monitor MonitorFleet MonitorPush MonitorCore.
#[local] Open Scope Z_scope.

(** ** Secrets *)

(** [secretEquals]: the comparison in constant time compares. *)
Definition secretEquals (a expected : option string) : bool :=
  match expected, a with
  | Some e, Some a =>
      if String.eqb e "" then false else
      let ab := utf8 a in
      let eb := utf8 e in
      if negb (length ab =? length eb)%nat then false else bool_decide (ab = eb)
  | _, _ => false
  end.

(** [s.slice(p.length)] where [s] starts with [p], letters compared without case. *)
Fixpoint drop_prefix_ci (p : string) (l : list ascii) : option (list ascii) :=
  match p, l with
  | EmptyString, _ => Some l
  | String a p', c :: l' => if Ascii.eqb (lower_char a) (lower_char c) then drop_prefix_ci p' l' else None
  | String _ _, [] => None
  end.

Definition line_end (c : ascii) : bool := is_char 10 c || is_char 13 c.

(** The capture of [/^<scheme>\s+(.+)$/i]: white space is taken as far as it goes,
    and given back one character at a time where nothing else is left. *)
Definition credentials (scheme : string) (header : string) : option string :=
  rest ← drop_prefix_ci scheme (String.list_ascii_of_string header);
  let '(ws, r) := take_while is_js_space rest in
  match r with
  | [] => match rev ws with
          | c :: _ :: _ => if line_end c then None else Some (text_of [c])
          | _ => None
          end
  | _ => match ws with
         | [] => None
         | _ => if existsb line_end r then None else Some (text_of r)
         end
  end.

Definition bearerOk (authHeader : option string) (expected : option string) : bool :=
  match credentials "Bearer" (default ""%string authHeader) with
  | Some token => secretEquals (Some token) expected
  | None => false
  end.

(** [decoded.slice(decoded.indexOf(":") + 1)]; the whole text without a colon *)
Fixpoint after_colon (s : string) : option string :=
  match s with
  | EmptyString => None
  | String c s' => if is_char 58 c then Some s' else after_colon s'
  end.

(** ** Percent escapes *)

(** [inr] the byte of an escape; a percent sign without two digits is an error. *)
Fixpoint escapes (l : list ascii) : option (list (ascii + Z)) :=
  match l with
  | [] => Some []
  | c :: r =>
      if is_char 37 c then
        match r with
        | a :: b :: r' => h ← hex_any a; k ← hex_any b; t ← escapes r'; Some (inr (h * 16 + k) :: t)
        | _ => None
        end
      else t ← escapes r; Some (inl c :: t)
  end.

(** Escaped bytes are UTF-8, each sequence escaped from its first byte to its last. *)
Fixpoint join_escapes (l : list (ascii + Z)) : option (list ascii) :=
  match l with
  | [] => Some []
  | inl c :: r => cons c <$> join_escapes r
  | inr b :: r =>
      match continuations b with
      | None => None
      | Some O => cons (char_of_Z b) <$> join_escapes r
      | Some n =>
          match r with
          | inr c1 :: r1 =>
              if negb (second_byte b c1) then None else
              match n with
              | 1%nat => (fun t => [char_of_Z b; char_of_Z c1] ++ t) <$> join_escapes r1
              | _ => match r1 with
                     | inr c2 :: r2 =>
                         if negb (continuation c2) then None else
                         match n with
                         | 2%nat => (fun t => [char_of_Z b; char_of_Z c1; char_of_Z c2] ++ t) <$> join_escapes r2
                         | _ => match r2 with
                                | inr c3 :: r3 =>
                                    if negb (continuation c3) then None else
                                    (fun t => [char_of_Z b; char_of_Z c1; char_of_Z c2; char_of_Z c3] ++ t) <$> join_escapes r3
                                | _ => None
                                end
                         end
                     | _ => None
                     end
              end
          | _ => None
          end
      end
  end.

(** [decodeURIComponent]; [None] is the [URIError] it throws. *)
Definition decodeURIComponent (s : string) : option string :=
  text_of <$> (escapes (String.list_ascii_of_string s) ≫= join_escapes).

Example decode_host : decodeURIComponent "relay1%2Eexample%2fx" = Some "relay1.example/x"%string
  /\ decodeURIComponent "%zz" = None /\ decodeURIComponent "%c3%28" = None.
Proof. by vm_compute. Qed.

(** ** Host names *)

Definition is_alnum (c : ascii) : bool := is_digit c || is_lower (lower_char c).

(** [[a-z0-9]([a-z0-9-]*[a-z0-9])?] in either case *)
Definition host_label (l : list ascii) : bool :=
  match l, rev l with
  | c :: _, d :: _ => is_alnum c && is_alnum d && forallb (fun c => is_alnum c || is_char 45 c) l
  | _, _ => false
  end.

Fixpoint split_dots (l : list ascii) (acc : list ascii) : list (list ascii) :=
  match l with
  | [] => [rev acc]
  | c :: l' => if is_char 46 c then rev acc :: split_dots l' [] else split_dots l' (c :: acc)
  end.

Definition HOST_RE (host : string) : bool :=
  let l := String.list_ascii_of_string host in
  Nat.leb 1 (length l) && Nat.leb (length l) 253 && forallb host_label (split_dots l []).

Example host_names : HOST_RE "relay1.iterm2.com" = true /\ HOST_RE "R-1" = true /\ HOST_RE "bad_host!" = false
  /\ HOST_RE "a..b" = false /\ HOST_RE "-a.b" = false /\ HOST_RE "" = false /\ HOST_RE "../x" = false.
Proof. by vm_compute. Qed.

(** ** Reading a body *)

(** [readBody]: the chunks that arrive until the body is too large or the request
    is [cut]. *)
Fixpoint read_chunks (limit : Z) (chunks : list bytes) (cut : bool) (size : Z) (acc : bytes) : result string bytes :=
  match chunks with
  | [] => if cut then Err "aborted"%string else Ok acc
  | c :: rest =>
      let size := size + Z.of_nat (length c) in
      if limit <? size then Err "body too large"%string else read_chunks limit rest cut size (acc ++ c)
  end.

Definition BODY_LIMIT : Z := 64 * 1024.

(** [toString("utf8")] keeps a byte-order mark. *)
Definition readBody (chunks : list bytes) (cut : bool) : result string string :=
  (let! b := read_chunks BODY_LIMIT chunks cut 0 [] in Ok (string_of_bytes (decode_utf8 b)))%res.

(** ** The store, as the server and the tick see it *)

(** The documents under the snapshot keys, ["state"] and ["health"]. *)
Record kv := Kv { docs : gmap string latest_doc; kstate : option monitor_state; khealth : option health }.

Definition no_kv : kv := Kv ∅ None None.

Definition put_doc (key : string) (d : latest_doc) (s : kv) : kv := Kv (<[key := d]> (docs s)) (kstate s) (khealth s).

(** A tick that is not a dry run reads the state and writes it back with the health. *)
Definition kv_tick (e : env) (now : Z) (d : deps) (s : kv) : kv :=
  match run e now false d (fun k => docs s !! k) (kstate s) with
  | Ok t => Kv (docs s) (tstate t) (Some (thealth t))
  | Err _ => s
  end.

(** What a pull writes. *)
Definition kv_pull (e : env) (now : Z) (fetched : result string json)
    (scrape : string -> option string -> result string string) (lastHosts : list string) (s : kv) : pulled * kv :=
  let '(p, l) := pullRelays e now fetched scrape lastHosts in (p, fold_left (fun s kd => put_doc kd.1 kd.2 s) l s).

(** ** The dashboard's health *)

Record live := Live {
  lbase : health; lhosts : list summary; ltotal : Z; l_ok : Z; l_warn : Z; l_crit : Z; lat : Z; lprobeAt : Z }.

Definition live_card (e : env) (h : health) (s : kv) (now : Z) (c : summary) : result string summary :=
  if is_push c then
    Ok (Summary (shost c) true (sstatus c) ((fun at_ => now - at_) <$> checkedAt c) (sockets c) (rooms c) (buckets c)
          (probeOk c) (reasons c) (checkedAt c) (detailUrl c) (spush c))
  else
    let latest := docs s !! (if hfleet h then "latest:" +:+ shost c else LATEST_KEY) in
    let age := (fun l => now - receivedAt l) <$> latest in
    let reporting := match age with Some a => negb (qlt (staleMs (parseConfig e)) (inject_Z a)) | None => false end in
    (let! gauges := match latest with
                    | Some l => let! cg := normalizeSnapshot (snapshot l) in Ok (Some cg.2)
                    | None => Ok None
                    end in
     let failing := bool_decide (probeOk c = Some false) in
     let other := existsb other_reason (reasons c) in
     Ok (Summary (shost c) false (if negb reporting || failing then CRIT else if other then WARN else OK)
           age (socketsLive <$> gauges) (roomsLive <$> gauges) (buckets c) (probeOk c)
           ((if reporting then [] else ["liveness"%string]) ++ List.filter (fun k => negb (String.eqb k "liveness")) (reasons c))
           (checkedAt c) (detailUrl c) (spush c)))%res.

Fixpoint live_cards (e : env) (h : health) (s : kv) (now : Z) (l : list summary) : result string (list summary) :=
  match l with
  | [] => Ok []
  | c :: l' => (let! c' := live_card e h s now c in let! r := live_cards e h s now l' in Ok (c' :: r))%res
  end.

Definition liveHealth (e : env) (s : kv) (now : Z) : result string (option live) :=
  match khealth s with
  | None => Ok None
  | Some h => (let! cards := live_cards e h s now (hhosts h) in
               Ok (Some (Live h cards (Z.of_nat (length cards)) (n_status OK cards) (n_status WARN cards)
                           (n_status CRIT cards) now (hat h))))%res
  end.

(** ** Requests *)

Record request := Request {
  method : string;
  target : option (string * option string);  (* the path, and the [test] parameter; [None] for a bad URL *)
  authorization : option string; monitor_key : option string; body : result string string }.

Inductive response : Type :=
| RError (status : Z) (error : string)
| RNoContent
| RLogin
| RPage (health : option live) (detailTpl label : string)
| REmailed (status : Z) (emailed : bool) (error : option string)
| RReport (h : health).

(** [/^(off|false|0|no)$/i.test(env.ALERT_EMAIL || "")] *)
Definition email_off (e : env) : bool :=
  let v := String.string_of_list_ascii (List.map lower_char (String.list_ascii_of_string (default ""%string (e !! "ALERT_EMAIL"%string)))) in
  bool_decide (v ∈ ["off"; "false"; "0"; "no"]%string).

Definition test_alert : alert := Alert "test" warn None FTest.

Section Server.
(** Node's lenient base64 decoder. *)
Context (base64_decode : string -> bytes).

Definition basicAuthOk (authHeader : option string) (expected : option string) : bool :=
  match credentials "Basic" (default ""%string authHeader) with
  | None => false
  | Some c =>
      let decoded := string_of_bytes (decode_utf8 (base64_decode c)) in
      secretEquals (Some (default decoded (after_colon decoded))) expected
  end.

(** The body of a push, kept under [key]. *)
Definition keep_push (now : Z) (r : request) (key : string) (s : kv) : response * kv :=
  match body r with
  | Ok text => match JSON_parse text with
               | Some snap => (RNoContent, put_doc key (Latest now snap) s)
               | None => (RError 400 "bad json", s)
               end
  | Err _ => (RError 400 "bad json", s)
  end.

(** The push of a snapshot; [Err] is an exception nothing catches. *)
Definition ingest (e : env) (now : Z) (r : request) (path : string) (s : kv) : result string (response * kv) :=
  if negb (bearerOk (authorization r) (e !! "INGEST_TOKEN"%string)) then Ok (RError 401 "unauthorized", s) else
  if String.eqb path "/ingest" then Ok (keep_push now r LATEST_KEY s) else
  match decodeURIComponent (string_drop 8 path) with
  | None => Err "URI malformed"%string
  | Some host => Ok (if HOST_RE host then keep_push now r (latestKeyFor host) s else (RError 400 "bad host", s))
  end.

(** [createServer]'s handler: the response and the store after it. *)
Definition handle (e : env) (d : deps) (now : Z) (r : request) (s : kv) : result string (response * kv) :=
  let secret := e !! "MANUAL_TRIGGER_SECRET"%string in
  match target r with
  | None => Ok (RError 400 "bad url", s)
  | Some (path, test) =>
      if String.eqb (method r) "POST" && (String.eqb path "/ingest" || starts_with "/ingest/" path) then
        ingest e now r path s
      else if String.eqb (method r) "GET" && String.eqb path "/dashboard" then
        if negb (basicAuthOk (authorization r) secret) then Ok (RLogin, s) else
        (let! h := liveHealth e s now in
         Ok (RPage h (default "https://{host}/dashboard/"%string (e !! "DASHBOARD_URL_TEMPLATE"%string))
               (default ""%string (env_text e "MONITOR_LABEL")), s))%res
      else if String.eqb (method r) "GET" then
        if negb (secretEquals (monitor_key r) secret) then Ok (RError 404 "not found", s) else
        if bool_decide (test = Some "1"%string) then
          if email_off e then Ok (REmailed 200 false (Some "ALERT_EMAIL=off (view-only monitor)"%string), s) else
          match sendEmail d [test_alert] with
          | Ok _ => Ok (REmailed 200 true None, s)
          | Err err => Ok (REmailed 500 false (Some err), s)
          end
        else
          (let! t := run e now true d (fun k => docs s !! k) (kstate s) in Ok (RReport (thealth t), s))%res
      else Ok (RError 404 "not found", s)
  end.
End Server.

(** ** Settings *)

(** [main]'s required variables: the first that is missing stops the process. *)
Definition required_env (e : env) : list string :=
  (if bool_decide (is_Some (env_text e "RELAY_PULL_URL_TEMPLATE")) then [] else ["INGEST_TOKEN"])
  ++ (if email_off e then [] else ["ALERT_FROM"; "ALERT_TO"; "RESEND_API_KEY"])%string.

Definition missing_env (e : env) : option string :=
  List.find (fun k => negb (bool_decide (is_Some (env_text e k)))) (required_env e).

(** ** Who gets in *)

Lemma secretEquals_spec a expected :
  secretEquals a expected = true <-> exists s, s <> ""%string /\ a = Some s /\ expected = Some s.
Proof.
  unfold secretEquals. split.
  - destruct expected as [e|], a as [a|]; try done. destruct (String.eqb_spec e ""); [done|].
    destruct (length (utf8 a) =? length (utf8 e))%nat; [|done]. simpl. intros H. apply bool_decide_eq_true in H.
    exists e. split_and!; [done| |done]. by rewrite <-(string_of_utf8 a), H, string_of_utf8.
  - intros (s & Hs & -> & ->). apply String.eqb_neq in Hs. rewrite Hs, Nat.eqb_refl. simpl. by apply bool_decide_eq_true.
Qed.

Lemma bearerOk_spec h expected :
  bearerOk h expected = true <->
  exists token, token <> ""%string /\ expected = Some token /\ credentials "Bearer" (default ""%string h) = Some token.
Proof.
  unfold bearerOk. destruct (credentials _ _) as [c|]; [|split; [done|by intros (? & ? & ? & ?)]].
  rewrite secretEquals_spec. naive_solver.
Qed.

(** A name for a file of the state directory: no path separator in it. *)
Definition plain_name (s : string) : Prop := Forall (fun c => is_char 47 c = false) (String.list_ascii_of_string s).

Lemma plain_name_app s t : plain_name s -> plain_name t -> plain_name (s +:+ t).
Proof. unfold plain_name. induction s as [|c s IH]; [done|]. simpl. intros [Hc Hs]%Forall_cons Ht. constructor; [done|]. by apply IH. Qed.

Lemma split_dots_chars (P : ascii -> Prop) l acc :
  (forall c, is_char 46 c = true -> P c) -> Forall (Forall P) (split_dots l acc) -> Forall P (rev acc ++ l).
Proof.
  intros Hd. revert acc. induction l as [|c l IH]; intros acc; simpl.
  { rewrite app_nil_r. by intros [H _]%Forall_cons. }
  destruct (is_char 46 c) eqn:E.
  - intros [H1 H2]%Forall_cons. apply IH in H2. apply Forall_app. split; [done|]. constructor; [by apply Hd|done].
  - intros H. apply IH in H. simpl in H. by rewrite <-app_assoc in H.
Qed.

Lemma host_name_plain h : HOST_RE h = true -> plain_name h.
Proof.
  unfold HOST_RE. intros [_ H]%andb_true_iff. apply (split_dots_chars (fun c => is_char 47 c = false) _ []).
  { unfold is_char. intros c Hc. apply Nat.eqb_eq in Hc. by rewrite Hc. }
  rewrite List.forallb_forall in H. apply Forall_forall. intros l Hl. apply list_elem_of_In, H in Hl.
  unfold host_label in Hl. destruct l as [|c l]; [constructor|]. destruct (rev (c :: l)); [done|].
  apply andb_true_iff in Hl as [_ Hl]. rewrite List.forallb_forall in Hl. apply Forall_forall. intros x Hx%list_elem_of_In%Hl.
  unfold is_char. destruct (Nat.eqb_spec (nat_of_ascii x) 47) as [E|]; [|done]. apply (f_equal ascii_of_nat) in E.
  rewrite ascii_nat_embedding in E. by subst x.
Qed.

Lemma host_not_direct h : HOST_RE h = true -> latestKeyFor h = "latest:" +:+ h.
Proof. unfold latestKeyFor. destruct (String.eqb_spec h DIRECT_HOST) as [->|]; [|done]. by vm_compute. Qed.

(** What a stored push is: a snapshot under the key of the direct relay or of a
    host name, a plain file name either way. *)
Definition stored_push (r : request) (now : Z) (s s' : kv) : Prop :=
  exists key text snap, body r = Ok text /\ JSON_parse text = Some snap /\ s' = put_doc key (Latest now snap) s
    /\ plain_name key /\ (key = LATEST_KEY \/ exists host, HOST_RE host = true /\ key = "latest:" +:+ host).

(** What only the operator may see or do. *)
Definition for_operator (resp : response) : bool :=
  match resp with RPage _ _ _ | REmailed _ _ _ | RReport _ => true | _ => false end.

Lemma ingest_stores e now r path s resp s' :
  ingest e now r path s = Ok (resp, s') -> for_operator resp = false /\ (s' = s \/
  (resp = RNoContent /\ bearerOk (authorization r) (e !! "INGEST_TOKEN"%string) = true /\ stored_push r now s s')).
Proof.
  unfold ingest. destruct (bearerOk _ _); simpl; [|intros [= <- <-]; split; [done|by left]].
  assert (Hstore : forall key, plain_name key -> (key = LATEST_KEY \/ exists host, HOST_RE host = true /\ key = "latest:" +:+ host) ->
    keep_push now r key s = (resp, s') -> for_operator resp = false /\ (s' = s \/ (resp = RNoContent /\ true = true /\ stored_push r now s s'))).
  { unfold keep_push. intros key Hp Hk. destruct (body r) as [text|] eqn:Eb; [|intros [= <- <-]; split; [done|by left]].
    destruct (JSON_parse text) as [snap|] eqn:Ej; [|intros [= <- <-]; split; [done|by left]]. intros [= <- <-].
    split; [done|]. right. split_and!; [done..|]. by exists key, text, snap. }
  assert (Hok : forall x : response * kv, Ok (E := string) x = Ok (resp, s') -> x = (resp, s')) by (by intros x [= ->]).
  destruct (String.eqb path "/ingest"); [intros E%Hok; apply (Hstore LATEST_KEY); [by repeat constructor|by left|done]|].
  destruct (decodeURIComponent _) as [host|]; [|done]. intros E%Hok. revert E. destruct (HOST_RE host) eqn:Eh; [|intros [= <- <-]; split; [done|by left]].
  rewrite (host_not_direct host Eh). apply Hstore; [|right; by exists host].
  apply plain_name_app; [by repeat constructor|by apply host_name_plain].
Qed.

(** C27: The monitor's doors are shut without their secrets.  A request changes the
    store only if it carries the configured non-empty ingest token, and then only
    by keeping its parsed body as the newest snapshot of the direct relay or of a
    well-formed host name, under a key that is a plain file name; and the pages,
    reports and test mails are answered only to a request that carries the
    configured non-empty operator secret, as a key or as a password. *)
Theorem requests_need_their_secret (base64_decode : string -> bytes) (e : env) (d : deps) (now : Z) (r : request)
    (s s' : kv) (resp : response) :
  handle base64_decode e d now r s = Ok (resp, s') ->
  (s' = s \/ exists token, token <> ""%string /\ e !! "INGEST_TOKEN"%string = Some token
     /\ credentials "Bearer" (default ""%string (authorization r)) = Some token
     /\ resp = RNoContent /\ stored_push r now s s')
  /\ (for_operator resp = true -> s' = s /\ exists secret, secret <> ""%string
     /\ e !! "MANUAL_TRIGGER_SECRET"%string = Some secret
     /\ (monitor_key r = Some secret
         \/ exists c, credentials "Basic" (default ""%string (authorization r)) = Some c
            /\ let decoded := string_of_bytes (decode_utf8 (base64_decode c)) in default decoded (after_colon decoded) = secret)).
Proof.
  unfold handle. destruct (target r) as [[path test]|]; [|intros [= <- <-]; split; [by left|done]].
  destruct (String.eqb (method r) "POST" && _).
  { intros [Ho [->|(-> & Hb & Hs)]]%ingest_stores; (split; [|by rewrite Ho]); [by left|].
    apply bearerOk_spec in Hb as (t & ? & ? & ?). right. by exists t. }
  destruct (String.eqb (method r) "GET" && String.eqb path "/dashboard").
  { unfold basicAuthOk. destruct (credentials "Basic" _) as [c|]; [|intros [= <- <-]; split; [by left|done]].
    cbv zeta. set (decoded := string_of_bytes _). destruct (secretEquals _ _) eqn:Es; simpl.
    - apply secretEquals_spec in Es as (t & Ht & [= E] & Hsec). destruct (liveHealth e s now) as [h|]; [|done].
      simpl. intros [= <- <-]. split; [by left|]. intros _. split; [done|]. exists t. split_and!; [done..|]. right. by exists c.
    - intros [= <- <-]. split; [by left|done]. }
  destruct (String.eqb (method r) "GET"); [|intros [= <- <-]; split; [by left|done]].
  destruct (secretEquals (monitor_key r) _) eqn:Es; simpl; [|intros [= <- <-]; split; [by left|done]].
  apply secretEquals_spec in Es as (t & Ht & Hk & Hsec). intros E.
  assert (Es' : s' = s).
  { revert E. repeat case_match; try by intros [= _ <-]. destruct (run _ _ _ _ _ _); [by intros [= _ <-]|done]. }
  split; [by left|]. intros _. split; [done|]. exists t. split_and!; [done..|by left].
Qed.

(** ** A snapshot that stops the monitor *)

Lemma check_host_null e cfg d now map hs host t :
  is_stale cfg now (Some (Latest t JNull)) = false ->
  exists err, check_host e cfg d now map (Some (Latest t JNull)) hs host = Err err.
Proof.
  unfold is_stale. cbn [receivedAt]. intros Hs. unfold check_host, push_side. cbv zeta. cbn [receivedAt]. rewrite Hs. by eexists.
Qed.

Lemma check_hosts_null e cfg d now map latest st l host t :
  host ∈ l -> latest (latestKeyFor host) = Some (Latest t JNull) -> is_stale cfg now (Some (Latest t JNull)) = false ->
  exists err, check_hosts e cfg d now map latest st l = Err err.
Proof.
  intros Hin Hl Hs. induction l as [|h l IH]; [by apply elem_of_nil in Hin|]. cbn [check_hosts].
  apply elem_of_cons in Hin as [<-|Hin].
  - rewrite Hl. destruct (check_host_null e cfg d now map (default no_host_state (find_state host (hosts st))) host t Hs) as [err ->].
    by exists err.
  - destruct (check_host _ _ _ _ _ _ _ h) as [[[a s] c]|err]; [|by exists err].
    destruct (IH Hin) as [err ->]. by exists err.
Qed.

(** The map a tick has, and the hosts it watches. *)
Definition map_seen (e : env) (d : deps) : option json :=
  if is_fleet e then match fetchMap d with Ok j => nonfalsy j | Err _ => None end else None.

Definition tick_watches (e : env) (d : deps) (s : kv) (host : string) : Prop :=
  exists l, watched (is_fleet e) (map_seen e d) (default no_state (kstate s)) = Ok l /\ host ∈ l.

Lemma live_cards_null e h s now l c t :
  c ∈ l -> is_push c = false ->
  docs s !! (if hfleet h then "latest:" +:+ shost c else LATEST_KEY) = Some (Latest t JNull) ->
  exists err, live_cards e h s now l = Err err.
Proof.
  intros Hin Hp Hd. induction l as [|c' l IH]; [by apply elem_of_nil in Hin|]. cbn [live_cards].
  apply elem_of_cons in Hin as [<-|Hin].
  - unfold live_card. rewrite Hp, Hd. by eexists.
  - destruct (live_card e h s now c') as [x|err]; [|by exists err]. destruct (IH Hin) as [err ->]. by exists err.
Qed.

(** One push can stop the monitor.  While the newest snapshot of a watched
    host is the JSON text [null], which a push stores like any other, every tick
    throws before it mails or writes anything, whatever the other hosts do, and so
    does the refresh of a dashboard that shows the host, outside any handler. *)
Theorem null_snapshot_stops_the_monitor (e : env) (d : deps) (now t : Z) (s : kv) (host : string) :
  tick_watches e d s host -> docs s !! latestKeyFor host = Some (Latest t JNull) ->
  is_stale (parseConfig e) now (Some (Latest t JNull)) = false ->
  (exists err, run e now false d (fun k => docs s !! k) (kstate s) = Err err)
  /\ kv_tick e now d s = s
  /\ (forall h c now', khealth s = Some h -> c ∈ hhosts h -> is_push c = false ->
        docs s !! (if hfleet h then "latest:" +:+ shost c else LATEST_KEY) = Some (Latest t JNull) ->
        exists err, liveHealth e s now' = Err err).
Proof.
  intros (l & Hw & Hin) Hd Hs.
  assert (Hc : exists err, check_all e now d (fun k => docs s !! k) (default no_state (kstate s)) = Err err).
  { unfold check_all, map_seen in *. cbv zeta.
    replace (match (if is_fleet e then Some (fetchMap d) else None) with Some (Ok j) => nonfalsy j | _ => None end)
      with (if is_fleet e then match fetchMap d with Ok j => nonfalsy j | Err _ => None end else None)
      by (by destruct (is_fleet e)).
    rewrite Hw. cbn [rbind].
    destruct (check_hosts_null e (parseConfig e) d now
      (if is_fleet e then match fetchMap d with Ok j => nonfalsy j | Err _ => None end else None)
      (fun k => docs s !! k) (default no_state (kstate s)) l host t Hin Hd Hs) as [err ->]. by exists err. }
  assert (Hr : exists err, run e now false d (fun k => docs s !! k) (kstate s) = Err err).
  { unfold run. destruct Hc as [err ->]. by exists err. }
  split_and!; [done| |].
  - unfold kv_tick. destruct Hr as [err ->]. done.
  - intros h c now' Hh Hc' Hp Hk. unfold liveHealth. rewrite Hh.
    destruct (live_cards_null e h s now' (hhosts h) c t Hc' Hp Hk) as [err ->]. by exists err.
Qed.

(** A monitor of two relays, one of which is pushed [null] for. *)
Definition two_relays : env := {[ "SHARD_MAP_URL" := "https://map.example/map.json"; "INGEST_TOKEN" := "tok" ]}%string.

Definition two_relay_deps : deps :=
  Deps (Ok (JObj [("ranges", JArr [JObj [("host", JStr "r1.example")]; JObj [("host", JStr "r2.example")]])]%string))
    (fun _ _ => Probe true "mac parked") (fun _ _ => Ok None) (fun _ => Err "none"%string) (fun _ => Probe true "ok")
    (fun _ => Ok tt) (fun _ => None).

Definition null_push : request :=
  Request "POST" (Some ("/ingest/r2.example", None))%string (Some "Bearer tok"%string) None (Ok "null"%string).

Definition lenient_base64 (s : string) : bytes := default [] (b64ToBytes s).

Lemma requests_need_their_secret_witness :
  exists resp s', handle lenient_base64 two_relays two_relay_deps 1000 null_push no_kv = Ok (resp, s')
    /\ stored_push null_push 1000 no_kv s'.
Proof.
  destruct (handle lenient_base64 two_relays two_relay_deps 1000 null_push no_kv) as [[resp s']|err] eqn:E; [|by vm_compute in E].
  exists resp, s'. split; [done|].
  destruct (proj1 (requests_need_their_secret _ _ _ _ _ _ _ _ E)) as [->|(t & _ & _ & _ & _ & H)]; [by vm_compute in E|exact H].
Defined.

Lemma null_snapshot_stops_the_monitor_witness :
  match handle lenient_base64 two_relays two_relay_deps 1000 null_push no_kv with
  | Ok (resp, s1) => resp = RNoContent /\ kv_tick two_relays 2000 two_relay_deps s1 = s1
  | Err _ => False
  end.
Proof.
  destruct (handle lenient_base64 two_relays two_relay_deps 1000 null_push no_kv) as [[resp s1]|err] eqn:E; [|by vm_compute in E].
  vm_compute in E. injection E as <- <-. split; [done|].
  refine (proj1 (proj2 (null_snapshot_stops_the_monitor two_relays two_relay_deps 2000 1000 _ "r2.example" _ _ _))); [|done|done].
  eexists. split; [reflexivity|]. by right; left.
Defined.
