(* ===== verification/MonitorHealth.v ===== *)
(** The fleet dashboard against the pager: right after a tick, the dashboard's
    refresh ([liveHealth] in [monitor/src/server.js]) shows the verdicts the tick
    ([monitor/src/core.js]) reached. *)

From Stdlib Require Import QArith Ascii.
From S2P Require Import Prelude Json Monitor MonitorFleet MonitorPush MonitorCore MonitorPaging MonitorServer.
#[local] Open Scope Z_scope.

(** What a card says of its host, leaving ages and gauges out. *)
Definition verdict (c : summary) : string * status * list string * option bool * option Z :=
  (shost c, sstatus c, reasons c, probeOk c, buckets c).

(** The push side's reasons: the host does not report, or what the checks raise. *)
Lemma push_side_reasons cfg now fleet h latest hs al rs nx g :
  push_side cfg now fleet h latest hs = Ok (al, rs, nx, g) ->
  if is_stale cfg now latest then rs = ["liveness"%string] else Forall (fun k => k <> "liveness"%string) rs.
Proof.
  unfold push_side, is_stale. cbv zeta. destruct latest as [doc|]; [|by intros [= _ <- _ _]].
  destruct (qlt _ _); [by intros [= _ <- _ _]|].
  destruct (normalizeSnapshot (snapshot doc)) as [[c gs]|e]; [|done]. simpl.
  destruct (rollHour _ _ _) as [lh anchor]. intros [= _ <- _ _].
  pose proof (analyze_keys gs (deltas (prev hs) c) lh (hhistory hs) (lastRecordedHour hs) cfg) as Hk.
  apply Forall_forall. intros k Hin ->. change (List.map akey) with keys in Hin. eapply elem_of_sublist in Hin; [|exact Hk].
  rewrite list_elem_of_In in Hin. simpl in Hin. by destruct_or!.
Qed.

Lemma filter_none (k : string) l : Forall (fun x => x <> k) l -> List.filter (fun x => negb (String.eqb x k)) l = l.
Proof.
  induction 1 as [|x l Hx _ IH]; [done|]. simpl. apply String.eqb_neq in Hx. rewrite Hx. simpl. by rewrite IH.
Qed.

(** What the card of a host says. *)
Lemma check_host_card e cfg d now map latest hs host al nx c :
  check_host e cfg d now map latest hs host = Ok (al, nx, c) ->
  is_push c = false /\ (is_fleet e = true -> shost c = host)
  /\ exists rs, let failed := bool_decide (probeOk c = Some false) in
     (if is_stale cfg now latest then rs = ["liveness"%string] else Forall (fun k => k <> "liveness"%string) rs)
     /\ reasons c = rs ++ (if failed then ["probe"%string] else [])
     /\ sstatus c = status_of (is_stale cfg now latest || failed) (reasons c).
Proof.
  unfold check_host. cbv zeta. change (bool_decide (is_Some (env_text e "SHARD_MAP_URL"))) with (is_fleet e).
  destruct (push_side _ _ _ _ _ _) as [[[[a rs] nx'] g]|err] eqn:Es; [|done]. cbn [rbind].
  pose proof (push_side_reasons _ _ _ _ _ _ _ _ _ _ Es) as Hr.
  destruct (host_probe e _ d map host) as [[p|]|err]; [| |done]; cbn [rbind]; intros [= _ _ <-];
    cbn [is_push shost probeOk reasons sstatus fmap option_fmap option_map].
  - split; [done|]. split; [by intros ->|]. exists rs. split; [done|]. by destruct (ok p).
  - split; [done|]. split; [by intros ->|]. exists rs. split; [done|]. by rewrite app_nil_r.
Qed.

(** A card refreshed at the time of its tick. *)
Lemma live_card_verdict e d s now map hs host al nx c h :
  hfleet h = is_fleet e -> (if is_fleet e then host <> DIRECT_HOST else host = DIRECT_HOST) ->
  (forall k doc, docs s !! k = Some doc -> exists cg, normalizeSnapshot (snapshot doc) = Ok cg) ->
  check_host e (parseConfig e) d now map (docs s !! latestKeyFor host) hs host = Ok (al, nx, c) ->
  exists c', live_card e h s now c = Ok c' /\ verdict c' = verdict c.
Proof.
  intros Hh Hhost Hnorm E. destruct (check_host_card _ _ _ _ _ _ _ _ _ _ _ E) as (Hp & Hs & rs & Hr & Hreasons & Hst).
  assert (Hkey : (if hfleet h then "latest:" +:+ shost c else LATEST_KEY) = latestKeyFor host).
  { rewrite Hh. unfold latestKeyFor. destruct (is_fleet e); [rewrite Hs by done|by subst host].
    by rewrite (proj2 (String.eqb_neq _ _) Hhost). }
  unfold live_card. rewrite Hp, Hkey. cbv zeta. unfold verdict. rewrite Hst.
  set (failed := bool_decide (probeOk c = Some false)) in *. unfold is_stale in *.
  assert (Hg : exists g, match docs s !! latestKeyFor host with
                         | Some l => (let! cg := normalizeSnapshot (snapshot l) in Ok (Some cg.2))%res
                         | None => Ok None
                         end = Ok g).
  { destruct (docs s !! latestKeyFor host) as [doc|] eqn:Ed; [|by eexists].
    destruct (Hnorm _ _ Ed) as [cg ->]. by eexists. }
  destruct Hg as [g ->]. cbn [rbind]. eexists. split; [reflexivity|]. cbn [shost sstatus reasons probeOk buckets].
  assert (Hf : List.filter (fun k => negb (String.eqb k "liveness")) (if failed then ["probe"%string] else [])
               = (if failed then ["probe"%string] else [])) by (by destruct failed).
  rewrite Hreasons, List.filter_app, Hf. destruct (docs s !! latestKeyFor host) as [doc|]; simpl; [destruct (qlt _ _); simpl|].
  - by rewrite Hr.
  - rewrite (filter_none _ _ Hr). by destruct failed.
  - by rewrite Hr.
Qed.

(** All the cards of the hosts of a tick. *)
Lemma live_host_cards e d s now map st h hs al nx cs :
  hfleet h = is_fleet e -> Forall (fun k => if is_fleet e then k <> DIRECT_HOST else k = DIRECT_HOST) hs ->
  (forall k doc, docs s !! k = Some doc -> exists cg, normalizeSnapshot (snapshot doc) = Ok cg) ->
  check_hosts e (parseConfig e) d now map (fun k => docs s !! k) st hs = Ok (al, nx, cs) ->
  exists cs', live_cards e h s now cs = Ok cs' /\ List.map verdict cs' = List.map verdict cs.
Proof.
  intros Hh Hhs Hnorm. revert al nx cs. induction Hhs as [|k hs Hk _ IH]; intros al nx cs E.
  { injection E as _ _ <-. by exists []. }
  cbn [check_hosts] in E. destruct (check_host _ _ _ _ _ _ _ k) as [[[a s1] c]|err] eqn:E1; [|done]. cbn [rbind] in E.
  destruct (check_hosts _ _ _ _ _ _ _ hs) as [[[a2 s2] cs2]|err]; [|done]. cbn [rbind] in E. injection E as _ _ <-.
  destruct (live_card_verdict _ _ _ _ _ _ _ _ _ _ _ Hh Hk Hnorm E1) as (c' & Hc & Hv).
  destruct (IH _ _ _ eq_refl) as (cs' & Hcs & Hvs). exists (c' :: cs'). cbn [live_cards]. rewrite Hc. cbn [rbind]. rewrite Hcs.
  split; [done|]. simpl. by rewrite Hv, Hvs.
Qed.

Lemma live_push_cards e h s now cs :
  Forall (fun c => is_push c = true) cs -> exists cs', live_cards e h s now cs = Ok cs' /\ List.map verdict cs' = List.map verdict cs.
Proof.
  induction 1 as [|c cs Hc _ (cs' & IH & Hv)]; [by exists []|]. cbn [live_cards]. unfold live_card at 1. rewrite Hc. cbn [rbind].
  rewrite IH. eexists. split; [reflexivity|]. simpl. by rewrite Hv.
Qed.

Lemma live_cards_app e h s now l1 l2 c1 c2 :
  live_cards e h s now l1 = Ok c1 -> live_cards e h s now l2 = Ok c2 -> live_cards e h s now (l1 ++ l2) = Ok (c1 ++ c2).
Proof.
  revert c1. induction l1 as [|c l1 IH]; intros c1; cbn [live_cards app]; [by intros [= <-]|].
  destruct (live_card e h s now c) as [x|]; [|done]. cbn [rbind]. destruct (live_cards e h s now l1) as [y|]; [|done].
  intros [= <-] H2. by rewrite (IH y eq_refl H2).
Qed.

Lemma check_pushes_cards cfg d now st l a s c : check_pushes cfg d now st l = (a, s, c) -> Forall (fun c => is_push c = true) c.
Proof.
  unfold check_pushes. revert a s c. induction l as [|r l IH] using rev_ind; intros a s c E; [injection E as _ _ <-; constructor|].
  rewrite fold_left_app in E. cbn [fold_left] in E. destruct (fold_left _ l _) as [[a0 s0] c0]. specialize (IH _ _ _ eq_refl).
  destruct (check_push cfg d now st r) as [[a1 s1] c1] eqn:E1. injection E as _ _ <-. apply Forall_app. split; [done|].
  apply Forall_singleton. unfold check_push in E1. by injection E1 as _ _ <-.
Qed.

Lemma n_status_verdict st l l' : List.map verdict l = List.map verdict l' -> n_status st l = n_status st l'.
Proof.
  unfold n_status. intros H. f_equal. revert l' H. induction l as [|c l IH]; intros [|c' l'] H; try done. simpl in H.
  injection H as _ Hv _ _ _ H. simpl. by rewrite Hv, (IH _ H).
Qed.

(** C28: The dashboard shows what the pager knows.  Refreshed at the time of a tick
    from the store the tick left, the fleet page has the tick's hosts in the tick's
    order, each with the same status, reasons, probe result and bucket count, and
    the same totals.  (Every stored snapshot is an object, and no map names the
    direct relay's pseudo-host.) *)
Theorem dashboard_shows_tick_verdicts (e : env) (d : deps) (now : Z) (s : kv) (t : tick) :
  run e now false d (fun k => docs s !! k) (kstate s) = Ok t ->
  (forall k doc, docs s !! k = Some doc -> exists cg, normalizeSnapshot (snapshot doc) = Ok cg) ->
  (is_fleet e = true -> ~ tick_watches e d s DIRECT_HOST) ->
  exists v, liveHealth e (kv_tick e now d s) now = Ok (Some v)
    /\ List.map verdict (lhosts v) = List.map verdict (hhosts (thealth t))
    /\ ltotal v = total (thealth t) /\ l_ok v = n_ok (thealth t) /\ l_warn v = n_warn (thealth t)
    /\ l_crit v = n_crit (thealth t) /\ lprobeAt v = now.
Proof.
  intros E Hnorm Hdirect. unfold liveHealth, kv_tick. rewrite E. cbn [khealth].
  unfold run in E. destruct (check_all _ _ _ _ _) as [c|err] eqn:Ec; [|done]. cbn [rbind] in E.
  destruct (dueAlerts _ _ _ _) as [due s']. unfold send_due in E. injection E as <-. cbn [thealth tstate].
  unfold health_of. cbn [hhosts total n_ok n_warn n_crit hat]. set (h := Health _ _ _ _ _ _ _ _ _ _).
  assert (Hcards : exists cs', live_cards e h (Kv (docs s) (Some (MonitorState (cnext_hosts c) (cmap_streak c) (cnext_pushes c) None
        (if Nat.eqb (length due) 0 || match sendEmail d due with Ok _ => true | Err _ => false end then s' else sentAt (default no_state (kstate s)))))
        (Some h)) now (ccards c) = Ok cs' /\ List.map verdict cs' = List.map verdict (ccards c)).
  { set (s1 := Kv _ _ _). unfold check_all in Ec. cbv zeta in Ec.
    replace (match (if is_fleet e then Some (fetchMap d) else None) with Some (Ok j) => nonfalsy j | _ => None end)
      with (map_seen e d) in Ec by (unfold map_seen; by destruct (is_fleet e)).
    destruct (watched _ _ _) as [hs|err] eqn:Ew; [|done]. cbn [rbind] in Ec.
    destruct (check_hosts _ _ _ _ _ _ _ hs) as [[[al nx] hc]|err] eqn:Eh; [|done]. cbn [rbind] in Ec.
    destruct (check_pushes _ _ _ _ _) as [[pa ps] pc] eqn:Ep. injection Ec as <-. cbn [ccards].
    assert (Hhs : Forall (fun k => if is_fleet e then k <> DIRECT_HOST else k = DIRECT_HOST) hs).
    { apply Forall_forall. intros k Hk. destruct (is_fleet e) eqn:Ef.
      - intros ->. apply Hdirect; [done|]. exists hs. by rewrite Ef.
      - injection Ew as <-. by apply list_elem_of_singleton in Hk. }
    destruct (live_host_cards e d s1 now (map_seen e d) _ h hs al nx hc eq_refl Hhs Hnorm Eh) as (c1 & H1 & V1).
    destruct (live_push_cards e h s1 now pc (check_pushes_cards _ _ _ _ _ _ _ _ Ep)) as (c2 & H2 & V2).
    exists (c1 ++ c2). split; [by apply live_cards_app|]. by rewrite !List.map_app, V1, V2. }
  destruct Hcards as (cs' & -> & Hv). cbn [rbind]. eexists. split; [reflexivity|]. cbn [lhosts ltotal l_ok l_warn l_crit lprobeAt].
  split_and!; [done| |by apply n_status_verdict..|done]. rewrite <-(length_map verdict cs'), Hv. by rewrite length_map.
Qed.

(** One relay reports, the other never has. *)
Definition half_fleet : kv :=
  put_doc "latest:r1.example" (Latest 1000 (JObj [("sockets_live", JNum (Json.decimal_to_float false 3 0))]))%string no_kv.

Lemma dashboard_shows_tick_verdicts_witness :
  exists v, liveHealth two_relays (kv_tick two_relays 2000 two_relay_deps half_fleet) 2000 = Ok (Some v)
    /\ List.map (fun c => (shost c, sstatus c)) (lhosts v) = [("r1.example", OK); ("r2.example", CRIT)]%string
    /\ l_crit v = 1.
Proof.
  destruct (run two_relays 2000 false two_relay_deps (fun k => docs half_fleet !! k) (kstate half_fleet)) as [t|err] eqn:E;
    [|by vm_compute in E].
  destruct (dashboard_shows_tick_verdicts two_relays two_relay_deps 2000 half_fleet t E) as (v & Hv & Hcards & _ & _ & _ & Hc & _).
  - intros k doc Hk. unfold half_fleet, put_doc, no_kv in Hk. cbn [docs] in Hk.
    apply lookup_insert_Some in Hk as [[_ <-]|[_ Hk]]; [|by rewrite lookup_empty in Hk]. by eexists.
  - intros _ (l & Hw & Hl). vm_compute in Hw. injection Hw as <-. by apply list_elem_of_In in Hl; simpl in Hl; destruct_or!.
  - exists v. split; [done|]. rewrite Hc. vm_compute in E. injection E as <-. split; [|done].
    apply (f_equal (List.map (fun x => (x.1.1.1.1, x.1.1.1.2)))) in Hcards. rewrite !List.map_map in Hcards. exact Hcards.
Defined.
