(* ===== verification/MonitorStore.v ===== *)
(** The monitor's key/value store ([monitor/src/store.js]): one file per key,
    written through a temporary file and a rename.

    A directory is a map from names to files (inodes) and their bytes.  A [put]
    is the state machine of its system calls: open and truncate the temporary
    file, write it in as many pieces as the system likes, rename it.  Making the
    directory and flushing to disk are left out. *)

From Stdlib Require Import Ascii.
From S2P Require Import Prelude Bytes.
#[local] Open Scope nat_scope.

(** ** Files *)

Record fs := Fs { names : gmap string nat; files : gmap nat bytes; fresh : nat }.

Definition empty_fs : fs := Fs ∅ ∅ 0.

(** No hard links, and files that were handed out. *)
Definition fs_ok (f : fs) : Prop :=
  (forall p q i, names f !! p = Some i -> names f !! q = Some i -> p = q)
  /\ (forall p i, names f !! p = Some i -> i < fresh f).

(** [open(path, "w")] *)
Definition open_trunc (p : string) (f : fs) : nat * fs :=
  match names f !! p with
  | Some i => (i, Fs (names f) (<[i := []]> (files f)) (fresh f))
  | None => (fresh f, Fs (<[p := fresh f]> (names f)) (<[fresh f := []]> (files f)) (S (fresh f)))
  end.

(** Bytes written at a position of a file. *)
Definition overwrite (pos : nat) (b old : bytes) : bytes :=
  take pos old ++ replicate (pos - length old) 0%Z ++ b ++ drop (pos + length b) old.

Definition write_at (i pos : nat) (b : bytes) (f : fs) : fs :=
  Fs (names f) (<[i := overwrite pos b (default [] (files f !! i))]> (files f)) (fresh f).

(** [rename(a, b)]; [None] where there is no [a]. *)
Definition rename (a b : string) (f : fs) : option fs :=
  match names f !! a with
  | Some i => Some (Fs (<[b := i]> (delete a (names f))) (files f) (fresh f))
  | None => None
  end.

(** ** The store *)

(** Where a [put] is; [PFailed] is the exception it throws. *)
Inductive put_pc : Type := POpen | PWrite (file pos : nat) | PRename | PDone | PFailed.
#[export] Instance put_pc_eq_dec : EqDecision put_pc.
Proof. solve_decision. Defined.

Section Store.
Context (dir : string).

Definition path (key : string) : string := dir +:+ "/" +:+ key +:+ ".json".
Definition tmp_path (key : string) : string := path key +:+ ".tmp".

(** [get(key)]; [None] for no file *)
Definition get (key : string) (f : fs) : option bytes := i ← names f !! path key; files f !! i.


(** The next system call of [put(key, val)]; a write takes [n] bytes or one, as the
    system decides. *)
Definition put_step (key : string) (val : bytes) (n : nat) (c : put_pc * fs) : put_pc * fs :=
  let '(pc, f) := c in
  match pc with
  | POpen => let '(i, f') := open_trunc (tmp_path key) f in (PWrite i 0, f')
  | PWrite i pos =>
      if Nat.eqb pos (length val) then (PRename, f) else
      let chunk := take (Nat.max 1 n) (drop pos val) in
      (PWrite i (pos + length chunk), write_at i pos chunk f)
  | PRename => match rename (tmp_path key) (path key) f with Some f' => (PDone, f') | None => (PFailed, f) end
  | PDone | PFailed => (pc, f)
  end.

(** [put] on its own, for as many calls as [ns] gives sizes. *)
Definition put_run (key : string) (val : bytes) (ns : list nat) (c : put_pc * fs) : put_pc * fs :=
  fold_left (fun c n => put_step key val n c) ns c.

(** Two [put]s at once: whose call is next, and the size of its write. *)
Definition race_step (key : string) (v1 v2 : bytes) (c : put_pc * put_pc * fs) (o : bool * nat) : put_pc * put_pc * fs :=
  let '(p1, p2, f) := c in
  if o.1 then let '(p1', f') := put_step key v1 o.2 (p1, f) in (p1', p2, f')
  else let '(p2', f') := put_step key v2 o.2 (p2, f) in (p1, p2', f').

Definition race (key : string) (v1 v2 : bytes) (os : list (bool * nat)) (f : fs) : put_pc * put_pc * fs :=
  fold_left (race_step key v1 v2) os (POpen, POpen, f).

(** ** Names *)

Definition last_char (s : string) : ascii := List.last (String.list_ascii_of_string s) "000"%char.

Lemma last_char_app s t : t <> ""%string -> last_char (s +:+ t) = last_char t.
Proof.
  intros Ht. unfold last_char. induction s as [|d s IH]; [done|]. rewrite string_app_cons. simpl String.list_ascii_of_string.
  rewrite <-IH. destruct (String.list_ascii_of_string (s +:+ t)) eqn:E; [|done]. by destruct s, t.
Qed.

Lemma tmp_not_path k k' : tmp_path k <> path k'.
Proof.
  unfold tmp_path. intros E. apply (f_equal last_char) in E. rewrite last_char_app in E by done.
  unfold path in E. rewrite (string_app_assoc dir), (string_app_assoc _ k'), last_char_app in E by done. done.
Qed.

Lemma path_inj k k' : path k = path k' -> k = k'.
Proof. unfold path. intros E. apply string_app_inj_l, string_app_inj_l in E. by apply string_app_inj_r in E. Qed.

Lemma tmp_path_inj k k' : tmp_path k = tmp_path k' -> k = k'.
Proof. intros E. by apply path_inj, (string_app_inj_r _ _ ".tmp"). Qed.

(** ** One [put] *)

(** The file being written is the temporary one, with what is written so far. *)
Definition put_inv (key : string) (val : bytes) (f0 : fs) (c : put_pc * fs) : Prop :=
  let '(pc, f) := c in
  fs_ok f
  /\ (forall k, get k f = if decide (k = key /\ pc = PDone) then Some val else get k f0)
  /\ match pc with
     | PWrite i pos => names f !! tmp_path key = Some i /\ pos <= length val /\ files f !! i = Some (take pos val)
     | PRename => exists i, names f !! tmp_path key = Some i /\ files f !! i = Some val
     | PFailed => False
     | _ => True
     end.

Lemma get_other f i b k : fs_ok f -> names f !! tmp_path k = Some i -> forall k',
  get k' (Fs (names f) (<[i := b]> (files f)) (fresh f)) = get k' f.
Proof.
  intros [Hinj _] Hi k'. unfold get. cbn [names files]. destruct (names f !! path k') as [j|] eqn:Ej; [|done]. simpl.
  rewrite lookup_insert_ne; [done|]. intros ->. by apply (tmp_not_path k k'), (Hinj _ _ j).
Qed.

Lemma overwrite_append b old : overwrite (length old) b old = old ++ b.
Proof. unfold overwrite. rewrite firstn_all, Nat.sub_diag, drop_ge by lia. simpl. by rewrite app_nil_r. Qed.
Lemma put_step_inv key val n f0 c : put_inv key val f0 c -> put_inv key val f0 (put_step key val n c).
Proof.
  destruct c as [pc f]. intros (Hok & Hget & Hpc). destruct pc as [|i pos| | |]; cbn [put_step]; [| | |by split_and!|done].
  - assert (Hget0 : forall k, get k f = get k f0).
    { intros k. rewrite Hget. by rewrite decide_False by naive_solver. }
    unfold open_trunc. destruct (names f !! tmp_path key) as [i|] eqn:Ei; unfold put_inv.
    + split; [done|]. split; [|cbn; rewrite lookup_insert_eq; split_and!; [done|lia|done]].
      intros k. rewrite (get_other f i [] key Hok Ei). rewrite decide_False by naive_solver. apply Hget0.
    + destruct Hok as [Hinj Hlt]. split; [split; cbn [names fresh]|split].
      * intros p q i [[<- <-]|[Hp Hpi]]%lookup_insert_Some [[<- E]|[Hq Hqi]]%lookup_insert_Some; [done| | |by eapply Hinj].
        -- apply Hlt in Hqi. lia.
        -- apply Hlt in Hpi. lia.
      * intros p i [[_ <-]|[_ Hp]]%lookup_insert_Some; [lia|]. apply Hlt in Hp. lia.
      * intros k. rewrite decide_False by naive_solver. rewrite <-Hget0. unfold get. cbn [names files].
        rewrite lookup_insert_ne by apply tmp_not_path. destruct (names f !! path k) as [j|] eqn:Ej; [|done]. simpl.
        rewrite lookup_insert_ne; [done|]. apply Hlt in Ej. lia.
      * cbn [names files]. rewrite !lookup_insert_eq. split_and!; [done|lia|done].
  - destruct Hpc as (Hi & Hpos & Hf). destruct (Nat.eqb_spec pos (length val)) as [->|Hne].
    + split_and!; [done| |by exists i; rewrite Hf, firstn_all].
      intros k. rewrite Hget. rewrite !decide_False by naive_solver. done.
    + unfold write_at. split_and!.
      * done.
      * intros k. rewrite (get_other f i _ key Hok Hi), Hget. by rewrite !decide_False by naive_solver.
      * done.
      * rewrite length_take, length_drop. lia.
      * cbn [files]. rewrite lookup_insert_eq, Hf. f_equal. simpl.
        pose proof (overwrite_append (take (Nat.max 1 n) (drop pos val)) (take pos val)) as H.
        rewrite length_take, Nat.min_l in H by lia. rewrite H. rewrite length_take, length_drop.
        rewrite <-(take_take_drop val pos (Nat.min (Nat.max 1 n) (length val - pos))). f_equal.
        destruct (Nat.le_ge_cases (Nat.max 1 n) (length val - pos)); [by rewrite Nat.min_l|].
        rewrite Nat.min_r by done. by rewrite !take_ge by (rewrite length_drop; lia).
  - destruct Hpc as (i & Hi & Hf). unfold rename. rewrite Hi. destruct Hok as [Hinj Hlt]. split_and!; [split| |done]; cbn [names files fresh].
    + assert (Hd : forall p j, delete (tmp_path key) (names f) !! p = Some j -> p <> tmp_path key /\ names f !! p = Some j).
      { intros p j Hp. apply lookup_delete_Some in Hp as [? ?]. by split. }
      intros p q j [[<- <-]|[Hp Hpj]]%lookup_insert_Some [[<- E]|[Hq Hqj]]%lookup_insert_Some; [done| | |].
      * apply Hd in Hqj as [Hne Hqj]. destruct Hne. by eapply Hinj.
      * apply Hd in Hpj as [Hne Hpj]. subst j. destruct Hne. by eapply Hinj.
      * apply Hd in Hpj as [_ ?], Hqj as [_ ?]. by eapply Hinj.
    + intros p j [[_ <-]|[_ Hp]]%lookup_insert_Some; [by eapply Hlt|]. apply lookup_delete_Some in Hp as [_ Hp]. by eapply Hlt.
    + intros k. unfold get. cbn [names files]. destruct (decide (k = key)) as [->|Hk].
      * rewrite decide_True by done. rewrite lookup_insert_eq. simpl. done.
      * rewrite decide_False by naive_solver. rewrite lookup_insert_ne by (intros E; by apply Hk, eq_sym, path_inj).
        rewrite lookup_delete_ne by apply tmp_not_path. specialize (Hget k). rewrite decide_False in Hget by naive_solver. exact Hget.
Qed.

(** How many more calls a [put] takes at most. *)
Definition put_rank (val : bytes) (pc : put_pc) : nat :=
  match pc with POpen => length val + 3 | PWrite _ pos => length val - pos + 2 | PRename => 1 | PDone | PFailed => 0 end.

Lemma put_step_rank key val n f0 c :
  put_inv key val f0 c -> put_rank val (put_step key val n c).1 <= put_rank val c.1 - 1.
Proof.
  destruct c as [pc f]. intros (_ & _ & Hpc). destruct pc as [|i pos| | |]; cbn [put_step]; [| | |done|done].
  - unfold open_trunc. destruct (names f !! tmp_path key); simpl; lia.
  - destruct Hpc as (_ & Hpos & _). destruct (Nat.eqb_spec pos (length val)) as [->|Hne]; simpl; [lia|].
    rewrite length_take, length_drop. lia.
  - destruct Hpc as (i & Hi & _). unfold rename. by rewrite Hi.
Qed.

Lemma put_run_inv key val ns f0 c :
  put_inv key val f0 c -> put_inv key val f0 (put_run key val ns c)
  /\ put_rank val (put_run key val ns c).1 <= put_rank val c.1 - length ns.
Proof.
  unfold put_run. revert c. induction ns as [|n ns IH]; intros c H; simpl; [split; [done|lia]|].
  pose proof (put_step_rank key val n f0 c H). destruct (IH _ (put_step_inv key val n f0 c H)). split; [done|lia].
Qed.

(** C30: A [put] replaces a value all at once.  Stopped after any number of its
    system calls, whatever the pieces the file is written in and whatever an
    earlier crash left, it has not thrown, and every key reads as before, except
    that its own reads as the new value once the rename is done; and it is done
    after as many calls as the value has bytes, and three. *)
Theorem put_is_atomic (key : string) (val : bytes) (f : fs) (ns : list nat) :
  fs_ok f ->
  let '(pc, f') := put_run key val ns (POpen, f) in
  fs_ok f' /\ pc <> PFailed
  /\ (forall k, get k f' = if decide (k = key /\ pc = PDone) then Some val else get k f)
  /\ (length val + 3 <= length ns -> pc = PDone).
Proof.
  intros Hok. assert (H0 : put_inv key val f (POpen, f)).
  { split_and!; [done| |done]. intros k. by rewrite decide_False by naive_solver. }
  destruct (put_run_inv key val ns f _ H0) as [Hi Hr]. destruct (put_run key val ns (POpen, f)) as [pc f'].
  destruct Hi as (Hok' & Hget & Hpc). split_and!; [done|by intros ->|done|].
  intros Hl. simpl in Hr. destruct pc; simpl in Hr; try lia; done.
Qed.

(** Two [put]s of one key at once break the store: both write the one
    temporary file, so the first can put a half-written file, here an empty one,
    in the key's place, and the second then throws for want of a file to rename. *)
Theorem overlapping_puts_tear (key : string) (b1 b2 : Z) (v1 v2 : bytes) :
  exists os1 os2 i f1 f2,
    race key (b1 :: v1) (b2 :: v2) os1 empty_fs = (PDone, PWrite i 0, f1) /\ get key f1 = Some []
    /\ race key (b1 :: v1) (b2 :: v2) (os1 ++ os2) empty_fs = (PDone, PFailed, f2).
Proof.
  exists [(true, 0); (true, S (length v1)); (true, 0); (false, 0); (true, 0)], [(false, S (length v2)); (false, 0); (false, 0)], 0.
  assert (Hchunk : forall b (v : bytes), take (Nat.max 1 (S (length v))) (drop 0 (b :: v)) = b :: v)
    by (intros b v; apply take_ge; simpl; lia).
  set (F := fun c => Fs (<[tmp_path key := 0]> ∅) (<[0 := c]> ∅) 1).
  assert (S1 : race_step key (b1 :: v1) (b2 :: v2) (POpen, POpen, empty_fs) (true, 0) = (PWrite 0 0, POpen, F [])) by done.
  assert (S2 : race_step key (b1 :: v1) (b2 :: v2) (PWrite 0 0, POpen, F []) (true, S (length v1))
               = (PWrite 0 (S (length v1)), POpen, F (b1 :: v1))).
  { unfold race_step, put_step. cbn [fst snd Nat.eqb length]. rewrite Hchunk. unfold write_at, F. cbn [names files fresh].
    rewrite lookup_insert_eq, insert_insert_eq. f_equal. unfold overwrite. simpl. by rewrite app_nil_r. }
  assert (S3 : race_step key (b1 :: v1) (b2 :: v2) (PWrite 0 (S (length v1)), POpen, F (b1 :: v1)) (true, 0)
               = (PRename, POpen, F (b1 :: v1))).
  { unfold race_step, put_step. cbn [fst snd length]. by rewrite Nat.eqb_refl. }
  assert (S4 : race_step key (b1 :: v1) (b2 :: v2) (PRename, POpen, F (b1 :: v1)) (false, 0) = (PRename, PWrite 0 0, F [])).
  { unfold race_step, put_step, open_trunc, F. cbn [fst snd names files fresh]. by rewrite lookup_insert_eq, insert_insert_eq. }
  set (G := fun c => Fs (<[path key := 0]> ∅) (<[0 := c]> ∅) 1).
  assert (S5 : race_step key (b1 :: v1) (b2 :: v2) (PRename, PWrite 0 0, F []) (true, 0) = (PDone, PWrite 0 0, G [])).
  { unfold race_step, put_step, rename, F, G. cbn [fst snd names files fresh]. rewrite lookup_insert_eq.
    by rewrite delete_insert_id by apply lookup_empty. }
  assert (S6 : race_step key (b1 :: v1) (b2 :: v2) (PDone, PWrite 0 0, G []) (false, S (length v2))
               = (PDone, PWrite 0 (S (length v2)), G (b2 :: v2))).
  { unfold race_step, put_step. cbn [fst snd Nat.eqb length]. rewrite Hchunk. unfold write_at, G. cbn [names files fresh].
    rewrite lookup_insert_eq, insert_insert_eq. f_equal. unfold overwrite. simpl. by rewrite app_nil_r. }
  assert (S7 : race_step key (b1 :: v1) (b2 :: v2) (PDone, PWrite 0 (S (length v2)), G (b2 :: v2)) (false, 0)
               = (PDone, PRename, G (b2 :: v2))).
  { unfold race_step, put_step. cbn [fst snd length]. by rewrite Nat.eqb_refl. }
  assert (S8 : race_step key (b1 :: v1) (b2 :: v2) (PDone, PRename, G (b2 :: v2)) (false, 0) = (PDone, PFailed, G (b2 :: v2))).
  { unfold race_step, put_step, rename, G. cbn [fst snd names files fresh].
    rewrite lookup_insert_ne by (intros E; by apply (tmp_not_path key key)). by rewrite lookup_empty. }
  exists (G []), (G (b2 :: v2)). unfold race. cbn [fold_left app]. rewrite S1, S2, S3, S4, S5, S6, S7, S8.
  split_and!; [done| |done]. unfold get, G. cbn [names files]. by rewrite lookup_insert_eq.
Qed.
End Store.

Lemma put_is_atomic_witness :
  fs_ok empty_fs
  /\ let '(pc, f) := put_run "data" "state" [123; 125]%Z [5; 1; 1; 1; 9] (POpen, empty_fs) in
     pc = PDone /\ get "data" "state" f = Some [123; 125]%Z /\ get "data" "health" f = None.
Proof.
  assert (H0 : fs_ok empty_fs) by (split; cbn; [intros p q i Hp|intros p i Hp]; by rewrite lookup_empty in Hp).
  split; [done|]. pose proof (put_is_atomic "data" "state" [123; 125]%Z empty_fs [5; 1; 1; 1; 9] H0) as H.
  destruct (put_run _ _ _ _ _) as [pc f]. destruct H as (_ & _ & Hg & Hd). specialize (Hd (le_n 5)). subst pc.
  split; [done|]. rewrite !Hg. split; reflexivity.
Defined.
