(* ===== verification/Html.v ===== *)
(** A reader of HTML text: the part of the tokenizer of the HTML standard that the
    pages of this repository exercise, as a transducer over characters, and trees of
    elements with the tokens they stand for.

    The reader is a specification. It fails, rather than guess, on anything the
    standard calls a parse error and on any character reference it does not list. *)

From Stdlib Require Import Ascii.
From stdpp Require Import base list strings.
From S2P Require Import Prelude Json MonitorPush Metrics.

(** ** Tokens *)

Notation attribute := (string * string)%type.

Inductive token :=
| Char (c : ascii)
| Open (name : string) (attrs : list attribute)
| Close (name : string)
| Declaration (text : string).

(** The tokenizer's states, each with what has been read of the token at hand. *)
Inductive lexer :=
| LData (raw : bool)
| LRef (ref : string)
| LLt (raw : bool)
| LDecl (text : string)
| LClose (name : string)
| LName (name : string)
| LSpace (name : string) (attrs : list attribute)
| LAttr (name : string) (attrs : list attribute) (key : string)
| LEq (name : string) (attrs : list attribute) (key : string)
| LUnquoted (name : string) (attrs : list attribute) (key value : string)
| LQuoted (name : string) (attrs : list attribute) (key value : string)
| LQuotedRef (name : string) (attrs : list attribute) (key value ref : string)
| LAfter (name : string) (attrs : list attribute).

Definition snoc (s : string) (c : ascii) : string := s +:+ String c "".

(** What a character reference stands for, in UTF-8. *)
Definition reference (name : string) : option (list ascii) :=
  if String.eqb name "amp" then Some ["&"%char]
  else if String.eqb name "lt" then Some ["<"%char]
  else if String.eqb name "gt" then Some [">"%char]
  else if String.eqb name "quot" then Some [ascii_of_nat 34]
  else if String.eqb name "middot" then Some [ascii_of_nat 194; ascii_of_nat 183]
  else if String.eqb name "#8599" then Some [ascii_of_nat 226; ascii_of_nat 134; ascii_of_nat 151]
  else None.

(** Elements whose content is raw text, where character references mean nothing. *)
Definition raw_element (name : string) : bool :=
  existsb (String.eqb name) ["style"; "script"; "xmp"; "iframe"; "noembed"; "noframes"]%string.

Definition lower_letter (c : ascii) : bool := let n := nat_of_ascii c in (97 <=? n)%nat && (n <=? 122)%nat.
Definition name_part (c : ascii) : bool :=
  lower_letter c || ((48 <=? nat_of_ascii c)%nat && (nat_of_ascii c <=? 57)%nat) || is_char 45 c.

Definition opened (name : string) (attrs : list attribute) : lexer * list token :=
  (LData (raw_element name), [Open name attrs]).

(** One character. *)
Definition lex1 (st : lexer) (c : ascii) : option (lexer * list token) :=
  match st with
  | LData raw => if is_char 60 c then Some (LLt raw, [])
                 else if is_char 38 c && negb raw then Some (LRef "", [])
                 else Some (st, [Char c])
  | LRef ref => if is_char 59 c then l ← reference ref; Some (LData false, List.map Char l) else Some (LRef (snoc ref c), [])
  | LLt raw => if is_char 47 c then Some (LClose "", [])
               else if raw then None
               else if is_char 33 c then Some (LDecl "", [])
               else if lower_letter c then Some (LName (String c ""), []) else None
  | LDecl text => if is_char 62 c then Some (LData false, [Declaration text]) else Some (LDecl (snoc text c), [])
  | LClose name => if is_char 62 c then Some (LData false, [Close name])
                   else if name_part c then Some (LClose (snoc name c), []) else None
  | LName name => if is_char 62 c then Some (opened name [])
                  else if is_char 32 c then Some (LSpace name [], [])
                  else if name_part c then Some (LName (snoc name c), []) else None
  | LSpace name attrs => if is_char 62 c then Some (opened name attrs)
                         else if is_char 32 c then Some (st, [])
                         else if name_part c then Some (LAttr name attrs (String c ""), []) else None
  | LAttr name attrs key => if is_char 61 c then Some (LEq name attrs key, [])
                            else if is_char 62 c then Some (opened name (attrs ++ [(key, ""%string)]))
                            else if is_char 32 c then Some (LSpace name (attrs ++ [(key, ""%string)]), [])
                            else if name_part c then Some (LAttr name attrs (snoc key c), []) else None
  | LEq name attrs key => if is_char 34 c then Some (LQuoted name attrs key "", [])
                          else if name_part c then Some (LUnquoted name attrs key (String c ""), []) else None
  | LUnquoted name attrs key value => if is_char 62 c then Some (opened name (attrs ++ [(key, value)]))
                                      else if is_char 32 c then Some (LSpace name (attrs ++ [(key, value)]), [])
                                      else if name_part c then Some (LUnquoted name attrs key (snoc value c), []) else None
  | LQuoted name attrs key value => if is_char 34 c then Some (LAfter name (attrs ++ [(key, value)]), [])
                                    else if is_char 38 c then Some (LQuotedRef name attrs key value "", [])
                                    else Some (LQuoted name attrs key (snoc value c), [])
  | LQuotedRef name attrs key value ref =>
      if is_char 59 c then l ← reference ref; Some (LQuoted name attrs key (value +:+ text_of l), [])
      else Some (LQuotedRef name attrs key value (snoc ref c), [])
  | LAfter name attrs => if is_char 62 c then Some (opened name attrs)
                         else if is_char 32 c then Some (LSpace name attrs, []) else None
  end.

Fixpoint lex (st : lexer) (l : list ascii) : option (lexer * list token) :=
  match l with
  | [] => Some (st, [])
  | c :: l' => '(st1, ts1) ← lex1 st c; '(st2, ts2) ← lex st1 l'; Some (st2, ts1 ++ ts2)
  end.

(** The tokens of a whole document. *)
Definition tokens_of (s : string) : option (list token) :=
  match lex (LData false) (chars s) with Some (LData _, ts) => Some ts | _ => None end.

(** ** Trees *)

(** [Lone] is an element without a closing tag. *)
Inductive html :=
| El (name : string) (attrs : list attribute) (children : list html)
| Lone (name : string) (attrs : list attribute)
| Txt (s : string)
| Decl (text : string).

Fixpoint flatten (h : html) : list token :=
  match h with
  | El name attrs children => Open name attrs :: List.flat_map flatten children ++ [Close name]
  | Lone name attrs => [Open name attrs]
  | Txt s => List.map Char (chars s)
  | Decl text => [Declaration text]
  end.

(** Every element's name and attributes satisfy [P]. *)
Fixpoint elements (P : string -> list string -> bool) (h : html) : bool :=
  match h with
  | El name attrs children => P name (List.map fst attrs) && forallb (elements P) children
  | Lone name attrs => P name (List.map fst attrs)
  | Txt _ | Decl _ => true
  end.

(** ** Reading a text that is built from pieces *)

Definition steps_to (st : lexer) (s : string) (st' : lexer) (ts : list token) : Prop := lex st (chars s) = Some (st', ts).

(** [s] is the text of the trees [hs]. *)
Definition spells (s : string) (hs : list html) : Prop := steps_to (LData false) s (LData false) (List.flat_map flatten hs).

Lemma lex_app st l1 l2 st1 ts1 st2 ts2 :
  lex st l1 = Some (st1, ts1) -> lex st1 l2 = Some (st2, ts2) -> lex st (l1 ++ l2) = Some (st2, ts1 ++ ts2).
Proof.
  revert st ts1. induction l1 as [|c l1 IH]; intros st ts1 H1 H2; simpl in *; [by simplify_eq|].
  destruct (lex1 st c) as [[sa ta]|]; [|done]. simpl in *.
  destruct (lex sa l1) as [[sb tb]|] eqn:E; [|done]. simplify_eq/=. rewrite (IH _ _ E H2). simpl. by rewrite app_assoc.
Qed.

Lemma steps_app st s t st1 ts1 st2 ts2 :
  steps_to st s st1 ts1 -> steps_to st1 t st2 ts2 -> steps_to st (s +:+ t) st2 (ts1 ++ ts2).
Proof. unfold steps_to. rewrite chars_app. apply lex_app. Qed.

Lemma steps_nil st : steps_to st "" st [].
Proof. done. Qed.

Lemma steps_eq st s st' ts ts' : steps_to st s st' ts -> ts = ts' -> steps_to st s st' ts'.
Proof. by intros ? <-. Qed.

Lemma spells_app s t hs ks : spells s hs -> spells t ks -> spells (s +:+ t) (hs ++ ks).
Proof. unfold spells. intros. rewrite flat_map_app. by eapply steps_app. Qed.

Lemma spells_nil : spells "" [].
Proof. done. Qed.

Lemma spells_concat {A} (f : A -> string) (g : A -> html) l :
  (forall x, spells (f x) [g x]) -> spells (fold_right String.append "" (List.map f l)) (List.map g l).
Proof.
  intros H. induction l as [|x l IH]; simpl; [apply spells_nil|]. exact (spells_app _ _ [g x] _ (H x) IH).
Qed.

(** An element whose opening tag ends in [open]. *)
Lemma spells_el open body close name attrs hs :
  steps_to (LData false) open (LData false) [Open name attrs] -> spells body hs ->
  steps_to (LData false) close (LData false) [Close name] -> spells (open +:+ body +:+ close) [El name attrs hs].
Proof.
  intros Ho Hb Hc. unfold spells. simpl. rewrite app_nil_r.
  exact (steps_app _ _ _ _ _ _ _ Ho (steps_app _ _ _ _ _ _ _ Hb Hc)).
Qed.

Lemma append_assoc (a b c : string) : (a +:+ b) +:+ c = a +:+ (b +:+ c).
Proof. induction a as [|x a IH]; [done|]. exact (f_equal (String x) IH). Qed.

Lemma append_nil_r (a : string) : a +:+ "" = a.
Proof. induction a as [|x a IH]; [done|]. exact (f_equal (String x) IH). Qed.
