(* ===== verification/MonitorPage.v ===== *)
(** The monitor's dashboard page ([monitor/src/server.js]): the text it renders of
    the fleet's health, and that a browser reads from it the page that was meant,
    whatever the host names, reasons and labels contain.

    The text of a number that is not an integer, the local time of day, the order
    of [localeCompare] and the text of a map version are arguments. *)

From Stdlib Require Import QArith Ascii.
From stdpp Require Import pretty sorting.
From S2P Require Import Prelude Bytes Json Monitor MonitorFleet MonitorPush Metrics MonitorCore MonitorServer Html.
#[local] Open Scope Z_scope.

(** ** Text *)

Definition esc_char (c : ascii) : string :=
  if is_char 38 c then "&amp;" else if is_char 60 c then "&lt;" else if is_char 62 c then "&gt;"
  else if is_char 34 c then "&quot;" else String c EmptyString.

(** [esc(s)] *)
Fixpoint esc (s : string) : string := match s with EmptyString => EmptyString | String c s' => esc_char c +:+ esc s' end.

Definition ago (ms : option Q) : string :=
  match ms with
  | None => "never"
  | Some ms =>
      let s := math_round (ms / 1000)%Q in
      if s <? 90 then pretty s +:+ "s" else
      let m := math_round (inject_Z s / 60)%Q in
      if m <? 90 then pretty m +:+ "m" else
      let h := math_round (inject_Z m / 60)%Q in
      if h <? 48 then pretty h +:+ "h" else pretty (math_round (inject_Z h / 24)%Q) +:+ "d"
  end.

Definition THEME_SWAP_MS : Z := 30 * 60 * 1000.

Definition themeAt (now : Z) : string := if now / THEME_SWAP_MS mod 2 =? 0 then "light" else "dark".

(** What comes before and after the first occurrence of [p]. *)
Fixpoint around (p : string) (before l : list ascii) : option (list ascii * list ascii) :=
  match drop_prefix p l with
  | Some after => Some (rev before, after)
  | None => match l with [] => None | c :: l' => around p (c :: before) l' end
  end.

(** The replacement of [String.replace]: [$$], [$&], [$`] and [$'] stand for a
    dollar sign, the match, and what is around it. *)
Fixpoint expand (before matched after r : list ascii) : list ascii :=
  match r with
  | c :: ((d :: r') as rest) =>
      if is_char 36 c then
        if is_char 36 d then c :: expand before matched after r'
        else if is_char 38 d then matched ++ expand before matched after r'
        else if is_char 96 d then before ++ expand before matched after r'
        else if is_char 39 d then after ++ expand before matched after r'
        else c :: expand before matched after rest
      else c :: expand before matched after rest
  | _ => r
  end.

(** [tpl.replace(p, r)] *)
Definition replace (p r tpl : string) : string :=
  match around p [] (chars tpl) with
  | Some (before, after) => text_of (before ++ expand before (chars p) after (chars r) ++ after)
  | None => tpl
  end.

Example detail_links :
  replace "{host}" "relay1.example" "https://{host}/dashboard/{host}" = "https://relay1.example/dashboard/{host}"%string
  /\ replace "{host}" "a$&b$$" "x{host}y" = "xa{host}b$y"%string /\ replace "{host}" "a" "none" = "none"%string.
Proof. by vm_compute. Qed.

Definition status_text (s : status) : string := match s with OK => "ok" | WARN => "warn" | CRIT => "crit" end.
Definition status_upper (s : status) : string := match s with OK => "OK" | WARN => "WARN" | CRIT => "CRIT" end.
Definition rank (s : status) : Z := match s with CRIT => 2 | WARN => 1 | OK => 0 end.

Fixpoint join_with (sep : string) (l : list string) : string :=
  match l with [] => "" | [s] => s | s :: l' => s +:+ sep +:+ join_with sep l' end.

Definition concat_all (l : list string) : string := fold_right String.append EmptyString l.

(** [<div class=r>...</div>] *)
Definition row (k v : string) : string :=
  "<div class=r><span class=k>" +:+ esc k +:+ "</span><span class=v>" +:+ esc v +:+ "</span></div>".

(** ** The style sheet *)

Definition DASH_CSS : string := "
:root{--bg:#f6f7f9;--fg:#1a1d21;--card:#fff;--muted:#6b7280;--line:#e5e7eb;
--ok:#16a34a;--warn:#d97706;--crit:#dc2626}
:root[data-theme=dark]{--bg:#0f1216;--fg:#e6e8eb;--card:#171b21;--muted:#9aa4b2;--line:#262c34}
*{box-sizing:border-box}body{margin:0}
.wrap{font:15px/1.5 system-ui,sans-serif;color:var(--fg);background:var(--bg);min-height:100vh;padding:24px}
h1{font-size:18px;margin:0 0 12px}.muted{color:var(--muted)}
.hdr{border-radius:12px;padding:18px 20px;margin-bottom:16px;color:#fff}
.hdr.ok{background:var(--ok)}.hdr.warn{background:var(--warn)}.hdr.crit{background:var(--crit)}
.hdr .big{font-size:26px;font-weight:700}.hdr .sub{font-size:14px;opacity:.95}
.hdr .meta{font-size:12px;opacity:.85;margin-top:6px}
.banner{border-radius:10px;padding:10px 14px;margin-bottom:14px;background:var(--crit);color:#fff;font-size:14px}
.grid{display:grid;gap:12px;grid-template-columns:repeat(auto-fill,minmax(230px,1fr))}
.card{background:var(--card);border:1px solid var(--line);border-left:5px solid var(--muted);border-radius:10px;padding:14px}
.card.ok{border-left-color:var(--ok)}.card.warn{border-left-color:var(--warn)}.card.crit{border-left-color:var(--crit)}
a.card{display:block;text-decoration:none;color:inherit;transition:box-shadow .1s,transform .1s}
a.card:hover{box-shadow:0 2px 12px rgba(0,0,0,.18);transform:translateY(-1px)}
.open{margin-top:8px;font-size:12px;color:var(--muted)}
.top{display:flex;align-items:center;justify-content:space-between;gap:8px;margin-bottom:8px}
.host{font-weight:600;word-break:break-all}
.badge{font-size:11px;font-weight:700;padding:2px 8px;border-radius:999px;color:#fff;white-space:nowrap}
.badge.ok{background:var(--ok)}.badge.warn{background:var(--warn)}.badge.crit{background:var(--crit)}
.rows{display:grid;gap:2px}.r{display:flex;justify-content:space-between;font-size:13px}
.k{color:var(--muted)}.v{font-variant-numeric:tabular-nums}
.why{margin-top:8px;font-size:12px;color:var(--crit);word-break:break-word}
".

(** ** Cards *)

Section Page.
(** The text of a number; [pacific]; [localeCompare(b) <= 0]; the text of a map's
    version. *)
Context (number_text : Q -> string) (fixed1_text : Q -> string) (pacific : Z -> string).
Context (locale_le : string -> string -> bool) (json_text : json -> string).

Definition ago_text (none : string) (ms : option Q) : string :=
  match ms with None => none | Some _ => ago ms +:+ " ago" end.

(** The labels and values of a card's rows. *)
Definition push_rows (p : push_summary) : list (string * string) :=
  [("last delivery", ago_text "none yet" (lastDeliveryAgeMs p))]%string
  ++ match sdelivered p with
     | Some d => [("last check", number_text d +:+ " ok / " +:+ match sfailed p with Some f => number_text f | None => "undefined" end +:+ " failed")]%string
     | None => []
     end
  ++ match stimeouts p with Some t => if Qeq_bool t 0 then [] else [("APNs timeouts", number_text t)]%string | None => [] end
  ++ [("APNs sessions", number_text (ssessions p)); ("devices", number_text (sdevices p))]%string
  ++ match speerOutbox p with
     | Some n =>
         [("peer queue", number_text n);
          ("peer clock", match speerSkewMs p with
                         | Some k => (if Qle_bool 0 k then "+" else "") +:+ number_text k +:+ "ms"
                         | None => "undefinedms" end)]%string
         ++ (if speerLastOkKnown p then [("peer answered", ago_text "not yet" (speerLastOkAgeMs p))]%string else [])
     | None => []
     end.

Definition option_row {A} (k : string) (f : A -> string) (v : option A) : list (string * string) :=
  match v with Some v => [(k, f v)] | None => [] end.

Definition card_rows (h : summary) : list (string * string) :=
  [(if is_push h then "checked" else "seen", ago_text "never" (inject_Z <$> ageMs h))]%string
  ++ option_row "sockets" pretty (sockets h)
  ++ option_row "rooms" pretty (rooms h)
  ++ option_row "buckets" (fun n => pretty n +:+ " (" +:+ fixed1_text (inject_Z n / 65536 * 100)%Q +:+ "%)") (buckets h)
  ++ (if is_push h then match spush h with Some p => push_rows p | None => [] end else [])
  ++ [("inbound", match probeOk h with None => "-" | Some true => "ok" | Some false => "FAILING" end)]%string.

(** Where a card leads. *)
Definition detail_url (h : summary) (detailTpl : string) : option string :=
  let url := if is_push h then default ""%string (detailUrl h)
             else if negb (String.eqb detailTpl "") && includes "." (shost h) then replace "{host}" (shost h) detailTpl else ""%string in
  if String.eqb url "" then None else Some url.

Definition why_text (h : summary) : option string :=
  if negb (bool_decide (sstatus h = OK)) && negb (length (reasons h) =? 0)%nat then Some (join_with ", " (reasons h)) else None.

Definition cardHtml (h : summary) (detailTpl : string) : string :=
  let status := status_text (sstatus h) in
  let rows := concat_all (List.map (fun kv => row kv.1 kv.2) (card_rows h)) in
  let why := match why_text h with Some w => "<div class=why>" +:+ esc w +:+ "</div>" | None => "" end in
  let inner := "<div class=top><span class=host>" +:+ esc (shost h) +:+ "</span>"
    +:+ requote "<span class='badge " +:+ esc status +:+ requote "'>" +:+ esc (status_upper (sstatus h)) +:+ "</span></div>"
    +:+ "<div class=rows>" +:+ rows +:+ "</div>" +:+ why in
  match detail_url h detailTpl with
  | Some url => requote "<a class='card link " +:+ esc status +:+ requote "' href='" +:+ esc url
      +:+ requote "' target='_blank' rel='noopener'>" +:+ inner +:+ "<div class=open>detail &#8599;</div></a>"
  | None => requote "<div class='card " +:+ esc status +:+ requote "'>" +:+ inner +:+ "</div>"
  end.

(** ** The page *)

Definition head_html (now : Z) (title : string) (refresh : Z) : string :=
  "<!doctype html><html data-theme=" +:+ themeAt now +:+ "><meta charset=utf-8>"
  +:+ requote "<meta name=viewport content='width=device-width,initial-scale=1'>"
  +:+ "<meta http-equiv=refresh content=" +:+ pretty refresh +:+ "><title>" +:+ esc title +:+ "</title><style>" +:+ DASH_CSS +:+ "</style>".

(** Sicker cards first, then by name; the sort is stable. *)
Definition card_before (a b : summary) : Prop :=
  rank (sstatus b) < rank (sstatus a) \/ (rank (sstatus a) = rank (sstatus b) /\ locale_le (shost a) (shost b) = true).
#[export] Instance card_before_dec a b : Decision (card_before a b).
Proof. unfold card_before. apply _. Defined.

Definition sorted_cards (h : live) : list summary := merge_sort card_before (lhosts h).

Definition overall (h : live) : string := if negb (l_crit h =? 0) then "crit" else if negb (l_warn h =? 0) then "warn" else "ok".

Definition sub_text (h : live) : string :=
  let crit := negb (l_crit h =? 0) in
  let warn := negb (l_warn h =? 0) in
  if crit || warn then
    (if crit then pretty (l_crit h) +:+ " critical" else "") +:+ (if crit && warn then ", " else "")
    +:+ (if warn then pretty (l_warn h) +:+ " warning" else "")
  else "all systems normal".

(** U+26A0 *)
Definition warning_sign : string := text_of [ascii_of_nat 226; ascii_of_nat 154; ascii_of_nat 160].

Definition page_title (h : live) : string := text_of (trim ("Relay fleet " +:+ if negb (l_crit h =? 0) then warning_sign else "")).

Definition version_text (v : option json) : string := match v with None | Some JNull => "?" | Some v => json_text v end.

Definition renderDashboard (health : option live) (now : Z) (detailTpl label : string) : string :=
  match health with
  | None =>
      head_html now "Relay fleet" 15 +:+ "<div class=wrap><h1>iTerm2 relay fleet</h1>"
      +:+ "<p class=muted>Collecting data. The first check runs within the analysis interval; reload shortly.</p></div>"
  | Some h =>
      let cards := concat_all (List.map (fun c => cardHtml c detailTpl) (sorted_cards h)) in
      let mapLine := (if negb (String.eqb label "") then esc label +:+ " &middot; " else "")
        +:+ (if hfleet (lbase h) then "map v" +:+ esc (version_text (mapVersion (lbase h))) else "direct mode") in
      let banner := match mapError (lbase h) with
                    | Some e => if String.eqb e "" then "" else "<div class=banner>shard map fetch failed: " +:+ esc e +:+ "</div>"
                    | None => "" end in
      head_html now (page_title h) 30 +:+ "<div class=wrap>"
      +:+ requote "<header class='hdr " +:+ overall h +:+ requote "'><div class=big>" +:+ pretty (l_ok h) +:+ "/" +:+ pretty (ltotal h) +:+ " healthy</div>"
      +:+ "<div class=sub>" +:+ esc (sub_text h) +:+ "</div><div class=meta>" +:+ mapLine +:+ " &middot; updated " +:+ esc (pacific now)
      +:+ " &middot; probed " +:+ esc (pacific (lprobeAt h)) +:+ "</div></header>"
      +:+ banner +:+ "<div class=grid>" +:+ cards +:+ "</div></div>"
  end.

(** ** The page that is meant *)

Definition row_tree (kv : string * string) : html :=
  El "div" [("class", "r")] [El "span" [("class", "k")] [Txt kv.1]; El "span" [("class", "v")] [Txt kv.2]].

(** A card: its own texts, unescaped, each in one element; a link leads to [detail_url]. *)
Definition card_tree (detailTpl : string) (h : summary) : html :=
  let status := status_text (sstatus h) in
  let inner := [El "div" [("class", "top")] [El "span" [("class", "host")] [Txt (shost h)];
                                             El "span" [("class", "badge " +:+ status)] [Txt (status_upper (sstatus h))]];
                El "div" [("class", "rows")] (List.map row_tree (card_rows h))]
    ++ match why_text h with Some w => [El "div" [("class", "why")] [Txt w]] | None => [] end in
  match detail_url h detailTpl with
  | Some url => El "a" [("class", "card link " +:+ status); ("href", url); ("target", "_blank"); ("rel", "noopener")]
                   (inner ++ [El "div" [("class", "open")] [Txt ("detail " +:+ text_of [ascii_of_nat 226; ascii_of_nat 134; ascii_of_nat 151])]])
  | None => El "div" [("class", "card " +:+ status)] inner
  end.

Definition head_trees (now : Z) (title : string) (refresh : Z) : list html :=
  [Decl "doctype html"; Lone "html" [("data-theme", themeAt now)]; Lone "meta" [("charset", "utf-8")];
   Lone "meta" [("name", "viewport"); ("content", "width=device-width,initial-scale=1")];
   Lone "meta" [("http-equiv", "refresh"); ("content", pretty refresh)];
   El "title" [] [Txt title]; El "style" [] [Txt DASH_CSS]].

Definition dot : string := text_of [" "%char; ascii_of_nat 194; ascii_of_nat 183; " "%char].

Definition map_text (h : live) (label : string) : string :=
  (if String.eqb label "" then "" else label +:+ dot)
  +:+ (if hfleet (lbase h) then "map v" +:+ version_text (mapVersion (lbase h)) else "direct mode").

Definition meta_text (h : live) (now : Z) (label : string) : string :=
  map_text h label +:+ (dot +:+ "updated ") +:+ pacific now +:+ (dot +:+ "probed ") +:+ pacific (lprobeAt h).

Definition banner_trees (h : live) : list html :=
  match mapError (lbase h) with
  | Some e => if String.eqb e "" then [] else [El "div" [("class", "banner")] [Txt ("shard map fetch failed: " +:+ e)]]
  | None => []
  end.

Definition page_trees (health : option live) (now : Z) (detailTpl label : string) : list html :=
  match health with
  | None =>
      head_trees now "Relay fleet" 15
      ++ [El "div" [("class", "wrap")]
            [El "h1" [] [Txt "iTerm2 relay fleet"];
             El "p" [("class", "muted")]
                [Txt "Collecting data. The first check runs within the analysis interval; reload shortly."]]]
  | Some h =>
      head_trees now (page_title h) 30
      ++ [El "div" [("class", "wrap")]
            ([El "header" [("class", "hdr " +:+ overall h)]
                [El "div" [("class", "big")] [Txt (pretty (l_ok h) +:+ "/" +:+ pretty (ltotal h) +:+ " healthy")];
                 El "div" [("class", "sub")] [Txt (sub_text h)];
                 El "div" [("class", "meta")] [Txt (meta_text h now label)]]]
             ++ banner_trees h
             ++ [El "div" [("class", "grid")] (List.map (card_tree detailTpl) (sorted_cards h))])]
  end.

(** The elements and attributes the page may have: none runs a script, and no
    attribute is an event handler. *)
Definition allowed (name : string) (attrs : list string) : bool :=
  existsb (String.eqb name) ["html"; "meta"; "title"; "style"; "div"; "span"; "h1"; "p"; "header"; "a"]%string
  && forallb (fun a => existsb (String.eqb a)
                         ["data-theme"; "charset"; "name"; "content"; "http-equiv"; "class"; "href"; "target"; "rel"]%string) attrs.

(** ** Proofs *)

Lemma is_char_at n c : is_char n c = true -> c = ascii_of_nat n.
Proof. unfold is_char. intros H%Nat.eqb_eq. by rewrite <-H, ascii_nat_embedding. Qed.

(** What [esc] does to one character. *)
Lemma esc_char_cases (P : ascii -> string -> Prop) :
  P "&"%char "&amp;"%string -> P "<"%char "&lt;"%string -> P ">"%char "&gt;"%string -> P (ascii_of_nat 34) "&quot;"%string ->
  (forall c, is_char 38 c = false -> is_char 60 c = false -> is_char 62 c = false -> is_char 34 c = false -> P c (String c "")) ->
  forall c, P c (esc_char c).
Proof.
  intros H1 H2 H3 H4 H5 c. unfold esc_char.
  destruct (is_char 38 c) eqn:E1; [by apply is_char_at in E1 as ->|].
  destruct (is_char 60 c) eqn:E2; [by apply is_char_at in E2 as ->|].
  destruct (is_char 62 c) eqn:E3; [by apply is_char_at in E3 as ->|].
  destruct (is_char 34 c) eqn:E4; [by apply is_char_at in E4 as ->|]. by apply H5.
Qed.

Lemma steps_text s : steps_to (LData false) (esc s) (LData false) (List.map Char (chars s)).
Proof.
  induction s as [|c s IH]; [apply steps_nil|]. change (esc (String c s)) with (esc_char c +:+ esc s).
  refine (steps_app _ _ _ (LData false) [Char c] _ _ _ IH).
  apply (esc_char_cases (fun c e => steps_to (LData false) e (LData false) [Char c])); try done. clear. intros c H1 H2 _ _. unfold steps_to. cbn. by rewrite H1, H2.
Qed.

Lemma spells_esc s : spells (esc s) [Txt s].
Proof. unfold spells. simpl. rewrite app_nil_r. apply steps_text. Qed.

Lemma steps_value n attrs k v s : steps_to (LQuoted n attrs k v) (esc s) (LQuoted n attrs k (v +:+ s)) [].
Proof.
  revert v. induction s as [|c s IH]; intros v; [rewrite append_nil_r; apply steps_nil|].
  change (esc (String c s)) with (esc_char c +:+ esc s).
  refine (steps_app _ _ _ (LQuoted n attrs k (snoc v c)) [] _ [] _ _).
  - apply (esc_char_cases (fun c e => steps_to (LQuoted n attrs k v) e (LQuoted n attrs k (snoc v c)) [])); try done.
    clear. intros c H1 _ _ H4. unfold steps_to. cbn. by rewrite H1, H4.
  - change (String c s) with (String c "" +:+ s). rewrite <-append_assoc. apply IH.
Qed.

(** Texts without markup read as themselves. *)
Definition plain (s : string) : Prop := esc s = s.

Lemma esc_app s t : esc (s +:+ t) = esc s +:+ esc t.
Proof.
  induction s as [|c s IH]; [done|]. change (String c s +:+ t) with (String c (s +:+ t)).
  cbn [esc]. by rewrite IH, append_assoc.
Qed.

Lemma plain_app s t : plain s -> plain t -> plain (s +:+ t).
Proof. unfold plain. intros Hs Ht. by rewrite esc_app, Hs, Ht. Qed.

Lemma digits_plain l : Forall (fun c => digit_value c <> None) l -> plain (text_of l).
Proof.
  induction 1 as [|c l Hc Hl IH]; [done|]. unfold plain in *. unfold text_of in *. cbn [String.string_of_list_ascii esc]. rewrite IH.
  assert (H : forall n, In n [38; 60; 62; 34]%nat -> is_char n c = false).
  { intros n Hn. destruct (is_char n c) eqn:E; [|done]. apply is_char_at in E as ->. destruct Hc. simpl in Hn.
    by repeat destruct Hn as [<-|Hn]. }
  unfold esc_char. by rewrite !H by (simpl; tauto).
Qed.

Lemma pretty_plain (z : Z) : plain (pretty z).
Proof.
  destruct z as [|p|p]; [done|..]; destruct (unsigned_decimal_pretty (Npos p) ltac:(lia)) as (c & l & E & Hd & _);
    apply digits_plain in Hd; rewrite <-E, text_of_chars in Hd; [exact Hd|].
  exact (plain_app "-" _ eq_refl Hd).
Qed.

Lemma spells_plain s : plain s -> spells s [Txt s].
Proof. intros H. pose proof (spells_esc s) as Hs. by rewrite H in Hs. Qed.

Lemma spells_text2 s t a b : spells s [Txt a] -> spells t [Txt b] -> spells (s +:+ t) [Txt (a +:+ b)].
Proof.
  intros Hs Ht. unfold spells. eapply steps_eq; [exact (spells_app _ _ _ _ Hs Ht)|].
  simpl. by rewrite !app_nil_r, chars_app, map_app.
Qed.

(** Read a text piece by piece: escaped texts by the lemmas, trees by [known], the
    literals by evaluation; then compare the tokens. *)
Ltac read_pieces known :=
  repeat lazymatch goal with
  | |- steps_to _ (String _ _) _ _ => vm_compute; reflexivity
  | |- steps_to _ (requote _) _ _ => vm_compute; reflexivity
  | |- steps_to _ EmptyString _ _ => apply steps_nil
  | |- steps_to _ (esc _) _ _ => first [apply steps_text | apply steps_value]
  | |- steps_to _ (_ +:+ _) _ _ => first [known | eapply steps_app]
  | |- steps_to _ _ _ _ => first [known | vm_compute; reflexivity]
  end.
Ltac same_tokens :=
  cbn [List.flat_map flatten List.map List.app app fst snd]; rewrite ?app_nil_r;
  repeat first [rewrite <-!app_assoc | progress cbn [List.flat_map flatten List.map List.app app fst snd] | rewrite !flat_map_app | rewrite !app_nil_r]; try reflexivity.

Lemma row_spells k v : spells (row k v) [row_tree (k, v)].
Proof. eapply steps_eq; [unfold row; read_pieces fail|]. unfold row_tree. same_tokens. Qed.

Lemma rows_spell l : spells (concat_all (List.map (fun kv => row kv.1 kv.2) l)) (List.map row_tree l).
Proof. apply (spells_concat (fun kv => row kv.1 kv.2) row_tree). intros [k v]. apply row_spells. Qed.

Lemma card_spells tpl h : spells (cardHtml h tpl) [card_tree tpl h].
Proof.
  unfold cardHtml, card_tree.
  set (why := match why_text h with Some w => "<div class=why>" +:+ esc w +:+ "</div>" | None => ""%string end).
  set (why_trees := match why_text h with Some w => [El "div" [("class", "why")] [Txt w]] | None => [] end).
  assert (Hwhy : spells why why_trees).
  { subst why why_trees. destruct (why_text h) as [w|]; [|apply spells_nil].
    eapply steps_eq; [read_pieces fail|]. same_tokens. }
  pose proof (rows_spell (card_rows h)) as Hrows. unfold spells in *. clearbody why why_trees.
  generalize (status_text (sstatus h)) as status. intros status.
  destruct (detail_url h tpl) as [url|];
    (eapply steps_eq; [read_pieces ltac:(first [exact Hrows|exact Hwhy])|same_tokens]).
Qed.

Lemma theme_cases now : themeAt now = "light"%string \/ themeAt now = "dark"%string.
Proof. unfold themeAt. case_match; auto. Qed.

Lemma css_steps : steps_to (LData true) (DASH_CSS +:+ "</style>") (LData false) (List.map Char (chars DASH_CSS) ++ [Close "style"]).
Proof. vm_compute. reflexivity. Qed.

Lemma head_spells now title refresh :
  In refresh [15; 30] -> spells (head_html now title refresh) (head_trees now title refresh).
Proof.
  intros Hr. pose proof css_steps as Hcss. unfold head_html, head_trees, spells. generalize dependent DASH_CSS. intros css Hcss.
  destruct (theme_cases now) as [->| ->]; destruct Hr as [<-|[<-|[]]];
    (eapply steps_eq; [read_pieces ltac:(exact Hcss)|same_tokens]).
Qed.

Lemma cards_spell tpl l : spells (concat_all (List.map (fun c => cardHtml c tpl) l)) (List.map (card_tree tpl) l).
Proof. apply (spells_concat (fun c => cardHtml c tpl) (card_tree tpl)). apply card_spells. Qed.

Lemma overall_cases h : overall h = "crit"%string \/ overall h = "warn"%string \/ overall h = "ok"%string.
Proof. unfold overall. repeat case_match; auto. Qed.

Lemma banner_spells h :
  spells (match mapError (lbase h) with
          | Some e => if String.eqb e "" then "" else "<div class=banner>shard map fetch failed: " +:+ esc e +:+ "</div>"
          | None => ""
          end) (banner_trees h).
Proof.
  unfold banner_trees. destruct (mapError (lbase h)) as [e|]; [|apply spells_nil].
  destruct (String.eqb e ""); [apply spells_nil|].
  eapply steps_eq; [read_pieces fail|]. same_tokens.
Qed.

Lemma pretty_steps (z : Z) : steps_to (LData false) (pretty z) (LData false) (List.map Char (chars (pretty z))).
Proof. pose proof (steps_text (pretty z)) as H. by rewrite (pretty_plain z) in H. Qed.

Lemma map_line_steps h label :
  steps_to (LData false)
    ((if negb (String.eqb label "") then esc label +:+ " &middot; " else "")
     +:+ (if hfleet (lbase h) then "map v" +:+ esc (version_text (mapVersion (lbase h))) else "direct mode"))
    (LData false) (List.map Char (chars (map_text h label))).
Proof.
  enough (H : spells _ [Txt (map_text h label)]) by (unfold spells in H; simpl in H; rewrite app_nil_r in H; exact H).
  unfold map_text. apply spells_text2.
  - destruct (String.eqb label ""); [done|]. apply spells_text2; [apply spells_esc|by vm_compute].
  - destruct (hfleet (lbase h)); [|by vm_compute]. apply spells_text2; [by vm_compute|apply spells_esc].
Qed.

Lemma page_spells h now tpl label : spells (renderDashboard h now tpl label) (page_trees h now tpl label).
Proof.
  unfold renderDashboard, page_trees. destruct h as [h|].
  - apply spells_app; [apply head_spells; simpl; tauto|].
    pose proof (cards_spell tpl (sorted_cards h)) as Hcards. pose proof (banner_spells h) as Hbanner.
    pose proof (map_line_steps h label) as Hmap. unfold spells, meta_text in *.
    generalize dependent (map_text h label). intros mt Hmap.
    generalize dependent (banner_trees h). intros banner Hbanner.
    set (line := (_ +:+ (if hfleet (lbase h) then _ else _)%string)) in *. clearbody line.
    destruct (overall_cases h) as [->|[->| ->]];
    (eapply steps_eq;
      [read_pieces ltac:(first [exact Hcards|exact Hbanner|exact Hmap|apply pretty_steps])
      |cbn [List.flat_map flatten List.map List.app app fst snd]; rewrite !chars_app, !map_app; same_tokens]).
  - eapply steps_eq; [eapply steps_app; [apply (head_spells now "Relay fleet" 15); simpl; tauto|vm_compute; reflexivity]|].
    rewrite flat_map_app. reflexivity.
Qed.

Definition tokens (hs : list html) : list token := List.flat_map flatten hs.

Lemma spells_tokens s hs : spells s hs -> tokens_of s = Some (tokens hs).
Proof. unfold spells, steps_to, tokens_of. by intros ->. Qed.

Lemma cards_allowed tpl h : elements allowed (card_tree tpl h) = true.
Proof.
  unfold card_tree. assert (Hr : forall l, forallb (elements allowed) (List.map row_tree l) = true).
  { intros l. induction l as [|[k v] l IH]; [done|]. exact IH. }
  destruct (detail_url h tpl), (why_text h); cbn [elements forallb List.map app fst snd]; rewrite Hr; reflexivity.
Qed.

Lemma page_allowed h now tpl label : forallb (elements allowed) (page_trees h now tpl label) = true.
Proof.
  destruct h as [h|]; [|reflexivity]. unfold page_trees.
  assert (Hc : forallb (elements allowed) (List.map (card_tree tpl) (sorted_cards h)) = true).
  { apply forallb_forall. intros t (c & <- & _)%in_map_iff. apply cards_allowed. }
  unfold banner_trees. cbn [forallb elements List.map app head_trees fst snd].
  destruct (mapError (lbase h)) as [e|]; [destruct (String.eqb e "")|]; cbn [forallb elements List.map app fst snd];
    rewrite Hc; reflexivity.
Qed.

(** Every host has one card, the sickest first. *)
Lemma cards_complete h : Permutation (sorted_cards h) (lhosts h).
Proof. apply merge_sort_Permutation. Qed.

Lemma cards_sickest_first h :
  Total (fun a b : string => locale_le a b = true) -> Transitive (fun a b : string => locale_le a b = true) ->
  StronglySorted (fun a b => rank (sstatus b) <= rank (sstatus a)) (sorted_cards h).
Proof.
  intros Ht Htr. assert (Hs : StronglySorted card_before (sorted_cards h)).
  { apply StronglySorted_merge_sort.
    - intros a b c [Hab|[Hab Lab]] [Hbc|[Hbc Lbc]]; unfold card_before; [left; lia..|].
      right. split; [lia|]. by apply (Htr _ (shost b)).
    - intros a b. unfold card_before. destruct (Ht (shost a) (shost b)), (Z.lt_total (rank (sstatus a)) (rank (sstatus b))) as [|[]]; auto 6. }
  induction Hs as [|a l Hs IH Ha]; constructor; [done|].
  eapply Forall_impl; [exact Ha|]. intros b [?|[? _]]; simpl; lia.
Qed.

(** C36: the dashboard page says what it is meant to say and nothing else. Whatever
    the host names, statuses, reasons, labels, addresses and map errors contain, a
    reader of HTML finds in the rendered text exactly the elements of the intended
    page, with those texts unescaped, each inside its own element or attribute: no
    text opens a tag, ends an attribute or forms a character reference. All the
    elements are among ten that run nothing, no attribute is an event handler, and
    every host of the health document has exactly one card. *)
Theorem page_reads_as_intended h now tpl label :
  tokens_of (renderDashboard h now tpl label) = Some (tokens (page_trees h now tpl label))
  /\ forallb (elements allowed) (page_trees h now tpl label) = true
  /\ (forall l, h = Some l -> Permutation (sorted_cards l) (lhosts l)).
Proof. split_and!; [apply spells_tokens, page_spells|apply page_allowed|intros l _; apply cards_complete]. Qed.
End Page.
