(* ===== verification/MonitorShell.v ===== *)
(** The monitor's side of the network ([monitor/src/server.js]): the adapter that
    hands a socket's messages to the probe one at a time, the probe's one deadline
    over connection and handshake, the requests' verdicts, and the loader of its
    settings file.

    What the network delivers is an event or an argument. *)

From Stdlib Require Import QArith Ascii.
From stdpp Require Import pretty.
From S2P Require Import Prelude Bytes Json ShardGate Monitor MonitorFleet MonitorPush Metrics MonitorCore MonitorServer.
#[local] Open Scope Z_scope.

(** ** The handshake, suspended *)

(** What the first reply decides, if anything; what the second one does. *)
Definition after_first (next1 : result string string) : option probe_result :=
  match probe_text next1 with
  | Err e => Some (Probe false e)
  | Ok challenge =>
      match jstring (jget challenge "nonce") with Some _ => None | None => Some (Probe false "no challenge nonce in reply") end
  end.

Definition after_second (next2 : result string string) : probe_result :=
  match probe_text next2 with
  | Err e => Probe false e
  | Ok r => if jtruthy (jget r "ok") then Probe true "mac parked" else Probe false ("admission rejected: " +:+ result_error r)
  end.

Lemma handshake_split next1 next2 :
  probeHandshake next1 next2 = match after_first next1 with Some r => r | None => after_second next2 end.
Proof. unfold probeHandshake, after_first, after_second. repeat case_match; simplify_eq/=; done. Qed.

Inductive reply := First | Second.

(** Where the awaiting handshake stands: not started; waiting for the adapter's
    promise; its promise settled and its continuation due; returned. *)
Inductive handshake := Unstarted | Awaiting (k : reply) | Due (k : reply) (r : result string string) | Returned.

(** [nodeProbe]'s variables and its adapter's. *)
Record probe_state := ProbeState { queue : list string; shake : handshake; settled : option probe_result }.

(** [done(r)]: the first one counts. *)
Definition done_ (r : probe_result) (s : probe_state) : probe_state :=
  match settled s with Some _ => s | None => ProbeState (queue s) (shake s) (Some r) end.

(** The adapter's [next()]. *)
Definition next (k : reply) (s : probe_state) : probe_state :=
  match queue s with
  | m :: q => ProbeState q (Due k (Ok m)) (settled s)
  | [] => ProbeState [] (Awaiting k) (settled s)
  end.

(** The adapter's ["message"] handler and its [fail]. *)
Definition on_message (m : string) (s : probe_state) : probe_state :=
  match shake s with
  | Unstarted => s
  | Awaiting k => ProbeState (queue s) (Due k (Ok m)) (settled s)
  | _ => ProbeState (queue s ++ [m]) (shake s) (settled s)
  end.

Definition fail_ (msg : string) (s : probe_state) : probe_state :=
  match shake s with Awaiting k => ProbeState (queue s) (Due k (Err msg)) (settled s) | _ => s end.

(** The continuation of the handshake's [await]. *)
Definition resume (s : probe_state) : probe_state :=
  match shake s with
  | Due First r =>
      match after_first r with
      | Some v => done_ v (ProbeState (queue s) Returned (settled s))
      | None => next Second s
      end
  | Due Second r => done_ (after_second r) (ProbeState (queue s) Returned (settled s))
  | _ => s
  end.

Inductive probe_event :=
| POpen
| PMessage (m : string)
| PResume
| PClose
| PError (msg : string)
| PUnexpected (statusCode : Z)
| PTimer.

Definition probe_step (timeoutMs : Z) (s : probe_state) (e : probe_event) : probe_state :=
  match e with
  | POpen => match shake s with Unstarted => next First s | _ => s end
  | PMessage m => on_message m s
  | PResume => resume s
  | PClose => fail_ "socket closed before reply" s
  | PError msg => fail_ "socket error" (done_ (Probe false msg) s)
  | PUnexpected code => done_ (Probe false ("no websocket upgrade (HTTP " +:+ pretty code +:+ ")")) s
  | PTimer => done_ (Probe false ("timeout after " +:+ pretty timeoutMs +:+ "ms")) s
  end.

(** [nodeProbe]: [thrown] is what the constructor of the socket throws. *)
Definition nodeProbe (timeoutMs : Z) (thrown : option string) (es : list probe_event) : probe_state :=
  match thrown with
  | Some msg => ProbeState [] Unstarted (Some (Probe false msg))
  | None => fold_left (probe_step timeoutMs) es (ProbeState [] Unstarted None)
  end.

(** [originUrl.replace(/^http/i, "ws")] *)
Definition ws_url (originUrl : string) : string :=
  match drop_prefix_ci "http" (chars originUrl) with Some r => "ws" +:+ text_of r | None => originUrl end.

(** [randomRoom()] and [roomForHost], on the bytes they draw. *)
Definition randomRoom (random : bytes) : string := hex random.

Definition roomForHost (map : json) (host : string) (random30 : bytes) (randUnit : Q) : result string (option string) :=
  ownedRoomForHost map host (hex random30) randUnit.

(** ** Requests *)

(** [res.ok] *)
Definition res_ok (status : Z) : bool := (200 <=? status) && (status <? 300).

(** [fetchText]: a status and a body, or what [fetch] throws. *)
Definition fetchText (answer : result string (Z * string)) : result string string :=
  (let! sb := answer in if res_ok sb.1 then Ok sb.2 else Err ("HTTP " +:+ pretty sb.1))%res.

(** [fetchMap]; what the parser throws is kept as a word. *)
Definition fetchMap (answer : result string (Z * string)) : result string json :=
  (let! t := fetchText answer in match JSON_parse t with Some j => Ok j | None => Err "SyntaxError"%string end)%res.

Definition probePushOrigin (url : string) (answer : result string Z) : probe_result :=
  match answer with
  | Ok status =>
      if status =? 405 then Probe true "ok"
      else Probe false ("unexpected HTTP " +:+ pretty status +:+ " from " +:+ url +:+ " (expected 405)")
  | Err e => Probe false e
  end.

(** [sendResend] on Resend's answer; the subject, and whether the mail is sent. *)
Definition worst (alerts : list alert) : string :=
  if existsb (fun a => bool_decide (aseverity a = critical)) alerts then "CRITICAL" else "warning".

Definition subject (alerts : list alert) : string :=
  "[iTerm2 relay] " +:+ pretty (Z.of_nat (length alerts)) +:+ " alert(s) (" +:+ worst alerts +:+ ")".

Definition sendResend (alerts : list alert) (answer : result string (Z * string)) : result string unit :=
  (let! sb := answer in if res_ok sb.1 then Ok tt else Err ("Resend " +:+ pretty sb.1 +:+ ": " +:+ sb.2))%res.

(** ** The settings file *)

Definition quoted (n : nat) (l : list ascii) : bool :=
  match l, rev l with c :: _, d :: _ => is_char n c && is_char n d | _, _ => false end.

(** [v.slice(1, -1)] *)
Definition unwrap (l : list ascii) : list ascii := rev (tl (rev (tl l))).

(** A line's key and value. *)
Definition env_line (line : list ascii) : option (string * string) :=
  match trim_chars line with
  | [] => None
  | (c :: _) as t =>
      if is_char 35 c then None else
      match take_while (fun c => negb (is_char 61 c)) t with
      | (_, []) => None
      | (k, _ :: v) =>
          let v := trim_chars v in
          Some (text_of (trim_chars k), text_of (if quoted 34 v || quoted 39 v then unwrap v else v))
      end
  end.

(** [k in process.env]: its own variables, and what every object inherits. *)
Definition INHERITED : list string :=
  ["constructor"; "hasOwnProperty"; "isPrototypeOf"; "propertyIsEnumerable"; "toLocaleString"; "toString"; "valueOf";
   "__proto__"; "__defineGetter__"; "__defineSetter__"; "__lookupGetter__"; "__lookupSetter__"]%string.

Definition set_default (e : env) (k v : string) : env :=
  if bool_decide (is_Some (e !! k)) || bool_decide (k ∈ INHERITED) then e else <[k := v]> e.

Definition loadEnvFile (text : string) (e : env) : env :=
  fold_left (fun e line => match env_line line with Some (k, v) => set_default e k v | None => e end) (lines text) e.

Example settings_file :
  let nl := text_of [ascii_of_nat 10] in
  let e := loadEnvFile ("# comment" +:+ nl +:+ " A = 1 " +:+ nl +:+ "B='x y'" +:+ nl +:+ "A=2" +:+ nl +:+ "C" +:+ nl +:+ "D=a=b") {["D"%string := "kept"%string]} in
  e !! "A"%string = Some "1"%string /\ e !! "B"%string = Some "x y"%string /\ e !! "C"%string = None /\ e !! "D"%string = Some "kept"%string.
Proof. by vm_compute. Qed.

(** ** The probe's verdict *)

(** The messages a listener has heard so far: those after the socket opened. *)
Definition hear (g : bool * list string) (e : probe_event) : bool * list string :=
  match e with
  | POpen => (true, g.2)
  | PMessage m => if g.1 then (true, g.2 ++ [m]) else g
  | _ => g
  end.

Definition heard (es : list probe_event) : list string := (fold_left hear es (false, [])).2.

(** Events other than the connection's failures and the deadline. *)
Definition quiet (e : probe_event) : bool := match e with POpen | PMessage _ | PResume => true | _ => false end.

(** No continuation is due: the event loop has run them all. *)
Definition drained (s : probe_state) : Prop := match shake s with Due _ _ => False | _ => True end.

Lemma done_settled r s : settled (done_ r s) = Some (default r (settled s)).
Proof. unfold done_. by destruct (settled s) eqn:E; rewrite ?E. Qed.

Lemma done_kept r s v : settled s = Some v -> settled (done_ r s) = Some v.
Proof. intros E. by rewrite done_settled, E. Qed.

Lemma step_settled t s e v : settled s = Some v -> settled (probe_step t s e) = Some v.
Proof.
  intros E. destruct e; simpl; unfold on_message, resume, fail_, next; repeat case_match; simpl; try done; by apply done_kept.
Qed.

Lemma run_settled t es s v : settled s = Some v -> settled (fold_left (probe_step t) es s) = Some v.
Proof. revert s. induction es as [|e es IH]; intros s E; [done|]. by apply IH, step_settled. Qed.

Lemma timer_settles t es s : In PTimer es -> exists v, settled (fold_left (probe_step t) es s) = Some v.
Proof.
  revert s. induction es as [|e es IH]; intros s; [done|]. intros [->|Hin]; [|by apply IH].
  exists (default (Probe false ("timeout after " +:+ pretty t +:+ "ms")) (settled s)). simpl. apply run_settled, done_settled.
Qed.

(** Where the handshake is, in terms of the messages heard: those consumed, and
    those still in the queue. *)
Definition place (heard : list string) (s : probe_state) : Prop :=
  match shake s with
  | Unstarted => heard = [] /\ queue s = []
  | Awaiting First => heard = [] /\ queue s = []
  | Due First r => match r with Ok m => heard = m :: queue s | Err _ => heard = queue s end
  | Awaiting Second => exists m1, heard = [m1] /\ queue s = [] /\ after_first (Ok m1) = None
  | Due Second r => exists m1, after_first (Ok m1) = None
                    /\ match r with Ok m2 => heard = m1 :: m2 :: queue s | Err _ => heard = m1 :: queue s end
  | Returned => True
  end.

Definition parked (heard : list string) (s : probe_state) : Prop :=
  forall d, settled s = Some (Probe true d) ->
    exists m1 m2 rest, heard = m1 :: m2 :: rest /\ probeHandshake (Ok m1) (Ok m2) = Probe true d.

Definition opened_ (s : probe_state) : bool := match shake s with Unstarted => false | _ => true end.

Record probe_ok (g : bool * list string) (s : probe_state) : Prop := {
  ok_open : g.1 = opened_ s; ok_place : place g.2 s; ok_parked : parked g.2 s }.

Lemma parked_more l m s : parked l s -> parked (l ++ [m]) s.
Proof. intros H d E. destruct (H d E) as (m1 & m2 & rest & -> & ?). by exists m1, m2, (rest ++ [m]). Qed.

(** A failure settles nothing well. *)
Lemma parked_fail l e s s' :
  settled s' = Some (default (Probe false e) (settled s)) -> parked l s -> parked l s'.
Proof. intros E H d. rewrite E. destruct (settled s) eqn:Es; simpl; [intros [= ->]; by apply H|done]. Qed.

Lemma parked_same l s s' : settled s' = settled s -> parked l s -> parked l s'.
Proof. intros E H d. rewrite E. apply H. Qed.

Lemma done_probe_ok g e s : probe_ok g s -> probe_ok g (done_ (Probe false e) s).
Proof.
  intros [H1 H2 H3]. unfold done_. destruct (settled s) eqn:E; [by split|]. split; [done|done|].
  apply (parked_fail _ e s); [by rewrite E|done].
Qed.

Lemma fail_probe_ok g e s : probe_ok g s -> probe_ok g (fail_ e s).
Proof.
  intros [H1 H2 H3]. unfold fail_. destruct (shake s) as [|k|k r|] eqn:E; try by split.
  split; [by rewrite H1; unfold opened_; rewrite E| |exact H3].
  unfold place in *. rewrite E in H2. cbn [shake queue]. destruct k; [by destruct H2 as [-> ->]|].
  destruct H2 as (m1 & -> & -> & H). by exists m1.
Qed.

Lemma resume_probe_ok g s : probe_ok g s -> probe_ok g (resume s).
Proof.
  intros [H1 H2 H3]. unfold resume. destruct (shake s) as [|k|k r|] eqn:E; try by split. destruct k.
  - assert (Hopen : g.1 = true) by (rewrite H1; unfold opened_; by rewrite E).
    unfold place in H2. rewrite E in H2. destruct (after_first r) as [v|] eqn:Ea.
    + assert (Hv : exists e, v = Probe false e).
      { unfold after_first in Ea. repeat case_match; simplify_eq; by eexists. }
      destruct Hv as [e ->]. apply done_probe_ok. split; [done|done|]. by apply (parked_same _ s).
    + destruct r as [m|e]; [|done]. unfold next. destruct (queue s) as [|m2 q] eqn:Eq.
      * split; [done| |by apply (parked_same _ s)]. unfold place. simpl. by exists m.
      * split; [done| |by apply (parked_same _ s)]. unfold place. simpl. by exists m.
  - assert (Hopen : g.1 = true) by (rewrite H1; unfold opened_; by rewrite E).
    unfold place in H2. rewrite E in H2. destruct H2 as (m1 & Ha & Hr).
    split.
    + rewrite Hopen. unfold done_. simpl. by destruct (settled s).
    + unfold place, done_. simpl. by destruct (settled s).
    + intros d. rewrite done_settled. simpl. destruct (settled s) eqn:Es; simpl; [intros [= ->]; by apply H3|]. intros [= Ed].
      destruct r as [m2|e]; [|done]. exists m1, m2, (queue s). split; [done|]. by rewrite handshake_split, Ha.
Qed.

Lemma probe_step_ok t g s e : probe_ok g s -> probe_ok (hear g e) (probe_step t s e).
Proof.
  intros Hok. destruct e as [|m| | |msg|code|]; simpl;
    [ | |by apply resume_probe_ok|by apply fail_probe_ok|by apply fail_probe_ok, done_probe_ok|by apply done_probe_ok|by apply done_probe_ok].
  - destruct Hok as [H1 H2 H3]. destruct (shake s) as [|k|k r|] eqn:E; [|split; simpl; unfold opened_; rewrite ?E; done..].
    unfold place in H2. rewrite E in H2. destruct H2 as [Hh Hq]. unfold next. rewrite Hq.
    split; simpl; [done|by unfold place|by apply (parked_same _ s)].
  - destruct Hok as [H1 H2 H3]. unfold on_message, opened_, place in *.
    destruct (shake s) as [|k|k r|] eqn:E; rewrite H1; [by split; unfold opened_, place; rewrite ?E| | |].
    + split; [done| |by apply (parked_same _ s), parked_more]. unfold place. cbn [shake queue snd].
      destruct k; [by destruct H2 as [-> ->]|]. destruct H2 as (m1 & -> & -> & H). by exists m1.
    + split; [done| |by apply (parked_same _ s), parked_more]. unfold place. cbn [shake queue snd]. destruct k.
      * destruct r as [m'|e]; by rewrite H2.
      * destruct H2 as (m1 & Ha & Hr). exists m1. split; [done|]. destruct r as [m'|e]; by rewrite Hr.
    + split; [done|done|by apply (parked_same _ s), parked_more].
Qed.

Lemma probe_run_ok t es g s : probe_ok g s -> probe_ok (fold_left hear es g) (fold_left (probe_step t) es s).
Proof. revert g s. induction es as [|e es IH]; intros g s H; [done|]. by apply IH, probe_step_ok. Qed.

Lemma fresh_probe_ok : probe_ok (false, []) (ProbeState [] Unstarted None).
Proof. by split. Qed.

(** While nothing fails: what is settled is the handshake's. *)
Definition calm (l : list string) (s : probe_state) : Prop :=
  match shake s with
  | Returned => (exists m1 rest v, l = m1 :: rest /\ after_first (Ok m1) = Some v /\ settled s = Some v)
                \/ (exists m1 m2 rest, l = m1 :: m2 :: rest /\ after_first (Ok m1) = None /\ settled s = Some (after_second (Ok m2)))
  | Due _ (Err _) => False
  | _ => settled s = None
  end.

Lemma probe_step_calm t g s e : quiet e = true -> probe_ok g s -> calm g.2 s -> calm (hear g e).2 (probe_step t s e).
Proof.
  intros Hq [H1 H2 _] Hc. unfold opened_, place, calm in *. destruct e as [|m| | |msg|code|]; try done; simpl.
  - destruct (shake s) eqn:E; try by rewrite E. unfold next. destruct H2 as [_ ->]. by cbn.
  - unfold on_message. destruct (shake s) as [|k|k r|] eqn:E; rewrite H1; simpl; rewrite ?E; try done.
    destruct Hc as [(m1 & rest & v & -> & ? & ?)|(m1 & m2 & rest & -> & ? & ?)];
      [left; by exists m1, (rest ++ [m]), v|right; by exists m1, m2, (rest ++ [m])].
  - unfold resume. destruct (shake s) as [|k|k [m|e]|] eqn:E; rewrite ?E; try done. destruct k.
    + destruct (after_first (Ok m)) as [v|] eqn:Ea.
      * unfold done_. rewrite Hc. cbn. left. exists m, (queue s), v. by rewrite H2.
      * unfold next. destruct (queue s); exact Hc.
    + destruct H2 as (m1 & Ha & Hl). unfold done_. rewrite Hc. cbn. right. exists m1, m, (queue s). by rewrite Hl.
Qed.

Lemma probe_run_calm t es g s :
  forallb quiet es = true -> probe_ok g s -> calm g.2 s -> calm (fold_left hear es g).2 (fold_left (probe_step t) es s).
Proof.
  revert g s. induction es as [|e es IH]; intros g s Hq Hok Hc; [done|]. simpl in Hq. apply andb_prop in Hq as [He Hq].
  simpl. apply IH; [done|by apply probe_step_ok|by apply probe_step_calm].
Qed.

(** C38: a probe has one verdict, it has one by its deadline, and the verdict is the
    handshake's. In every order of opening, messages, continuations, closing, errors,
    refusals and the deadline: what settles first stays; after the deadline, or when
    the socket cannot be built, something is settled; a host is reported well only
    when the first two messages heard from it make a handshake that parks; and when
    nothing fails and the event loop has run, the verdict is exactly the handshake's
    on those two messages, however they and the continuations interleave. *)
Theorem probe_verdict_exact (t : Z) (thrown : option string) (es : list probe_event) :
  (forall v es', settled (nodeProbe t thrown es) = Some v -> settled (nodeProbe t thrown (es ++ es')) = Some v)
  /\ (thrown <> None \/ In PTimer es -> exists v, settled (nodeProbe t thrown es) = Some v)
  /\ (forall d, settled (nodeProbe t thrown es) = Some (Probe true d) ->
        exists m1 m2 rest, heard es = m1 :: m2 :: rest /\ probeHandshake (Ok m1) (Ok m2) = Probe true d)
  /\ (forall m1 m2 rest, thrown = None -> forallb quiet es = true -> drained (nodeProbe t thrown es) -> heard es = m1 :: m2 :: rest ->
        settled (nodeProbe t thrown es) = Some (probeHandshake (Ok m1) (Ok m2))).
Proof.
  destruct thrown as [msg|]; [split_and!; [done|by eexists|done|done]|].
  pose proof (probe_run_ok t es _ _ fresh_probe_ok) as Hok. unfold nodeProbe, heard. split_and!.
  - intros v es' E. rewrite fold_left_app. by apply run_settled.
  - intros [?|Hin]; [done|by apply timer_settles].
  - exact (ok_parked _ _ Hok).
  - intros m1 m2 rest _ Hq Hd Hh. pose proof (probe_run_calm t es _ _ Hq fresh_probe_ok eq_refl) as Hc.
    destruct Hok as [_ Hp _]. unfold drained, place, calm in *. rewrite Hh in *. destruct (shake _) as [|[]|k r|]; try done.
    + by destruct Hp.
    + by destruct Hp.
    + by destruct Hp as (? & ? & _).
    + rewrite handshake_split.
      destruct Hc as [(? & ? & v & [= <- <-] & -> & ->)|(? & ? & ? & [= <- <- <-] & -> & ->)]; done.
Qed.

(** A connection that closes between the challenge and the handshake's next read is
    only noticed at the deadline. *)
Example close_in_between :
  let es := [POpen; PMessage (requote "{'nonce':'AA=='}"); PClose; PResume] in
  settled (nodeProbe 10000 None es) = None
  /\ settled (nodeProbe 10000 None (es ++ [PTimer])) = Some (Probe false "timeout after 10000ms").
Proof. by vm_compute. Qed.

Example parked_probe :
  settled (nodeProbe 10000 None [POpen; PMessage (requote "{'nonce':'AA=='}"); PMessage (requote "{'ok':true}"); PResume; PResume; PTimer])
  = Some (Probe true "mac parked").
Proof. by vm_compute. Qed.

Lemma probe_verdict_exact_witness :
  let es := [POpen; PMessage (requote "{'nonce':'AA=='}"); PMessage (requote "{'ok':true}"); PResume; PResume] in
  settled (nodeProbe 10000 None es) = Some (Probe true "mac parked").
Proof.
  intros es. destruct (probe_verdict_exact 10000 None es) as (_ & _ & _ & H).
  rewrite (H (requote "{'nonce':'AA=='}") (requote "{'ok':true}") [] eq_refl); [vm_compute|vm_compute|vm_compute|vm_compute]; done.
Defined.

(** ** The settings file *)

(** What the process was started with wins over the file. *)
Lemma environment_wins text e k v : e !! k = Some v -> loadEnvFile text e !! k = Some v.
Proof.
  unfold loadEnvFile. generalize (lines text). intros l. revert e. induction l as [|line l IH]; intros e E; [done|]. simpl. apply IH.
  destruct (env_line line) as [[k' v']|]; [|done]. unfold set_default.
  destruct (decide (k' = k)) as [->|Hk]; [by rewrite bool_decide_eq_true_2 by by eexists|].
  case_match; [done|]. by rewrite lookup_insert_ne.
Qed.

(** A mail is sent exactly when Resend takes it. *)
Lemma sent_when_taken alerts status body : sendResend alerts (Ok (status, body)) = Ok tt <-> 200 <= status < 300.
Proof.
  unfold sendResend, res_ok. simpl. destruct (Z.leb_spec 200 status), (Z.ltb_spec status 300); simpl; split; intros; try done; lia.
Qed.
