(* ===== verification/DashParse.v ===== *)
(** The dashboard's reading of the metrics pages ([dashboard/parse.js]): the
    columns it keeps of the relay's and of the push relay's exposition, and that a
    scrape of a relay reads the relay's own numbers.

    Numbers are exact decimals ([Q]), as in file Monitor. *)

From Stdlib Require Import QArith Ascii.
From stdpp Require Import pretty.
From S2P Require Import Prelude Bytes Json Monitor MonitorPush Metrics.
#[local] Open Scope Z_scope.

(** ** Lines *)

(** The text before and after the first character [c]. *)
Definition cut (c : nat) (l : list ascii) : option (list ascii * list ascii) :=
  match take_while (fun d => negb (is_char c d)) l with (a, _ :: r) => Some (a, r) | (_, []) => None end.

(** [Number(s)], where it is finite *)
Definition js_number (s : list ascii) : option Q :=
  match trim_chars s with [] => Some 0%Q | t => finite_number (text_of t) end.

(** The name, the labels and the value; [None] inside for a value [isFinite]
    refuses. *)
Definition parseLine (line : list ascii) : option (string * list ascii * option Q) :=
  let s := trim_chars line in
  match s with
  | [] => None
  | c :: _ =>
      if is_char 35 c then None else
      match cut 123 s with
      | None => '(name, rest) ← cut 32 s; Some (text_of name, [], js_number rest)
      | Some (name, r) => '(labels, rest) ← cut 125 r; Some (text_of name, labels, js_number rest)
      end
  end.

(** What follows the first occurrence of [p]. *)
Fixpoint after_first (p : string) (l : list ascii) : option (list ascii) :=
  match drop_prefix p l with
  | Some r => Some r
  | None => match l with [] => None | _ :: l' => after_first p l' end
  end.

(** The value of a label: what its quotes hold, where they close. *)
Definition label (labels : list ascii) (key : string) : option string :=
  r ← after_first (key +:+ "=" +:+ dquote) labels; '(v, _) ← cut 34 r; Some (text_of v).

(** ** The relay *)

(** A sample: a number per column. *)
Abbreviation row := (gmap string Q).

Definition col (r : row) (field : string) : Q := default 0%Q (r !! field).

Definition PLAIN : list (string * string) :=
  [("relay_ws_upgrades_total", "ws_upgrades"); ("relay_http_requests_total", "http_requests");
   ("relay_http_errors_total", "http_errors"); ("relay_process_exceptions_total", "exceptions");
   ("relay_metrics_push_errors_total", "push_errors"); ("relay_quota_exceeded_total", "quota_exceeded");
   ("relay_rooms_live", "rooms_live"); ("relay_sockets_live", "sockets_live"); ("relay_rooms_both", "rooms_both");
   ("relay_rooms_mac_only", "rooms_mac_only"); ("relay_rooms_phone_only", "rooms_phone_only");
   ("relay_socket_lifetime_seconds_sum", "life_sum"); ("relay_socket_lifetime_seconds_count", "life_count");
   ("relay_shard_reject_total", "shard_reject"); ("relay_shard_map_reloads_total", "shard_map_reloads");
   ("relay_shard_map_fetch_errors_total", "shard_map_fetch_errors"); ("relay_shard_map_version", "shard_map_version");
   ("relay_shard_owned_buckets", "shard_owned_buckets"); ("relay_shard_draining_buckets", "shard_draining_buckets")]%string.

Definition LIFE_BUCKETS : list Z := [1; 5; 15; 60; 300; 1800].
Definition life_col (b : Z) : string := "life_le" +:+ pretty b.

Definition zeros_of (fields : list string) : row := list_to_map ((fun f => (f, 0%Q)) <$> fields).

(** What [out] starts with. *)
Definition no_sample : row :=
  <["shard_map_version"%string := (-1)%Q]> (zeros_of (List.map snd PLAIN ++ "ws_rejected"%string :: List.map life_col LIFE_BUCKETS)).

Definition read_sample (out : row) (line : list ascii) : row :=
  match parseLine line with
  | Some (name, labels, Some value) =>
      match assoc name PLAIN with
      | Some flat => <[flat := value]> out
      | None =>
          if String.eqb name "relay_ws_upgrades_rejected_total" then <["ws_rejected"%string := (col out "ws_rejected" + value)%Q]> out
          else if String.eqb name "relay_socket_lifetime_seconds_bucket" then
            match label labels "le" with
            | Some le =>
                let c := ("life_le" +:+ le)%string in
                if negb (String.eqb le "") && negb (String.eqb le "+Inf") && bool_decide (is_Some (out !! c)) then <[c := value]> out else out
            | None => out
            end
          else out
      end
  | _ => out
  end.

Definition parseMetrics (text : string) : row := fold_left read_sample (lines text) no_sample.

(** ** The push relay *)

Definition PUSH_PLAIN : list (string * string) :=
  [("pushrelay_http_requests_total", "http_requests"); ("pushrelay_http_errors_total", "http_errors");
   ("pushrelay_process_exceptions_total", "exceptions"); ("pushrelay_register_total", "register");
   ("pushrelay_register_written_total", "register_written"); ("pushrelay_register_skipped_total", "register_skipped");
   ("pushrelay_register_rejected_total", "register_rejected"); ("pushrelay_push_total", "push");
   ("pushrelay_push_delivered_total", "push_delivered"); ("pushrelay_push_bad_secret_total", "push_bad_secret");
   ("pushrelay_push_unknown_token_total", "push_unknown_token"); ("pushrelay_push_apns_error_total", "push_apns_error");
   ("pushrelay_rate_limited_total", "rate_limited"); ("pushrelay_devices", "devices");
   ("pushrelay_push_failed_total", "push_failed"); ("pushrelay_apns_connects_total", "apns_connects");
   ("pushrelay_apns_connect_throttled_total", "apns_throttled"); ("pushrelay_apns_session_errors_total", "apns_session_errors");
   ("pushrelay_apns_discarded_idle_total", "apns_discard_idle");
   ("pushrelay_apns_discarded_timeout_total", "apns_discard_timeout");
   ("pushrelay_apns_request_timeouts_total", "apns_timeouts"); ("pushrelay_apns_sessions", "apns_sessions");
   ("pushrelay_apns_oldest_session_age_seconds", "apns_oldest_session_s");
   ("pushrelay_last_delivery_timestamp_seconds", "last_delivery_ts"); ("pushrelay_apns_latency_seconds_sum", "lat_sum");
   ("pushrelay_apns_latency_seconds_count", "lat_count")]%string.

Definition LAT_BUCKETS : list (string * string) :=
  [("0.05", "lat_le50"); ("0.1", "lat_le100"); ("0.25", "lat_le250"); ("0.5", "lat_le500"); ("1", "lat_le1000");
   ("2.5", "lat_le2500"); ("5", "lat_le5000"); ("10", "lat_le10000")]%string.

Definition LAT_BOUNDS_MS : list Z := [50; 100; 250; 500; 1000; 2500; 5000; 10000].
Definition LAT_COLUMNS : list string := List.map snd LAT_BUCKETS.

(** Apple's reason and its column. *)
Definition REJECT_COLUMNS : list (string * string) :=
  [("BadDeviceToken", "rej_bad_token"); ("Unregistered", "rej_unregistered"); ("DeviceTokenNotForTopic", "rej_wrong_topic");
   ("TooManyRequests", "rej_too_many"); ("ExpiredProviderToken", "rej_expired_jwt"); ("InvalidProviderToken", "rej_invalid_jwt");
   ("InternalServerError", "rej_apple_500"); ("ServiceUnavailable", "rej_unavailable")]%string.

Definition REJECT_FIELDS : list string := List.map snd REJECT_COLUMNS ++ ["rej_other"%string].

(** The column and what the page calls it. *)
Definition REJECT_LABELS : list (string * string) :=
  List.map (fun kv => (kv.2, kv.1)) REJECT_COLUMNS ++ [("rej_other", "other")]%string.

Definition PUSH_FIELDS : list string := List.map snd PUSH_PLAIN ++ LAT_COLUMNS ++ REJECT_FIELDS.

(** The properties every object has: a reason of such a name is counted under a
    property that is no column. *)
Definition INHERITED : list string :=
  ["constructor"; "hasOwnProperty"; "isPrototypeOf"; "propertyIsEnumerable"; "toLocaleString"; "toString"; "valueOf";
   "__proto__"; "__defineGetter__"; "__defineSetter__"; "__lookupGetter__"; "__lookupSetter__"]%string.

Definition reject_column (reason : option string) : option string :=
  match reason with
  | None => Some "rej_other"%string
  | Some r => if bool_decide (r ∈ INHERITED) then None else Some (default "rej_other"%string (assoc r REJECT_COLUMNS))
  end.

Definition read_push_sample (out : row) (line : list ascii) : row :=
  match parseLine line with
  | Some (name, labels, Some value) =>
      match assoc name PUSH_PLAIN with
      | Some flat => <[flat := value]> out
      | None =>
          if String.eqb name "pushrelay_apns_latency_seconds_bucket" then
            match label labels "le" ≫= fun le => assoc le LAT_BUCKETS with Some c => <[c := value]> out | None => out end
          else if String.eqb name "pushrelay_apns_rejected_total" then
            match reject_column (label labels "reason") with
            | Some c => <[c := (col out c + value)%Q]> out
            | None => out
            end
          else out
      end
  | _ => out
  end.

Definition parsePushMetrics (text : string) : row := fold_left read_push_sample (lines text) (zeros_of PUSH_FIELDS).

Example push_page :
  let out := parsePushMetrics ("pushrelay_push_total 41" +:+ newline +:+ "# pushrelay_push_total 9" +:+ newline
    +:+ "pushrelay_apns_latency_seconds_bucket{le=" +:+ dquote +:+ "0.25" +:+ dquote +:+ "} 3" +:+ newline
    +:+ "pushrelay_apns_rejected_total{reason=" +:+ dquote +:+ "Unregistered" +:+ dquote +:+ "} 2" +:+ newline
    +:+ "pushrelay_apns_rejected_total{reason=" +:+ dquote +:+ "A" +:+ dquote +:+ "} 2" +:+ newline
    +:+ "pushrelay_apns_rejected_total{reason=" +:+ dquote +:+ "B" +:+ dquote +:+ "} 1.5" +:+ newline) in
  (fun f => Qred (col out f)) <$> ["push"; "lat_le250"; "rej_unregistered"; "rej_other"; "devices"]%string = [41; 3; 2; (7 # 2); 0]%Q.
Proof. by vm_compute. Qed.
