(* ===== verification/DashScrape.v ===== *)
(** A scrape of a relay reads the relay's own numbers: what [parseMetrics]
    ([dashboard/parse.js]) makes of the page [render] ([host/metrics.js]) writes,
    column by column. *)

From Stdlib Require Import QArith Ascii.
From stdpp Require Import pretty.
From S2P Require Import Prelude Bytes ShardGate ShardMap ShardStore Json Runtime Host Monitor MonitorPush Metrics HostServer HostMetrics DashParse.
#[local] Open Scope Z_scope.

(** ** The value lines of a page *)

Abbreviation series := (string * string * string)%type.

Definition line_of (s : series) : string := value_line s.1.1 s.1.2 s.2.

Definition plain_series (l : list (string * Z)) : list series := List.map (fun kv => (kv.1, ""%string, pretty kv.2)) l.

Definition not_comment (s : string) : bool := match s with String c _ => negb (is_char 35 c) | EmptyString => true end.

Lemma is_hash c : is_char 35 c = true -> c = "#"%char.
Proof.
  unfold is_char. intros E%Nat.eqb_eq. rewrite <-(ascii_nat_embedding c), E. done.
Qed.

Lemma fold_skips {A} (rd : A -> list ascii -> A) (Hc : forall a l, rd a ("#"%char :: l) = a) ls : forall out,
  fold_left rd (List.map chars ls) out = fold_left rd (List.map chars (List.filter not_comment ls)) out.
Proof.
  induction ls as [|s ls IH]; intros out; [done|]. cbn [List.filter List.map fold_left].
  destruct (not_comment s) eqn:E; [apply IH|]. rewrite IH. f_equal.
  destruct s as [|c s]; [done|]. apply negb_false_iff, is_hash in E. subst c. apply Hc.
Qed.

Lemma help_comments name type e : List.filter not_comment (help name type e).1 = [].
Proof. unfold help. destruct (bool_decide _); [done|]. by destruct (help_text name). Qed.

Lemma plain_values type l : forall e, List.filter not_comment (plain_lines type l e).1 = List.map line_of (plain_series l).
Proof.
  induction l as [|[name v] l IH]; intros e; [done|]. cbn [plain_lines].
  pose proof (help_comments name type e) as Hh. destruct (help name type e) as [h e1]. specialize (IH e1).
  destruct (plain_lines type l e1) as [rest e2]. cbn [fst] in *. rewrite List.filter_app, Hh. cbn [List.filter app plain_series List.map].
  f_equal. exact IH.
Qed.

Section Page.
Context (sort_reasons : list (string * Z) -> list (string * Z)) (number_text : Q -> string).

Definition reason_series (name : string) (l : list (string * Z)) : list series :=
  List.map (fun rv => (name, reason_label rv.1, pretty rv.2)) l.

Definition labeled_text (cs : list (string * Z)) (names : list string) : list series :=
  List.flat_map (fun name => reason_series name (sort_reasons (reasons_of name cs))) names.

Definition bucket_series (bounds ns : list Z) : list series :=
  zip_with (fun b n => ("socket_lifetime_seconds_bucket"%string, le_label (pretty b), pretty n)) bounds ns.

Definition lifetime_series (m : metrics) : list series :=
  bucket_series LIFETIME_BUCKETS (bucketCounts m)
  ++ [("socket_lifetime_seconds_bucket", le_label "+Inf", pretty (lifetimeInf m));
      ("socket_lifetime_seconds_sum", "", number_text (lifetimeSum m));
      ("socket_lifetime_seconds_count", "", pretty (lifetimeInf m))]%string.

Definition page_series (m : metrics) (g : gauge_list) : list series :=
  plain_series (plain_counters (Metrics.counters m))
  ++ labeled_text (Metrics.counters m) (labeled_names (Metrics.counters m))
  ++ plain_series g ++ lifetime_series m.

Lemma labeled_values cs names : forall e, List.filter not_comment (labeled_lines sort_reasons cs names e).1 = List.map line_of (labeled_text cs names).
Proof.
  induction names as [|name names IH]; intros e; [done|]. cbn [labeled_lines].
  pose proof (help_comments name "counter" e) as Hh. destruct (help name "counter" e) as [h e1]. specialize (IH e1).
  destruct (labeled_lines sort_reasons cs names e1) as [rest e2]. cbn [fst] in *. rewrite !List.filter_app, Hh, IH.
  cbn [labeled_text List.flat_map app]. rewrite List.map_app. f_equal. unfold reason_series. rewrite List.map_map.
  induction (sort_reasons (reasons_of name cs)) as [|rv l IHl]; [done|]. cbn [List.map List.filter]. by f_equal.
Qed.

Lemma lifetime_values m : List.filter not_comment (histogram_lines number_text m) = List.map line_of (lifetime_series m).
Proof.
  unfold histogram_lines, lifetime_series. rewrite List.map_app.
  assert (Hb : forall bounds ns, List.filter not_comment (zip_with (fun b n =>
      value_line ("socket_lifetime_seconds" +:+ "_bucket") (le_label (pretty b)) (pretty n)) bounds ns)
      = List.map line_of (bucket_series bounds ns)).
  { induction bounds as [|b bounds IH]; intros [|n ns]; try done. cbn [zip_with List.filter]. cbn. f_equal. apply IH. }
  cbn [app List.filter]. cbn [not_comment negb]. change (is_char 35 "#") with true. cbn [negb].
  rewrite List.filter_app. rewrite Hb. done.
Qed.

Lemma page_lines m g : List.filter not_comment (render_lines sort_reasons number_text m g) = List.map line_of (page_series m g).
Proof.
  unfold render_lines, page_series.
  pose proof (plain_values "counter" (plain_counters (Metrics.counters m)) []) as H1.
  destruct (plain_lines "counter" _ []) as [l1 e1].
  pose proof (labeled_values (Metrics.counters m) (labeled_names (Metrics.counters m)) e1) as H2.
  destruct (labeled_lines _ _ _ _) as [l2 e2].
  pose proof (plain_values "gauge" g e2) as H3. destruct (plain_lines "gauge" g e2) as [l3 e3]. cbn [fst] in *.
  by rewrite !List.filter_app, H1, H2, H3, lifetime_values, !List.map_app.
Qed.

(** ** Reading one value line *)

Lemma cut_found c l d r : Forall (fun e => is_char c e = false) l -> is_char c d = true -> cut c (l ++ d :: r) = Some (l, r).
Proof.
  intros Hl Hd. unfold cut. rewrite take_while_app; [done| |by rewrite Hd].
  eapply Forall_impl; [exact Hl|]. by intros e ->.
Qed.

Lemma cut_missing c l : Forall (fun e => is_char c e = false) l -> cut c l = None.
Proof.
  intros Hl. unfold cut. rewrite <-(app_nil_r l), take_while_app; [done| |done].
  eapply Forall_impl; [exact Hl|]. by intros e ->.
Qed.

Lemma digit_no_brace c : digit_value c <> None -> is_char 123 c = false.
Proof.
  unfold digit_value, is_char. intros H. destruct (Nat.eqb_spec (nat_of_ascii c) 123) as [E|]; [|done]. by rewrite E in H.
Qed.

(** The text of a number: no space and no brace. *)
Definition value_text (v : string) : Prop :=
  Forall (fun c => is_js_space c = false /\ is_char 123 c = false) (chars v) /\ chars v <> [].

Lemma name_no_char n l : In n [32; 123; 125]%nat -> Forall (fun c => name_char c = true) l -> Forall (fun c => is_char n c = false) l.
Proof.
  intros Hn H. eapply Forall_impl; [exact H|]. intros c. unfold name_char, is_lower, is_digit, in_range, is_char. intros Hc.
  destruct (Nat.eqb_spec (nat_of_ascii c) n) as [E|]; [|done]. rewrite E in Hc.
  repeat (destruct Hn as [<-|Hn]; [done|]). done.
Qed.

Definition inner_of (labels : string) : list ascii := removelast (List.tl (chars labels)).

Lemma trim_value_line name labels v :
  Forall (fun c => is_js_space c = false) (chars v) -> chars v <> [] ->
  trim_chars (chars (value_line name labels v)) = chars ("relay_" +:+ name) ++ chars labels ++ " "%char :: chars v.
Proof.
  intros Hv Hne. unfold value_line. rewrite !chars_app. change (chars "relay_") with ("r"%char :: chars "elay_").
  rewrite <-!app_comm_cons. change (chars " " ++ chars v) with ([" "%char] ++ chars v).
  rewrite !(app_assoc (chars "elay_")), !(app_assoc _ _ (chars v)), trim_chars_solid_end by done.
  by rewrite <-!app_assoc.
Qed.

Lemma js_number_space v : Forall (fun c => is_js_space c = false) (chars v) -> js_number (" "%char :: chars v) = js_number (chars v).
Proof. done. Qed.

Lemma parse_value_line name labels v :
  series_name name -> label_text labels -> value_text v ->
  parseLine (chars (value_line name labels v))
  = Some ("relay_" +:+ name, match labels with EmptyString => [] | _ => inner_of labels end, js_number (chars v)).
Proof.
  intros [Hn Hc] Hl [Hv Hne].
  assert (Hs : Forall (fun c => is_js_space c = false) (chars v)) by (eapply Forall_impl; [exact Hv|]; by intros c []).
  assert (Hbrace : Forall (fun c => is_char 123 c = false) (chars v)) by (eapply Forall_impl; [exact Hv|]; by intros c []).
  unfold parseLine. rewrite trim_value_line by done.
  assert (Hname : forall n, In n [32; 123; 125]%nat -> Forall (fun c => is_char n c = false) (chars ("relay_" +:+ name))).
  { intros n Hin. apply name_no_char; [done|]. rewrite chars_app. apply Forall_app. split; [by repeat constructor|done]. }
  change (chars ("relay_" +:+ name)) with ("r"%char :: chars ("elay_" +:+ name)) at 1. cbn [app].
  change (is_char 35 "r") with false. cbv iota.
  destruct Hl as [->|(inner & E & Hi)].
  - cbn [chars String.list_ascii_of_string app].
    rewrite cut_missing by (apply Forall_app; split; [apply Hname; simpl; tauto|by constructor]).
    rewrite cut_found by (done || (apply Hname; simpl; tauto)). cbn. by rewrite text_of_chars.
  - unfold inner_of. destruct labels as [|c labels]; [done|]. rewrite E. cbn [app List.tl]. rewrite removelast_last.
    rewrite cut_found by (done || (apply Hname; simpl; tauto)). rewrite <-app_assoc. cbn [app].
    rewrite cut_found by done. cbn. by rewrite text_of_chars.
Qed.

Lemma pretty_text z : value_text (pretty z) /\ (small z -> js_number (chars (pretty z)) = Some (inject_Z z)).
Proof.
  destruct (pretty_solid z) as [H1 H2]. split.
  - split; [|done]. destruct z as [|p|p]; [by repeat constructor|..].
    all: destruct (unsigned_decimal_pretty (Npos p) ltac:(lia)) as (c & l & E & Hd & _).
    + change (chars (pretty (Z.pos p))) with (chars (pretty_N_go (Npos p) "")). rewrite E.
      eapply Forall_impl; [exact Hd|]. intros d Hdd. split; [by apply digit_not_space|by apply digit_no_brace].
    + change (chars (pretty (Z.neg p))) with ("-"%char :: chars (pretty_N_go (Npos p) "")). rewrite E.
      constructor; [done|]. eapply Forall_impl; [exact Hd|]. intros d Hdd. split; [by apply digit_not_space|by apply digit_no_brace].
  - intros Hz. destruct (pretty_Z_reads z Hz) as (Hs & Hne & Hr). unfold js_number.
    replace (trim_chars (chars (pretty z))) with (chars (pretty z)) by (symmetry; exact (trim_solid _ Hs)).
    destruct (chars (pretty z)) as [|c l] eqn:E; [done|]. rewrite <-E, text_of_chars. exact Hr.
Qed.

(** ** What a value line does to a column *)

(** A value line as the page has it, and the number it reads as. *)
Record reads (s : series) (q : option Q) : Prop := {
  rs_name : series_name s.1.1; rs_labels : label_text s.1.2; rs_value : value_text s.2; rs_number : js_number (chars s.2) = q }.

Definition labels_of (s : series) : list ascii := match s.1.2 with EmptyString => [] | _ => inner_of s.1.2 end.

(** The column of the counter or gauge [n]. *)
Definition column (n c : string) : Prop := assoc ("relay_" +:+ n) PLAIN = Some c.

(** The column a line is for, if any. *)
Definition target (s : series) : option string :=
  match assoc ("relay_" +:+ s.1.1) PLAIN with
  | Some c => Some c
  | None => if String.eqb ("relay_" +:+ s.1.1) "relay_ws_upgrades_rejected_total" then Some "ws_rejected"%string
            else if String.eqb ("relay_" +:+ s.1.1) "relay_socket_lifetime_seconds_bucket" then
              le ← label (labels_of s) "le"; Some ("life_le" +:+ le)
            else None
  end.

Lemma parse_series s q : reads s q -> parseLine (chars (line_of s)) = Some ("relay_" +:+ s.1.1, labels_of s, q).
Proof. intros [Hn Hl Hv <-]. unfold line_of. by rewrite parse_value_line. Qed.

Lemma read_column n c s q out : reads s (Some q) -> column n c -> s.1.1 = n -> read_sample out (chars (line_of s)) = <[c := q]> out.
Proof. intros Hs Hc <-. unfold read_sample. rewrite (parse_series s _ Hs). by rewrite Hc. Qed.

Lemma read_other c s q out : reads s q -> target s <> Some c -> read_sample out (chars (line_of s)) !! c = out !! c.
Proof.
  intros Hs. unfold read_sample, target. rewrite (parse_series s _ Hs). destruct q as [q|]; [|done].
  destruct (assoc _ PLAIN) as [f|]; [intros Hf; rewrite lookup_insert_ne; [done|congruence]|].
  destruct (String.eqb _ "relay_ws_upgrades_rejected_total"); [intros Hf; rewrite lookup_insert_ne; [done|congruence]|].
  destruct (String.eqb _ "relay_socket_lifetime_seconds_bucket"); [|done].
  destruct (label _ _) as [le|]; [|done]. cbn [mbind option_bind]. intros Hf. destruct (_ && _); [|done].
  rewrite lookup_insert_ne; [done|congruence].
Qed.

Lemma reads_other c l out : Forall (fun s => (exists q, reads s q) /\ target s <> Some c) l ->
  fold_left read_sample (List.map (fun s => chars (line_of s)) l) out !! c = out !! c.
Proof.
  intros H. revert out. induction H as [|s l [[q Hq] Ht] Hl IH]; intros out; [done|]. cbn [List.map fold_left].
  rewrite IH. by eapply read_other.
Qed.

Lemma assoc_in k l v : assoc k l = Some v -> (k, v) ∈ l.
Proof.
  induction l as [|[k' v'] l IH]; [done|]. simpl. destruct (String.eqb_spec k' k) as [->|]; [intros [= ->]; by left|].
  intros H. right. by apply IH.
Qed.

Lemma nodup_snd (l : list (string * string)) a b c : NoDup (List.map snd l) -> (a, c) ∈ l -> (b, c) ∈ l -> a = b.
Proof.
  induction l as [|[k v] l IH]; [by intros _ H%elem_of_nil|]. intros [Hv Hn]%NoDup_cons Ha Hb.
  assert (Hin : forall x, (x, v) ∈ l -> False) by (intros x Hx; apply Hv, list_elem_of_fmap; by exists (x, v)).
  apply elem_of_cons in Ha as [Ea|Ha], Hb as [Eb|Hb]; [congruence| | |by apply IH].
  - injection Ea as -> ->. by destruct (Hin b).
  - injection Eb as -> ->. by destruct (Hin a).
Qed.

Lemma column_inj n n' c : column n c -> column n' c -> n = n'.
Proof.
  intros H H'. apply (string_app_inj_l "relay_"). apply (nodup_snd PLAIN _ _ c).
  - apply (bool_decide_unpack _). by vm_compute.
  - by apply assoc_in.
  - by apply assoc_in.
Qed.

(** Every column of a counter or gauge is one of these. *)
Lemma column_known n c : column n c -> c ∈ List.map snd PLAIN /\ ("relay_" +:+ n) ∈ List.map fst PLAIN.
Proof. intros H%assoc_in. split; apply list_elem_of_fmap; by eexists (_, _). Qed.

Lemma column_special n c : column n c -> c <> "ws_rejected"%string /\ forall le, c <> "life_le" +:+ le.
Proof.
  intros [H _]%column_known. apply list_elem_of_In in H. simpl in H.
  repeat (destruct H as [<-|H]; [by split|]). done.
Qed.

Lemma column_initial n c : column n c ->
  no_sample !! c = Some (if String.eqb c "shard_map_version" then (-1)%Q else 0%Q).
Proof.
  intros [H _]%column_known. apply list_elem_of_In in H. simpl in H.
  repeat (destruct H as [<-|H]; [by vm_compute|]). done.
Qed.

Lemma target_column n c s : column n c -> target s = Some c -> s.1.1 = n.
Proof.
  intros Hc. unfold target. destruct (assoc _ PLAIN) as [f|] eqn:E; [intros [= ->]; by eapply column_inj|].
  destruct (column_special n c Hc) as [H1 H2].
  destruct (String.eqb _ _); [congruence|]. destruct (String.eqb _ _); [|done].
  destruct (label _ _) as [le|]; [|done]. intros [= E2]. by destruct (H2 le).
Qed.

(** Plain series: the column of a name that is there is its number. *)
Lemma plain_column n c l out :
  column n c -> NoDup (List.map fst l) -> Forall (fun kv : string * Z => series_name kv.1 /\ small kv.2) l ->
  fold_left read_sample (List.map (fun s => chars (line_of s)) (plain_series l)) out !! c
  = match map_get n l with Some v => Some (inject_Z v) | None => out !! c end.
Proof.
  intros Hc. revert out. induction l as [|[k v] l IH]; intros out Hn Hl; [done|].
  apply NoDup_cons in Hn as [Hk Hn]. apply Forall_cons in Hl as [[Hs Hv] Hl]. cbn [fst snd] in *.
  cbn [plain_series List.map fold_left map_get]. rewrite (IH _ Hn Hl).
  destruct (pretty_text v) as [Ht Hr]. specialize (Hr Hv).
  assert (Hreads : reads (k, ""%string, pretty v) (Some (inject_Z v))) by (constructor; [done|by left|done|done]).
  destruct (String.eqb_spec k n) as [->|Hne].
  - destruct (map_get n l) as [w|] eqn:E.
    { destruct Hk. apply list_elem_of_fmap. exists (n, w). split; [done|by apply map_get_elem]. }
    rewrite (read_column n c _ _ _ Hreads Hc eq_refl). by rewrite lookup_insert_eq.
  - destruct (map_get n l); [done|]. rewrite (read_other c _ _ _ Hreads); [done|]. by intros E%(target_column n).
Qed.

(** ** Rejections and lifetimes *)

Lemma target_rejected s : target s = Some "ws_rejected"%string -> s.1.1 = REJECTED.
Proof.
  unfold target. destruct (assoc _ PLAIN) as [f|] eqn:E.
  { intros [= ->]. by destruct (column_special _ _ E) as [H _]. }
  destruct (String.eqb_spec ("relay_" +:+ s.1.1) "relay_ws_upgrades_rejected_total") as [En|_].
  { intros _. exact (string_app_inj_l "relay_" _ REJECTED En). }
  destruct (String.eqb _ _); [|done]. by destruct (label _ _).
Qed.

Lemma target_life s le : target s = Some ("life_le" +:+ le) -> s.1.1 = "socket_lifetime_seconds_bucket"%string.
Proof.
  unfold target. destruct (assoc _ PLAIN) as [f|] eqn:E.
  { intros [= ->]. destruct (column_special _ _ E) as [_ H]. by destruct (H le). }
  destruct (String.eqb _ "relay_ws_upgrades_rejected_total"); [done|].
  destruct (String.eqb_spec ("relay_" +:+ s.1.1) "relay_socket_lifetime_seconds_bucket") as [En|_]; [|done].
  intros _. exact (string_app_inj_l "relay_" _ "socket_lifetime_seconds_bucket" En).
Qed.

Lemma rejected_no_column c : ~ column REJECTED c.
Proof. by vm_compute. Qed.

Lemma read_rejected s v out : reads s (Some (inject_Z v)) -> s.1.1 = REJECTED ->
  read_sample out (chars (line_of s)) = <["ws_rejected"%string := (col out "ws_rejected" + inject_Z v)%Q]> out.
Proof. intros Hs En. unfold read_sample. rewrite (parse_series s _ Hs), En. done. Qed.

Definition reason_ok (rv : string * Z) : Prop := good_reason rv.1 /\ small rv.2.

Lemma reason_reads name rv : series_name name -> reason_ok rv -> reads (name, reason_label rv.1, pretty rv.2) (Some (inject_Z rv.2)).
Proof.
  intros Hn [Hr Hv]. destruct (pretty_text rv.2) as [Ht Hj]. constructor; [done|by apply reason_label_text|done|by apply Hj].
Qed.

Lemma reasons_column name l out c : series_name name -> Forall reason_ok l -> ~ column name c -> c <> "ws_rejected"%string ->
  (forall le, c <> "life_le" +:+ le) ->
  fold_left read_sample (List.map (fun s => chars (line_of s)) (reason_series name l)) out !! c = out !! c.
Proof.
  intros Hn Hl Hc H1 H2. apply reads_other. apply Forall_forall. intros s Hs.
  apply list_elem_of_fmap in Hs as (rv & -> & Hrv). rewrite Forall_forall in Hl. split; [by eexists; apply reason_reads, Hl|].
  unfold target. cbn [fst]. destruct (assoc _ PLAIN) as [f|] eqn:E; [intros [= ->]; by apply Hc|].
  destruct (String.eqb _ _); [congruence|]. destruct (String.eqb _ _); [|done]. destruct (label _ _) as [le|]; [|done].
  intros [= E2]. by destruct (H2 le).
Qed.

Lemma rejected_name : series_name REJECTED.
Proof. split; [done|by repeat constructor]. Qed.

Lemma inject_sum a b q : q = inject_Z a -> (q + inject_Z b)%Q = inject_Z (a + b).
Proof. intros ->. apply inject_Z_add. Qed.

Lemma reasons_rejected l : forall out a, Forall reason_ok l -> col out "ws_rejected" = inject_Z a ->
  col (fold_left read_sample (List.map (fun s => chars (line_of s)) (reason_series REJECTED l)) out) "ws_rejected" = inject_Z (a + sum_of l).
Proof.
  induction l as [|rv l IH]; intros out a Hl Ha; [by rewrite Z.add_0_r|]. apply Forall_cons in Hl as [Hr Hl].
  cbn [reason_series List.map fold_left]. rewrite (read_rejected _ rv.2) by (done || (apply reason_reads; [apply rejected_name|done])).
  fold (reason_series REJECTED l). rewrite (IH _ (a + rv.2) Hl).
  - f_equal. rewrite sum_of_cons. lia.
  - unfold col at 1. rewrite lookup_insert_eq. by apply inject_sum.
Qed.

Lemma labeled_column cs names out c :
  Forall series_name names -> (forall name, name ∈ names -> Forall reason_ok (sort_reasons (reasons_of name cs)) /\ ~ column name c) ->
  c <> "ws_rejected"%string -> (forall le, c <> "life_le" +:+ le) ->
  fold_left read_sample (List.map (fun s => chars (line_of s)) (labeled_text cs names)) out !! c = out !! c.
Proof.
  intros Hn Hr H1 H2. revert out. induction Hn as [|name names Hname Hns IH]; intros out; [done|].
  cbn [labeled_text List.flat_map]. fold (labeled_text cs names). rewrite List.map_app, fold_left_app.
  destruct (Hr name ltac:(by left)) as [Hok Hc]. rewrite IH by (intros; apply Hr; by right).
  by apply reasons_column.
Qed.

Lemma labeled_rejected cs names : forall out a,
  NoDup names -> Forall series_name names -> (forall name, name ∈ names -> Forall reason_ok (sort_reasons (reasons_of name cs))) ->
  col out "ws_rejected" = inject_Z a ->
  col (fold_left read_sample (List.map (fun s => chars (line_of s)) (labeled_text cs names)) out) "ws_rejected"
  = inject_Z (a + if bool_decide (REJECTED ∈ names) then sum_of (sort_reasons (reasons_of REJECTED cs)) else 0).
Proof.
  induction names as [|name names IH]; intros out a Hd Hn Hr Ha; [by rewrite Z.add_0_r|].
  apply NoDup_cons in Hd as [Hni Hd]. apply Forall_cons in Hn as [Hname Hns].
  cbn [labeled_text List.flat_map]. fold (labeled_text cs names). rewrite List.map_app, fold_left_app.
  pose proof (Hr name ltac:(by left)) as Hok. assert (Hr' : forall n, n ∈ names -> Forall reason_ok (sort_reasons (reasons_of n cs)))
    by (intros; apply Hr; by right).
  destruct (decide (name = REJECTED)) as [->|Hne].
  - rewrite (IH _ (a + sum_of (sort_reasons (reasons_of REJECTED cs)))) by (done || by apply reasons_rejected).
    rewrite bool_decide_eq_false_2 by done. rewrite bool_decide_eq_true_2 by by left. f_equal. lia.
  - rewrite (IH _ a); [|done..|].
    + f_equal. f_equal. destruct (bool_decide_reflect (REJECTED ∈ names)); [by rewrite bool_decide_eq_true_2 by by right|].
      by rewrite bool_decide_eq_false_2 by set_solver.
    + rewrite <-Ha. unfold col. f_equal. apply reads_other. apply Forall_forall. intros s Hs.
      apply list_elem_of_fmap in Hs as (rv & -> & Hrv). rewrite Forall_forall in Hok. split; [by eexists; apply reason_reads, Hok|].
      by intros E%target_rejected.
Qed.

Definition bucket_line (b n : Z) : series := ("socket_lifetime_seconds_bucket"%string, le_label (pretty b), pretty n).

Lemma bucket_name : series_name "socket_lifetime_seconds_bucket".
Proof. split; [done|by repeat constructor]. Qed.

Lemma bucket_reads le n : Forall (fun c => is_char 10 c = false /\ is_char 125 c = false) (chars le) -> small n ->
  reads ("socket_lifetime_seconds_bucket"%string, le_label le, pretty n) (Some (inject_Z n)).
Proof.
  intros Hle Hn. destruct (pretty_text n) as [Ht Hj]. constructor; [apply bucket_name|by apply le_label_text|done|by apply Hj].
Qed.

Definition has_lives (out : row) : Prop := forall b, b ∈ LIFE_BUCKETS -> is_Some (out !! life_col b).

Lemma read_bucket b n out : b ∈ LIFE_BUCKETS -> small n -> has_lives out ->
  read_sample out (chars (line_of (bucket_line b n))) = <[life_col b := inject_Z n]> out.
Proof.
  intros Hb Hn Ho. specialize (Ho b Hb). apply list_elem_of_In in Hb. unfold read_sample, bucket_line.
  assert (Hr : reads ("socket_lifetime_seconds_bucket"%string, le_label (pretty b), pretty n) (Some (inject_Z n))).
  { apply bucket_reads; [|done]. repeat (destruct Hb as [<-|Hb]; [by repeat constructor|]). done. }
  rewrite (parse_series _ _ Hr). unfold labels_of. cbn [fst snd].
  repeat (destruct Hb as [<-|Hb];
    [change (label _ "le") with (Some (pretty 1)) || change (label _ "le") with (Some (pretty 5))
     || change (label _ "le") with (Some (pretty 15)) || change (label _ "le") with (Some (pretty 60))
     || change (label _ "le") with (Some (pretty 300)) || change (label _ "le") with (Some (pretty 1800));
     cbn; by rewrite bool_decide_eq_true_2|]). done.
Qed.

Lemma has_lives_insert out c q : has_lives out -> has_lives (<[c := q]> out).
Proof. intros H b Hb. apply lookup_insert_is_Some'. right. by apply H. Qed.

Lemma has_lives_read out s q : reads s q -> has_lives out -> has_lives (read_sample out (chars (line_of s))).
Proof.
  intros Hs H. unfold read_sample. rewrite (parse_series s q Hs). repeat case_match; try done; by apply has_lives_insert.
Qed.

Lemma has_lives_all l : forall out, Forall (fun s => exists q, reads s q) l -> has_lives out ->
  has_lives (fold_left read_sample (List.map (fun s => chars (line_of s)) l) out).
Proof.
  induction l as [|s l IH]; intros out Hl H; [done|]. apply Forall_cons in Hl as [[q Hq] Hl]. cbn [List.map fold_left].
  apply IH; [done|]. by apply (has_lives_read out s q).
Qed.

Lemma has_lives_initial : has_lives no_sample.
Proof. intros b Hb. apply list_elem_of_In in Hb. simpl in Hb. repeat (destruct Hb as [<-|Hb]; [by (eexists; vm_compute; reflexivity)|]). done. Qed.

(** The six buckets of the histogram, each in its column. *)
Lemma buckets_read ns out : length ns = 6%nat -> Forall small ns -> has_lives out ->
  let out' := fold_left read_sample (List.map (fun s => chars (line_of s)) (bucket_series LIFETIME_BUCKETS ns)) out in
  zip_with (fun b n => (life_col b, Some (inject_Z n))) LIFE_BUCKETS ns = List.map (fun b => (life_col b, out' !! life_col b)) LIFE_BUCKETS.
Proof.
  intros Hl Hs H. do 6 (destruct ns as [|? ns]; [done|]). destruct ns; [|done].
  repeat match goal with H : Forall small (_ :: _) |- _ => apply Forall_cons in H as [? H] end.
  unfold LIFETIME_BUCKETS, bucket_series. cbn [zip_with List.map fold_left]. fold (bucket_line 1 z) (bucket_line 5 z0) (bucket_line 15 z1)
    (bucket_line 60 z2) (bucket_line 300 z3) (bucket_line 1800 z4).
  assert (Hb : forall b, List.In b LIFE_BUCKETS -> b ∈ LIFE_BUCKETS) by (intros; by apply list_elem_of_In).
  rewrite (read_bucket 1), (read_bucket 5), (read_bucket 15), (read_bucket 60), (read_bucket 300), (read_bucket 1800)
    by (done || (apply Hb; simpl; tauto) || by repeat apply has_lives_insert).
  unfold LIFE_BUCKETS. cbn [zip_with List.map].
  repeat apply (f_equal2 cons); [..|done]; apply (f_equal (pair _)); symmetry.
  all: repeat (rewrite lookup_insert_ne by (intros E; vm_compute in E; discriminate)).
  all: apply lookup_insert_eq.
Qed.

(** ** The whole page *)

Context (sort_reasons_perm : forall l, sort_reasons l ≡ₚ l).
Context (number_text_plain : forall q, value_text (number_text q)).

Lemma page_read {A} (rd : A -> list ascii -> A) out m g :
  (forall a l, rd a ("#"%char :: l) = a) -> (forall a, rd a [] = a) -> well_formed m g ->
  fold_left rd (lines (render sort_reasons number_text m g)) out
  = fold_left rd (List.map (fun s => chars (line_of s)) (page_series m g)) out.
Proof.
  intros Hc H0 W. unfold render.
  assert (Htext : forall q, Forall (fun c => is_js_space c = false) (chars (number_text q)) /\ chars (number_text q) <> []).
  { intros q. destruct (number_text_plain q) as [Hv Hne]. split; [|done]. eapply Forall_impl; [exact Hv|]. by intros c []. }
  destruct (render_do sort_reasons number_text sort_reasons_perm Htext m g W) as (ls & El & Hne & H1 & _).
  rewrite El, lines_of_join by done. rewrite fold_left_app. cbn [fold_left]. rewrite H0.
  rewrite (fold_skips rd Hc), <-El, page_lines. by rewrite List.map_map.
Qed.

Lemma read_comment out l : read_sample out ("#"%char :: l) = out.
Proof. unfold read_sample, parseLine. destruct (trim_chars_first "#" l eq_refl) as [l' ->]. done. Qed.

(** A relay's own counters and gauges. *)
Record relay_page (m : metrics) (g : gauge_list) : Prop := {
  rp_formed : well_formed m g;
  rp_known : exists b, known b m /\ b < 2 ^ 50;
  rp_buckets : length (bucketCounts m) = 6%nat /\ Forall small (bucketCounts m) /\ small (lifetimeInf m) }.

Lemma label_names k n r : k ∈ KNOWN -> split_nul k = Some (n, r) -> n = REJECTED \/ n = BY_CAUSE.
Proof.
  intros Hk%list_elem_of_In. unfold KNOWN in Hk. cbn [app PRE_REGISTERED REASONS CAUSES List.map] in Hk.
  repeat (destruct Hk as [<-|Hk]; [vm_compute; intros [= <- <-] || done; (by left) || by right|]). done.
Qed.

Lemma page_labels m g name : relay_page m g -> name ∈ labeled_names (Metrics.counters m) ->
  (name = REJECTED \/ name = BY_CAUSE) /\ series_name name.
Proof.
  intros [_ (b & [_ Hk] & _) _] (k & r & v & Hin & E)%labeled_name_inv. destruct (Hk k v Hin) as [Hkn _].
  pose proof (label_names k name r Hkn E) as H. split; [done|]. destruct H as [->| ->]; (split; [done|by repeat constructor]).
Qed.

Lemma page_reasons m g name : relay_page m g -> Forall reason_ok (sort_reasons (reasons_of name (Metrics.counters m))).
Proof.
  intros [W _ _]. rewrite sort_reasons_perm. apply Forall_forall. intros [r v] (k & Hin & E)%elem_of_reasons.
  destruct (wf_counters m g W k v Hin) as [Hv Hn]. rewrite E in Hn. by destruct Hn as (_ & Hr & _).
Qed.

Lemma page_plain m g : relay_page m g ->
  NoDup (List.map fst (plain_counters (Metrics.counters m)))
  /\ Forall (fun kv : string * Z => series_name kv.1 /\ small kv.2) (plain_counters (Metrics.counters m))
  /\ Forall (fun kv : string * Z => kv.1 <> REJECTED /\ starts_with "socket_lifetime_seconds" kv.1 = false) (plain_counters (Metrics.counters m)).
Proof.
  intros [W _ _]. split_and!.
  - pose proof (wf_keys m g W) as Hn. unfold plain_counters. clear W. induction (Metrics.counters m) as [|[k v] l IH]; [constructor|].
    apply NoDup_cons in Hn as [Hk Hn]. cbn [List.filter fst]. destruct (split_nul k); [by apply IH|]. cbn [List.map fst].
    apply NoDup_cons. split; [|by apply IH]. intros Hin. apply Hk. apply list_elem_of_In, List.in_map_iff in Hin as (x & <- & Hx).
    apply List.filter_In in Hx as [Hx _]. apply list_elem_of_In, List.in_map_iff. by exists x.
  - apply Forall_forall. intros [k v] Hin. apply list_elem_of_In, List.filter_In in Hin as [Hin Hs].
    apply list_elem_of_In in Hin. destruct (wf_counters m g W k v Hin) as [Hv Hk]. cbn [fst snd] in *.
    destruct (split_nul k) as [[? ?]|]; [done|]. by destruct Hk as [[Hk _] _].
  - apply Forall_forall. intros [k v] Hin. apply list_elem_of_In, List.filter_In in Hin as [Hin Hs].
    apply list_elem_of_In in Hin. destruct (wf_counters m g W k v Hin) as [Hv Hk]. cbn [fst snd] in *.
    destruct (split_nul k) as [[? ?]|]; [done|]. destruct Hk as [[_ Hk] Hr]. split; [|done]. intros ->. apply Hr. by left.
Qed.

Lemma plain_reads l : Forall (fun kv : string * Z => series_name kv.1 /\ small kv.2) l ->
  Forall (fun s => exists q, reads s q) (plain_series l).
Proof.
  intros H. apply Forall_forall. intros s Hs. apply list_elem_of_In, List.in_map_iff in Hs as (kv & <- & Hin).
  rewrite Forall_forall in H. apply list_elem_of_In, H in Hin as [Hn Hv]. destruct (pretty_text kv.2) as [Ht Hj].
  exists (Some (inject_Z kv.2)). constructor; [done|by left|done|by apply Hj].
Qed.

Lemma lifetime_reads m : length (bucketCounts m) = 6%nat -> Forall small (bucketCounts m) -> small (lifetimeInf m) ->
  Forall (fun s => exists q, reads s q) (lifetime_series m).
Proof.
  intros Hl Hs Hi. unfold lifetime_series. apply Forall_app. split.
  - destruct (bucketCounts m) as [|n1 [|n2 [|n3 [|n4 [|n5 [|n6 [|]]]]]]]; try done.
    repeat (apply Forall_cons in Hs as [? Hs]). unfold bucket_series, LIFETIME_BUCKETS. cbn [zip_with].
    repeat constructor; (eexists; apply bucket_reads; [by repeat constructor|done]).
  - destruct (pretty_text (lifetimeInf m)) as [Ht Hj]. repeat constructor.
    + eexists. apply bucket_reads; [by repeat constructor|done].
    + eexists. constructor; [split; [done|by repeat constructor]|by left|apply number_text_plain|done].
    + eexists. constructor; [split; [done|by repeat constructor]|by left|done|by apply Hj].
Qed.

(** What a counter or gauge shows in its column. *)
Definition shown (m : metrics) (g : gauge_list) (n c : string) : Z :=
  match map_get n g with
  | Some v => v
  | None => match map_get n (Metrics.counters m) with
            | Some v => v
            | None => if String.eqb c "shard_map_version" then -1 else 0
            end
  end.

Definition fold_series (l : list series) (out : row) : row := fold_left read_sample (List.map (fun s => chars (line_of s)) l) out.

Lemma fold_series_app l k out : fold_series (l ++ k) out = fold_series k (fold_series l out).
Proof. unfold fold_series. by rewrite List.map_app, fold_left_app. Qed.

Lemma map_get_plain n cs : split_nul n = None -> map_get n (plain_counters cs) = map_get n cs.
Proof.
  intros Hn. induction cs as [|[k v] cs IH]; [done|]. cbn [plain_counters List.filter fst]. fold (plain_counters cs).
  destruct (split_nul k) eqn:E; cbn [map_get].
  - rewrite IH. destruct (String.eqb_spec k n); [congruence|done].
  - by rewrite IH.
Qed.

Lemma column_no_nul n c : column n c -> split_nul n = None.
Proof.
  intros [_ H]%column_known. apply list_elem_of_In in H. cbn [List.map fst PLAIN] in H.
  repeat (destruct H as [E|H]; [apply (string_app_inj_l "relay_" _ n) in E; by subst n|]). done.
Qed.

(** The part of the page before the histogram, at a column. *)
Lemma series_column m g n c out : relay_page m g -> column n c ->
  fold_series (plain_series g) (fold_series (labeled_text (Metrics.counters m) (labeled_names (Metrics.counters m)))
    (fold_series (plain_series (plain_counters (Metrics.counters m))) out)) !! c
  = match map_get n g with Some v => Some (inject_Z v) | None =>
      match map_get n (Metrics.counters m) with Some v => Some (inject_Z v) | None => out !! c end end.
Proof.
  intros P Hc. destruct (page_plain m g P) as (Hn & Hf & _). pose proof (rp_formed m g P) as W.
  destruct (column_special n c Hc) as [H1 H2]. unfold fold_series.
  rewrite (plain_column n c g _ Hc (wf_gauges m g W)).
  - destruct (map_get n g); [done|]. rewrite labeled_column; [| | |done|done].
    + rewrite (plain_column n c _ _ Hc Hn Hf). by rewrite (map_get_plain n _ (column_no_nul n c Hc)).
    + apply Forall_forall. intros name Hname. by apply (page_labels m g).
    + intros name Hname. split; [by apply (page_reasons m g)|].
      destruct (page_labels m g name P Hname) as [[-> | ->] _]; [apply rejected_no_column|by vm_compute].
  - apply Forall_forall. intros [k v] Hin. by destruct (wf_g m g W k v Hin) as (Hv & [Hk _] & _).
Qed.

Lemma unread c l out : Forall (fun s => exists q, reads s q) l -> Forall (fun s => target s <> Some c) l -> fold_series l out !! c = out !! c.
Proof. intros H1 H2. apply reads_other. apply Forall_and. done. Qed.

Lemma lifetime_names m : Forall (fun s => starts_with "socket_lifetime_seconds_" s.1.1 = true) (lifetime_series m).
Proof.
  unfold lifetime_series. apply Forall_app. split; [|by repeat constructor]. unfold bucket_series.
  generalize LIFETIME_BUCKETS, (bucketCounts m). induction l as [|b l IH]; intros [|k ks]; simpl; by constructor.
Qed.

Lemma scrape_column m g n c : relay_page m g -> column n c -> starts_with "socket_lifetime_seconds_" n = false ->
  parseMetrics (render sort_reasons number_text m g) !! c = Some (inject_Z (shown m g n c)).
Proof.
  intros P Hc Hl. unfold parseMetrics. rewrite page_read by (done || apply read_comment || apply P).
  fold (fold_series (page_series m g) no_sample). unfold page_series. rewrite !fold_series_app.
  rewrite unread.
  - rewrite (series_column m g n c _ P Hc), (column_initial n c Hc). unfold shown.
    destruct (map_get n g); [done|]. destruct (map_get n (Metrics.counters m)); [done|]. by destruct (String.eqb c _).
  - destruct (rp_buckets m g P) as (? & ? & ?). by apply lifetime_reads.
  - eapply Forall_impl; [apply lifetime_names|]. intros s Hs E. apply (target_column n c s Hc) in E. congruence.
Qed.

Lemma plain_not_rejected l : Forall (fun kv : string * Z => kv.1 <> REJECTED) l ->
  Forall (fun s => target s <> Some "ws_rejected"%string) (plain_series l).
Proof.
  intros H. apply Forall_forall. intros s Hs. apply list_elem_of_In, List.in_map_iff in Hs as (kv & <- & Hin).
  rewrite Forall_forall in H. apply list_elem_of_In, H in Hin. by intros E%target_rejected.
Qed.

Lemma scrape_rejected m g : relay_page m g ->
  col (parseMetrics (render sort_reasons number_text m g)) "ws_rejected" = inject_Z (rejected_sum m).
Proof.
  intros P. unfold parseMetrics. rewrite page_read by (done || apply read_comment || apply P).
  fold (fold_series (page_series m g) no_sample). unfold page_series. rewrite !fold_series_app. unfold col at 1.
  pose proof (rp_formed m g P) as W. destruct (page_plain m g P) as (_ & Hf & Hr). destruct (rp_buckets m g P) as (? & ? & ?).
  rewrite unread; [|by apply lifetime_reads|].
  2:{ eapply Forall_impl; [apply lifetime_names|]. intros s Hs E%target_rejected. cbv beta in Hs. by rewrite E in Hs. }
  rewrite unread; [|apply plain_reads|apply plain_not_rejected].
  2,3: apply Forall_forall; intros [k v] Hin; destruct (wf_g m g W k v Hin) as (Hv & [Hk _] & Hne).
  2: done.
  2:{ intros E. cbn in E. subst k. apply Hne. by left. }
  fold (col (fold_series (labeled_text (Metrics.counters m) (labeled_names (Metrics.counters m)))
    (fold_series (plain_series (plain_counters (Metrics.counters m))) no_sample)) "ws_rejected").
  destruct (labeled_names_spec (Metrics.counters m)) as [Hd Hin]. unfold fold_series at 1.
  rewrite (labeled_rejected _ _ _ 0); [|done|..].
  - f_equal. rewrite Z.add_0_l. unfold rejected_sum. rewrite <-(reasons_sum REJECTED) by done.
    destruct (bool_decide_reflect (REJECTED ∈ labeled_names (Metrics.counters m))) as [|Hni].
    + apply sum_of_perm. by rewrite sort_reasons_perm.
    + rewrite Hin in Hni. destruct (reasons_of REJECTED _); [done|]. by destruct Hni.
  - apply Forall_forall. intros name Hname. by apply (page_labels m g).
  - intros name _. by apply (page_reasons m g).
  - unfold col. rewrite unread; [by vm_compute|by apply plain_reads|]. apply plain_not_rejected.
    eapply Forall_impl; [exact Hr|]. by intros kv [].
Qed.

Lemma head_reads m g : relay_page m g ->
  Forall (fun s => exists q, reads s q) (plain_series (plain_counters (Metrics.counters m))
    ++ labeled_text (Metrics.counters m) (labeled_names (Metrics.counters m)) ++ plain_series g).
Proof.
  intros P. destruct (page_plain m g P) as (_ & Hf & _). pose proof (rp_formed m g P) as W.
  rewrite !Forall_app. split_and!; [by apply plain_reads| |apply plain_reads].
  - apply Forall_forall. intros s Hs. apply list_elem_of_In, List.in_flat_map in Hs as (name & Hn & Hs).
    apply list_elem_of_In in Hn. destruct (page_labels m g name P Hn) as [_ Hname].
    apply List.in_map_iff in Hs as (rv & <- & Hrv). pose proof (page_reasons m g name P) as Hok. rewrite Forall_forall in Hok.
    eexists. apply reason_reads; [done|]. by apply Hok, list_elem_of_In.
  - apply Forall_forall. intros [k v] Hin. by destruct (wf_g m g W k v Hin) as (Hv & [Hk _] & _).
Qed.

Lemma scrape_lives m g : relay_page m g ->
  let out := parseMetrics (render sort_reasons number_text m g) in
  out !! "life_count"%string = Some (inject_Z (lifetimeInf m))
  /\ zip_with (fun b n => (life_col b, Some (inject_Z n))) LIFE_BUCKETS (bucketCounts m)
     = List.map (fun b => (life_col b, out !! life_col b)) LIFE_BUCKETS.
Proof.
  intros P out. destruct (rp_buckets m g P) as (Hl & Hs & Hi). subst out. unfold parseMetrics.
  rewrite page_read by (done || apply read_comment || apply P). fold (fold_series (page_series m g) no_sample).
  unfold page_series, lifetime_series. rewrite !(app_assoc (plain_series _)), !fold_series_app.
  set (out := fold_series (plain_series g) _).
  assert (Ho : has_lives out).
  { subst out. rewrite <-!fold_series_app. apply has_lives_all; [|apply has_lives_initial]. rewrite <-?app_assoc. by apply head_reads. }
  pose proof (buckets_read (bucketCounts m) out Hl Hs Ho) as Hb. cbv zeta in Hb.
  fold (fold_series (bucket_series LIFETIME_BUCKETS (bucketCounts m)) out) in Hb.
  set (out2 := fold_series (bucket_series _ _) out) in *. destruct (pretty_text (lifetimeInf m)) as [Ht Hj].
  unfold fold_series. cbn [List.map fold_left]. set (out3 := read_sample (read_sample out2 _) _).
  assert (Hcount : forall o, read_sample o (chars (line_of ("socket_lifetime_seconds_count", "", pretty (lifetimeInf m))%string))
                     = <["life_count"%string := inject_Z (lifetimeInf m)]> o).
  { intros o. apply (read_column "socket_lifetime_seconds_count"); [|by vm_compute|done].
    constructor; [split; [done|by repeat constructor]|by left|done|by apply Hj]. }
  rewrite Hcount. split; [apply lookup_insert_eq|]. rewrite Hb. apply List.map_ext_in. intros b Hin. f_equal.
  simpl in Hin. rewrite lookup_insert_ne by (repeat (destruct Hin as [<-|Hin]; [intros E; vm_compute in E; discriminate|]); done).
  subst out3. rewrite (read_other _ _ (js_number (chars (number_text (lifetimeSum m))))).
  - rewrite (read_other _ _ (Some (inject_Z (lifetimeInf m)))); [done|apply bucket_reads; [by repeat constructor|done]|].
    repeat (destruct Hin as [<-|Hin]; [intros E; vm_compute in E; discriminate|]). done.
  - constructor; [split; [done|by repeat constructor]|by left|apply number_text_plain|done].
  - repeat (destruct Hin as [<-|Hin]; [intros E; vm_compute in E; discriminate|]). done.
Qed.
End Page.
