(* ===== verification/DashStore.v ===== *)
(** The dashboard's history ([dashboard/db.js], [dashboard/collector.js]): one row
    of numbers per scrape in a SQLite table, and the collector that scrapes, stores
    and prunes on a timer.

    A table is its columns and a row per timestamp.  Disk errors are left out. *)

From Stdlib Require Import QArith Ascii Sorted.
From S2P Require Import Prelude Bytes Metrics DashParse.
#[local] Open Scope Z_scope.

(** ** The tables *)

Definition COLUMNS : list string :=
  ["ws_upgrades"; "ws_rejected"; "http_requests"; "http_errors"; "exceptions"; "push_errors"; "rooms_live"; "sockets_live"]%string
  ++ List.map life_col LIFE_BUCKETS
  ++ ["life_count"; "life_sum"; "quota_exceeded"; "shard_reject"; "shard_map_reloads"; "shard_map_fetch_errors";
      "shard_map_version"; "shard_owned_buckets"; "shard_draining_buckets"; "rooms_both"; "rooms_mac_only"; "rooms_phone_only"]%string.

Definition PUSH_COLUMNS : list string := PUSH_FIELDS.

Record table := Table { tcols : list string; trows : gmap Z row }.

(** [CREATE TABLE IF NOT EXISTS] *)
Definition create (cols : list string) (t : option table) : table := default (Table cols ∅) t.

(** [ensureColumns]: each column the table lacks, 0 in the rows it has. *)
Definition ensureColumns (cols : list string) (t : table) : table :=
  let have := tcols t in
  fold_left (fun t c => if bool_decide (c ∈ have) then t else Table (tcols t ++ [c]) ((<[c := 0%Q]>) <$> trows t)) cols t.

Definition open_table (cols : list string) (t : option table) : table := ensureColumns cols (create cols t).

(** A row as [INSERT OR REPLACE] stores it: 0 in the columns it does not name. *)
Definition stored (cols : list string) (t : table) (snapshot : row) : row :=
  list_to_map ((fun c => (c, if bool_decide (c ∈ cols) then col snapshot c else 0%Q)) <$> tcols t).

Definition insert (cols : list string) (ts : Z) (snapshot : row) (t : table) : table :=
  Table (tcols t) (<[ts := stored cols t snapshot]> (trows t)).

(** [ORDER BY ts ASC] *)
Definition by_ts (a b : Z * row) : Prop := a.1 <= b.1.
#[export] Instance by_ts_dec a b : Decision (by_ts a b).
Proof. unfold by_ts. apply _. Defined.

Definition sorted_rows (t : table) : list (Z * row) := merge_sort by_ts (map_to_list (trows t)).

Definition in_window (fromMs toMs ts : Z) : bool := (fromMs <=? ts) && (ts <=? toMs).

(** [range(fromMs, toMs)]; a row with its [ts] *)
Definition range (fromMs toMs : Z) (t : table) : list (Z * row) :=
  List.filter (fun r => in_window fromMs toMs r.1) (sorted_rows t).

Definition latest (t : table) : option (Z * row) := last (sorted_rows t).

(** [prune(cutoffMs)], and how many rows went *)
Definition prune (cutoffMs : Z) (t : table) : Z * table :=
  let kept := filter (fun r : Z * row => cutoffMs <= r.1) (trows t) in
  (Z.of_nat (size (trows t)) - Z.of_nat (size kept), Table (tcols t) kept).

(** ** The collector *)

Record collector := Collector { cdb : table; pruneAccum : Z }.

Definition HOUR : Z := 3600000.

(** One scrape: the clock when its page was read, the clock at the end of the tick
    and the text, or why there is none. *)
Record scrape := Scrape { read_at : Z; done_at : Z; page : result string string }.

Section Collector.
Context (intervalMs retentionMs : Z) (parse : string -> row) (cols : list string).

(** [tick], from the scrape's result on *)
Definition tick (s : scrape) (c : collector) : collector :=
  let db := match page s with Ok text => insert cols (read_at s) (parse text) (cdb c) | Err _ => cdb c end in
  let acc := pruneAccum c + intervalMs in
  if HOUR <=? acc then Collector (prune (done_at s - retentionMs) db).2 0 else Collector db acc.

Definition collect (l : list scrape) (c : collector) : collector := fold_left (fun c s => tick s c) l c.
End Collector.

(** ** Lemmas: rows in order *)

Lemma sorted_rows_perm t : sorted_rows t ≡ₚ map_to_list (trows t).
Proof. apply merge_sort_Permutation. Qed.

#[export] Instance by_ts_total : Total by_ts.
Proof. intros a b. unfold by_ts. lia. Qed.
#[export] Instance by_ts_trans : Transitive by_ts.
Proof. intros a b c. unfold by_ts. lia. Qed.

(** Lists with the same elements, strictly increasing, are equal. *)
Lemma increasing_unique (l k : list (Z * row)) :
  StronglySorted (fun a b : Z * row => a.1 < b.1) l -> StronglySorted by_ts k -> k ≡ₚ l -> k = l.
Proof.
  intros Hl. revert k. induction Hl as [|a l Hl IH Ha]; intros k Hk Hp; [by apply Permutation_nil_r|].
  destruct Hk as [|b k Hk Hb]; [by apply Permutation_nil in Hp|].
  assert (E : b = a).
  { assert (Hb' : b ∈ a :: l) by (rewrite <-Hp; by left). assert (Ha' : a ∈ b :: k) by (rewrite Hp; by left).
    apply elem_of_cons in Hb' as [|Hb']; [done|]. apply elem_of_cons in Ha' as [|Ha']; [done|].
    rewrite Forall_forall in Ha, Hb. specialize (Ha b Hb'). specialize (Hb a Ha'). unfold by_ts in Hb. lia. }
  subst b. f_equal. apply IH; [done|]. by apply (Permutation.Permutation_cons_inv (a := a)).
Qed.

Lemma sorted_rows_unique t l :
  StronglySorted (fun a b : Z * row => a.1 < b.1) l -> map_to_list (trows t) ≡ₚ l -> sorted_rows t = l.
Proof.
  intros Hl Hp. apply increasing_unique; [done| |by rewrite sorted_rows_perm].
  apply StronglySorted_merge_sort; apply _.
Qed.

(** ** What the collector keeps *)

(** The rows of the scrapes that worked. *)
Definition scraped (parse : string -> row) (cols : list string) (t : table) (l : list scrape) : list (Z * row) :=
  omap (fun s => match page s with Ok text => Some (read_at s, stored cols t (parse text)) | Err _ => None end) l.

(** Ticks one after the other on a clock that moves on between two scrapes. *)
Definition clock (l : list scrape) : Prop :=
  StronglySorted (fun s s' => read_at s < read_at s' /\ done_at s <= read_at s') l /\ Forall (fun s => read_at s <= done_at s) l.

(** At most [gap] from one tick's end to the next one's, and within a tick. *)
Definition paced (gap : Z) (l : list scrape) : Prop :=
  (forall l1 s s' l2, l = l1 ++ s :: s' :: l2 -> done_at s' - done_at s <= gap) /\ Forall (fun s => done_at s - read_at s <= gap) l.

Definition after (cutoff : option Z) (r : Z * row) : bool := match cutoff with Some k => k <=? r.1 | None => true end.

Lemma scraped_app parse cols t l k : scraped parse cols t (l ++ k) = scraped parse cols t l ++ scraped parse cols t k.
Proof. apply omap_app. Qed.

Lemma scraped_from parse cols t l r : r ∈ scraped parse cols t l -> exists s, s ∈ l /\ r.1 = read_at s.
Proof.
  intros (s & Hs & E)%list_elem_of_omap. exists s. split; [done|]. destruct (page s); [by injection E as <-|done].
Qed.

Lemma clock_app l k : clock (l ++ k) -> clock l /\ clock k /\ (forall s s', s ∈ l -> s' ∈ k -> read_at s < read_at s' /\ done_at s <= read_at s').
Proof.
  intros [H1 H2]. apply StronglySorted_app in H1 as (Ha & Hb & Hc). apply Forall_app in H2 as [Hd He].
  split; [by split|]. split; [by split|]. intros s s' Hs Hs'. by apply Ha.
Qed.

Lemma scraped_increasing parse cols t l : clock l -> StronglySorted (fun a b : Z * row => a.1 < b.1) (scraped parse cols t l).
Proof.
  intros [Hs _]. induction Hs as [|s l Hs IH Ha]; [constructor|]. unfold scraped. cbn [omap list_omap]. fold (scraped parse cols t l).
  destruct (page s); [|done]. constructor; [done|]. apply Forall_forall. intros r (s' & Hin & ->)%scraped_from. cbn [fst].
  rewrite Forall_forall in Ha. by apply Ha.
Qed.

Lemma sorted_filter {A} (R : A -> A -> Prop) (p : A -> bool) l : StronglySorted R l -> StronglySorted R (List.filter p l).
Proof.
  induction 1 as [|a l Hl IH Ha]; [constructor|]. cbn [List.filter]. destruct (p a); [|done]. constructor; [done|].
  apply Forall_forall. intros x Hx. apply list_elem_of_In, List.filter_In in Hx as [Hx _]. rewrite Forall_forall in Ha.
  by apply Ha, list_elem_of_In.
Qed.

Lemma filter_filter {A} (p q : A -> bool) l : List.filter p (List.filter q l) = List.filter (fun x => q x && p x) l.
Proof.
  induction l as [|a l IH]; [done|]. cbn [List.filter]. destruct (q a); cbn [List.filter andb]; [|done]. destruct (p a); [by f_equal|done].
Qed.

Lemma paced_total gap l1 s l2 s' : paced gap (l1 ++ s :: l2) -> last (s :: l2) = Some s' -> done_at s' - done_at s <= gap * Z.of_nat (length l2).
Proof.
  revert l1 s. induction l2 as [|x l2 IH]; intros l1 s H E.
  { injection E as <-. simpl. lia. }
  pose proof (proj1 H l1 s x l2 eq_refl) as H1.
  assert (H2 : paced gap ((l1 ++ [s]) ++ x :: l2)) by by rewrite <-app_assoc.
  specialize (IH (l1 ++ [s]) x H2 E). cbn [length]. lia.
Qed.

Section Kept.
Context (intervalMs retentionMs : Z) (parse : string -> row) (cols : list string) (t0 : table).
Context (interval_positive : 0 < intervalMs) (retention_positive : 0 <= retentionMs).

(** The rows are those since the last prune's cutoff, which was at most an hour of
    ticks ago. *)
Record kept (l : list scrape) (c : collector) (cutoff : option Z) : Prop := {
  k_cols : tcols (cdb c) = tcols t0;
  k_rows : map_to_list (trows (cdb c)) ≡ₚ List.filter (after cutoff) (scraped parse cols t0 l);
  k_accum : pruneAccum c < HOUR;
  k_cutoff : match cutoff with
             | Some k => exists l1 s l2, l = l1 ++ s :: l2 /\ k = done_at s - retentionMs
                                         /\ pruneAccum c = intervalMs * Z.of_nat (length l2)
             | None => pruneAccum c = intervalMs * Z.of_nat (length l)
             end }.

Lemma stored_cols t snap : tcols t = tcols t0 -> stored cols t snap = stored cols t0 snap.
Proof. unfold stored. by intros ->. Qed.

Lemma insert_rows l c cutoff s : kept l c cutoff -> clock (l ++ [s]) ->
  let db := match page s with Ok text => insert cols (read_at s) (parse text) (cdb c) | Err _ => cdb c end in
  tcols db = tcols t0 /\ map_to_list (trows db) ≡ₚ List.filter (after cutoff) (scraped parse cols t0 (l ++ [s])).
Proof.
  intros K Hc db. subst db. pose proof (k_cols _ _ _ K) as Hcols. pose proof (k_rows _ _ _ K) as Hr. rewrite scraped_app.
  unfold scraped at 2. cbn [omap list_omap]. destruct (page s) as [text|]; [|split; [done|by rewrite app_nil_r]].
  split; [done|]. cbn [insert trows]. rewrite List.filter_app, <-Hr, (stored_cols _ _ Hcols).
  apply clock_app in Hc as (_ & [_ Hs] & Hlt). apply Forall_cons in Hs as [Hs _].
  assert (Hcut : after cutoff (read_at s, stored cols t0 (parse text)) = true).
  { unfold after. pose proof (k_cutoff _ _ _ K) as Hk. destruct cutoff as [k|]; [|done]. destruct Hk as (l1 & x & l2 & -> & -> & _).
    apply Z.leb_le. cbn [fst]. destruct (Hlt x s) as [_ Hd]; [set_solver|by left|]. lia. }
  cbn [List.filter]. rewrite Hcut. rewrite map_to_list_insert; [by rewrite Permutation_app_comm|].
  destruct (trows (cdb c) !! read_at s) as [r|] eqn:E; [|done]. apply elem_of_map_to_list in E. rewrite Hr in E.
  apply list_elem_of_In, List.filter_In in E as [E _]. apply list_elem_of_In, scraped_from in E as (x & Hx & Ex).
  destruct (Hlt x s Hx) as [Hl _]; [by left|]. cbn [fst] in Ex. lia.
Qed.

Lemma prune_rows k t l : map_to_list (trows t) ≡ₚ l -> map_to_list (trows (prune k t).2) ≡ₚ List.filter (fun r => k <=? r.1) l.
Proof.
  intros Hl. cbn [prune snd trows]. apply NoDup_Permutation; [apply NoDup_map_to_list| |].
  - apply NoDup_ListNoDup, List.NoDup_filter, NoDup_ListNoDup. rewrite <-Hl. apply NoDup_map_to_list.
  - intros [ts r]. rewrite elem_of_map_to_list, map_lookup_filter_Some, <-elem_of_map_to_list, Hl, !list_elem_of_In, List.filter_In, Z.leb_le.
    done.
Qed.

Lemma tick_kept l c cutoff s : kept l c cutoff -> clock (l ++ [s]) ->
  exists cutoff', kept (l ++ [s]) (tick intervalMs retentionMs parse cols s c) cutoff'.
Proof.
  intros K Hc. destruct (insert_rows l c cutoff s K Hc) as [Hcols Hrows]. unfold tick.
  set (db := match page s with Ok text => _ | Err _ => _ end) in *.
  destruct (Z.leb_spec HOUR (pruneAccum c + intervalMs)) as [Hh|Hh].
  - exists (Some (done_at s - retentionMs)). constructor; cbn [cdb pruneAccum]; [done| |done|].
    + rewrite (prune_rows _ db _ Hrows), filter_filter. apply reflexive_eq, List.filter_ext. intros r. unfold after at 2.
      destruct (Z.leb_spec (done_at s - retentionMs) r.1) as [Hle|]; [|by rewrite andb_false_r]. rewrite andb_true_r.
      unfold after. pose proof (k_cutoff _ _ _ K) as Hk. destruct cutoff as [k|]; [|done]. apply Z.leb_le.
      destruct Hk as (l1 & x & l2 & -> & -> & _). apply clock_app in Hc as (_ & [_ Hs] & Hlt). apply Forall_cons in Hs as [Hs _].
      destruct (Hlt x s) as [_ Hd]; [set_solver|by left|]. lia.
    + exists l, s, []. split; [done|]. split; [done|]. simpl. lia.
  - exists cutoff. constructor; cbn [cdb pruneAccum]; [done|done|lia|]. pose proof (k_cutoff _ _ _ K) as Hk. destruct cutoff as [k|].
    + destruct Hk as (l1 & x & l2 & -> & -> & E). exists l1, x, (l2 ++ [s]). split; [by rewrite <-app_assoc|]. split; [done|].
      rewrite E, length_app. cbn [length]. lia.
    + rewrite Hk, length_app. cbn [length]. lia.
Qed.

Lemma collect_kept l : clock l -> t0 = open_table cols None ->
  exists cutoff, kept l (collect intervalMs retentionMs parse cols l (Collector t0 0)) cutoff.
Proof.
  intros Hc Ht. revert Hc. induction l as [|s l IH] using rev_ind; intros Hc.
  - exists None. constructor; cbn [collect fold_left cdb pruneAccum]; [done| |done|simpl; lia].
    rewrite Ht. unfold open_table, ensureColumns, create. cbn [default]. cbn [tcols].
    assert (H : forall k t, trows t = ∅ -> trows (fold_left (fun t c => if bool_decide (c ∈ cols) then t
      else Table (tcols t ++ [c]) ((<[c := 0%Q]>) <$> trows t)) k t) = ∅).
    { induction k as [|c k IHk]; intros t E; [done|]. cbn [fold_left]. apply IHk. destruct (bool_decide _); [done|].
      cbn [trows]. by rewrite E, fmap_empty. }
    rewrite H by done. by rewrite map_to_list_empty.
  - destruct IH as [cutoff K]; [by apply clock_app in Hc as [? _]|]. unfold collect. rewrite fold_left_app. cbn [fold_left].
    by eapply tick_kept.
Qed.
End Kept.

(** How old a row can be that is not before the cutoff. *)
Lemma kept_age (intervalMs retentionMs gap : Z) (l : list scrape) (s : scrape) (r : Z * row) (cutoff : option Z) :
  0 < intervalMs -> 0 <= retentionMs -> 0 <= gap -> clock (l ++ [s]) -> paced gap (l ++ [s]) ->
  (exists x, x ∈ l ++ [s] /\ r.1 = read_at x) -> after cutoff r = true ->
  match cutoff with
  | Some k => exists l1 x l2, l ++ [s] = l1 ++ x :: l2 /\ k = done_at x - retentionMs /\ intervalMs * Z.of_nat (length l2) < HOUR
  | None => intervalMs * Z.of_nat (length (l ++ [s])) < HOUR
  end -> (done_at s - retentionMs - r.1) * intervalMs <= HOUR * gap.
Proof.
  intros Hi Hr Hg Hc Hp (x & Hx & Ex) Ha Hk.
  assert (Hbound : forall n d, intervalMs * Z.of_nat n < HOUR -> d <= gap * Z.of_nat n -> d * intervalMs <= HOUR * gap) by nia.
  assert (Hlast : forall l1 y l2, l ++ [s] = l1 ++ y :: l2 -> last (y :: l2) = Some s).
  { intros l1 y l2 E. apply (f_equal last) in E. rewrite last_snoc, last_app in E. destruct (last (y :: l2)) eqn:El; [done|]. by apply last_None in El. }
  destruct cutoff as [k|].
  - destruct Hk as (l1 & y & l2 & E & -> & Hl). apply (Hbound (length l2)); [done|]. apply Z.leb_le in Ha. cbn [after] in Ha.
    pose proof (paced_total gap l1 y l2 s) as Ht. rewrite <-E in Ht. specialize (Ht Hp (Hlast _ _ _ E)). lia.
  - apply (Hbound (length (l ++ [s]))); [done|]. apply list_elem_of_split in Hx as (l1 & l2 & E).
    pose proof (paced_total gap l1 x l2 s) as Ht. rewrite <-E in Ht. specialize (Ht Hp (Hlast _ _ _ E)).
    destruct Hp as [_ Hd]. rewrite Forall_forall in Hd. specialize (Hd x ltac:(rewrite E; set_solver)).
    apply (f_equal (@length _)) in E. rewrite (length_app l1) in E. cbn [length] in E. rewrite E. nia.
Qed.

(** ** Property *)

(** The dashboard's history is exact and bounded.  After any scrapes, failed
    ones included, on a clock that moves on: over a window within the retention
    time, [range] gives exactly the scrapes that worked there, each once, in
    order; [latest] is the last of them; and what else is stored is a scrape too,
    older than the retention time by at most an hour's worth of ticks (an hour,
    when ticks come at their interval). *)
Theorem history_exact (intervalMs retentionMs gap : Z) (parse : string -> row) (cols : list string) (l : list scrape) (s : scrape) :
  0 < intervalMs -> 0 <= retentionMs -> 0 <= gap -> clock (l ++ [s]) -> paced gap (l ++ [s]) ->
  let t0 := open_table cols None in
  let t := cdb (collect intervalMs retentionMs parse cols (l ++ [s]) (Collector t0 0)) in
  let rows := scraped parse cols t0 (l ++ [s]) in
  (forall fromMs toMs, done_at s - retentionMs <= fromMs -> range fromMs toMs t = List.filter (fun r => in_window fromMs toMs r.1) rows)
  /\ (forall r, last rows = Some r -> done_at s - retentionMs <= r.1 -> latest t = Some r)
  /\ (forall r, r ∈ sorted_rows t -> r ∈ rows /\ (done_at s - retentionMs - r.1) * intervalMs <= HOUR * gap).
Proof.
  intros Hi Hr Hg Hc Hp t0 t rows. destruct (collect_kept intervalMs retentionMs parse cols t0 Hi Hr (l ++ [s]) Hc eq_refl) as [cutoff K].
  fold t in K. set (c := collect _ _ _ _ _ _) in *.
  pose proof (scraped_increasing parse cols t0 _ Hc) as Hinc. fold rows in Hinc.
  assert (Hs : sorted_rows t = List.filter (after cutoff) rows).
  { apply sorted_rows_unique; [by apply sorted_filter|]. exact (k_rows _ _ _ _ _ _ _ _ K). }
  assert (Hcut : forall r : Z * row, done_at s - retentionMs <= r.1 -> after cutoff r = true).
  { intros r Hle. unfold after. pose proof (k_cutoff _ _ _ _ _ _ _ _ K) as Hk. destruct cutoff as [k|]; [|done]. apply Z.leb_le.
    destruct Hk as (l1 & x & l2 & E & -> & _). enough (done_at x <= done_at s) by lia.
    destruct (last_snoc_cases l2) as [->|(l2' & y & ->)]; [apply app_inj_tail in E as [_ ->]; lia|].
    rewrite app_comm_cons, app_assoc in E. apply app_inj_tail in E as [-> ->].
    apply clock_app in Hc as (_ & [_ Hy] & Hlt). apply Forall_cons in Hy as [Hy _].
    destruct (Hlt x y) as [_ Hd]; [set_solver|by left|]. lia. }
  split_and!.
  - intros fromMs toMs Hle. unfold range. rewrite Hs, filter_filter. apply List.filter_ext. intros r. unfold in_window.
    destruct (Z.leb_spec fromMs r.1); [|by rewrite andb_false_r]. by rewrite Hcut by lia.
  - intros r Hl Hle. unfold latest. rewrite Hs. apply last_Some in Hl as (l' & ->). rewrite List.filter_app. cbn [List.filter].
    rewrite (Hcut r Hle). by rewrite last_snoc.
  - intros r Hin. rewrite Hs in Hin. apply list_elem_of_In, List.filter_In in Hin as [Hin Ha]. apply list_elem_of_In in Hin.
    split; [done|]. pose proof (k_accum _ _ _ _ _ _ _ _ K) as Hacc. pose proof (k_cutoff _ _ _ _ _ _ _ _ K) as Hk.
    apply (kept_age intervalMs retentionMs gap l s r cutoff); try done.
    + by apply scraped_from in Hin.
    + destruct cutoff as [k|]; [|lia]. destruct Hk as (l1 & x & l2 & E & Ek & Ea). exists l1, x, l2. split_and!; [done|done|lia].
Qed.

(** Two hours of half-hourly scrapes, the third one failed, kept for an hour. *)
Definition page_of (n : string) : result string string := Ok ("relay_sockets_live " +:+ n).
Definition some_scrapes : list scrape :=
  [Scrape 0 1 (page_of "3"); Scrape 1800000 1800001 (page_of "4"); Scrape 3600000 3600001 (Err "scrape HTTP 502"%string);
   Scrape 5400000 5400001 (page_of "6")].
Definition last_scrape : scrape := Scrape 7200000 7200001 (page_of "7").

Lemma some_paced : paced 1800001 (some_scrapes ++ [last_scrape]).
Proof.
  split; [|repeat constructor; simpl; lia]. intros l1 s s' l2 E.
  do 4 (destruct l1 as [|? l1]; [cbn in E; injection E as <- <- <-; simpl; lia|injection E as _ E]).
  apply (f_equal (@length _)) in E. rewrite length_app in E. simpl in E. lia.
Qed.

Lemma history_exact_witness :
  let t := cdb (collect 1800000 3600000 parseMetrics COLUMNS (some_scrapes ++ [last_scrape]) (Collector (open_table COLUMNS None) 0)) in
  (fun r => (r.1, col r.2 "sockets_live")) <$> sorted_rows t = [(5400000, 6%Q); (7200000, 7%Q)]
  /\ length (range 3600001 7200000 t) = 2%nat
  /\ range 3600001 7200000 t
     = List.filter (fun r => in_window 3600001 7200000 r.1) (scraped parseMetrics COLUMNS (open_table COLUMNS None) (some_scrapes ++ [last_scrape])).
Proof.
  split; [by vm_compute|]. split; [by vm_compute|].
  apply (history_exact 1800000 3600000 1800001 parseMetrics COLUMNS some_scrapes last_scrape); [lia..| |apply some_paced|simpl; lia].
  split; repeat constructor; simpl; lia.
Defined.
