(* ===== verification/DashSeries.v ===== *)
(** What the dashboard draws of its history ([dashboard/series.js]): the tiles, the
    charts and the health of a window.

    Sums and quotients are exact rationals, rounded where the code calls [toFixed]
    or [Math.round]; the alert rules take whole counts, as in file Monitor. *)

From Stdlib Require Import QArith Qround Qminmax Ascii Lqa Qabs.
From S2P Require Import Prelude Bytes Monitor Metrics DashParse DashStore.
#[local] Open Scope Z_scope.

(** ** Counters that restart *)

(** A row with its timestamp. *)
Abbreviation sample := (Z * row)%type.

Definition step (prev cur : sample) (field : string) : Q :=
  let d := (col cur.2 field - col prev.2 field)%Q in if qlt d 0 then 0%Q else d.

(** [rows[i - 1]] and [rows[i]], for each [i] *)
Fixpoint adjacent (rows : list sample) : list (sample * sample) :=
  match rows with
  | prev :: ((cur :: _) as rest) => (prev, cur) :: adjacent rest
  | _ => []
  end.

Definition windowTotal (rows : list sample) (field : string) : Q :=
  fold_left (fun total p => (total + step p.1 p.2 field)%Q) (adjacent rows) 0%Q.

(** [+x.toFixed(d)] *)
Definition toFixed (d : Z) (x : Q) : Q :=
  let k := 10 ^ d in
  let round y := Qmake (Qfloor (y * inject_Z k + (1 # 2))%Q) (Z.to_pos k) in
  if Qle_bool 0 x then round x else Qopp (round (Qopp x)).

(** ** Slots of a window *)

Section Slots.
Context (fromMs toMs : Z) (buckets : nat).

Definition span : Z := Z.max 1 (toMs - fromMs).
Definition width : Q := (inject_Z span / inject_Z (Z.of_nat buckets))%Q.

(** [idx(ts)] *)
Definition slot_of (ts : Z) : Z :=
  Z.min (Z.of_nat buckets - 1) (Z.max 0 (Qfloor (inject_Z (ts - fromMs) / width)%Q)).

Definition centers : list Z :=
  List.map (fun i => math_round (inject_Z fromMs + width * (inject_Z (Z.of_nat i) + (1 # 2)))%Q) (seq 0 buckets).

(** The samples of a slot: their sums and how many. *)
Record gauge_acc := GaugeAcc { gsum : row; gn : Z }.

(** The increases that end in a slot, and the time they took. *)
Record rate_acc := RateAcc { elapsedMs : Z; rsum : row }.

Definition add_to (field : string) (v : Q) (r : row) : row := <[field := (col r field + v)%Q]> r.

Definition add_sample (gauges : list string) (r : sample) (a : gauge_acc) : gauge_acc :=
  GaugeAcc (fold_left (fun o f => add_to f (col r.2 f) o) gauges (gsum a)) (gn a + 1).

Definition add_step (fields : list string) (p : sample * sample) (a : rate_acc) : rate_acc :=
  RateAcc (elapsedMs a + Z.max 0 (p.2.1 - p.1.1)) (fold_left (fun o f => add_to f (step p.1 p.2 f) o) fields (rsum a)).

Definition gauge_slots (gauges : list string) (rows : list sample) : list gauge_acc :=
  fold_left (fun acc r => alter (add_sample gauges r) (Z.to_nat (slot_of r.1)) acc) rows (replicate buckets (GaugeAcc ∅ 0)).

Definition rate_slots (fields : list string) (rows : list sample) : list rate_acc :=
  fold_left (fun acc p => alter (add_step fields p) (Z.to_nat (slot_of p.2.1)) acc) (adjacent rows) (replicate buckets (RateAcc 0 ∅)).
End Slots.

(** A point of a chart; [None] is a gap. *)
Record point := Point { pt : Z; pv : option Q }.
Abbreviation chart := (list point).

Definition gauge_chart (ts : list Z) (acc : list gauge_acc) (field : string) : chart :=
  zip_with (fun t b => Point t (if gn b =? 0 then None else Some (toFixed 2 (col (gsum b) field / inject_Z (gn b))%Q))) ts acc.

(** Per minute. *)
Definition rate_chart (ts : list Z) (acc : list rate_acc) (field : string) : chart :=
  zip_with (fun t a => Point t (if 0 <? elapsedMs a then
    Some (toFixed 3 (col (rsum a) field / inject_Z (elapsedMs a) * 60000)%Q) else None)) ts acc.

(** One counter over another. *)
Definition fraction_chart (ts : list Z) (acc : list rate_acc) (part whole : string) : chart :=
  zip_with (fun t a => Point t (if qlt 0 (col (rsum a) whole) then
    Some (toFixed 3 (col (rsum a) part / col (rsum a) whole)%Q) else None)) ts acc.

(** Without slots, [gaugeAcc[idx(r.ts)]] is [undefined]. *)
Definition needs_slots {A} (buckets : nat) (rows : list sample) (a : A) : result string A :=
  if (buckets =? 0)%nat && negb (length rows =? 0)%nat then Err "Cannot read properties of undefined"%string else Ok a.

(** ** The relay *)

Definition GAUGES : list string := ["sockets_live"; "rooms_live"; "rooms_both"; "rooms_mac_only"]%string.
Definition RATES : list string :=
  ["ws_upgrades"; "ws_rejected"; "http_requests"; "http_errors"; "exceptions"; "quota_exceeded"; "life_count"; "life_le1"]%string.

Definition bucketize (rows : list sample) (fromMs toMs : Z) (buckets : nat) : result string (list (string * chart)) :=
  let ts := centers fromMs toMs buckets in
  let g := gauge_slots fromMs toMs buckets GAUGES rows in
  let a := rate_slots fromMs toMs buckets RATES rows in
  needs_slots buckets rows
    [("sockets_live", gauge_chart ts g "sockets_live"); ("rooms_live", gauge_chart ts g "rooms_live");
     ("rooms_both", gauge_chart ts g "rooms_both"); ("rooms_mac_only", gauge_chart ts g "rooms_mac_only");
     ("upgrade_rate", rate_chart ts a "ws_upgrades"); ("request_rate", rate_chart ts a "http_requests");
     ("error_rate", rate_chart ts a "http_errors"); ("rejected_rate", rate_chart ts a "ws_rejected");
     ("quota_rate", rate_chart ts a "quota_exceeded"); ("short_lived_frac", fraction_chart ts a "life_le1" "life_count")]%string.

(** A tile; [None] is [null]. *)
Abbreviation tiles := (list (string * option Q)).

Record caps_cfg := Caps { c_sockets : Q; c_rooms : Q; c_warn : Q; c_crit : Q }.
Record error_cfg := ErrorCfg { e_ratio : Q; e_min : Q; e_exceptions : Q }.

(** The whole number a count is. *)
Definition whole (q : Q) : Z := Qfloor q.

Record dashboard := Dashboard {
  d_window : Z * Z * nat; d_tiles : tiles; d_alerts : list alert; d_series : list (string * chart) }.

Definition current (latest : option sample) (rows : list sample) : option sample :=
  match latest with Some r => Some r | None => last rows end.

Definition now_col (cur : option sample) (field : string) : Q := match cur with Some r => col r.2 field | None => 0%Q end.

(** [part / all * 100], to [d] digits; 0 for nothing *)
Definition percent (d : Z) (part all : Q) : Q := if qlt 0 all then toFixed d (part / all * 100)%Q else 0%Q.

(** [latest && nowMs ? nowMs - latest.ts : null] *)
Definition stale_of (latest : option sample) (nowMs : Z) : option Q :=
  match latest with Some r => if nowMs =? 0 then None else Some (inject_Z (nowMs - r.1)) | None => None end.

Definition relay_tiles (rows : list sample) (latest : option sample) (nowMs : Z) : tiles :=
  let cur := current latest rows in
  let total := windowTotal rows in
  let requests := total "http_requests"%string in
  let errors := total "http_errors"%string in
  let closed := total "life_count"%string in
  [("sockets_live", Some (now_col cur "sockets_live")); ("rooms_live", Some (now_col cur "rooms_live"));
   ("rooms_both", Some (now_col cur "rooms_both")); ("rooms_mac_only", Some (now_col cur "rooms_mac_only"));
   ("rooms_phone_only", Some (now_col cur "rooms_phone_only"));
   ("upgrades", Some (total "ws_upgrades")); ("rejected", Some (total "ws_rejected"));
   ("requests", Some requests); ("errors", Some errors); ("error_pct", Some (percent 2 errors requests));
   ("exceptions", Some (total "exceptions")); ("push_errors", Some (total "push_errors"));
   ("quota_closes", Some (total "quota_exceeded"));
   ("shard_map_version", Some (match cur with Some r => default (-1)%Q (r.2 !! "shard_map_version") | None => (-1)%Q end));
   ("shard_owned_buckets", Some (now_col cur "shard_owned_buckets"));
   ("shard_draining_buckets", Some (now_col cur "shard_draining_buckets"));
   ("shard_rejects", Some (total "shard_reject")); ("shard_map_reloads", Some (total "shard_map_reloads"));
   ("shard_map_fetch_errors", Some (total "shard_map_fetch_errors"));
   ("closed", Some closed); ("short_lived_pct", Some (percent 1 (total "life_le1") closed));
   ("avg_lifetime_s", Some (if qlt 0 closed then toFixed 1 (total "life_sum" / closed)%Q else 0%Q));
   ("last_sample_ts", (fun r => inject_Z r.1) <$> current latest rows); ("stale_ms", stale_of latest nowMs)]%string.

(** The health panel: the monitor's own rules over the window. *)
Definition relay_alerts (rows : list sample) (latest : option sample) (caps : caps_cfg) (cfg : error_cfg) : list alert :=
  match current latest rows with
  | Some r => capAlerts [Meter "sockets" "Live sockets" (whole (col r.2 "sockets_live")) (c_sockets caps) (c_warn caps) (c_crit caps);
                         Meter "rooms" "Live rooms" (whole (col r.2 "rooms_live")) (c_rooms caps) (c_warn caps) (c_crit caps)]
  | None => []
  end
  ++ option_list (errorAlert (whole (windowTotal rows "http_requests")) (whole (windowTotal rows "http_errors")) (e_ratio cfg) (e_min cfg))
  ++ option_list (exceptionAlert (whole (windowTotal rows "exceptions")) (e_exceptions cfg)).

Definition buildDashboard (rows : list sample) (latest : option sample) (fromMs toMs : Z) (buckets : nat) (nowMs : Z)
    (caps : caps_cfg) (cfg : error_cfg) : result string dashboard :=
  (let! series := bucketize rows fromMs toMs buckets in
   Ok (Dashboard (fromMs, toMs, buckets) (relay_tiles rows latest nowMs) (relay_alerts rows latest caps cfg) series))%res.

(** ** The push relay *)

Definition PUSH_RATE_FIELDS : list string :=
  ["register"; "register_written"; "register_skipped"; "register_rejected"; "push"; "push_delivered"; "push_failed";
   "push_bad_secret"; "push_unknown_token"; "push_apns_error"; "rate_limited"; "apns_connects"; "apns_throttled";
   "apns_session_errors"; "apns_discard_idle"; "apns_discard_timeout"; "apns_timeouts"; "lat_count"]%string
  ++ LAT_COLUMNS ++ REJECT_FIELDS.

Definition PUSH_GAUGES : list string := ["devices"; "apns_sessions"; "apns_oldest_session_s"]%string.

(** The loop over the bounds, with the count and the bound before. *)
Fixpoint quantile_loop (rank prevCount : Q) (prevBound : Z) (bounds : list Z) (cum : list Q) : Z :=
  match bounds, cum with
  | b :: bounds', c :: cum' =>
      if Qle_bool rank c then
        let inBucket := (c - prevCount)%Q in
        if Qle_bool inBucket 0 then b
        else math_round (inject_Z prevBound + inject_Z (b - prevBound) * ((rank - prevCount) / inBucket))%Q
      else quantile_loop rank c b bounds' cum'
  | _, _ => List.last LAT_BOUNDS_MS 0
  end.

Definition latencyQuantile (q : Q) (cum : list Q) (total : Q) : option Z :=
  if negb (qlt 0 total) then None else Some (quantile_loop (q * total)%Q 0 0 LAT_BOUNDS_MS cum).

Definition quantile_chart (ts : list Z) (acc : list rate_acc) (q : Q) : chart :=
  zip_with (fun t a => Point t (inject_Z <$> latencyQuantile q (List.map (col (rsum a)) LAT_COLUMNS) (col (rsum a) "lat_count"))) ts acc.

Definition bucketizePush (rows : list sample) (fromMs toMs : Z) (buckets : nat) : result string (list (string * chart)) :=
  let ts := centers fromMs toMs buckets in
  let g := gauge_slots fromMs toMs buckets PUSH_GAUGES rows in
  let a := rate_slots fromMs toMs buckets PUSH_RATE_FIELDS rows in
  needs_slots buckets rows
    [("devices", gauge_chart ts g "devices"); ("register_written_rate", rate_chart ts a "register_written");
     ("register_skipped_rate", rate_chart ts a "register_skipped"); ("push_delivered_rate", rate_chart ts a "push_delivered");
     ("push_failed_rate", rate_chart ts a "push_failed"); ("push_bad_secret_rate", rate_chart ts a "push_bad_secret");
     ("apns_connects_rate", rate_chart ts a "apns_connects"); ("apns_timeouts_rate", rate_chart ts a "apns_timeouts");
     ("apns_sessions", gauge_chart ts g "apns_sessions"); ("apns_latency_p50", quantile_chart ts a (1 # 2));
     ("apns_latency_p95", quantile_chart ts a (95 # 100))]%string.

(** Apple's rejections by reason, the biggest first; ties in the order of the
    columns. *)
Definition more (a b : string * Q) : Prop := (b.2 <= a.2)%Q.
#[export] Instance more_dec a b : Decision (more a b).
Proof. unfold more. destruct (Qle_bool b.2 a.2) eqn:E; [left; by apply Qle_bool_iff|right; intros H%Qle_bool_iff; congruence]. Defined.

Definition reject_reasons (rows : list sample) : list (string * Q) :=
  merge_sort more
    (List.filter (fun r => qlt 0 r.2) (List.map (fun f => (default ""%string (assoc f REJECT_LABELS), windowTotal rows f)) REJECT_FIELDS)).

Definition last_delivery (cur : option sample) : option Q :=
  match cur with
  | Some r => if qlt 0 (col r.2 "last_delivery_ts")
              then Some (qmax 0 (inject_Z r.1 - col r.2 "last_delivery_ts" * 1000)%Q) else None
  | None => None
  end.

Record push_payload := PushPayload { p_tiles : tiles; p_reasons : list (string * Q); p_series : list (string * chart) }.

Definition push_tiles (rows : list sample) (latest : option sample) (nowMs : Z) : tiles :=
  let cur := current latest rows in
  let total := windowTotal rows in
  let registrations := total "register"%string in
  let skips := total "register_skipped"%string in
  let pushes := total "push"%string in
  let delivered := total "push_delivered"%string in
  let failed := total "push_failed"%string in
  let attempts := (delivered + failed)%Q in
  let latCum := List.map total LAT_COLUMNS in
  let latCount := total "lat_count"%string in
  [("devices", Some (now_col cur "devices")); ("registrations", Some registrations);
   ("writes", Some (total "register_written")); ("skips", Some skips); ("skip_pct", Some (percent 1 skips registrations));
   ("pushes", Some pushes); ("delivered", Some delivered); ("deliver_pct", Some (percent 1 delivered pushes));
   ("failed", Some failed);
   ("success_pct", if qlt 0 attempts then Some (toFixed 1 (delivered / attempts * 100)%Q) else None);
   ("bad_secret", Some (total "push_bad_secret")); ("unknown_token", Some (total "push_unknown_token"));
   ("apns_errors", Some (total "push_apns_error")); ("rate_limited", Some (total "rate_limited"));
   ("rejected_total", Some (fold_left (fun n r => (n + r.2)%Q) (reject_reasons rows) 0%Q));
   ("latency_p50_ms", inject_Z <$> latencyQuantile (1 # 2) latCum latCount);
   ("latency_p95_ms", inject_Z <$> latencyQuantile (95 # 100) latCum latCount); ("latency_samples", Some latCount);
   ("apns_sessions", Some (now_col cur "apns_sessions")); ("apns_session_age_s", Some (now_col cur "apns_oldest_session_s"));
   ("apns_connects", Some (total "apns_connects")); ("apns_throttled", Some (total "apns_throttled"));
   ("apns_timeouts", Some (total "apns_timeouts")); ("apns_session_errors", Some (total "apns_session_errors"));
   ("apns_discarded", Some (total "apns_discard_idle" + total "apns_discard_timeout")%Q);
   ("last_delivery_age_ms", last_delivery cur); ("last_sample_ts", (fun r => inject_Z r.1) <$> current latest rows);
   ("stale_ms", stale_of latest nowMs)]%string.

Definition buildPush (rows : list sample) (latest : option sample) (fromMs toMs : Z) (buckets : nat) (nowMs : Z)
    : result string push_payload :=
  (let! series := bucketizePush rows fromMs toMs buckets in
   Ok (PushPayload (push_tiles rows latest nowMs) (reject_reasons rows) series))%res.

(** ** Lemmas: rounding *)

Lemma math_round_mono x y : (x <= y)%Q -> math_round x <= math_round y.
Proof. intros H. apply Qfloor_resp_le. by apply Qplus_le_compat; [|apply Qle_refl]. Qed.

Lemma Qfloor_unique x z : (inject_Z z <= x)%Q -> (x < inject_Z (z + 1))%Q -> Qfloor x = z.
Proof.
  intros H1 H2. pose proof (Qfloor_le x) as H3. pose proof (Qlt_floor x) as H4.
  apply Z.le_antisymm.
  - assert (H : (inject_Z (Qfloor x) < inject_Z (z + 1))%Q) by (eapply Qle_lt_trans; eassumption). rewrite <-Zlt_Qlt in H. lia.
  - assert (H : (inject_Z z < inject_Z (Qfloor x + 1))%Q) by (eapply Qle_lt_trans; eassumption). rewrite <-Zlt_Qlt in H. lia.
Qed.

Lemma math_round_Z z : math_round (inject_Z z) = z.
Proof. apply Qfloor_unique; unfold inject_Z, Qplus, Qle, Qlt; simpl; lia. Qed.

Lemma math_round_between a b x : (inject_Z a <= x)%Q -> (x <= inject_Z b)%Q -> a <= math_round x <= b.
Proof. intros H1 H2. rewrite <-(math_round_Z a) at 1. rewrite <-(math_round_Z b) at 1. split; by apply math_round_mono. Qed.

(** ** Latency quantiles *)

(** The fraction of a bucket below a rank in it. *)
Lemma fraction_between (prev rank c : Q) : (prev < rank)%Q -> (rank <= c)%Q -> (0 <= (rank - prev) / (c - prev) <= 1)%Q.
Proof.
  intros H1 H2. assert (Hc : (0 < c - prev)%Q) by lra.
  split; [apply Qle_shift_div_l; [done|lra]|apply Qle_shift_div_r; [done|lra]].
Qed.

Lemma interpolated_between (pb b : Z) (f : Q) : pb <= b -> (0 <= f <= 1)%Q ->
  (inject_Z pb <= inject_Z pb + inject_Z (b - pb) * f <= inject_Z b)%Q.
Proof.
  intros Hb [H0 H1]. assert (Hd : (0 <= inject_Z (b - pb))%Q) by (change 0%Q with (inject_Z 0); rewrite <-Zle_Qle; lia).
  assert (Hs : (inject_Z (b - pb) == inject_Z b - inject_Z pb)%Q) by (unfold Z.sub; rewrite inject_Z_plus, inject_Z_opp; ring).
  split; [|]; nra.
Qed.

(** Bounds that increase from [pb] to the last one. *)
Fixpoint rising (pb : Z) (bounds : list Z) : Prop :=
  match bounds with b :: rest => pb <= b /\ rising b rest | [] => pb <= List.last LAT_BOUNDS_MS 0 end.

Lemma rising_last pb bounds : rising pb bounds -> pb <= List.last LAT_BOUNDS_MS 0.
Proof. revert pb. induction bounds as [|b bounds IH]; intros pb; [done|]. intros [H1 H2]. specialize (IH b H2). lia. Qed.

Lemma in_bucket prev rank c pb b :
  (prev < rank)%Q -> (rank <= c)%Q -> pb <= b ->
  let v := if Qle_bool (c - prev) 0 then b else math_round (inject_Z pb + inject_Z (b - pb) * ((rank - prev) / (c - prev)))%Q in
  pb <= v <= b.
Proof.
  intros H1 H2 Hb v. subst v. destruct (Qle_bool (c - prev) 0); [lia|].
  destruct (interpolated_between pb b _ Hb (fraction_between prev rank c H1 H2)). by apply math_round_between.
Qed.

Lemma loop_range rank : forall bounds cum prev pb, (prev < rank)%Q -> rising pb bounds ->
  pb <= quantile_loop rank prev pb bounds cum <= List.last LAT_BOUNDS_MS 0.
Proof.
  induction bounds as [|b bounds IH]; intros cum prev pb Hp Hr; [simpl in *; lia|].
  destruct Hr as [Hb Hr]. pose proof (rising_last _ _ Hr) as Hl.
  destruct cum as [|c cum]; cbn [quantile_loop]; [lia|].
  destruct (Qle_bool rank c) eqn:E.
  - apply Qle_bool_iff in E. pose proof (in_bucket prev rank c pb b Hp E Hb) as H. cbv zeta in H |- *. lia.
  - assert (Hc : (c < rank)%Q) by (apply Qnot_le_lt; intros H%Qle_bool_iff; congruence). specialize (IH cum c b Hc Hr). lia.
Qed.

Lemma loop_mono r1 r2 : (r1 <= r2)%Q -> forall bounds cum prev pb, (prev < r1)%Q -> rising pb bounds ->
  quantile_loop r1 prev pb bounds cum <= quantile_loop r2 prev pb bounds cum.
Proof.
  intros Hr. induction bounds as [|b bounds IH]; intros cum prev pb Hp Hri; [done|].
  destruct Hri as [Hb Hri]. destruct cum as [|c cum]; cbn [quantile_loop]; [done|].
  destruct (Qle_bool r1 c) eqn:E1, (Qle_bool r2 c) eqn:E2.
  - cbv zeta. destruct (Qle_bool (c - prev) 0) eqn:Ec; [done|]. apply math_round_mono, Qplus_le_compat; [apply Qle_refl|].
    assert (Hd : (0 <= inject_Z (b - pb))%Q) by (change 0%Q with (inject_Z 0); rewrite <-Zle_Qle; lia).
    assert (Hc : (0 < c - prev)%Q) by (apply Qnot_le_lt; intros H%Qle_bool_iff; congruence).
    assert (Hf : ((r1 - prev) / (c - prev) <= (r2 - prev) / (c - prev))%Q).
    { apply Qmult_le_compat_r; [lra|]. apply Qlt_le_weak, Qinv_lt_0_compat, Hc. }
    rewrite (Qmult_comm _ ((r1 - prev) / _)), (Qmult_comm _ ((r2 - prev) / _)). by apply Qmult_le_compat_r.
  - apply Qle_bool_iff in E1. assert (Hc : (c < r2)%Q) by (apply Qnot_le_lt; intros H%Qle_bool_iff; congruence).
    pose proof (in_bucket prev r1 c pb b Hp E1 Hb) as H. pose proof (loop_range r2 bounds cum c b Hc Hri) as H2.
    cbv zeta in H |- *. lia.
  - apply Qle_bool_iff in E2. assert (Hc : (c < r1)%Q) by (apply Qnot_le_lt; intros H%Qle_bool_iff; congruence). lra.
  - assert (Hc : (c < r1)%Q) by (apply Qnot_le_lt; intros H%Qle_bool_iff; congruence). by apply IH.
Qed.

(** The bucket a rank falls in. *)
Lemma loop_bucket rank : forall bounds cum prev pb i c lo hi, (prev < rank)%Q -> rising pb bounds ->
  cum !! i = Some c -> (rank <= c)%Q -> (forall j d, (j < i)%nat -> cum !! j = Some d -> (d < rank)%Q) ->
  (pb :: bounds) !! i = Some lo -> bounds !! i = Some hi -> lo <= quantile_loop rank prev pb bounds cum <= hi.
Proof.
  induction bounds as [|b bounds IH]; intros cum prev pb i c lo hi Hp Hr Hc Hle Hlt Hlo Hhi; [done|].
  destruct Hr as [Hb Hr]. destruct cum as [|c0 cum]; [done|]. cbn [quantile_loop]. destruct i as [|i].
  - injection Hc as ->. injection Hlo as ->. injection Hhi as ->. apply Qle_bool_iff in Hle as Hb'. rewrite Hb'. by apply in_bucket.
  - pose proof (Hlt 0%nat c0 ltac:(lia) eq_refl) as H0.
    destruct (Qle_bool rank c0) eqn:E; [apply Qle_bool_iff in E; lra|].
    apply (IH cum c0 b i c lo hi); try done. intros j d Hj. apply (Hlt (S j)). lia.
Qed.

(** ** Sums *)

Definition qsum (l : list Q) : Q := fold_right Qplus 0%Q l.

Lemma qsum_nil : qsum [] = 0%Q.
Proof. done. Qed.

Lemma qsum_cons x l : qsum (x :: l) = (x + qsum l)%Q.
Proof. done. Qed.

Lemma qsum_map_ext {A} (f g : A -> Q) l : (forall x, x ∈ l -> (f x == g x)%Q) -> (qsum (List.map f l) == qsum (List.map g l))%Q.
Proof.
  induction l as [|a l IH]; intros H; [reflexivity|]. cbn [List.map]. rewrite !qsum_cons.
  rewrite (H a) by by left. rewrite IH; [reflexivity|]. intros x Hx. apply H. by right.
Qed.

Lemma qsum_app l k : (qsum (l ++ k) == qsum l + qsum k)%Q.
Proof. induction l as [|x l IH]; cbn [app]; rewrite ?qsum_nil, ?qsum_cons; [ring|]. rewrite IH. ring. Qed.

Lemma qsum_fold l : forall a, (fold_left Qplus l a == a + qsum l)%Q.
Proof. induction l as [|x l IH]; intros a; cbn [fold_left]; rewrite ?qsum_nil, ?qsum_cons; [ring|]. rewrite IH. ring. Qed.

Lemma windowTotal_sum rows field : (windowTotal rows field == qsum (List.map (fun p => step p.1 p.2 field) (adjacent rows)))%Q.
Proof.
  unfold windowTotal. assert (H : forall l a, fold_left (fun total p => (total + step p.1 p.2 field)%Q) l a
    = fold_left Qplus (List.map (fun p : sample * sample => step p.1 p.2 field) l) a).
  { induction l as [|p l IH]; intros a; [done|]. simpl. apply IH. }
  rewrite H, qsum_fold. ring.
Qed.

(** The items of each slot add up to all of them. *)
Lemma qsum_slots {A} (w : A -> Q) (idx : A -> nat) (n : nat) (l : list A) : Forall (fun a => (idx a < n)%nat) l ->
  (qsum (List.map (fun i => qsum (List.map w (List.filter (fun a => Nat.eqb (idx a) i) l))) (seq 0 n)) == qsum (List.map w l))%Q.
Proof.
  induction 1 as [|a l Ha Hl IH].
  - cbn [List.filter List.map]. rewrite qsum_nil. induction (seq 0 n) as [|i k IHk]; [reflexivity|]. cbn [List.map]. rewrite qsum_cons, IHk. ring.
  - cbn [List.map]. rewrite qsum_cons, <-IH. clear IH Hl.
    assert (Hin : forall k, NoDup k ->
      (qsum (List.map (fun i => qsum (List.map w (List.filter (fun a => Nat.eqb (idx a) i) (a :: l)))) k)
       == (if bool_decide (idx a ∈ k) then w a else 0)
          + qsum (List.map (fun i => qsum (List.map w (List.filter (fun a => Nat.eqb (idx a) i) l))) k))%Q).
    { induction k as [|i k IHk]; intros Hk; [reflexivity|]. apply NoDup_cons in Hk as [Hi Hk]. specialize (IHk Hk).
      cbn [List.map]. rewrite !qsum_cons, IHk. cbn [List.filter].
      destruct (Nat.eqb_spec (idx a) i) as [->|Hne].
      - rewrite bool_decide_eq_false_2 by done. rewrite bool_decide_eq_true_2 by by left. cbn [List.map]. rewrite qsum_cons. ring.
      - destruct (bool_decide_reflect (idx a ∈ k)); [rewrite bool_decide_eq_true_2 by by right|rewrite bool_decide_eq_false_2 by set_solver]; ring. }
    rewrite (Hin _ (NoDup_seq 0 n)), bool_decide_eq_true_2; [reflexivity|]. apply elem_of_seq. lia.
Qed.

(** ** Slots *)

(** Each slot folds its own items. *)
Lemma slots_fold {A B} (add : A -> B -> B) (idx : A -> nat) (l : list A) : forall (init : list B),
  length (fold_left (fun acc a => alter (add a) (idx a) acc) l init) = length init
  /\ forall i, fold_left (fun acc a => alter (add a) (idx a) acc) l init !! i
               = (fun b => fold_left (fun b a => add a b) (List.filter (fun a => Nat.eqb (idx a) i) l) b) <$> init !! i.
Proof.
  induction l as [|a l IH]; intros init; [split; [done|]; intros i; simpl; by destruct (init !! i)|].
  cbn [fold_left List.filter]. destruct (IH (alter (add a) (idx a) init)) as [H1 H2].
  split; [by rewrite H1, length_alter|]. intros i. rewrite H2. destruct (Nat.eqb_spec (idx a) i) as [->|Hne].
  - rewrite list_lookup_alter_eq. by destruct (init !! i).
  - by rewrite list_lookup_alter_ne by done.
Qed.

Lemma slot_range fromMs toMs n ts : (0 < n)%nat -> (Z.to_nat (slot_of fromMs toMs n ts) < n)%nat.
Proof. intros Hn. unfold slot_of. lia. Qed.

Lemma add_to_fold (fields : list string) (v : string -> Q) (f : string) : NoDup fields -> f ∈ fields -> forall r,
  (col (fold_left (fun o g => add_to g (v g) o) fields r) f == col r f + v f)%Q.
Proof.
  assert (Hni : forall k r, f ∉ k -> col (fold_left (fun o g => add_to g (v g) o) k r) f = col r f).
  { induction k as [|g k IH]; intros r Hk; [done|]. cbn [fold_left]. rewrite IH by set_solver.
    unfold col, add_to. rewrite lookup_insert_ne; [done|set_solver]. }
  intros Hn Hin. induction Hn as [|g k Hg Hk IH]; intros r; [by apply elem_of_nil in Hin|]. cbn [fold_left].
  apply elem_of_cons in Hin as [<-|Hin].
  - rewrite Hni by done. unfold col at 1, add_to. rewrite lookup_insert_eq. reflexivity.
  - rewrite (IH Hin). unfold col at 1, add_to. rewrite lookup_insert_ne; [reflexivity|]. intros ->. done.
Qed.

Lemma steps_fold (fields : list string) (f : string) (l : list (sample * sample)) : NoDup fields -> f ∈ fields -> forall a,
  let a' := fold_left (fun b p => add_step fields p b) l a in
  elapsedMs a' = fold_left (fun n (p : sample * sample) => n + Z.max 0 (p.2.1 - p.1.1)) l (elapsedMs a)
  /\ (col (rsum a') f == col (rsum a) f + qsum (List.map (fun p => step p.1 p.2 f) l))%Q.
Proof.
  intros Hn Hf. induction l as [|p l IH]; intros a; cbv zeta; cbn [fold_left List.map]; rewrite ?qsum_nil, ?qsum_cons; [split; [done|ring]|].
  destruct (IH (add_step fields p a)) as [H1 H2]. split; [done|]. rewrite H2. unfold add_step at 1. cbn [rsum].
  rewrite (add_to_fold fields (step p.1 p.2) f Hn Hf). ring.
Qed.

Lemma samples_fold (gauges : list string) (f : string) (l : list sample) : NoDup gauges -> f ∈ gauges -> forall a,
  let a' := fold_left (fun b r => add_sample gauges r b) l a in
  gn a' = gn a + Z.of_nat (length l) /\ (col (gsum a') f == col (gsum a) f + qsum (List.map (fun r => col r.2 f) l))%Q.
Proof.
  intros Hn Hf. induction l as [|r l IH]; intros a; cbv zeta; cbn [fold_left List.map length]; rewrite ?qsum_nil, ?qsum_cons; [split; [lia|ring]|].
  destruct (IH (add_sample gauges r a)) as [H1 H2]. split; [rewrite H1; cbn [add_sample gn]; lia|]. rewrite H2. unfold add_sample at 1. cbn [gsum].
  rewrite (add_to_fold gauges (col r.2) f Hn Hf). ring.
Qed.

Lemma toFixed_near d x : 0 <= d -> (Qabs (toFixed d x - x) <= 1 / (2 * inject_Z (10 ^ d)))%Q.
Proof.
  intros Hd. assert (Hk : 0 < 10 ^ d) by (apply Z.pow_pos_nonneg; lia).
  assert (Hround : forall y, (Qabs (Qmake (Qfloor (y * inject_Z (10 ^ d) + (1 # 2))%Q) (Z.to_pos (10 ^ d)) - y) <= 1 / (2 * inject_Z (10 ^ d)))%Q).
  { intros y. set (k := 10 ^ d) in *. assert (HkQ : (0 < inject_Z k)%Q) by (change 0%Q with (inject_Z 0); by rewrite <-Zlt_Qlt).
    set (z := Qfloor (y * inject_Z k + (1 # 2))).
    assert (E : ((z # Z.to_pos k) == inject_Z z / inject_Z k)%Q).
    { rewrite (Qmake_Qdiv z (Z.to_pos k)). by rewrite Z2Pos.id. }
    rewrite E. pose proof (Qfloor_le (y * inject_Z k + (1 # 2))) as H1. pose proof (Qlt_floor (y * inject_Z k + (1 # 2))) as H2.
    fold z in H1, H2. rewrite inject_Z_plus in H2. change (inject_Z 1) with 1%Q in H2.
    assert (Hd' : (inject_Z z / inject_Z k - y == (inject_Z z - y * inject_Z k) / inject_Z k)%Q) by (field; lra).
    assert (Hr : (1 / (2 * inject_Z k) == (1 # 2) / inject_Z k)%Q) by (field; lra).
    rewrite Hd', Hr. apply Qabs_Qle_condition. split.
    - assert (Hn : (- ((1 # 2) / inject_Z k) == (- (1 # 2)) / inject_Z k)%Q) by (field; lra). rewrite Hn.
      apply Qmult_le_compat_r; [lra|]. apply Qlt_le_weak, Qinv_lt_0_compat, HkQ.
    - apply Qmult_le_compat_r; [lra|]. apply Qlt_le_weak, Qinv_lt_0_compat, HkQ. }
  unfold toFixed. destruct (Qle_bool 0 x); [apply Hround|].
  specialize (Hround (- x)%Q). cbv zeta. set (r := Qmake _ _) in *.
  assert (E : (- r - x == - (r - - x))%Q) by ring. rewrite E, Qabs_opp. exact Hround.
Qed.

(** ** Charts *)

Lemma Qfloor_div (a b : Z) : 0 < b -> Qfloor (inject_Z a / inject_Z b)%Q = a / b.
Proof.
  intros Hb. assert (Hq : (0 < inject_Z b)%Q) by (change 0%Q with (inject_Z 0); by rewrite <-Zlt_Qlt).
  pose proof (Z.div_mod a b ltac:(lia)). pose proof (Z.mod_pos_bound a b Hb).
  apply Qfloor_unique; [apply Qle_shift_div_l|apply Qlt_shift_div_r]; try done; rewrite <-inject_Z_mult, <-?Zle_Qle, <-?Zlt_Qlt; lia.
Qed.

Lemma adjacent_zip (rows : list sample) : adjacent rows = zip rows (tl rows).
Proof.
  induction rows as [|a [|b l] IH]; [done..|]. change (adjacent (a :: b :: l)) with ((a, b) :: adjacent (b :: l)). by rewrite IH.
Qed.

Lemma needs_slots_ok {A} n rows (a b : A) : needs_slots n rows a = Ok b -> b = a.
Proof. unfold needs_slots. destruct (_ && _); [done|congruence]. Qed.

Section Charts.
Context (rows : list sample) (fromMs toMs : Z) (n : nat).

(** Slot [i] of the [n] equal parts of the window holds the times from
    [i / n] of it to [(i + 1) / n]; the first and the last also hold what is before
    and after the window. *)
Definition in_slot (i : nat) (ts : Z) : bool :=
  let part k := Z.of_nat k * Z.max 1 (toMs - fromMs) in
  ((i =? 0)%nat || (part i <=? Z.of_nat n * (ts - fromMs))) && ((S i =? n)%nat || (Z.of_nat n * (ts - fromMs) <? part (S i))).

(** The pairs of neighbouring samples whose later one is in the slot; its samples. *)
Definition steps_in (i : nat) : list (sample * sample) :=
  List.filter (fun p => in_slot i p.2.1) (zip rows (tl rows)).
Definition samples_in (i : nat) : list sample := List.filter (fun r => in_slot i r.1) rows.

(** What a counter grew by, a fall being a restart and no growth, and the time that
    took. *)
Definition growth (field : string) (p : sample * sample) : Q := Qmax 0 (col p.2.2 field - col p.1.2 field).
Definition grown (field : string) (l : list (sample * sample)) : Q := qsum (List.map (growth field) l).
Definition taken (l : list (sample * sample)) : Z := fold_left (fun n (p : sample * sample) => n + Z.max 0 (p.2.1 - p.1.1)) l 0.
Definition mean (field : string) (l : list sample) : Q := (qsum (List.map (fun r => col r.2 field) l) / inject_Z (Z.of_nat (length l)))%Q.

Definition near (d : Z) (v x : Q) : Prop := (Qabs (v - x) <= 1 / (2 * inject_Z (10 ^ d)))%Q.

Definition rate_point (field : string) (i : nat) (v : option Q) : Prop :=
  match v with
  | None => taken (steps_in i) <= 0
  | Some v => 0 < taken (steps_in i) /\ near 3 v (grown field (steps_in i) / inject_Z (taken (steps_in i)) * 60000)%Q
  end.

Definition gauge_point (field : string) (i : nat) (v : option Q) : Prop :=
  match v with None => samples_in i = [] | Some v => samples_in i <> [] /\ near 2 v (mean field (samples_in i)) end.

Definition fraction_point (part whole : string) (i : nat) (v : option Q) : Prop :=
  match v with
  | None => (grown whole (steps_in i) <= 0)%Q
  | Some v => (0 < grown whole (steps_in i))%Q /\ near 3 v (grown part (steps_in i) / grown whole (steps_in i))%Q
  end.

(** A chart with a point per slot, at the millisecond next to the middle of the slot,
    [i + 1/2] parts of [n] into the window. *)
Definition in_middle (i : nat) (t : Z) : Prop :=
  Z.abs (2 * Z.of_nat n * (t - fromMs) - (2 * Z.of_nat i + 1) * Z.max 1 (toMs - fromMs)) <= Z.of_nat n.

Definition draws (ch : chart) (P : nat -> option Q -> Prop) : Prop :=
  length ch = n /\ forall i, (i < n)%nat -> exists p, ch !! i = Some p /\ in_middle i (pt p) /\ P i (pv p).

(** *** The slots of the code are those *)

Lemma step_growth f p : (step p.1 p.2 f == growth f p)%Q.
Proof.
  unfold step, growth. cbv zeta. destruct (qlt _ 0) eqn:E.
  - apply qlt_spec in E. rewrite Q.max_l; [reflexivity|lra].
  - rewrite Q.max_r; [reflexivity|]. apply Qnot_lt_le. intros H%qlt_spec. congruence.
Qed.

Lemma floor_of_parts (a s : Z) : 0 < s -> (0 < n)%nat ->
  Qfloor (inject_Z a / (inject_Z s / inject_Z (Z.of_nat n)))%Q = (Z.of_nat n * a) / s.
Proof.
  intros Hs Hn. assert (Hsq : (0 < inject_Z s)%Q) by (change 0%Q with (inject_Z 0); by rewrite <-Zlt_Qlt).
  assert (Hmq : (0 < inject_Z (Z.of_nat n))%Q) by (change 0%Q with (inject_Z 0); rewrite <-Zlt_Qlt; lia).
  rewrite <-Qfloor_div by done. apply Qfloor_comp. rewrite inject_Z_mult. field. split; lra.
Qed.

Lemma slot_of_in_slot i ts : (i < n)%nat -> Nat.eqb (Z.to_nat (slot_of fromMs toMs n ts)) i = in_slot i ts.
Proof.
  intros Hi. unfold slot_of, width, span. rewrite floor_of_parts by lia. unfold in_slot. cbv zeta.
  set (s := Z.max 1 (toMs - fromMs)). assert (Hs : 0 < s) by lia. set (x := Z.of_nat n * (ts - fromMs)).
  pose proof (Z.div_mod x s ltac:(lia)). pose proof (Z.mod_pos_bound x s Hs). set (q := x / s) in *.
  apply eq_true_iff_eq. rewrite Nat.eqb_eq, andb_true_iff, !orb_true_iff, !Nat.eqb_eq, Z.leb_le, Z.ltb_lt.
  assert (H1 : Z.of_nat i * s <= x <-> Z.of_nat i <= q) by (split; nia).
  assert (H2 : x < Z.of_nat (S i) * s <-> q < Z.of_nat (S i)) by (split; nia).
  rewrite H1, H2. lia.
Qed.

Lemma centers_in_middle i t : centers fromMs toMs n !! i = Some t -> in_middle i t.
Proof.
  intros Ht. unfold centers in Ht. apply list_lookup_fmap_Some in Ht as (j & Ht & Hj).
  apply lookup_seq in Hj as [-> Hi]. rewrite Nat.add_0_l in Ht. unfold math_round, width, span in Ht. unfold in_middle.
  set (s := Z.max 1 (toMs - fromMs)) in *. assert (Hs : 0 < s) by lia. set (m := Z.of_nat n) in *. assert (Hm : 0 < m) by lia.
  assert (Hmq : (0 < inject_Z m)%Q) by (change 0%Q with (inject_Z 0); by rewrite <-Zlt_Qlt).
  assert (E : t = (2 * m * fromMs + (2 * Z.of_nat i + 1) * s + m) / (2 * m)).
  { rewrite Ht, <-Qfloor_div by lia. apply Qfloor_comp.
    rewrite !inject_Z_plus, !inject_Z_mult, !inject_Z_plus, !inject_Z_mult. change (inject_Z 2) with 2%Q. change (inject_Z 1) with 1%Q.
    field. lra. }
  set (A := 2 * m * fromMs + (2 * Z.of_nat i + 1) * s + m) in *.
  pose proof (Z.div_mod A (2 * m) ltac:(lia)). pose proof (Z.mod_pos_bound A (2 * m) ltac:(lia)). rewrite <-E in *. subst A. lia.
Qed.

Lemma steps_in_slot i : (i < n)%nat ->
  List.filter (fun p : sample * sample => Nat.eqb (Z.to_nat (slot_of fromMs toMs n p.2.1)) i) (adjacent rows) = steps_in i.
Proof. intros Hi. unfold steps_in. rewrite <-adjacent_zip. apply List.filter_ext. intros p. by apply slot_of_in_slot. Qed.

Lemma samples_in_slot i : (i < n)%nat ->
  List.filter (fun r : sample => Nat.eqb (Z.to_nat (slot_of fromMs toMs n r.1)) i) rows = samples_in i.
Proof. intros Hi. apply List.filter_ext. intros r. by apply slot_of_in_slot. Qed.

Lemma near_eq d v x y : (x == y)%Q -> near d v x -> near d v y.
Proof. unfold near. by intros ->. Qed.

Lemma rate_slot fields f i : NoDup fields -> f ∈ fields -> (i < n)%nat ->
  exists a, rate_slots fromMs toMs n fields rows !! i = Some a /\ elapsedMs a = taken (steps_in i)
    /\ (col (rsum a) f == grown f (steps_in i))%Q.
Proof.
  intros Hn Hf Hi. unfold rate_slots.
  destruct (slots_fold (add_step fields) (fun p : sample * sample => Z.to_nat (slot_of fromMs toMs n p.2.1)) (adjacent rows)
    (replicate n (RateAcc 0 ∅))) as [_ H]. eexists. rewrite H, lookup_replicate_2, steps_in_slot by done. split; [done|].
  destruct (steps_fold fields f (steps_in i) Hn Hf (RateAcc 0 ∅)) as [H1 H2]. split; [exact H1|].
  etransitivity; [exact H2|]. cbn [rsum]. change (col ∅ f) with 0%Q. rewrite Qplus_0_l. apply qsum_map_ext.
  intros p _. apply step_growth.
Qed.

Lemma gauge_slot gauges f i : NoDup gauges -> f ∈ gauges -> (i < n)%nat ->
  exists a, gauge_slots fromMs toMs n gauges rows !! i = Some a /\ gn a = Z.of_nat (length (samples_in i))
    /\ (col (gsum a) f == qsum (List.map (fun r : sample => col r.2 f) (samples_in i)))%Q.
Proof.
  intros Hn Hf Hi. unfold gauge_slots.
  destruct (slots_fold (add_sample gauges) (fun r : sample => Z.to_nat (slot_of fromMs toMs n r.1)) rows
    (replicate n (GaugeAcc ∅ 0))) as [_ H]. eexists. rewrite H, lookup_replicate_2, samples_in_slot by done. split; [done|].
  destruct (samples_fold gauges f (samples_in i) Hn Hf (GaugeAcc ∅ 0)) as [H1 H2]. split; [exact H1|].
  etransitivity; [exact H2|]. cbn [gsum]. change (col ∅ f) with 0%Q. ring.
Qed.

Lemma rate_slots_length fields : length (rate_slots fromMs toMs n fields rows) = n.
Proof. unfold rate_slots. destruct (slots_fold (add_step fields) (fun p : sample * sample => Z.to_nat (slot_of fromMs toMs n p.2.1))
  (adjacent rows) (replicate n (RateAcc 0 ∅))) as [H _]. by rewrite H, length_replicate. Qed.

Lemma gauge_slots_length gauges : length (gauge_slots fromMs toMs n gauges rows) = n.
Proof. unfold gauge_slots. destruct (slots_fold (add_sample gauges) (fun r : sample => Z.to_nat (slot_of fromMs toMs n r.1))
  rows (replicate n (GaugeAcc ∅ 0))) as [H _]. by rewrite H, length_replicate. Qed.

Lemma centers_length : length (centers fromMs toMs n) = n.
Proof. unfold centers. by rewrite List.length_map, List.length_seq. Qed.

(** A chart is drawn from the slots, point by point. *)
Lemma draws_zip {A} (f : Z -> A -> point) (acc : list A) (P : nat -> option Q -> Prop) :
  length acc = n -> (forall t a, pt (f t a) = t) -> (forall i a t, acc !! i = Some a -> P i (pv (f t a))) ->
  draws (zip_with f (centers fromMs toMs n) acc) P.
Proof.
  intros Hl Ht HP. pose proof centers_length as Hc. split; [rewrite length_zip_with; lia|]. intros i Hi.
  destruct (lookup_lt_is_Some_2 (centers fromMs toMs n) i ltac:(lia)) as [t Et].
  destruct (lookup_lt_is_Some_2 acc i ltac:(lia)) as [a Ea]. exists (f t a).
  split; [by rewrite lookup_zip_with, Et, Ea|]. rewrite Ht. split; [by apply centers_in_middle|by apply HP].
Qed.

Lemma rate_draws fields f : NoDup fields -> f ∈ fields ->
  draws (rate_chart (centers fromMs toMs n) (rate_slots fromMs toMs n fields rows) f) (rate_point f).
Proof.
  intros Hn Hf. apply draws_zip; [apply rate_slots_length|done|]. intros i a t Ea.
  assert (Hi : (i < n)%nat) by (rewrite <-(rate_slots_length fields); by apply lookup_lt_Some in Ea).
  destruct (rate_slot fields f i Hn Hf Hi) as (a' & Ea' & Et & Es). rewrite Ea in Ea'. injection Ea' as <-.
  cbn [pv]. rewrite Et. unfold rate_point. destruct (Z.ltb_spec 0 (taken (steps_in i))); [|lia]. split; [done|].
  apply (near_eq _ _ (col (rsum a) f / inject_Z (taken (steps_in i)) * 60000)); [by rewrite Es|]. by apply toFixed_near.
Qed.

Lemma gauge_draws gauges f : NoDup gauges -> f ∈ gauges ->
  draws (gauge_chart (centers fromMs toMs n) (gauge_slots fromMs toMs n gauges rows) f) (gauge_point f).
Proof.
  intros Hn Hf. apply draws_zip; [apply gauge_slots_length|done|]. intros i a t Ea.
  assert (Hi : (i < n)%nat) by (rewrite <-(gauge_slots_length gauges); by apply lookup_lt_Some in Ea).
  destruct (gauge_slot gauges f i Hn Hf Hi) as (a' & Ea' & Et & Es). rewrite Ea in Ea'. injection Ea' as <-.
  cbn [pv]. rewrite Et. unfold gauge_point. destruct (Z.eqb_spec (Z.of_nat (length (samples_in i))) 0) as [E|Hne].
  - by apply nil_length_inv; lia.
  - split; [intros E; by rewrite E in Hne|]. unfold mean.
    eapply near_eq; [|by apply toFixed_near]. by rewrite Es.
Qed.

Lemma fraction_draws fields p w : NoDup fields -> p ∈ fields -> w ∈ fields ->
  draws (fraction_chart (centers fromMs toMs n) (rate_slots fromMs toMs n fields rows) p w) (fraction_point p w).
Proof.
  intros Hn Hp Hw. apply draws_zip; [apply rate_slots_length|done|]. intros i a t Ea.
  assert (Hi : (i < n)%nat) by (rewrite <-(rate_slots_length fields); by apply lookup_lt_Some in Ea).
  destruct (rate_slot fields p i Hn Hp Hi) as (a' & Ea' & _ & Ep). rewrite Ea in Ea'. injection Ea' as <-.
  destruct (rate_slot fields w i Hn Hw Hi) as (a' & Ea' & _ & Ew). rewrite Ea in Ea'. injection Ea' as <-.
  cbn [pv]. unfold fraction_point. destruct (qlt 0 (col (rsum a) w)) eqn:E.
  - apply qlt_spec in E. rewrite Ew in E. split; [done|]. eapply near_eq; [|by apply toFixed_near]. by rewrite Ep, Ew.
  - rewrite <-Ew. apply Qnot_lt_le. intros H%qlt_spec. congruence.
Qed.

Lemma grown_total f : (0 < n)%nat ->
  (qsum (List.map (fun i => grown f (steps_in i)) (seq 0 n)) == windowTotal rows f)%Q.
Proof.
  intros Hn. rewrite windowTotal_sum.
  rewrite <-(qsum_slots (fun p : sample * sample => step p.1 p.2 f) (fun p => Z.to_nat (slot_of fromMs toMs n p.2.1)) n)
    by (apply Forall_forall; intros p _; by apply slot_range).
  apply qsum_map_ext. intros i Hi%elem_of_seq. rewrite steps_in_slot by lia. apply qsum_map_ext.
  intros p _. symmetry. apply step_growth.
Qed.
End Charts.

(** ** Properties *)

(** C32: The charts and the tiles tell the same story.  The window is cut into [n]
    equal slots, and the increases between neighbouring samples, falls left out as
    restarts, belong to the slot of the later one: a counter's growth over all slots
    is its tile.  Every rate chart has one point at the middle of each slot, the
    slot's growth per minute of the time its samples took (to three digits), and a
    gap exactly when they took none; every gauge chart the mean of the slot's samples
    (to two digits), and a gap exactly when there are none; the flap signal the
    share of short connections among those closed in the slot. *)
Theorem charts_agree_with_tiles (rows : list sample) (fromMs toMs : Z) (n : nat) (series : list (string * chart))
    (latest : option sample) (nowMs : Z) :
  (0 < n)%nat -> bucketize rows fromMs toMs n = Ok series ->
  let slots := seq 0 n in
  (forall f, (qsum (List.map (fun i => grown f (steps_in rows fromMs toMs n i)) slots) == windowTotal rows f)%Q)
  /\ Forall (fun tf => exists v, (tf.1, Some v) ∈ relay_tiles rows latest nowMs
                 /\ (qsum (List.map (fun i => grown tf.2 (steps_in rows fromMs toMs n i)) slots) == v)%Q)
       [("upgrades", "ws_upgrades"); ("rejected", "ws_rejected"); ("requests", "http_requests"); ("errors", "http_errors");
        ("exceptions", "exceptions"); ("quota_closes", "quota_exceeded"); ("closed", "life_count")]%string
  /\ Forall (fun nf => exists ch, (nf.1, ch) ∈ series /\ draws fromMs toMs n ch (rate_point rows fromMs toMs n nf.2))
       [("upgrade_rate", "ws_upgrades"); ("request_rate", "http_requests"); ("error_rate", "http_errors");
        ("rejected_rate", "ws_rejected"); ("quota_rate", "quota_exceeded")]%string
  /\ Forall (fun f => exists ch, (f, ch) ∈ series /\ draws fromMs toMs n ch (gauge_point rows fromMs toMs n f)) GAUGES
  /\ exists ch, ("short_lived_frac"%string, ch) ∈ series /\ draws fromMs toMs n ch (fraction_point rows fromMs toMs n "life_le1" "life_count").
Proof.
  intros Hn E slots. apply needs_slots_ok in E as ->.
  assert (HR : NoDup RATES) by (apply (bool_decide_unpack _); by vm_compute).
  assert (HG : NoDup GAUGES) by (apply (bool_decide_unpack _); by vm_compute).
  split; [intros f; by apply grown_total|]. split; [|split; [|split]].
  - repeat (constructor; [eexists; split; [unfold relay_tiles; cbv zeta; cbn [fst]; member|by apply grown_total]|]). constructor.
  - repeat (constructor; [eexists; split; [cbn [fst]; member|apply rate_draws; [done|unfold RATES; cbn [snd]; member]]|]). constructor.
  - unfold GAUGES at 1. repeat (constructor; [eexists; split; [member|apply gauge_draws; [done|unfold GAUGES; member]]|]). constructor.
  - eexists. split; [member|]. apply fraction_draws; [done|unfold RATES; member..].
Qed.

(** The latency estimates are sane.  Whatever the counts in the buckets, those
    that shrank over a restart included: with nothing observed there is no
    estimate; otherwise the estimates are within the bounds of the histogram and
    the larger quantile is not below the smaller one; and each lies within the
    first bucket whose cumulative count reaches its rank. *)
Theorem latency_quantiles_ordered (q1 q2 total : Q) (cum : list Q) :
  (0 < q1)%Q -> (q1 <= q2)%Q ->
  if qlt 0 total then
    exists v1 v2, latencyQuantile q1 cum total = Some v1 /\ latencyQuantile q2 cum total = Some v2
      /\ 0 <= v1 <= v2 /\ v2 <= 10000
      /\ forall i c lo hi, cum !! i = Some c -> (q1 * total <= c)%Q -> (forall j d, (j < i)%nat -> cum !! j = Some d -> (d < q1 * total)%Q) ->
           (0 :: LAT_BOUNDS_MS) !! i = Some lo -> LAT_BOUNDS_MS !! i = Some hi -> lo <= v1 <= hi
  else latencyQuantile q1 cum total = None /\ latencyQuantile q2 cum total = None.
Proof.
  intros H1 H2. unfold latencyQuantile. destruct (qlt 0 total) eqn:Et; [|done]. cbn [negb]. apply qlt_spec in Et.
  eexists _, _. split; [done|]. split; [done|].
  assert (Hr : (0 < q1 * total)%Q) by nra. assert (Hr12 : (q1 * total <= q2 * total)%Q) by nra.
  assert (Hrise : rising 0 LAT_BOUNDS_MS) by (simpl; lia).
  pose proof (loop_mono _ _ Hr12 LAT_BOUNDS_MS cum 0%Q 0 Hr Hrise) as Hm.
  pose proof (loop_range (q1 * total) LAT_BOUNDS_MS cum 0%Q 0 Hr Hrise) as [Hlo _].
  pose proof (loop_range (q2 * total) LAT_BOUNDS_MS cum 0%Q 0 ltac:(lra) Hrise) as [_ Hhi].
  split; [lia|]. split; [exact Hhi|]. intros i c lo hi Hc Hle Hlt El Eh. by apply (loop_bucket _ LAT_BOUNDS_MS cum 0%Q 0 i c).
Qed.

(** *** A window with a restart and an empty slot *)

Definition a_row (u s : Z) : row := {[ "ws_upgrades" := inject_Z u; "sockets_live" := inject_Z s ]}%string.
Definition some_rows : list sample := [(0, a_row 10 1); (30000, a_row 14 2); (60000, a_row 3 0); (210000, a_row 8 4)].

Lemma charts_agree_with_tiles_witness :
  exists series, bucketize some_rows 0 240000 4 = Ok series
    /\ option_map (fun kv => List.map pv kv.2) (List.find (fun kv => String.eqb kv.1 "upgrade_rate") series)
       = Some [Some (8000 # 1000)%Q; Some (0 # 1000)%Q; None; Some (2000 # 1000)%Q]
    /\ (windowTotal some_rows "ws_upgrades" == 9)%Q
    /\ (qsum (List.map (fun i => grown "ws_upgrades" (steps_in some_rows 0 240000 4 i)) (seq 0 4)) == windowTotal some_rows "ws_upgrades")%Q.
Proof.
  destruct (bucketize some_rows 0 240000 4) as [series|e] eqn:E; [|by vm_compute in E].
  exists series. split; [done|]. split; [vm_compute in E; injection E as <-; by vm_compute|]. split; [by vm_compute|].
  apply (charts_agree_with_tiles some_rows 0 240000 4 series None 240000 ltac:(lia) E).
Defined.

Lemma latency_quantiles_ordered_witness :
  exists v1 v2, latencyQuantile (1 # 2) [2; 0; 5; 9; 10; 10; 10; 10]%Q 10 = Some v1
    /\ latencyQuantile (95 # 100) [2; 0; 5; 9; 10; 10; 10; 10]%Q 10 = Some v2 /\ v1 = 250 /\ v2 = 750 /\ v1 <= v2.
Proof.
  destruct (latency_quantiles_ordered (1 # 2) (95 # 100) 10 [2; 0; 5; 9; 10; 10; 10; 10]%Q) as (v1 & v2 & E1 & E2 & H & _);
    [done|done|]. exists v1, v2. split; [done|]. split; [done|]. vm_compute in E1, E2.
  split; [by injection E1 as <-|]. split; [by injection E2 as <-|lia].
Defined.
