(* ===== verification/DashTiles.v ===== *)
(** The dashboard's tiles count what happened: a relay that is restarted now and
    then ([host/server.js]), scraped in between ([dashboard/collector.js],
    [dashboard/parse.js]), and the totals of the window ([dashboard/series.js])
    against the events themselves. *)

From Stdlib Require Import QArith Qround Ascii Lqa.
From S2P Require Import Prelude Bytes ShardGate ShardMap ShardStore Json Runtime Host Monitor MonitorPush Metrics HostServer HostMetrics.
From S2P Require Import DashParse DashScrape DashStore DashSeries.
#[local] Open Scope Z_scope.

(** ** The histogram along a run *)

Definition lives_ok (m : metrics) : Prop :=
  length (bucketCounts m) = 6%nat /\ Forall (fun b => 0 <= b <= lifetimeInf m) (bucketCounts m).

Definition same_lives (m m' : metrics) : Prop := bucketCounts m' = bucketCounts m /\ lifetimeInf m' = lifetimeInf m.

Lemma same_lives_ok m m' : same_lives m m' -> lives_ok m -> lives_ok m'.
Proof. unfold lives_ok. by intros [-> ->]. Qed.

Lemma bump_lives b n m : same_lives m (bump b n m).
Proof. by destruct b. Qed.

Lemma observe_lives s m : lives_ok m -> lives_ok (observeSocketLifetime s m).
Proof.
  intros [Hl Hb]. split; cbn [observeSocketLifetime bucketCounts lifetimeInf]; [by rewrite length_zip_with, Hl|].
  apply Forall_forall. intros x Hx. apply elem_of_lookup_zip_with in Hx as (i & b & n & -> & _ & Hn).
  apply list_elem_of_lookup_2 in Hn. rewrite Forall_forall in Hb. specialize (Hb n Hn). destruct (Qle_bool s (inject_Z b)); lia.
Qed.

Lemma relay_step_lives cfg e w o w' :
  relay_step cfg e w = Some (o, w') -> lives_ok (rmetrics (wrelay w)) -> lives_ok (rmetrics (wrelay w')).
Proof.
  intros E. destruct e as [now h remote m s has_room size|i|i|i lived|now m s has_room size q|reply|code reason
                |url token now gauges delivered| | |error| |]; cbn [relay_step] in E.
  - unfold upgrade in E. destruct (handleUpgrade _ _ _ _ _ _ _ _) as [v h']. injection E as <- <-.
    apply same_lives_ok. by destruct v.
  - destruct (whands w !! i); [|done]. by injection E as <- <-.
  - destruct (whands w !! i); [|done]. by injection E as <- <-.
  - destruct (wopen w !! i); [|done]. injection E as <- <-. apply observe_lives.
  - destruct (handleRequest _ _ _ _ _ _ _) as [a r'] eqn:Er. injection E as <- <-. cbn [wrelay].
    destruct (handleRequest_counts _ _ _ _ _ _ _ _ _ _ Er) as [_ ->]. intros H. by repeat (eapply same_lives_ok; [apply bump_lives|]).
  - injection E as <- <-. apply same_lives_ok. unfold finishRequest. by destruct reply as [[? ?]|].
  - injection E as <- <-. apply same_lives_ok. unfold onServerClose. cbn [wrelay]. by repeat case_match.
  - injection E as <- <-. apply same_lives_ok. unfold push_once. cbn [wrelay]. by repeat case_match.
  - by injection E as <- <-.
  - by injection E as <- <-.
  - by injection E as <- <-.
  - by injection E as <- <-.
  - by injection E as <- <-.
Qed.

Lemma relay_run_lives cfg es : forall w os w',
  relay_run cfg es w = Some (os, w') -> lives_ok (rmetrics (wrelay w)) -> lives_ok (rmetrics (wrelay w')).
Proof.
  induction es as [|e es IH]; intros w os w' E H; cbn [relay_run] in E; [by injection E as <- <-|].
  destruct (relay_step cfg e w) as [[o w1]|] eqn:E1; [|done]. simpl in E.
  destruct (relay_run cfg es w1) as [[os1 w2]|] eqn:E2; [|done]. simpl in E. injection E as <- <-.
  eapply IH; [exact E2|]. by eapply relay_step_lives.
Qed.

Lemma new_world_lives ws attest : lives_ok (rmetrics (wrelay (new_world ws attest))).
Proof. split; [done|]. cbn. repeat (constructor; [lia|]). constructor. Qed.

(** ** Scrapes of a relay that restarts *)

(** A scrape: when, and what of the host the page's gauges come from. *)
Record look := Look { at_ms : Z; k_rooms : Z; k_occupancy : occupancy_counts; k_mode : mode; k_store : store; k_draining : Z }.

Definition look_gauges (k : look) (w : world) : gauge_list :=
  page_gauges (k_rooms k) (k_occupancy k) (k_mode k) (k_store k) (k_draining k) (wrelay w).

(** What came of the events before a scrape, whether the relay was started since
    the one before, and the row the scrape stores. *)
Record looked := Looked { fresh_start : bool; came : list outcome; kept_row : sample }.

Section Watched.
Context (sort_reasons : list (string * Z) -> list (string * Z)) (number_text : Q -> string).

Definition scraped_row (k : look) (w : world) : sample :=
  (at_ms k, stored COLUMNS (open_table COLUMNS None)
              (parseMetrics (render sort_reasons number_text (rmetrics (wrelay w)) (look_gauges k w)))).

(** One life of the relay process: events, a scrape, events, a scrape. *)
Fixpoint one_life (cfg : relay_config) (segments : list (list relay_event * look)) (started : bool) (w : world) : option (list looked) :=
  match segments with
  | [] => Some []
  | (es, k) :: rest =>
      '(os, w') ← relay_run cfg es w;
      tl ← one_life cfg rest false w'; Some (Looked started os (scraped_row k w') :: tl)
  end.

(** Its lives, one after the other. *)
Fixpoint lives (cfg : relay_config) (ws attest : option buckets) (l : list (list (list relay_event * look))) : option (list looked) :=
  match l with
  | [] => Some []
  | segments :: rest => a ← one_life cfg segments true (new_world ws attest); b ← lives cfg ws attest rest; Some (a ++ b)
  end.
End Watched.

(** The events of the window's intervals, and those of the intervals without a
    restart. *)
Definition all_of (p : outcome -> bool) (l : list looked) : Z := n_of p (concat (came <$> tl l)).
Definition unbroken (p : outcome -> bool) (l : list looked) : Z :=
  n_of p (concat (came <$> List.filter (fun k => negb (fresh_start k)) (tl l))).

(** What a tile makes of the intervals: the events of each, except that an interval
    with a restart has lost those before it: of the events since the restart only
    what exceeds the count at the scrape before, [before], shows. *)
Fixpoint visible (p : outcome -> bool) (before : Z) (l : list looked) : Z :=
  match l with
  | [] => 0
  | k :: rest =>
      let c := n_of p (came k) in
      if fresh_start k then Z.max 0 (c - before) + visible p c rest else c + visible p (before + c) rest
  end.

Definition window_tile (p : outcome -> bool) (l : list looked) : Z :=
  match l with [] => 0 | k :: rest => visible p (n_of p (came k)) rest end.

(** Bounds: fewer than 2^48 events in a life, gauges a double holds. *)
Definition few (segments : list (list relay_event * look)) : Prop :=
  Z.of_nat (length (concat (fst <$> segments))) < 2 ^ 48.

Definition small_look (k : look) : Prop :=
  Forall small [k_rooms k; both (k_occupancy k); mac_only (k_occupancy k); phone_only (k_occupancy k); neither (k_occupancy k);
                store_version (k_store k); Z.of_nat (ownedCount (k_store k)); k_draining k].

(** ** Lemmas: totals *)

(** The total of a list of whole numbers, falls left out. *)
Fixpoint rises (prev : Z) (vs : list Z) : Z :=
  match vs with [] => 0 | v :: rest => Z.max 0 (v - prev) + rises v rest end.

Lemma rises_nonneg vs : forall prev, 0 <= rises prev vs.
Proof. induction vs as [|v vs IH]; intros prev; simpl; [lia|]. specialize (IH v). lia. Qed.

Lemma step_whole (a b : sample) f x y : col a.2 f = inject_Z x -> col b.2 f = inject_Z y -> (step a b f == inject_Z (Z.max 0 (y - x)))%Q.
Proof.
  intros Hx Hy. unfold step. rewrite Hx, Hy.
  assert (E : (inject_Z y - inject_Z x == inject_Z (y - x))%Q) by (unfold Z.sub; rewrite inject_Z_plus, inject_Z_opp; ring).
  destruct (qlt (inject_Z y - inject_Z x) 0) eqn:Eq.
  - apply qlt_spec in Eq. rewrite E in Eq. change 0%Q with (inject_Z 0) in Eq. rewrite <-Zlt_Qlt in Eq.
    replace (Z.max 0 (y - x)) with 0 by lia. reflexivity.
  - rewrite E. destruct (Z.ltb_spec (y - x) 0) as [H|H].
    + assert (Hq : qlt (inject_Z y - inject_Z x) 0 = true); [|congruence]. apply qlt_spec. rewrite E.
      change 0%Q with (inject_Z 0). by rewrite <-Zlt_Qlt.
    + by replace (Z.max 0 (y - x)) with (y - x) by lia.
Qed.

Lemma total_whole (f : string) : forall (rows : list sample) (vs : list Z) (a : sample) (x : Z),
  col a.2 f = inject_Z x -> Forall2 (fun (r : sample) v => col r.2 f = inject_Z v) rows vs ->
  (windowTotal (a :: rows) f == inject_Z (rises x vs))%Q.
Proof.
  intros rows vs a x Ha H. rewrite windowTotal_sum. revert a x Ha. induction H as [|r v rows vs Hr H IH]; intros a x Ha; [reflexivity|].
  cbn [adjacent List.map rises]. rewrite qsum_cons. cbn [fst snd]. rewrite inject_Z_plus. apply Qplus_comp; [by apply step_whole|].
  by apply IH.
Qed.

(** ** Lemmas: what a row holds *)

Lemma stored_col c snap : c ∈ COLUMNS -> col (stored COLUMNS (open_table COLUMNS None) snap) c = col snap c.
Proof.
  intros Hc. unfold stored. assert (Et : tcols (open_table COLUMNS None) = COLUMNS) by by vm_compute. rewrite Et.
  assert (H : forall l, c ∈ l -> col (list_to_map ((fun c => (c, if bool_decide (c ∈ COLUMNS) then col snap c else 0%Q)) <$> l)) c = col snap c).
  { induction l as [|d l IH]; intros Hin; [by apply elem_of_nil in Hin|]. cbn. unfold col at 1.
    destruct (decide (d = c)) as [->|Hne]; [by rewrite lookup_insert_eq, bool_decide_eq_true_2|].
    rewrite lookup_insert_ne by done. apply IH. by apply elem_of_cons in Hin as [->|Hin]. }
  by apply H.
Qed.

(** The counters of the tiles: the tile, its column, the counter and what it counts. *)
Definition COUNTED : list (string * string * (outcome -> bool)) :=
  [("upgrades", "ws_upgrades", opened_now); ("rejected", "ws_rejected", refused); ("requests", "http_requests", past_gate);
   ("errors", "http_errors", errored); ("shard_rejects", "shard_reject", misdirected); ("closed", "life_count", closed_now)]%string.

Lemma n_of_nonneg p os : 0 <= n_of p os.
Proof. unfold n_of. lia. Qed.

Lemma n_of_app p os os' : n_of p (os ++ os') = n_of p os + n_of p os'.
Proof. unfold n_of. rewrite countb_app. lia. Qed.

Lemma n_of_length p os : n_of p os <= Z.of_nat (length os).
Proof. unfold n_of. induction os as [|o os IH]; simpl; [lia|]. destruct (p o); simpl; lia. Qed.

Lemma look_small k os w : accounts os w -> Z.of_nat (length os) < 2 ^ 50 -> small_look k ->
  Forall (fun kv : string * Z => small kv.2) (look_gauges k w).
Proof.
  intros A Hl Hk. pose proof (total_exact _ (a_doors _ _ A)) as Ht. pose proof (a_open _ _ A) as Ho.
  pose proof (n_of_length opened_now os). pose proof (n_of_nonneg closed_now os).
  assert (Hs : small (totalSockets (rhost (wrelay w)))).
  { cbn in Ht. rewrite Ht. unfold small. cbn. unfold door_of. cbn. lia. }
  unfold small_look in Hk. repeat (apply Forall_cons in Hk as [? Hk]). unfold look_gauges, page_gauges, shardGauges.
  destruct (k_mode k); repeat (constructor; [done|]); constructor.
Qed.

Section Rows.
Context (sort_reasons : list (string * Z) -> list (string * Z)) (number_text : Q -> string).
Context (sort_reasons_perm : forall l, sort_reasons l ≡ₚ l) (number_text_plain : forall q, value_text (number_text q)).

Lemma run_page os w k : accounts os w -> lives_ok (rmetrics (wrelay w)) -> Z.of_nat (length os) < 2 ^ 48 -> small_look k ->
  relay_page (rmetrics (wrelay w)) (look_gauges k w).
Proof.
  intros A [Hb1 Hb2] Hl Hk. constructor.
  - apply page_well_formed with (os := os); [done|lia|]. apply (look_small k os); [done|lia|done].
  - exists (3 * Z.of_nat (length os)). split; [apply (a_known _ _ A)|lia].
  - pose proof (a_lifetimes _ _ A) as Hi. pose proof (n_of_length closed_now os). split; [done|].
    assert (Hs : small (lifetimeInf (rmetrics (wrelay w)))) by (unfold small; rewrite Hi; pose proof (n_of_nonneg closed_now os); lia).
    split; [|done]. eapply Forall_impl; [exact Hb2|]. intros b Hb. unfold small in *. cbv beta in Hb. lia.
Qed.

Lemma row_value os w k t f p :
  accounts os w -> lives_ok (rmetrics (wrelay w)) -> Z.of_nat (length os) < 2 ^ 48 -> small_look k -> (t, f, p) ∈ COUNTED ->
  col (scraped_row sort_reasons number_text k w).2 f = inject_Z (n_of p os).
Proof.
  intros A Hv Hl Hk Hin. pose proof (run_page os w k A Hv Hl Hk) as P. unfold scraped_row. cbn [snd].
  assert (Hf : f ∈ COLUMNS).
  { apply list_elem_of_In in Hin. simpl in Hin. repeat (destruct Hin as [[= <- <- <-]|Hin]; [apply (bool_decide_unpack _); by vm_compute|]). done. }
  rewrite stored_col by done.
  assert (Hplain : forall n c, column n c -> starts_with "socket_lifetime_seconds_" n = false -> map_get n (look_gauges k w) = None ->
    c <> "shard_map_version"%string -> col (parseMetrics (render sort_reasons number_text (rmetrics (wrelay w)) (look_gauges k w))) c
      = inject_Z (cnt n (rmetrics (wrelay w)))).
  { intros n c Hc Hn Hg Hcv. unfold col. rewrite (scrape_column sort_reasons number_text sort_reasons_perm number_text_plain _ _ n c P Hc Hn).
    unfold shown, cnt. rewrite Hg. cbn [default]. destruct (map_get n _); [done|]. by destruct (String.eqb_spec c "shard_map_version"). }
  assert (Hg : forall n, n ∈ SNAPSHOT_COUNTERS -> map_get n (look_gauges k w) = None).
  { intros n Hn. destruct (map_get n (look_gauges k w)) as [v|] eqn:E; [|done]. apply map_get_elem in E.
    destruct (wf_g _ _ (rp_formed _ _ P) n v E) as (_ & _ & H). exfalso. apply H. by right. }
  apply list_elem_of_In in Hin. simpl in Hin.
  destruct Hin as [[= <- <- <-]|[[= <- <- <-]|[[= <- <- <-]|[[= <- <- <-]|[[= <- <- <-]|[[= <- <- <-]|[]]]]]]].
  - rewrite (Hplain "ws_upgrades_total"%string) by (done || (apply Hg; by left) || by vm_compute). by rewrite (a_upgrades _ _ A).
  - rewrite (scrape_rejected sort_reasons number_text sort_reasons_perm number_text_plain _ _ P). by rewrite (a_rejected _ _ A).
  - rewrite (Hplain "http_requests_total"%string) by (done || (apply Hg; unfold SNAPSHOT_COUNTERS; member) || by vm_compute). by rewrite (a_requests _ _ A).
  - rewrite (Hplain "http_errors_total"%string) by (done || (apply Hg; unfold SNAPSHOT_COUNTERS; member) || by vm_compute). by rewrite (a_errors _ _ A).
  - rewrite (Hplain "shard_reject_total"%string) by (done || (apply Hg; unfold SNAPSHOT_COUNTERS; member) || by vm_compute). by rewrite (a_shard _ _ A).
  - destruct (scrape_lives sort_reasons number_text sort_reasons_perm number_text_plain _ _ P) as [E _]. unfold col.
    rewrite E. by rewrite (a_lifetimes _ _ A).
Qed.

(** A counter along the scrapes. *)
Fixpoint running (p : outcome -> bool) (acc : Z) (l : list looked) : list Z :=
  match l with
  | [] => []
  | k :: rest => let v := (if fresh_start k then 0 else acc) + n_of p (came k) in v :: running p v rest
  end.

Lemma running_app p l k : forall acc, exists acc', running p acc (l ++ k) = running p acc l ++ running p acc' k.
Proof.
  induction l as [|a l IH]; intros acc; [by exists acc|]. cbn [app running].
  destruct (IH ((if fresh_start a then 0 else acc) + n_of p (came a))) as [acc' ->]. by exists acc'.
Qed.

Lemma running_fresh p l a b : match l with k :: _ => fresh_start k = true | [] => True end -> running p a l = running p b l.
Proof. destruct l as [|k l]; [done|]. intros H. cbn [running]. by rewrite H. Qed.

Definition row_reads (f : string) (r : sample) (v : Z) : Prop := col r.2 f = inject_Z v.

Lemma one_life_fresh cfg segments w l : one_life sort_reasons number_text cfg segments true w = Some l ->
  match l with k :: _ => fresh_start k = true | [] => True end.
Proof.
  destruct segments as [|[es k] rest]; cbn [one_life]; [by intros [= <-]|].
  destruct (relay_run cfg es w) as [[os w']|]; [|done]. simpl.
  destruct (one_life _ _ cfg rest false w') as [tl|]; [|done]. simpl. by intros [= <-].
Qed.

Lemma one_life_values cfg t f p : (t, f, p) ∈ COUNTED -> forall segments started w l os,
  one_life sort_reasons number_text cfg segments started w = Some l -> accounts os w -> lives_ok (rmetrics (wrelay w)) ->
  Z.of_nat (length os) + Z.of_nat (length (concat (fst <$> segments))) < 2 ^ 48 -> Forall (fun s => small_look s.2) segments ->
  (started = true -> os = []) ->
  Forall2 (row_reads f) (kept_row <$> l) (running p (n_of p os) l).
Proof.
  intros Hin. induction segments as [|[es k] rest IH]; intros started w l os E A Hv Hl Hs Hst; cbn [one_life] in E.
  { injection E as <-. constructor. }
  destruct (relay_run cfg es w) as [[os' w']|] eqn:Er; [|done]. simpl in E.
  destruct (one_life _ _ cfg rest false w') as [tl'|] eqn:El; [|done]. simpl in E. injection E as <-.
  apply Forall_cons in Hs as [Hk Hs]. pose proof (relay_run_accounts _ _ _ _ _ _ Er A) as A'.
  pose proof (relay_run_lives _ _ _ _ _ Er Hv) as Hv'. pose proof (run_length _ _ _ _ _ Er) as Hlen.
  rewrite fmap_cons in Hl. cbn [concat fst] in Hl. rewrite length_app in Hl.
  assert (Hos : Z.of_nat (length (os ++ os')) + Z.of_nat (length (concat (fst <$> rest))) < 2 ^ 48) by (rewrite length_app; lia).
  assert (En : (if started then 0 else n_of p os) + n_of p os' = n_of p (os ++ os')).
  { rewrite n_of_app. destruct started; [|done]. by rewrite (Hst eq_refl). }
  rewrite fmap_cons. cbn [running fresh_start came kept_row]. rewrite En. constructor.
  - unfold row_reads. apply (row_value (os ++ os') w' k t f p A' Hv'); [lia|done|done].
  - by apply (IH false w' tl' (os ++ os')).
Qed.

Lemma lives_values cfg ws attest t f p : (t, f, p) ∈ COUNTED -> forall ls l acc,
  lives sort_reasons number_text cfg ws attest ls = Some l -> Forall few ls -> Forall (Forall (fun s => small_look s.2)) ls ->
  match l with k :: _ => fresh_start k = true | [] => True end /\ Forall2 (row_reads f) (kept_row <$> l) (running p acc l).
Proof.
  intros Hin. induction ls as [|segments ls IH]; intros l acc E Hf Hs; cbn [lives] in E; [by injection E as <-|].
  destruct (one_life _ _ cfg segments true (new_world ws attest)) as [a|] eqn:Ea; [|done]. simpl in E.
  destruct (lives _ _ cfg ws attest ls) as [b|] eqn:Eb; [|done]. simpl in E. injection E as <-.
  apply Forall_cons in Hf as [Hf Hfs]. apply Forall_cons in Hs as [Hs Hss].
  pose proof (one_life_fresh _ _ _ _ Ea) as Hfa.
  pose proof (one_life_values cfg t f p Hin segments true _ a [] Ea (new_world_accounts ws attest) (new_world_lives ws attest)
    ltac:(unfold few in Hf; simpl; lia) Hs (fun _ => eq_refl)) as Ha.
  split; [destruct a; [by apply (IH b 0)|done]|]. rewrite fmap_app. destruct (running_app p a b acc) as [acc' ->].
  apply Forall2_app; [|by apply IH]. by rewrite (running_fresh p a acc (n_of p [])).
Qed.
End Rows.

Lemma rises_running p l : forall x, 0 <= x ->
  n_of p (concat (came <$> List.filter (fun k => negb (fresh_start k)) l)) <= rises x (running p x l) <= n_of p (concat (came <$> l)).
Proof.
  induction l as [|k l IH]; intros x Hx; [done|]. pose proof (n_of_nonneg p (came k)) as Hk.
  cbn [running rises]. rewrite fmap_cons. cbn [concat]. rewrite n_of_app. cbn [List.filter].
  destruct (fresh_start k); cbn [negb].
  - specialize (IH (0 + n_of p (came k)) ltac:(lia)). lia.
  - specialize (IH (x + n_of p (came k)) ltac:(lia)). rewrite fmap_cons. cbn [concat]. rewrite n_of_app. lia.
Qed.

Lemma rises_visible p l : forall x, rises x (running p x l) = visible p x l.
Proof.
  induction l as [|k l IH]; intros x; [done|]. pose proof (n_of_nonneg p (came k)) as Hk. cbn [running rises visible].
  rewrite IH. destruct (fresh_start k); rewrite ?Z.add_0_l; lia.
Qed.

(** ** Property *)

Section Tiles.
Context (sort_reasons : list (string * Z) -> list (string * Z)) (number_text : Q -> string).
Context (sort_reasons_perm : forall l, sort_reasons l ≡ₚ l) (number_text_plain : forall q, value_text (number_text q)).

(** C31: The dashboard's tiles count what happened.  A relay runs, is scraped, and
    is restarted now and then, in any order of its events.  Each of these tiles of
    the scraped rows (upgrades, refusals, requests, errors, requests for another
    box's bucket, closed connections) is exactly the events of the intervals between
    scrapes; of an interval with a restart, what the relay counted since the restart
    in excess of its count at the scrape before, and nothing if that is not more.  So
    it never counts an event twice or one that did not happen between the first and
    the last scrape, counts every one of an interval without a restart, and is
    complete when there was none. *)
Theorem tiles_count_events (cfg : relay_config) (ws attest : option buckets) (ls : list (list (list relay_event * look)))
    (l : list looked) (latest : option sample) (nowMs : Z) :
  lives sort_reasons number_text cfg ws attest ls = Some l -> Forall few ls -> Forall (Forall (fun s => small_look s.2)) ls ->
  Forall (fun c : string * string * (outcome -> bool) => let '(tile, _, p) := c in
    exists v z, (tile, Some v) ∈ relay_tiles (kept_row <$> l) latest nowMs /\ (v == inject_Z z)%Q
      /\ z = window_tile p l /\ unbroken p l <= z <= all_of p l
      /\ ((forall k, k ∈ tl l -> fresh_start k = false) -> z = all_of p l)) COUNTED.
Proof.
  intros E Hf Hs.
  assert (Htotal : forall t f p, (t, f, p) ∈ COUNTED -> exists z, (windowTotal (kept_row <$> l) f == inject_Z z)%Q
    /\ z = window_tile p l /\ unbroken p l <= z <= all_of p l /\ ((forall k, k ∈ tl l -> fresh_start k = false) -> z = all_of p l)).
  { intros t f p Hin.
    destruct (lives_values sort_reasons number_text sort_reasons_perm number_text_plain cfg ws attest t f p Hin ls l 0 E Hf Hs) as [_ Hv].
    destruct l as [|k l]; [by exists 0|]. rewrite fmap_cons in Hv |- *. cbn [running] in Hv. apply Forall2_cons in Hv as [Hk Hv].
    replace ((if fresh_start k then 0 else 0) + n_of p (came k)) with (n_of p (came k)) in Hk, Hv by (destruct (fresh_start k); lia).
    eexists. split; [by apply (total_whole f)|]. split; [apply rises_visible|]. unfold unbroken, all_of. cbn [tl].
    pose proof (rises_running p l (n_of p (came k)) (n_of_nonneg p (came k))) as Hr. split; [exact Hr|]. intros Hnone.
    assert (Efil : List.filter (fun k => negb (fresh_start k)) l = l).
    { clear -Hnone. induction l as [|a l IH]; [done|]. cbn [List.filter]. rewrite (Hnone a) by by left. cbn [negb]. f_equal.
      apply IH. intros b Hb. apply Hnone. by right. }
    rewrite Efil in Hr. lia. }
  unfold COUNTED at 1, relay_tiles. cbv zeta.
  repeat (constructor; [edestruct Htotal as (z & H1 & H2); [|eexists _, z; split; [member|by split]]; unfold COUNTED; member|]).
  constructor.
Qed.
End Tiles.

(** *** A relay that opens three sockets, is restarted, and opens one more *)

Definition a_look (ms : Z) : look := Look ms 1 (Occupancy 0 1 0 0) MODE_DIRECT (new_store "") 0.
Definition an_upgrade (now : Z) : relay_event :=
  EUpgrade now room_headers (Some "a"%string) MODE_DIRECT (new_store "") (fun _ => true) 1.
Definition some_lives : list (list (list relay_event * look)) :=
  [[([an_upgrade 0; EOpened 0], a_look 10); ([an_upgrade 11; EOpened 0; EClosed 0 (1 # 2); an_upgrade 12; EOpened 0], a_look 20)];
   [([an_upgrade 21; EOpened 0], a_look 30)]].

Lemma some_lives_events :
  option_map (fun l => (all_of opened_now l, unbroken opened_now l, window_tile opened_now l))
    (lives id (fun _ => "42"%string) some_relay_config (Some []) None some_lives) = Some (3, 2, 2).
Proof. vm_compute. reflexivity. Qed.

Lemma tiles_count_events_witness :
  exists l, lives id (fun _ => "42"%string) some_relay_config (Some []) None some_lives = Some l
    /\ all_of opened_now l = 3 /\ unbroken opened_now l = 2
    /\ exists v z, ("upgrades"%string, Some v) ∈ relay_tiles (kept_row <$> l) None 40 /\ (v == inject_Z z)%Q /\ z = 2.
Proof.
  pose proof some_lives_events as Hl.
  destruct (lives id (fun _ => "42"%string) some_relay_config (Some []) None some_lives) as [l|] eqn:E; [|discriminate].
  injection Hl as Ha Hu Hw. exists l. split; [done|]. split; [done|]. split; [done|].
  assert (Hperm : forall x : list (string * Z), id x ≡ₚ x) by reflexivity.
  assert (Htext : forall q : Q, value_text ((fun _ => "42"%string) q)) by (intros q; split; [by repeat constructor|done]).
  pose proof (tiles_count_events id (fun _ => "42"%string) Hperm Htext some_relay_config (Some []) None some_lives l None 40 E) as T.
  assert (Hs : forall ms, small_look (a_look ms)).
  { intros ms. unfold small_look. repeat apply Forall_cons_2; [..|apply Forall_nil_2]; (split; vm_compute; discriminate). }
  specialize (T ltac:(repeat constructor; vm_compute; done) ltac:(repeat (constructor; try apply Hs))).
  apply Forall_cons in T as [(v & z & H1 & H2 & H3 & _) _]. rewrite Hw in H3.
  exists v, z. split; [exact H1|]. split; [exact H2|exact H3].
Defined.
