(* ===== verification/DashServer.v ===== *)
(** The dashboard's HTTP side ([dashboard/server.js], [dashboard/auth.js],
    [bin/dashboard.js]): the password, the routes, the data of a window and the
    settings it refuses to start with. *)

From Stdlib Require Import QArith Ascii.
From S2P Require Import Prelude Bytes Crypto Utf8 Json Monitor MonitorPush MonitorServer Metrics DashParse DashStore DashSeries.
#[local] Open Scope Z_scope.

(** ** The password *)

Section Auth.
(** Node's lenient base64 decoder. *)
Context `{Crypto} (base64_decode : string -> bytes).

Definition digest (s : string) : bytes := sha256 (utf8 s).

(** The comparison in constant time compares. *)
Definition safeEqual (a b : string) : bool := bool_decide (digest a = digest b).

(** The name and the password of a header, both empty where it has none. *)
Definition basic_credentials (header : option string) : string * string :=
  match header with
  | Some h =>
      if starts_with "Basic " h then
        let decoded := string_of_bytes (decode_utf8 (base64_decode (text_of (trim (string_drop 6 h))))) in
        match cut 58 (chars decoded) with Some (u, p) => (text_of u, text_of p) | None => (""%string, ""%string) end
      else (""%string, ""%string)
  | None => (""%string, ""%string)
  end.

Definition checkBasicAuth (header : option string) (user pass : string) : bool :=
  let '(gotUser, gotPass) := basic_credentials header in
  let okUser := safeEqual gotUser user in
  let okPass := safeEqual gotPass pass in
  okUser && okPass.

(** [requireAuth]: may the request proceed? *)
Definition requireAuth (header : option string) (user pass : string) : bool :=
  if String.eqb user "" || String.eqb pass "" then true else checkBasicAuth header user pass.
End Auth.

(** ** The data of a window *)

Record dash_config := DashConfig {
  metricsUrl : string; pushMetricsUrl : string; scrapeIntervalMs : Q; user : string; pass : string; nbuckets : Z;
  caps : caps_cfg; errorCfg : error_cfg; allowUnauthenticated : bool }.

Definition RANGE_MS : list (string * Z) :=
  [("1h", 3600000); ("6h", 6 * 3600000); ("24h", 24 * 3600000); ("7d", 7 * 24 * 3600000); ("30d", 30 * 24 * 3600000)]%string.

(** [RANGE_MS[range] || RANGE_MS["24h"]]; [None] where [range] names a property every
    object has, which is no number. *)
Definition span_of (range : option string) : option Z :=
  let name := match range with Some r => if String.eqb r "" then "24h"%string else r | None => "24h"%string end in
  match map_get name RANGE_MS with
  | Some ms => Some ms
  | None => if bool_decide (name ∈ INHERITED) then None else map_get "24h" RANGE_MS
  end.

Record payload := Payload {
  pl_window : option (Z * Z * nat);   (* [None]: not numbers *)
  pl_tiles : option tiles; pl_alerts : list alert; pl_series : option (list (string * chart)); pl_push : option push_payload }.

Definition buckets_for (cfg : dash_config) (span : Z) : nat :=
  Z.to_nat (Z.min (nbuckets cfg) (Z.max 60 (math_round (inject_Z span / scrapeIntervalMs cfg)%Q))).

(** [handleData]; a window that is not a number selects no row and has no slots. *)
Definition handleData (cfg : dash_config) (nowMs : Z) (range_param : option string) (relay push : table) : result string payload :=
  let span := span_of range_param in
  let fromMs := nowMs - default 0 span in
  let n := match span with Some ms => buckets_for cfg ms | None => 0%nat end in
  let rows t := match span with Some _ => range fromMs nowMs t | None => [] end in
  let window := match span with Some _ => Some (fromMs, nowMs, n) | None => None end in
  (let! shown := if String.eqb (metricsUrl cfg) "" then Ok (Payload window None [] None None) else
     let! d := buildDashboard (rows relay) (latest relay) fromMs nowMs n nowMs (caps cfg) (errorCfg cfg) in
     Ok (Payload window (Some (d_tiles d)) (d_alerts d) (Some (d_series d)) None) in
   if String.eqb (pushMetricsUrl cfg) "" then Ok shown else
   let! p := buildPush (rows push) (latest push) fromMs nowMs n nowMs in
   Ok (Payload (pl_window shown) (pl_tiles shown) (pl_alerts shown) (pl_series shown) (Some p)))%res.

(** ** Requests *)

(** The path and the [range] parameter ([None] for a target the URL parser throws
    on), and the Authorization header. *)
Record dash_request := DashRequest { dtarget : option (string * option string); dauth : option string }.

Inductive dash_response : Type :=
| DBadRequest
| DHealthy
| DLogin
| DPage
| DData (p : payload)
| DNotFound
| DFailed (error : string).

Definition handle_dash `{Crypto} (base64_decode : string -> bytes) (cfg : dash_config) (nowMs : Z) (r : dash_request)
    (relay push : table) : dash_response :=
  match dtarget r with
  | None => DBadRequest
  | Some (path, range_param) =>
      if String.eqb path "/healthz" then DHealthy
      else if negb (requireAuth base64_decode (dauth r) (user cfg) (pass cfg)) then DLogin
      else if String.eqb path "/" || String.eqb path "/index.html" then DPage
      else if String.eqb path "/api/data" then
        match handleData cfg nowMs range_param relay push with Ok p => DData p | Err e => DFailed e end
      else DNotFound
  end.

(** ** Starting *)

(** [createDashboard] refuses to serve everyone by omission. *)
Definition createDashboard_check (cfg : dash_config) : result string unit :=
  if (String.eqb (user cfg) "" || String.eqb (pass cfg) "") && negb (allowUnauthenticated cfg)
  then Err "createDashboard: refusing to start without both `user` and `pass`"%string else Ok tt.

(** [listen]: the collectors it starts, unless it is told not to; each with its URL,
    its parser and its columns. *)
Definition started (startCollectorOnListen : bool) (cfg : dash_config) : list (string * (string -> row) * list string) :=
  if startCollectorOnListen then
    (if String.eqb (metricsUrl cfg) "" then [] else [(metricsUrl cfg, parseMetrics, COLUMNS)])
    ++ (if String.eqb (pushMetricsUrl cfg) "" then [] else [(pushMetricsUrl cfg, parsePushMetrics, PUSH_COLUMNS)])
  else [].

(** [num(name, dflt)] *)
Definition num (e : env) (name : string) (dflt : Q) : Q :=
  match e !! name with
  | Some v => match js_number (chars v) with Some q => if qlt 0 q then q else dflt | None => dflt end
  | None => dflt
  end.

(** A variable, or [||] its default. *)
Definition env_or (e : env) (name dflt : string) : string :=
  match e !! name with Some v => if String.eqb v "" then dflt else v | None => dflt end.

(** The entry point's configuration, and the retention time. *)
Definition dashboard_config (e : env) : result string (dash_config * Q) :=
  let PASS := env_or e "DASHBOARD_PASSWORD" "" in
  if String.eqb PASS "" then Err "DASHBOARD_PASSWORD is required (refusing to start unauthenticated)."%string else
  Ok (DashConfig
        (default "http://127.0.0.1:8788/metrics"%string (e !! "DASHBOARD_METRICS_URL"%string))
        (default "http://127.0.0.1:8790/metrics"%string (e !! "DASHBOARD_PUSH_METRICS_URL"%string))
        (num e "DASHBOARD_SCRAPE_MS" 30000) (env_or e "DASHBOARD_USER" "admin") PASS 240
        (Caps (num e "RELAY_MAX_TOTAL_SOCKETS" 200000) (num e "RELAY_MAX_ROOMS" 200000) (7 # 10) (9 # 10))
        (ErrorCfg (5 # 100) 100 1) false,
      (num e "DASHBOARD_RETENTION_DAYS" 90 * 24 * 60 * 60 * 1000)%Q).

(** ** Properties *)

(** What a response tells of the relay. *)
Definition tells (resp : dash_response) : bool :=
  match resp with DBadRequest | DHealthy | DLogin => false | _ => true end.

(** [a] is [b], or their digests collide. *)
Definition same_or_collision `{Crypto} (a b : string) : Prop := a = b \/ (utf8 a <> utf8 b /\ sha256 (utf8 a) = sha256 (utf8 b)).

Lemma utf8_inj a b : utf8 a = utf8 b -> a = b.
Proof. intros E. by rewrite <-(string_of_utf8 a), E, string_of_utf8. Qed.

Lemma safeEqual_spec `{Crypto} a b : safeEqual a b = true -> same_or_collision a b.
Proof.
  unfold safeEqual, digest, same_or_collision. intros E%bool_decide_eq_true. destruct (decide (a = b)) as [->|Hne]; [by left|].
  right. split; [|done]. by intros E2%utf8_inj.
Qed.

(** A whole window has slots. *)
Lemma config_draws e cfg q : dashboard_config e = Ok (cfg, q) -> forall ms, (0 < buckets_for cfg ms)%nat.
Proof.
  unfold dashboard_config. destruct (String.eqb _ ""); [done|]. intros E ms. injection E as <- _. unfold buckets_for. cbn [nbuckets]. lia.
Qed.

(** With slots for every window, no window fails. *)
Lemma handleData_total cfg nowMs range_param relay push :
  (forall ms, (0 < buckets_for cfg ms)%nat) -> exists pl, handleData cfg nowMs range_param relay push = Ok pl.
Proof.
  intros Hn. unfold handleData. cbv zeta. destruct (span_of range_param) as [ms|].
  - specialize (Hn ms). destruct (buckets_for cfg ms) as [|n]; [lia|]. unfold buildDashboard, buildPush, bucketize, bucketizePush, needs_slots.
    cbn [Nat.eqb andb rbind]. destruct (String.eqb (metricsUrl cfg) ""); cbn [rbind]; destruct (String.eqb (pushMetricsUrl cfg) ""); by eexists.
  - unfold buildDashboard, buildPush, bucketize, bucketizePush, needs_slots. cbn [Nat.eqb andb length negb rbind].
    destruct (String.eqb (metricsUrl cfg) ""); cbn [rbind]; destruct (String.eqb (pushMetricsUrl cfg) ""); by eexists.
Qed.

(** C34: The dashboard keeps its data behind its password.  Configured by its entry
    point, it starts; and whatever the history and the request: an answer that is
    not the liveness check, a refusal of the URL or the password prompt comes with
    a Basic header whose decoded name and password are the configured ones (or
    exhibit a SHA-256 collision with them); and the right ones are always let in,
    and never answered with a failure. *)
Theorem dashboard_needs_password `{Crypto} (base64_decode : string -> bytes) (e : env) (cfg : dash_config) (q : Q) (nowMs : Z)
    (r : dash_request) (relay push : table) :
  dashboard_config e = Ok (cfg, q) ->
  createDashboard_check cfg = Ok tt
  /\ (tells (handle_dash base64_decode cfg nowMs r relay push) = true ->
      same_or_collision (basic_credentials base64_decode (dauth r)).1 (user cfg)
      /\ same_or_collision (basic_credentials base64_decode (dauth r)).2 (pass cfg))
  /\ (basic_credentials base64_decode (dauth r) = (user cfg, pass cfg) ->
      handle_dash base64_decode cfg nowMs r relay push <> DLogin
      /\ forall err, handle_dash base64_decode cfg nowMs r relay push <> DFailed err).
Proof.
  intros E. pose proof (config_draws e cfg q E) as Hn. unfold dashboard_config in E.
  destruct (String.eqb (env_or e "DASHBOARD_PASSWORD" "") "") eqn:Ep; [done|]. injection E as <- <-.
  assert (Eu : String.eqb (env_or e "DASHBOARD_USER" "admin") "" = false).
  { unfold env_or. destruct (e !! "DASHBOARD_USER"%string) as [v|]; [|done]. by destruct (String.eqb_spec v ""); [|apply String.eqb_neq]. }
  set (cfg := DashConfig _ _ _ _ _ _ _ _ _) in *.
  assert (Hreq : forall h, requireAuth base64_decode h (user cfg) (pass cfg) = checkBasicAuth base64_decode h (user cfg) (pass cfg)).
  { intros h. unfold requireAuth. cbn [user pass cfg]. by rewrite Eu, Ep. }
  split; [unfold createDashboard_check; cbn [user pass cfg]; by rewrite Eu, Ep|]. split.
  - unfold handle_dash. destruct (dtarget r) as [[path range_param]|]; [|done].
    destruct (String.eqb path "/healthz"); [done|]. rewrite Hreq.
    destruct (checkBasicAuth base64_decode (dauth r) (user cfg) (pass cfg)) eqn:Ec; [|done]. intros _. revert Ec.
    unfold checkBasicAuth. destruct (basic_credentials base64_decode (dauth r)) as [u p]. cbn [fst snd].
    intros [H1 H2]%andb_true_iff. split; by apply safeEqual_spec.
  - intros Ec. assert (Hok : checkBasicAuth base64_decode (dauth r) (user cfg) (pass cfg) = true).
    { unfold checkBasicAuth. rewrite Ec. unfold safeEqual. by rewrite !bool_decide_eq_true_2. }
    unfold handle_dash. destruct (dtarget r) as [[path range_param]|]; [|done].
    destruct (String.eqb path "/healthz"); [done|]. rewrite Hreq, Hok. cbn [negb].
    destruct (_ || _); [done|]. destruct (String.eqb path "/api/data"); [|done].
    assert (Hd : exists pl, handleData cfg nowMs range_param relay push = Ok pl) by by apply handleData_total.
    destruct Hd as [pl ->]. done.
Qed.

(** Asked for a window named like a property of every object, the dashboard
    answers, without an error, a window of no slots: no chart shows any sample. *)
Lemma inherited_range_is_empty (cfg : dash_config) (nowMs : Z) (name : string) (relay push : table) :
  name ∈ INHERITED -> metricsUrl cfg <> ""%string ->
  exists pl series, handleData cfg nowMs (Some name) relay push = Ok pl /\ pl_window pl = None
    /\ pl_series pl = Some series /\ Forall (fun kv => kv.2 = []) series.
Proof.
  intros Hin Hm. assert (Es : span_of (Some name) = None).
  { apply list_elem_of_In in Hin. simpl in Hin. repeat (destruct Hin as [<-|Hin]; [by vm_compute|]). done. }
  unfold handleData. cbv zeta. rewrite Es. apply String.eqb_neq in Hm. rewrite Hm.
  unfold buildDashboard, buildPush, bucketize, bucketizePush, needs_slots. cbn [Nat.eqb andb length negb rbind].
  destruct (String.eqb (pushMetricsUrl cfg) ""); eexists _, _; (split; [done|]; split; [done|]; split; [done|]); by repeat constructor.
Qed.

(** *** A visitor with the password and one without *)

Definition some_env : env := {[ "DASHBOARD_PASSWORD" := "s3cret"; "RELAY_MAX_ROOMS" := "1e3"; "DASHBOARD_SCRAPE_MS" := "-1" ]}%string.

Lemma dashboard_needs_password_witness :
  exists cfg q, dashboard_config some_env = Ok (cfg, q) /\ user cfg = "admin"%string /\ Qeq (c_rooms (caps cfg)) 1000
    /\ Qeq (scrapeIntervalMs cfg) 30000
    /\ handle_dash (H := toy_crypto) utf8 cfg 0 (DashRequest (Some ("/"%string, None)) None) (Table [] ∅) (Table [] ∅) = DLogin
    /\ handle_dash (H := toy_crypto) utf8 cfg 0 (DashRequest (Some ("/"%string, None)) (Some "Basic admin:s3cret"%string)) (Table [] ∅) (Table [] ∅) <> DLogin.
Proof.
  destruct (dashboard_config some_env) as [[cfg q]|] eqn:E; [|by vm_compute in E]. exists cfg, q. split; [done|].
  assert (Hc : user cfg = "admin"%string /\ pass cfg = "s3cret"%string /\ Qeq (c_rooms (caps cfg)) 1000 /\ Qeq (scrapeIntervalMs cfg) 30000
    /\ handle_dash (H := toy_crypto) utf8 cfg 0 (DashRequest (Some ("/"%string, None)) None) (Table [] ∅) (Table [] ∅) = DLogin).
  { vm_compute in E. injection E as <- <-. by vm_compute. }
  destruct Hc as (Hu & Hp & Hr & Hs & Hl). split_and!; [done..|].
  apply (dashboard_needs_password (H := toy_crypto) utf8 some_env cfg q 0
    (DashRequest (Some ("/"%string, None)) (Some "Basic admin:s3cret"%string)) (Table [] ∅) (Table [] ∅) E).
  rewrite Hu, Hp. by vm_compute.
Defined.
