(* ===== verification/DashPage.v ===== *)
(** What the dashboard's page makes of the payload ([dashboard/page.js], its client
    script): the tiles with their colors and notes, the health panel, and the charts
    as the shapes that are drawn.

    The page's style and markup are constants; the text of a number is an argument,
    the coordinates are exact rationals. *)

From Stdlib Require Import QArith Qround Lqa.
From S2P Require Import Prelude Bytes Monitor DashParse DashStore DashSeries DashServer.
#[local] Open Scope Z_scope.

(** ** Values *)

(** A member of the payload: missing, [null] or a number. *)
Abbreviation member_value := (option (option Q)).

Fixpoint member_of (t : tiles) (k : string) : member_value :=
  match t with [] => None | (k', v) :: t' => if String.eqb k' k then Some v else member_of t' k end.

(** The number in a comparison: [NaN] for a missing member, 0 for [null]. *)
Definition as_number (v : member_value) : option Q := match v with None => None | Some None => Some 0%Q | Some (Some q) => Some q end.

Definition gt (v : member_value) (c : Q) : bool := match as_number v with Some q => qlt c q | None => false end.
Definition ge (v : member_value) (c : Q) : bool := match as_number v with Some q => Qle_bool c q | None => false end.
Definition lt (v : member_value) (c : Q) : bool := match as_number v with Some q => qlt q c | None => false end.

Definition nullish (v : member_value) : bool := match v with Some (Some _) => false | _ => true end.

Section Text.
(** The text of a number: [toLocaleString] with at most two digits; [toFixed(d)];
    in a concatenation. *)
Context (locale : Q -> string) (fixed : Z -> Q -> string) (plain : Q -> string).

Definition dash : string := "—".

Definition js_text (v : member_value) : string :=
  match v with None => "undefined" | Some None => "null" | Some (Some q) => plain q end.

Definition num (v : member_value) : string := match v with Some (Some q) => locale q | _ => dash end.
Definition pct (v : member_value) : string := if nullish v then dash else num v +:+ "%".
Definition secs (v : member_value) : string := if nullish v then dash else num v +:+ "s".

Definition dur (v : member_value) : string :=
  match v with
  | Some (Some ms) =>
      let s := math_round (ms / 1000)%Q in
      if s <? 90 then plain (inject_Z s) +:+ "s ago" else
      let m := math_round (inject_Z s / 60)%Q in
      if m <? 90 then plain (inject_Z m) +:+ "m ago" else plain (inject_Z (math_round (inject_Z m / 60)%Q)) +:+ "h ago"
  | _ => dash
  end.

Definition fmtMs (v : member_value) : string :=
  match v with
  | Some (Some n) => if Qle_bool 1000 n then fixed 2 (n / 1000)%Q +:+ "s" else plain n +:+ "ms"
  | _ => dash
  end.

(** ** Tiles *)

Record tile_spec := TileSpec {
  tk : string; tlabel : string; tfmt : member_value -> string;
  tstatus : option (tiles -> string); tnote : option (tiles -> string) }.

(** Warn above zero. *)
Definition warn_if_any (k : string) : option (tiles -> string) := Some (fun t => if gt (member_of t k) 0 then "warn" else "good")%string.
Definition says (s : string) : option (tiles -> string) := Some (fun _ => s).

Definition TILES : list tile_spec := [
  TileSpec "sockets_live" "Live sockets" num None None;
  TileSpec "rooms_live" "Live rooms" num None None;
  TileSpec "rooms_both" "Paired (mac+phone)" num None (says "spliced now");
  TileSpec "rooms_mac_only" "Parked macs" num None (says "awaiting phone");
  TileSpec "rooms_phone_only" "Phone-only" num (warn_if_any "rooms_phone_only") (says "should be 0");
  TileSpec "upgrades" "Upgrades" num None (says "in range");
  TileSpec "requests" "HTTP requests" num None (says "in range");
  TileSpec "error_pct" "Error rate" pct
    (Some (fun t => if ge (member_of t "error_pct") 10 then "critical" else if ge (member_of t "error_pct") 5 then "warn" else "good"))
    (Some (fun t => js_text (member_of t "errors") +:+ " / " +:+ js_text (member_of t "requests")));
  TileSpec "exceptions" "Exceptions" num (warn_if_any "exceptions") (says "in range");
  TileSpec "short_lived_pct" "Flap (<1s)" pct
    (Some (fun t => if ge (member_of t "short_lived_pct") 60 then "warn" else "good"))
    (Some (fun t => js_text (member_of t "closed") +:+ " closed"));
  TileSpec "avg_lifetime_s" "Avg lifetime" secs None None;
  TileSpec "quota_closes" "Quota closes" num (warn_if_any "quota_closes") (says "in range");
  TileSpec "push_errors" "Push errors" num (warn_if_any "push_errors") (says "in range");
  TileSpec "shard_map_version" "Shard map"
    (fun v => if nullish v || lt v 0 then "direct" else "v" +:+ num v)
    (Some (fun t => if ge (member_of t "shard_map_version") 0 && gt (member_of t "shard_map_fetch_errors") 0 then "warn" else "good"))
    (Some (fun t => if lt (member_of t "shard_map_version") 0 then "single host" else
       num (member_of t "shard_owned_buckets") +:+ " owned · " +:+ num (member_of t "shard_draining_buckets") +:+ " draining"
       +:+ (if gt (member_of t "shard_rejects") 0 then " · " +:+ num (member_of t "shard_rejects") +:+ " rejects" else "")
       +:+ (if gt (member_of t "shard_map_fetch_errors") 0 then " · " +:+ num (member_of t "shard_map_fetch_errors") +:+ " fetch errors" else "")))
]%string.

Fixpoint join_with (sep : string) (l : list string) : string :=
  match l with [] => "" | [s] => s | s :: l' => s +:+ sep +:+ join_with sep l' end.

Definition reasonNote (reasons : list (string * Q)) : string :=
  match reasons with
  | [] => "none in range"
  | _ => join_with " · " (List.map (fun r => r.1 +:+ " " +:+ plain r.2) (take 3 reasons))
  end.

Definition PUSH_TILES (reasons : list (string * Q)) : list tile_spec := [
  TileSpec "devices" "Devices" num None (says "registered");
  TileSpec "registrations" "Registrations" num None
    (Some (fun t => js_text (member_of t "skips") +:+ " skipped (" +:+ pct (member_of t "skip_pct") +:+ ")"));
  TileSpec "writes" "KV writes" num None (says "in range");
  TileSpec "pushes" "Pushes" num None (says "in range");
  TileSpec "delivered" "Delivered" num
    (Some (fun t => if gt (member_of t "pushes") 0 && lt (member_of t "deliver_pct") 90 then "warn" else "good"))
    (Some (fun t => pct (member_of t "deliver_pct") +:+ " of pushes"));
  TileSpec "failed" "Failed" num (warn_if_any "failed") (says "our side or Apple's");
  TileSpec "success_pct" "APNs success" pct
    (Some (fun t => let v := member_of t "success_pct" in
       if nullish v then "good" else if lt v 90 then "critical" else if lt v 99 then "warn" else "good"))
    (says "of pushes sent to Apple");
  TileSpec "last_delivery_age_ms" "Last delivery" (fun v => if nullish v then "none yet" else dur v) None (says "since relay restart");
  TileSpec "latency_p50_ms" "APNs p50" fmtMs None (Some (fun t => js_text (member_of t "latency_samples") +:+ " samples"));
  TileSpec "latency_p95_ms" "APNs p95" fmtMs
    (Some (fun t => let v := member_of t "latency_p95_ms" in
       if nullish v then "good" else if ge v 5000 then "critical" else if ge v 2000 then "warn" else "good"))
    (says "in range");
  TileSpec "apns_timeouts" "APNs timeouts" num
    (Some (fun t => if gt (member_of t "apns_timeouts") 0 then "critical" else "good")) (says "no reply in 10s");
  TileSpec "rejected_total" "Rejected by Apple" num (warn_if_any "rejected_total") (Some (fun _ => reasonNote reasons));
  TileSpec "apns_sessions" "APNs sessions" num None
    (Some (fun t => match member_of t "apns_sessions" with
                    | Some (Some q) => if Qeq_bool q 0 then "none open" else
                        "oldest " +:+ match as_number (member_of t "apns_session_age_s") with
                                      | Some s => plain (inject_Z (math_round (s / 60)%Q)) | None => "NaN" end +:+ "m"
                    | _ => "none open" end));
  TileSpec "apns_connects" "Reconnects" num None
    (Some (fun t => js_text (member_of t "apns_throttled") +:+ " throttled · " +:+ js_text (member_of t "apns_discarded") +:+ " discarded"));
  TileSpec "bad_secret" "Bad secret" num (warn_if_any "bad_secret") (says "in range");
  TileSpec "unknown_token" "Unknown token" num (warn_if_any "unknown_token") (says "in range")
]%string.

(** A drawn tile: its class, label, value and note. *)
Record tile := Tile { tclass : string; ttitle : string; tvalue : string; tsmall : option string }.

Definition fillTiles (specs : list tile_spec) (t : tiles) : list tile :=
  List.map (fun s => Tile ("tile" +:+ match tstatus s with Some f => " status-" +:+ f t | None => "" end) (tlabel s)
                       (tfmt s (member_of t (tk s))) ((fun f => f t) <$> tnote s)) specs.

(** ** The health panel *)

(** The dot's color, the message, and the alerts, the critical ones marked. *)
Definition renderHealth (alerts : list alert) : string * string * list (bool * finding) :=
  ((if existsb (fun a => bool_decide (aseverity a = critical)) alerts then "var(--critical)"
    else if negb (length alerts =? 0)%nat then "var(--warn)" else "var(--good)")%string,
   (if negb (length alerts =? 0)%nat
    then plain (inject_Z (Z.of_nat (length alerts))) +:+ " active alert" +:+ (if (1 <? length alerts)%nat then "s" else "") else "All clear")%string,
   List.map (fun a => (bool_decide (aseverity a = critical), afinding a)) alerts).

(** ** Charts *)

Record chart_spec := ChartSpec {
  ck : string; ctitle : string; ccolor : string; clabel : option string; cfmt : Q -> string; pctAxis : bool;
  cextras : list (string * string * string)   (* key, color, label *) }.

Definition number (q : Q) : string := locale q.
Definition one_line (k title color : string) : chart_spec := ChartSpec k title color None number false [].

Definition CHARTS : list chart_spec := [
  one_line "sockets_live" "Live sockets" "--blue";
  one_line "rooms_live" "Live rooms" "--aqua";
  one_line "rooms_both" "Paired rooms (mac+phone)" "--violet";
  one_line "rooms_mac_only" "Parked macs (no phone)" "--magenta";
  one_line "request_rate" "HTTP requests /min" "--yellow";
  one_line "upgrade_rate" "WS upgrades /min" "--violet";
  one_line "error_rate" "HTTP errors /min" "--red";
  one_line "rejected_rate" "Rejected upgrades /min" "--orange";
  one_line "quota_rate" "Quota closes /min" "--orange";
  ChartSpec "short_lived_frac" "Short-lived fraction (<1s)" "--magenta" None (fun v => fixed 0 (v * 100)%Q +:+ "%") true []
]%string.

Definition ms_text (q : Q) : string := fmtMs (Some (Some q)).

Definition PUSH_CHARTS : list chart_spec := [
  ChartSpec "push_delivered_rate" "Push success vs failure /min" "--aqua" (Some "delivered") number false [("push_failed_rate", "--red", "failed")];
  ChartSpec "apns_latency_p50" "APNs latency" "--blue" (Some "p50") ms_text false [("apns_latency_p95", "--orange", "p95")];
  one_line "apns_timeouts_rate" "APNs timeouts /min" "--red";
  one_line "apns_connects_rate" "APNs reconnects /min" "--violet";
  one_line "apns_sessions" "Open APNs sessions" "--blue";
  one_line "devices" "Registered devices" "--blue";
  one_line "push_bad_secret_rate" "Bad-secret pushes /min" "--orange";
  one_line "register_written_rate" "Register writes /min" "--yellow";
  one_line "register_skipped_rate" "Register skips /min" "--violet"
]%string.
End Text.

(** *** Coordinates *)

Definition W : Q := 1000.
Definition H : Q := 220.
Definition PADX : Q := 8.
Definition PADT : Q := 12.
Definition PADB : Q := 20.

Section Chart.
Context (t0 t1 : Z).

Definition x_of (t : Q) : Q := (PADX + (t - inject_Z t0) / inject_Z (Z.max 1 (t1 - t0)) * (W - 2 * PADX))%Q.
Definition y_of (vmax v : Q) : Q := (PADT + (1 - v / vmax) * (H - PADT - PADB))%Q.

Definition values (ch : chart) : list Q := omap pv ch.

(** The largest of the drawn values and zero, with some room above; a fixed 1 on an
    axis of fractions. *)
Definition vmax_of (pctAxis : bool) (lines : list chart) : Q :=
  if pctAxis then 1%Q
  else let m := fold_left qmax (concat (List.map values lines)) 0%Q in if Qle_bool m 0 then 1%Q else (m * (115 # 100))%Q.

Inductive cmd := M (x y : Q) | L (x y : Q) | Zc.

(** The pen along a line: what is drawn, whether it is down, the first and the last
    abscissa. *)
Record pen := Pen { drawn : list cmd; down : bool; firstX : option Q; lastX : option Q }.

Definition draw_point (vmax : Q) (s : pen) (p : point) : pen :=
  match pv p with
  | None => Pen (drawn s) false (firstX s) (lastX s)
  | Some v =>
      let px := x_of (inject_Z (pt p)) in
      let py := y_of vmax v in
      if down s then Pen (drawn s ++ [L px py]) true (firstX s) (Some px)
      else Pen (drawn s ++ [M px py]) true (match firstX s with Some _ => firstX s | None => Some px end) (Some px)
  end.

Definition draw (vmax : Q) (ch : chart) : pen := fold_left (draw_point vmax) ch (Pen [] false None None).

(** The area under the first line. *)
Definition fill (vmax : Q) (ch : chart) : list cmd :=
  let s := draw vmax ch in
  drawn s ++ match lastX s with
             | Some lx =>
                 let fx := match firstX s with Some fx => if Qeq_bool fx 0 then PADX else fx | None => PADX end in
                 [L lx (y_of vmax 0); L fx (y_of vmax 0); Zc]
             | None => []
             end.

Definition last_of (ch : chart) : option Q := last (values ch).

(** What [renderChart] builds: the current values, and either nothing to show or the
    grid's ordinates, the area and the lines. *)
Record drawing := Drawing { grid : list Q; area : list cmd; paths : list (list cmd) }.
Record chart_view := ChartView { vtitle : string; vcur : list (option string * option Q); vdrawing : option drawing }.

Definition renderChart (spec : chart_spec) (points : chart) (extras : list (string * chart)) : chart_view :=
  let lines := points :: List.map snd extras in
  let labels := clabel spec :: List.map (fun e => Some e.1) extras in
  let vmax := vmax_of (pctAxis spec) lines in
  ChartView (ctitle spec) (zip_with (fun l ch => (l, last_of ch)) labels lines)
    (match concat (List.map values lines) with
     | [] => None
     | _ => Some (Drawing (List.map (fun f => y_of vmax (vmax * f)%Q) [0; 1 # 2; 1]%Q) (fill vmax points) (List.map (fun ch => drawn (draw vmax ch)) lines))
     end).

(** The slot under the pointer at [relX] of the width: the nearest one with data on
    some line, the earlier of two. *)
Definition has_data (lines : list chart) (i : nat) : bool :=
  existsb (fun ch : chart => match ch !! i with Some p => bool_decide (is_Some (pv p)) | None => false end) lines.

Definition distance (relX : Q) (p : point) : Q := Qabs.Qabs (inject_Z (pt p) - (inject_Z t0 + relX * inject_Z (t1 - t0))).

Definition nearer (lines : list chart) (relX : Q) (best : option (nat * point)) (ip : nat * point) : option (nat * point) :=
  if negb (has_data lines ip.1) then best else
  match best with
  | None => Some ip
  | Some b => if qlt (distance relX ip.2) (distance relX b.2) then Some ip else best
  end.

Definition hover (points : chart) (extras : list chart) (relX : Q) : option (nat * point) :=
  fold_left (nearer (points :: extras) relX) (zip (seq 0 (length points)) points) None.
End Chart.

(** ** The page *)

(** [data.series[key] || []] *)
Fixpoint series_of (s : list (string * chart)) (k : string) : chart :=
  match s with [] => [] | (k', ch) :: s' => if String.eqb k' k then ch else series_of s' k end.

Definition chart_of (t0 t1 : Z) (s : list (string * chart)) (spec : chart_spec) : chart_view :=
  renderChart t0 t1 spec (series_of s (ck spec)) (List.map (fun e => (e.2, series_of s e.1.1)) (cextras spec)).

(** What a load shows: the title, whether each half is there, how old the data is,
    and whether that is shown as alarming. *)
Record page := Page {
  g_title : string; g_health : option (string * string * list (bool * finding)); g_tiles : list tile; g_charts : list chart_view;
  g_push : option (list tile * list chart_view * string); g_freshness : string; g_stale : bool }.

Section Load.
Context (locale : Q -> string) (fixed : Z -> Q -> string) (plain : Q -> string).

(** ["updated ..."] or nothing yet. *)
Definition freshness (t : tiles) : string :=
  let v := member_of t "last_sample_ts" in
  match v with
  | Some (Some q) => if Qeq_bool q 0 then "no samples yet" else "updated " +:+ dur plain (member_of t "stale_ms")
  | _ => "no samples yet"
  end.

Definition is_stale (t : tiles) : bool := negb (nullish (member_of t "stale_ms")) && gt (member_of t "stale_ms") 180000.

Definition load (t0 t1 : Z) (p : payload) : page :=
  let relay := pl_tiles p in
  let charts l s := List.map (chart_of t0 t1 s) l in
  let ft := match relay, pl_push p with Some t, _ => t | None, Some q => p_tiles q | None, None => [] end in
  {| g_title := match relay with Some _ => "iTerm2 Relay" | None => "iTerm2 Push Relay" end;
     g_health := match relay with Some _ => Some (renderHealth plain (pl_alerts p)) | None => None end;
     g_tiles := match relay with Some t => fillTiles (TILES locale plain) t | None => [] end;
     g_charts := match pl_series p with Some s => charts (CHARTS locale fixed) s | None => [] end;
     g_push := (fun q => (fillTiles (PUSH_TILES locale fixed plain (p_reasons q)) (p_tiles q),
                          charts (PUSH_CHARTS locale fixed plain) (p_series q), "· " +:+ freshness (p_tiles q))) <$> pl_push p;
     g_freshness := freshness ft; g_stale := is_stale ft |}.
End Load.

(** ** The shape of a line *)

(** The runs of neighbouring slots with a value. *)
Fixpoint runs (ch : chart) : list (list (Z * Q)) :=
  match ch with
  | [] => [[]]
  | p :: rest =>
      match pv p with
      | None => [] :: runs rest
      | Some v => match runs rest with r :: rs => ((pt p, v) :: r) :: rs | [] => [[(pt p, v)]] end
      end
  end.

Section Shape.
Context (t0 t1 : Z) (vmax : Q).

Definition at_ (tv : Z * Q) : Q * Q := (x_of t0 t1 (inject_Z tv.1), y_of vmax tv.2).
Definition joined (r : list (Z * Q)) : list cmd := List.map (fun tv => L (at_ tv).1 (at_ tv).2) r.

(** One sub-path per run: a move to its first point, lines through the others. *)
Definition sub_path (r : list (Z * Q)) : list cmd :=
  match r with [] => [] | tv :: r' => M (at_ tv).1 (at_ tv).2 :: joined r' end.

Lemma runs_nonempty ch : exists r rs, runs ch = r :: rs.
Proof. destruct ch as [|p ch]; simpl; [by eexists _, _|]. destruct (pv p); [destruct (runs ch)|]; by eexists _, _. Qed.

Lemma draw_runs ch : forall s,
  drawn (fold_left (draw_point t0 t1 vmax) ch s)
  = drawn s ++ match runs ch with
               | r :: rs => (if down s then joined r else sub_path r) ++ List.flat_map sub_path rs
               | [] => [] end.
Proof.
  induction ch as [|p ch IH]; intros s.
  - simpl. destruct (down s); by rewrite app_nil_r.
  - cbn [fold_left runs]. rewrite IH. unfold draw_point. destruct (runs_nonempty ch) as (r & rs & Er). rewrite Er.
    destruct (pv p) as [v|].
    + destruct (down s); cbn [drawn down]; rewrite <-app_assoc; reflexivity.
    + cbn [drawn down]. by destruct (down s).
Qed.

Lemma draw_shape ch : drawn (draw t0 t1 vmax ch) = List.flat_map sub_path (runs ch).
Proof. unfold draw. rewrite draw_runs. destruct (runs_nonempty ch) as (r & rs & ->). done. Qed.

(** ** Where it is drawn *)

Definition on_plot (c : cmd) : Prop :=
  match c with
  | M x y | L x y => (PADX <= x <= W - PADX)%Q /\ (PADT <= y <= H - PADB)%Q
  | Zc => True
  end.

Definition fits (p : point) : Prop := t0 <= pt p <= t1 /\ forall v, pv p = Some v -> (0 <= v <= vmax)%Q.

Lemma unit_div a b : (0 < b)%Q -> (0 <= a <= b)%Q -> (0 <= a / b <= 1)%Q.
Proof. intros Hb [Ha Hab]. split; [by apply Qle_shift_div_l; [|lra]|apply Qle_shift_div_r; [done|lra]]. Qed.

Lemma x_in t : t0 <= t <= t1 -> (PADX <= x_of t0 t1 (inject_Z t) <= W - PADX)%Q.
Proof.
  intros Ht. unfold x_of, PADX, W.
  assert (Hu : (0 <= (inject_Z t - inject_Z t0) / inject_Z (Z.max 1 (t1 - t0)) <= 1)%Q).
  { assert (E : (inject_Z t - inject_Z t0 == inject_Z (t - t0))%Q) by (unfold Z.sub; by rewrite inject_Z_plus, inject_Z_opp).
    rewrite E. apply unit_div; [change 0%Q with (inject_Z 0); rewrite <-Zlt_Qlt; lia|].
    change 0%Q with (inject_Z 0). rewrite <-!Zle_Qle. lia. }
  lra.
Qed.

Lemma y_in v : (0 < vmax)%Q -> (0 <= v <= vmax)%Q -> (PADT <= y_of vmax v <= H - PADB)%Q.
Proof. intros Hv Hin. unfold y_of, PADT, H, PADB. pose proof (unit_div v vmax Hv Hin). lra. Qed.

Lemma y_order v v' : (0 < vmax)%Q -> (v < v')%Q -> (y_of vmax v' < y_of vmax v)%Q.
Proof.
  intros Hv Hlt. unfold y_of, PADT, H, PADB. assert (Hd : (v / vmax < v' / vmax)%Q); [|lra].
  unfold Qdiv. apply Qmult_lt_compat_r; [by apply Qinv_lt_0_compat|done].
Qed.

Lemma draw_on_plot ch : (0 < vmax)%Q -> Forall fits ch -> forall s,
  Forall on_plot (drawn s) -> Forall on_plot (drawn (fold_left (draw_point t0 t1 vmax) ch s)).
Proof.
  intros Hv. induction 1 as [|p ch [Ht Hp] Hch IH]; intros s Hs; [done|]. simpl. apply IH. unfold draw_point.
  destruct (pv p) as [v|] eqn:E; [|done]. specialize (Hp v eq_refl).
  destruct (down s); simpl; apply Forall_app; (split; [done|]); (constructor; [|done]); (split; [by apply x_in|by apply y_in]).
Qed.
End Shape.

(** *** The scale *)

Lemma qmax_ge x y : (x <= qmax x y)%Q /\ (y <= qmax x y)%Q.
Proof.
  unfold qmax. destruct (Qle_bool x y) eqn:E; [apply Qle_bool_iff in E; split; [done|lra]|].
  split; [lra|]. apply Qlt_le_weak, Qnot_le_lt. intros Hle%Qle_bool_iff. congruence.
Qed.

Lemma fold_qmax l : forall a, (a <= fold_left qmax l a)%Q /\ forall v, In v l -> (v <= fold_left qmax l a)%Q.
Proof.
  induction l as [|x l IH]; intros a; simpl; [split; [lra|done]|]. destruct (IH (qmax a x)) as [H1 H2], (qmax_ge a x) as [Ha Hx].
  split; [by eapply Qle_trans|]. intros v [->|Hv]; [by eapply Qle_trans|by apply H2].
Qed.

Lemma vmax_bounds lines : (0 < vmax_of false lines)%Q /\ forall ch v, In ch lines -> In v (values ch) -> (v <= vmax_of false lines)%Q.
Proof.
  unfold vmax_of. destruct (fold_qmax (concat (List.map values lines)) 0%Q) as [H0 Hv].
  set (m := fold_left qmax _ _) in *.
  assert (Hall : forall ch v, In ch lines -> In v (values ch) -> (v <= m)%Q).
  { intros ch v Hch Hin. apply Hv. apply in_concat. exists (values ch). split; [by apply in_map|done]. }
  destruct (Qle_bool m 0) eqn:E.
  - apply Qle_bool_iff in E. split; [done|]. intros ch v Hc Hin. specialize (Hall ch v Hc Hin). lra.
  - assert (Hm : (0 < m)%Q) by (apply Qnot_le_lt; intros Hle%Qle_bool_iff; congruence).
    split; [lra|]. intros ch v Hc Hin. specialize (Hall ch v Hc Hin). lra.
Qed.

(** *** The points of the payload *)

Definition sane (fromMs toMs : Z) (p : point) : Prop := fromMs <= pt p <= toMs /\ forall v, pv p = Some v -> (0 <= v)%Q.

Lemma toFixed_nonneg d x : 0 <= d -> (0 <= x)%Q -> (0 <= toFixed d x)%Q.
Proof.
  intros Hd Hx. unfold toFixed. destruct (Qle_bool 0 x) eqn:E; [|apply Qle_bool_iff in Hx; congruence].
  unfold Qle. cbn [Qnum Qden]. rewrite Z.mul_0_l, Z.mul_1_r.
  assert (Hk : (0 <= inject_Z (10 ^ d))%Q) by (change 0%Q with (inject_Z 0); rewrite <-Zle_Qle; lia).
  assert (Hy : (0 <= x * inject_Z (10 ^ d) + (1 # 2))%Q) by nra. apply (Qfloor_resp_le 0 _ Hy).
Qed.

Lemma step_nonneg p c f : (0 <= step p c f)%Q.
Proof. unfold step. destruct (qlt _ 0) eqn:E; [done|]. apply Qnot_lt_le. intros Hl%qlt_spec. congruence. Qed.

Lemma qsum_nonneg l : (forall x, x ∈ l -> (0 <= x)%Q) -> (0 <= qsum l)%Q.
Proof.
  induction l as [|x l IH]; intros Hl; [done|]. change (0 <= x + qsum l)%Q.
  assert (0 <= x)%Q by (apply Hl; left). assert (0 <= qsum l)%Q by (apply IH; intros; apply Hl; by right). lra.
Qed.

Lemma Qdiv_nonneg a b : (0 <= a)%Q -> (0 <= b)%Q -> (0 <= a / b)%Q.
Proof. intros Ha Hb. unfold Qdiv. apply Qmult_le_0_compat; [done|by apply Qinv_le_0_compat]. Qed.

Lemma center_in fromMs toMs n t : fromMs < toMs -> (0 < n)%nat -> t ∈ centers fromMs toMs n -> fromMs <= t <= toMs.
Proof.
  intros Hlt Hn Hin. apply list_elem_of_In, in_map_iff in Hin as (i & <- & Hi%in_seq).
  assert (Hw : (width fromMs toMs n * inject_Z (Z.of_nat n) == inject_Z (toMs - fromMs))%Q).
  { unfold width, span. rewrite Z.max_r by lia. field. change 0%Q with (inject_Z 0). rewrite inject_Z_injective. lia. }
  assert (Hwp : (0 <= width fromMs toMs n)%Q).
  { apply Qdiv_nonneg; change 0%Q with (inject_Z 0); rewrite <-Zle_Qle; unfold span; lia. }
  assert (Hi' : (inject_Z (Z.of_nat i) + 1 <= inject_Z (Z.of_nat n))%Q).
  { change 1%Q with (inject_Z 1). rewrite <-inject_Z_plus, <-Zle_Qle. lia. }
  assert (Hi0 : (0 <= inject_Z (Z.of_nat i))%Q) by (change 0%Q with (inject_Z 0); rewrite <-Zle_Qle; lia).
  apply math_round_between; [nra|].
  assert (E : (inject_Z toMs == inject_Z fromMs + inject_Z (toMs - fromMs))%Q).
  { rewrite <-inject_Z_plus. f_equiv. lia. }
  rewrite E, <-Hw. nra.
Qed.

(** A chart zipped from the centers of the slots. *)
Lemma zip_sane {A} fromMs toMs n (f : Z -> A -> point) (acc : list A) :
  fromMs < toMs -> (0 < n)%nat -> (forall t a, pt (f t a) = t) ->
  (forall i a t v, acc !! i = Some a -> pv (f t a) = Some v -> (0 <= v)%Q) ->
  Forall (sane fromMs toMs) (zip_with f (centers fromMs toMs n) acc).
Proof.
  intros Hlt Hn Ht Hv. apply Forall_lookup. intros i p Hp. apply lookup_zip_with_Some in Hp as (t & a & -> & Et & Ea).
  split; [rewrite Ht; apply (center_in fromMs toMs n); [done|done|by apply list_elem_of_lookup_2 in Et]|].
  intros v. by apply (Hv i a t).
Qed.

Lemma rate_sane rows fromMs toMs n fields f :
  fromMs < toMs -> (0 < n)%nat -> NoDup fields -> f ∈ fields ->
  Forall (sane fromMs toMs) (rate_chart (centers fromMs toMs n) (rate_slots fromMs toMs n fields rows) f).
Proof.
  intros Hlt Hn Hd Hf. apply zip_sane; [done|done|done|]. intros i a t v Ea. cbn [pv].
  assert (Hi : (i < n)%nat) by (rewrite <-(rate_slots_length rows fromMs toMs n fields); by apply lookup_lt_Some in Ea).
  destruct (rate_slot rows fromMs toMs n fields f i Hd Hf Hi) as (a' & Ea' & Et & Es). rewrite Ea in Ea'. injection Ea' as <-.
  destruct (Z.ltb_spec 0 (elapsedMs a)) as [Hp|]; [|done]. intros [= <-]. apply toFixed_nonneg; [done|].
  assert (Hc : (0 <= col (rsum a) f)%Q).
  { rewrite Es. apply qsum_nonneg. intros x (p & <- & _)%list_elem_of_In%in_map_iff. rewrite <-step_growth. apply step_nonneg. }
  assert (He : (0 <= inject_Z (elapsedMs a))%Q) by (change 0%Q with (inject_Z 0); rewrite <-Zle_Qle; lia).
  pose proof (Qdiv_nonneg _ _ Hc He). nra.
Qed.

Lemma gauge_sane rows fromMs toMs n gauges f :
  fromMs < toMs -> (0 < n)%nat -> NoDup gauges -> f ∈ gauges -> (forall r : sample, r ∈ rows -> (0 <= col r.2 f)%Q) ->
  Forall (sane fromMs toMs) (gauge_chart (centers fromMs toMs n) (gauge_slots fromMs toMs n gauges rows) f).
Proof.
  intros Hlt Hn Hd Hf Hrows. apply zip_sane; [done|done|done|]. intros i a t v Ea. cbn [pv].
  assert (Hi : (i < n)%nat) by (rewrite <-(gauge_slots_length rows fromMs toMs n gauges); by apply lookup_lt_Some in Ea).
  destruct (gauge_slot rows fromMs toMs n gauges f i Hd Hf Hi) as (a' & Ea' & Et & Es). rewrite Ea in Ea'. injection Ea' as <-.
  destruct (Z.eqb_spec (gn a) 0); [done|]. intros [= <-]. apply toFixed_nonneg; [done|].
  apply Qdiv_nonneg.
  - rewrite Es. apply qsum_nonneg. intros x (r & <- & Hr)%list_elem_of_In%in_map_iff. apply Hrows.
    apply list_elem_of_In. unfold samples_in in Hr. by apply filter_In in Hr as [? _].
  - change 0%Q with (inject_Z 0). rewrite <-Zle_Qle, Et. lia.
Qed.

(** *** The pointer *)

Lemma hover_best t0 t1 lines relX l best :
  let r := fold_left (nearer t0 t1 lines relX) l best in
  (forall b, r = Some b -> (In b l /\ has_data lines b.1 = true) \/ best = Some b)
  /\ (forall ip, In ip l -> has_data lines ip.1 = true -> exists b, r = Some b /\ (distance t0 t1 relX b.2 <= distance t0 t1 relX ip.2)%Q)
  /\ (forall b0, best = Some b0 -> exists b, r = Some b /\ (distance t0 t1 relX b.2 <= distance t0 t1 relX b0.2)%Q).
Proof.
  revert best. induction l as [|ip l IH]; intros best; simpl.
  - split_and!; [by right|done|]. intros b0 ->. exists b0. split; [done|lra].
  - destruct (IH (nearer t0 t1 lines relX best ip)) as (I1 & I2 & I3). clear IH.
    assert (Hcase : nearer t0 t1 lines relX best ip = best \/ (nearer t0 t1 lines relX best ip = Some ip /\ has_data lines ip.1 = true)).
    { unfold nearer. destruct (has_data lines ip.1); [|by left]. simpl. destruct best; [|by right]. destruct (qlt _ _); [by right|by left]. }
    split_and!.
    + intros b E. destruct (I1 b E) as [[Hin Hh]|Eb]; [left; auto|]. destruct Hcase as [Ec|[Ec Hh]]; rewrite Ec in Eb; [by right|].
      left. injection Eb as <-. auto.
    + intros jq [<-|Hin] Hh; [|by apply I2]. unfold nearer in *. rewrite Hh in *. simpl in *. destruct best as [b0|]; [|by apply I3].
      destruct (qlt _ _) eqn:E; [by apply I3|]. destruct (I3 b0 eq_refl) as (b & Eb & Hle). exists b. split; [done|].
      apply Qle_trans with (distance t0 t1 relX b0.2); [done|]. apply Qnot_lt_le. intros Hl%qlt_spec. congruence.
    + intros b0 ->. unfold nearer in *. destruct (has_data lines ip.1); simpl in *; [|by apply I3].
      destruct (qlt _ _) eqn:E; [|by apply I3]. destruct (I3 ip eq_refl) as (b & Eb & Hle). exists b. split; [done|].
      apply qlt_spec in E. lra.
Qed.

(** ** What a drawing should be *)

Section Drawn.
Context (t0 t1 : Z).

(** In a frame of 1000 by 220, with a margin of 8 on the sides, 12 above and 20
    below: the window's time from left to right, 0 to [vmax] from bottom to top. *)
Definition plots (vmax : Q) (tv : Z * Q) (x y : Q) : Prop :=
  ((x - 8) * inject_Z (t1 - t0) == 984 * inject_Z (tv.1 - t0))%Q /\ ((y - 12) * vmax == 188 * (vmax - tv.2))%Q.

Definition in_frame (c : cmd) : Prop :=
  match c with M x y | L x y => (8 <= x <= 992)%Q /\ (12 <= y <= 200)%Q | Zc => True end.

(** A run of points is moved to and followed. *)
Definition traces (vmax : Q) (run : list (Z * Q)) (cs : list cmd) : Prop :=
  match run with
  | [] => cs = []
  | tv :: rest => exists x y cs', cs = M x y :: cs' /\ plots vmax tv x y
                    /\ Forall2 (fun tv c => exists x y, c = L x y /\ plots vmax tv x y) rest cs'
  end.

(** A line is its runs, one after the other. *)
Definition traced (vmax : Q) (ch : chart) (path : list cmd) : Prop :=
  exists subs, path = concat subs /\ Forall2 (traces vmax) (runs ch) subs.

(** The top of the scale: one for shares and for nothing positive, else 15% above the
    largest value of all lines. *)
Definition scaled (pct : bool) (lines : list chart) (vmax : Q) : Prop :=
  if pct then vmax = 1%Q else
  let vs := concat (List.map values lines) in
  (Forall (fun v => v <= 0)%Q vs /\ vmax = 1%Q)
  \/ exists m, m ∈ vs /\ (0 < m)%Q /\ Forall (fun v => v <= m)%Q vs /\ (vmax == m * (115 # 100))%Q.

Definition drawn_well (pct : bool) (lines : list chart) (v : chart_view) : Prop :=
  List.map snd (vcur v) = List.map (fun ch => last (values ch)) lines
  /\ match vdrawing v with
     | None => Forall (fun ch => values ch = []) lines
     | Some d => exists vmax, (0 < vmax)%Q /\ scaled pct lines vmax /\ Forall2 (traced vmax) lines (paths d)
                   /\ Forall2 Qeq (grid d) [200; 106; 12]%Q /\ (pct = false -> Forall (Forall in_frame) (paths d))
     end.

(** A slot with data on some line. *)
Definition slot_has_data (lines : list chart) (i : nat) : Prop :=
  exists ch p, ch ∈ lines /\ ch !! i = Some p /\ is_Some (pv p).

(** How far a slot is from the pointer, [relX] of the way across the frame. *)
Definition away (relX : Q) (p : point) : Q :=
  Qabs.Qabs (inject_Z (pt p) - inject_Z t0 - relX * inject_Z (t1 - t0)).

Definition shows_nearest (points : chart) (extras : list chart) (relX : Q) : Prop :=
  match hover t0 t1 points extras relX with
  | None => forall i, (i < length points)%nat -> ~ slot_has_data (points :: extras) i
  | Some (i, p) => points !! i = Some p /\ slot_has_data (points :: extras) i
      /\ forall j q, points !! j = Some q -> slot_has_data (points :: extras) j -> (away relX p <= away relX q)%Q
  end.

(** *** The code's drawing is one *)

Lemma plots_at vmax tv : t0 < t1 -> (0 < vmax)%Q -> plots vmax tv (at_ t0 t1 vmax tv).1 (at_ t0 t1 vmax tv).2.
Proof.
  intros Ht Hv. unfold plots, at_, x_of, y_of, PADX, PADT, PADB, W, H. cbn [fst snd]. rewrite Z.max_r by lia.
  assert (E : (inject_Z (tv.1 - t0) == inject_Z tv.1 - inject_Z t0)%Q) by (unfold Z.sub; by rewrite inject_Z_plus, inject_Z_opp).
  assert (Hd : (0 < inject_Z (t1 - t0))%Q) by (change 0%Q with (inject_Z 0); rewrite <-Zlt_Qlt; lia).
  rewrite E. split; field; lra.
Qed.

Lemma sub_path_traces vmax run : t0 < t1 -> (0 < vmax)%Q -> traces vmax run (sub_path t0 t1 vmax run).
Proof.
  intros Ht Hv. destruct run as [|tv rest]; [done|]. eexists _, _, _. split; [done|]. split; [by apply plots_at|].
  unfold joined. induction rest as [|tv' rest IH]; simpl; constructor; [|exact IH]. eexists _, _. split; [done|by apply plots_at].
Qed.

Lemma draw_traced vmax ch : t0 < t1 -> (0 < vmax)%Q -> traced vmax ch (drawn (draw t0 t1 vmax ch)).
Proof.
  intros Ht Hv. exists (List.map (sub_path t0 t1 vmax) (runs ch)). rewrite draw_shape, List.flat_map_concat_map. split; [done|].
  induction (runs ch) as [|r rs IH]; simpl; constructor; [by apply sub_path_traces|exact IH].
Qed.

Lemma fold_qmax_in l : forall a, fold_left qmax l a = a \/ fold_left qmax l a ∈ l.
Proof.
  induction l as [|x l IH]; intros a; simpl; [by left|]. destruct (IH (qmax a x)) as [-> |Hin]; [|right; by right].
  unfold qmax. destruct (Qle_bool a x); [right; left|by left].
Qed.

Lemma vmax_scaled pct lines : (0 < vmax_of pct lines)%Q /\ scaled pct lines (vmax_of pct lines).
Proof.
  destruct pct; [done|]. split; [apply vmax_bounds|]. unfold scaled, vmax_of.
  set (vs := concat (List.map values lines)). destruct (fold_qmax vs 0%Q) as [H0 Hv]. set (m := fold_left qmax vs 0%Q) in *.
  assert (Hall : Forall (fun v => v <= m)%Q vs) by (apply Forall_forall; intros v Hin; apply Hv; by apply list_elem_of_In).
  destruct (Qle_bool m 0) eqn:E.
  - apply Qle_bool_iff in E. left. split; [|done]. eapply Forall_impl; [exact Hall|]. intros v Hle. cbv beta in Hle. lra.
  - assert (Hm : (0 < m)%Q) by (apply Qnot_le_lt; intros Hle%Qle_bool_iff; congruence). right. exists m.
    split; [|split; [done|split; [done|reflexivity]]]. destruct (fold_qmax_in vs 0%Q) as [Em|Hin]; [fold m in Em; rewrite Em in Hm; lra|done].
Qed.

Lemma no_values (lines : list chart) : concat (List.map values lines) = [] -> Forall (fun ch => values ch = []) lines.
Proof. induction lines as [|ch lines IH]; [constructor|]. simpl. intros [Hch Hl]%app_eq_nil. constructor; auto. Qed.

Lemma values_in ch p v : In p ch -> pv p = Some v -> In v (values ch).
Proof. intros Hin E. apply list_elem_of_In, list_elem_of_omap. exists p. split; [by apply list_elem_of_In|done]. Qed.

Lemma on_plot_in_frame c : on_plot c -> in_frame c.
Proof. unfold on_plot, in_frame, PADX, PADT, PADB, W, H. destruct c; try done; intros [? ?]; lra. Qed.

Lemma renderChart_drawn spec points extras :
  t0 < t1 -> (pctAxis spec = false -> Forall (Forall (sane t0 t1)) (points :: List.map snd extras)) ->
  drawn_well (pctAxis spec) (points :: List.map snd extras) (renderChart t0 t1 spec points extras).
Proof.
  intros Ht Hs. unfold renderChart. set (lines := points :: List.map snd extras) in *. split.
  { cbn [vcur]. assert (Hz : forall (ls : list (option string)) (l : list chart), length ls = length l ->
      List.map snd (zip_with (fun lb ch => (lb, last_of ch)) ls l) = List.map (fun ch => last (values ch)) l).
    { induction ls as [|lb ls IH]; intros [|ch l]; try done. intros [= Hl]. cbn. f_equal. by apply IH. }
    apply Hz. subst lines. simpl. by rewrite !List.length_map. }
  cbn [vdrawing]. destruct (concat (List.map values lines)) eqn:Ev; [by apply no_values|].
  destruct (vmax_scaled (pctAxis spec) lines) as [Hpos Hsc]. exists (vmax_of (pctAxis spec) lines).
  split; [done|]. split; [done|]. cbn [paths grid]. split; [|split].
  - clear -Ht Hpos. generalize dependent (vmax_of (pctAxis spec) lines). intros vmax Hpos.
    induction lines as [|ch l IH]; simpl; constructor; [by apply draw_traced|exact IH].
  - cbn [List.map]. unfold y_of, PADT, PADB, H. repeat (constructor; [field; lra|]). constructor.
  - intros Hp. specialize (Hs Hp). rewrite Hp in *. destruct (vmax_bounds lines) as [_ Hmax].
    apply Forall_forall. intros path (ch & <- & Hch)%list_elem_of_In%in_map_iff. rewrite Forall_forall in Hs.
    specialize (Hs ch ltac:(by apply list_elem_of_In)). eapply Forall_impl; [|intros c; apply on_plot_in_frame].
    apply draw_on_plot; [done| |done]. apply Forall_forall. intros p Hin. rewrite Forall_forall in Hs.
    destruct (Hs p Hin) as [Htp Hv]. split; [done|]. intros v E. split; [by apply Hv|]. apply (Hmax ch); [done|].
    eapply values_in; [by apply list_elem_of_In|done].
Qed.

(** *** The pointer *)

Lemma has_data_spec lines i : has_data lines i = true <-> slot_has_data lines i.
Proof.
  unfold has_data, slot_has_data. rewrite existsb_exists. split.
  - intros (ch & Hin & E). destruct (ch !! i) as [p|] eqn:Ep; [|done]. apply bool_decide_eq_true in E.
    exists ch, p. split_and!; [by apply list_elem_of_In|done|done].
  - intros (ch & p & Hin & Ep & Hp). exists ch. split; [by apply list_elem_of_In|]. rewrite Ep. by apply bool_decide_eq_true.
Qed.

Lemma distance_away relX p : (distance t0 t1 relX p == away relX p)%Q.
Proof. unfold distance, away. apply Qabs.Qabs_wd. ring. Qed.

Lemma in_slots (ch : chart) i p : In (i, p) (zip (seq 0 (length ch)) ch) <-> ch !! i = Some p.
Proof.
  rewrite <-list_elem_of_In, list_elem_of_lookup. split.
  - intros (j & Hj). apply lookup_zip_with_Some in Hj as (k & q & [= -> ->] & Ek & Eq). apply lookup_seq in Ek as [-> _]. exact Eq.
  - intros E. exists i. apply lookup_zip_with_Some. exists i, p. split; [done|]. split; [|done].
    apply lookup_seq. split; [done|]. by apply lookup_lt_Some in E.
Qed.

Lemma hover_shows_nearest points extras relX : shows_nearest points extras relX.
Proof.
  unfold shows_nearest, hover.
  destruct (hover_best t0 t1 (points :: extras) relX (zip (seq 0 (length points)) points) None) as (H1 & H2 & _).
  destruct (fold_left _ _ None) as [[i p]|].
  - destruct (H1 _ eq_refl) as [[Hin Hd]|]; [|done]. apply in_slots in Hin. apply has_data_spec in Hd.
    split_and!; [done|done|]. intros j q Eq Hq.
    destruct (H2 (j, q)) as (b & [= <-] & Hle); [by apply in_slots|by apply has_data_spec|].
    by rewrite !distance_away in Hle.
  - intros i Hi Hd. destruct (lookup_lt_is_Some_2 points i Hi) as [p Ep].
    destruct (H2 (i, p)) as (b & ? & _); [by apply in_slots|by apply has_data_spec|done].
Qed.
End Drawn.

(** ** Property *)

(** A tile shows the member of the payload it is for. *)
Definition shows_member (ts : tiles) (s : tile_spec) (t : tile) : Prop :=
  exists v, (tk s, v) ∈ ts /\ ttitle t = tlabel s /\ tvalue t = tfmt s (Some v).

(** A chart draws the series its lines are for, and its pointer reads them. *)
Definition draws_chart (t0 t1 : Z) (series : list (string * chart)) (s : chart_spec) (v : chart_view) : Prop :=
  vtitle v = ctitle s /\ List.map fst (vcur v) = clabel s :: List.map (fun e => Some e.2) (cextras s)
  /\ exists points extras, (ck s, points) ∈ series /\ Forall2 (fun e ch => (e.1.1, ch) ∈ series) (cextras s) extras
       /\ drawn_well t0 t1 (pctAxis s) (points :: extras) v
       /\ forall relX, shows_nearest t0 t1 points extras relX.

(** A text made of these members and no others. *)
Definition reads_only (ks : list string) {A} (f : tiles -> A) : Prop :=
  forall t t' : tiles, (forall k, k ∈ ks -> member_of t k = member_of t' k) -> f t = f t'.

(** The notes and the colors of the tiles. *)
Definition noted (ks : list string) (s : tile_spec) : Prop :=
  forall f, tnote s = Some f \/ tstatus s = Some f -> reads_only ks f.

(** Such a note or color, the names of the payload being spelled out. *)
Ltac noted_goes :=
  let f := fresh "f" in let t := fresh "t" in let t' := fresh "t'" in let Ht := fresh "Ht" in
  intros f [Hf|Hf]; cbn [tnote tstatus] in Hf; first [discriminate Hf|idtac]; injection Hf as <-; intros t t' Ht; cbv beta zeta;
  repeat match goal with |- context [member_of t ?k] => rewrite (Ht k) by member end; reflexivity.

Lemma freshness_reads plain ks : "last_sample_ts"%string ∈ ks -> "stale_ms"%string ∈ ks -> reads_only ks (freshness plain).
Proof. intros H1 H2 t t' Ht. unfold freshness. by rewrite !Ht by done. Qed.

Lemma stale_reads ks : "stale_ms"%string ∈ ks -> reads_only ks is_stale.
Proof. intros H1 t t' Ht. unfold is_stale. by rewrite !Ht by done. Qed.

Lemma series_of_in (series : list (string * chart)) k : k ∈ series.*1 -> (k, series_of series k) ∈ series.
Proof.
  induction series as [|[k' ch] series IH]; simpl; [by intros ?%elem_of_nil|].
  destruct (String.eqb_spec k' k) as [->|Hne]; [left|]. intros [->|Hin]%elem_of_cons; [done|]. right. by apply IH.
Qed.

(** Charts whose lines are all there are drawn. *)
Lemma charts_drawn t0 t1 (series : list (string * chart)) (specs : list chart_spec) : t0 < t1 ->
  Forall (fun kc => kc.1 <> "short_lived_frac"%string -> Forall (sane t0 t1) kc.2) series ->
  Forall (fun s => Forall (fun k => k ∈ series.*1) (ck s :: List.map (fun e => e.1.1) (cextras s))
                   /\ (pctAxis s = false -> Forall (fun k => k <> "short_lived_frac"%string) (ck s :: List.map (fun e => e.1.1) (cextras s)))) specs ->
  Forall2 (draws_chart t0 t1 series) specs (List.map (chart_of t0 t1 series) specs).
Proof.
  intros Ht Hs Hspecs. induction Hspecs as [|s specs [Hin Hne] _ IH]; simpl; constructor; [|exact IH]. clear IH.
  assert (Hsane : forall k, k ∈ series.*1 -> k <> "short_lived_frac"%string -> Forall (sane t0 t1) (series_of series k)).
  { intros k Hk Hk'. rewrite Forall_forall in Hs. exact (Hs _ (series_of_in series k Hk) Hk'). }
  apply Forall_cons in Hin as [Hc Hx]. split; [done|]. split.
  { unfold chart_of, renderChart. cbn [vcur zip_with List.map fst]. f_equal. clear.
    induction (cextras s) as [|e l IH]; cbn [zip_with List.map fst snd]; [done|]. by f_equal. }
  exists (series_of series (ck s)), (List.map (fun e => series_of series e.1.1) (cextras s)).
  split; [by apply series_of_in|]. split.
  { clear -Hx. induction (cextras s) as [|e l IH]; simpl in *; constructor; [|apply IH]; apply Forall_cons in Hx as [He Hl]; [by apply series_of_in|done]. }
  split; [|intros relX; apply hover_shows_nearest].
  assert (E : List.map snd (List.map (fun e : string * string * string => (e.2, series_of series e.1.1)) (cextras s))
              = List.map (fun e => series_of series e.1.1) (cextras s)) by (rewrite map_map; done).
  rewrite <-E. apply renderChart_drawn; [done|]. rewrite E. intros Hp. specialize (Hne Hp). apply Forall_cons in Hne as [Hcn Hxn].
  constructor; [by apply Hsane|]. clear -Hx Hxn Hsane. induction (cextras s) as [|e l IH]; simpl in *; constructor;
    apply Forall_cons in Hx as [He Hl]; apply Forall_cons in Hxn as [Hne Hxn]; [by apply Hsane|by apply IH].
Qed.

Lemma member_of_in (ts : tiles) k : k ∈ ts.*1 -> exists v, member_of ts k = Some v /\ (k, v) ∈ ts.
Proof.
  induction ts as [|[k' v'] ts IH]; simpl; [by intros ?%elem_of_nil|].
  destruct (String.eqb_spec k' k) as [->|Hne]; [intros _; exists v'; split; [done|left]|].
  intros [->|Hin]%elem_of_cons; [done|]. destruct (IH Hin) as (v & ? & ?). exists v. split; [done|by right].
Qed.

Lemma tiles_shown (ts : tiles) (specs : list tile_spec) :
  Forall (fun s => tk s ∈ ts.*1) specs -> Forall2 (shows_member ts) specs (fillTiles specs ts).
Proof.
  unfold fillTiles. induction 1 as [|s specs Hs _ IH]; simpl; constructor; [|exact IH].
  destruct (member_of_in ts (tk s) Hs) as (v & Ev & Hin). exists v. rewrite <-Ev. by split_and!.
Qed.

Lemma quantile_sane rows fromMs toMs n fields q : fromMs < toMs -> (0 < n)%nat -> (0 < q)%Q ->
  Forall (sane fromMs toMs) (quantile_chart (centers fromMs toMs n) (rate_slots fromMs toMs n fields rows) q).
Proof.
  intros Hlt Hn Hq. apply zip_sane; [done|done|done|]. intros i a t v _. cbn [pv]. unfold latencyQuantile.
  destruct (qlt 0 (col (rsum a) "lat_count")) eqn:Et; [|done]. apply qlt_spec in Et. intros [= <-].
  assert (Hr : (0 < q * col (rsum a) "lat_count")%Q) by nra.
  destruct (loop_range _ LAT_BOUNDS_MS (List.map (col (rsum a)) LAT_COLUMNS) 0%Q 0 Hr ltac:(simpl; lia)) as [Hlo _].
  change 0%Q with (inject_Z 0). by rewrite <-Zle_Qle.
Qed.

Lemma bucketize_sane rows fromMs toMs n series : fromMs < toMs -> (0 < n)%nat ->
  (forall r f, r ∈ rows -> f ∈ GAUGES -> (0 <= col r.2 f)%Q) -> bucketize rows fromMs toMs n = Ok series ->
  Forall (fun kc => kc.1 <> "short_lived_frac"%string -> Forall (sane fromMs toMs) kc.2) series.
Proof.
  intros Hlt Hn Hrows Es. apply needs_slots_ok in Es as ->.
  assert (HR : NoDup RATES) by (apply (bool_decide_unpack _); by vm_compute).
  assert (HG : NoDup GAUGES) by (apply (bool_decide_unpack _); by vm_compute).
  repeat (constructor; [intros Hne; cbn [snd]; first [by destruct Hne
    | apply gauge_sane; [done|done|done|unfold GAUGES; member|intros r Hr; apply Hrows; [done|unfold GAUGES; member]]
    | apply rate_sane; [done|done|done|unfold RATES; member]]|]). constructor.
Qed.

Lemma bucketizePush_sane rows fromMs toMs n series : fromMs < toMs -> (0 < n)%nat ->
  (forall r f, r ∈ rows -> f ∈ PUSH_GAUGES -> (0 <= col r.2 f)%Q) -> bucketizePush rows fromMs toMs n = Ok series ->
  Forall (fun kc => kc.1 <> "short_lived_frac"%string -> Forall (sane fromMs toMs) kc.2) series.
Proof.
  intros Hlt Hn Hrows Es. apply needs_slots_ok in Es as ->.
  assert (HR : NoDup PUSH_RATE_FIELDS) by (apply (bool_decide_unpack _); by vm_compute).
  assert (HG : NoDup PUSH_GAUGES) by (apply (bool_decide_unpack _); by vm_compute).
  repeat (constructor; [intros _; cbn [snd]; first
    [ apply quantile_sane; [done|done|done]
    | apply gauge_sane; [done|done|done|unfold PUSH_GAUGES; member|intros r Hr; apply Hrows; [done|unfold PUSH_GAUGES; member]]
    | apply rate_sane; [done|done|done|apply (bool_decide_unpack _); by vm_compute]]|]). constructor.
Qed.


(** *** A window with data on both halves *)

Definition some_caps : caps_cfg := Caps 200000 200000 (7 # 10) (9 # 10).
Definition some_errors : error_cfg := ErrorCfg (5 # 100) 100 1.
Definition some_pushes : list sample :=
  [(0, {[ "devices" := 3%Q; "push_delivered" := 1%Q ]}%string); (30000, {[ "devices" := 4%Q; "push_delivered" := 6%Q; "push_failed" := 1%Q ]}%string)].

(** The lines of a page's charts. *)
Definition lines_drawn (l : list chart_view) : list nat := List.map (fun v => match vdrawing v with Some d => length (paths d) | None => 0%nat end) l.


(** *** What the page shows wrongly *)

(** A restart between two samples can leave the count of short connections above the
    old one while the count of all is below it: the two columns are taken as
    restarted independently, and the share exceeds one. *)
Definition life_row (count short : Z) : row := {[ "life_count" := inject_Z count; "life_le1" := inject_Z short ]}%string.
Definition restarted : list sample := [(0, life_row 100 1); (30000, life_row 50 10); (60000, life_row 52 10)].

Lemma flap_share_exceeds_one :
  member_of (relay_tiles restarted None 60000) "short_lived_pct" = Some (Some (4500 # 10)%Q)
  /\ exists d p, buildDashboard restarted None 0 60000 1 60000 some_caps some_errors = Ok d
       /\ vdrawing (chart_of 0 60000 (d_series d) (ChartSpec "short_lived_frac" "" "" None (fun _ => ""%string) true [])) = Some p
       /\ List.map (List.map (fun c => match c with M _ y | L _ y => Qle_bool PADT y | Zc => true end)) (paths p) = [[false]].
Proof. split; [vm_compute; reflexivity|]. eexists _, _. split; [vm_compute; reflexivity|]. split; vm_compute; reflexivity. Qed.

(** The area under the first line closes on the first run: with a gap it reaches
    back across it. *)
Definition gapped : chart := [Point 0 (Some 1%Q); Point 10 None; Point 20 (Some 1%Q); Point 30 (Some 1%Q)].

Lemma area_crosses_the_gap :
  exists before, fill 0 30 1 gapped = before ++ [L (x_of 0 30 30) (y_of 1 0); L (x_of 0 30 0) (y_of 1 0); Zc]
    /\ runs gapped = [[(0, 1%Q)]; [(20, 1%Q); (30, 1%Q)]].
Proof. exists (drawn (draw 0 30 1 gapped)). split; reflexivity. Qed.

(** The pointer takes the frame's whole width for the window, the lines only the width
    between the margins: over the point drawn at the left edge it shows the slot two
    further on, when slots are 4 wide as with 240 of them. *)
Definition at_the_edge : chart := [Point 0 (Some 1%Q); Point 4 (Some 1%Q); Point 8 (Some 1%Q)].

Lemma pointer_ignores_the_margin :
  (x_of 0 984 0 == (8 # 1000) * W)%Q /\ hover 0 984 at_the_edge [] (8 # 1000) = Some (2%nat, Point 8 (Some 1%Q)).
Proof. split; vm_compute; reflexivity. Qed.
