(* ===== verification/Watch.v ===== *)
(** The watcher's health tick ([ops/watch/tick.mjs]): what it probes, how one probe
    ends, and the verdict.

    The answers of the network are arguments.  A truthy host of the map that is
    not a string is left out of the model. *)

From Stdlib Require Import QArith Qround Ascii.
From S2P Require Import Prelude Bytes ShardGate Json ShardMap Monitor MonitorFleet.
#[local] Open Scope Z_scope.

(** ** Targets *)

(** [ownedRoomForHost], this file's own copy: it does not check the prefix. *)
Definition owned_room (map : json) (host prefix60 : string) (randUnit : Q) : result string (option string) :=
  (let! l := filter_ranges map in
   let ranges := omap (owned_range host) l in
   let total := total_size ranges in
   if total =? 0 then Ok None else
   let idx := Z.min (total - 1) (Z.max 0 (Qfloor (randUnit * inject_Z total)%Q)) in
   Ok (pick_room prefix60 idx ranges))%res.

(** [r => r.host], kept when truthy; [null] has no properties. *)
Fixpoint range_hosts (l : list json) : result string (list string) :=
  match l with
  | [] => Ok []
  | r :: rest =>
      (let! hosts := range_hosts rest in
       match r with
       | JNull => Err "Cannot read properties of null"%string
       | _ => Ok (match jstring (jget r "host") with
                  | Some h => if String.eqb h "" then hosts else h :: hosts
                  | None => hosts
                  end)
       end)%res
  end.

(** [[...new Set(l)]]: the first of each, in order. *)
Fixpoint once_each (l seen : list string) : list string :=
  match l with
  | [] => []
  | h :: rest => if bool_decide (h ∈ seen) then once_each rest seen else h :: once_each rest (h :: seen)
  end.

(** The hosts of a map, or of the environment without one. *)
Definition host_list (map : option json) (relay_hosts : list string) : result string (list string) :=
  match map with
  | Some m => if jtruthy map then (let! l := filter_ranges m in let! hosts := range_hosts l in Ok (once_each hosts []))%res else Ok relay_hosts
  | None => Ok relay_hosts
  end.

(** ** One probe *)

Inductive socket_event : Type :=
| SOpen
| SMessage (text : string)
| SNoUpgrade (status : Z)
| SError (detail : string)
| STimeout.

(** [probeRelay]: the outcome once settled, how far the handshake is, what was sent. *)
Record probing := Probing { settled : option probe_result; stage : Z; sent_frames : list json }.

Definition new_probe : probing := Probing None 0 [].

(** [done(r)]: only the first counts. *)
Definition settle (r : probe_result) (p : probing) : probing :=
  match settled p with Some _ => p | None => Probing (Some r) (stage p) (sent_frames p) end.

Definition on_event (e : socket_event) (p : probing) : probing :=
  match e with
  | SOpen => Probing (settled p) (stage p) (sent_frames p ++ [List.hd JNull probe_sends])
  | SMessage text =>
      match JSON_parse text with
      | None => settle (Probe false "bad reply: SyntaxError") p
      | Some msg =>
          if stage p =? 0 then
            match jstring (jget msg "nonce") with
            | None => settle (Probe false "no challenge nonce") p
            | Some _ => Probing (settled p) 1 (sent_frames p ++ [JObj []])
            end
          else if jtruthy (jget msg "ok") then settle (Probe true "mac parked") p
          else settle (Probe false ("admission rejected: " +:+ result_error msg)) p
      end
  | SNoUpgrade _ => settle (Probe false "no ws upgrade") p
  | SError detail => settle (Probe false detail) p
  | STimeout => settle (Probe false "timeout") p
  end.

Definition probe_run (es : list socket_event) : probing := fold_left (fun p e => on_event e p) es new_probe.

(** ** The tick *)

Inductive watch_verdict : Type :=
| mac_offline | map_unreachable | push_unreachable | push_degraded | all_well | all_relays_unreachable | some_relays_unreachable.
#[export] Instance watch_verdict_eq_dec : EqDecision watch_verdict.
Proof. solve_decision. Defined.

(** What the tick finds: the control fetches, the map (its text parsed), the
    environment, a random prefix and number per host, the probes' outcomes. *)
Record watch_in := WatchIn {
  controls : list bool; map_fetched : result string json; relay_hosts : list string; force_fail : list string;
  draw : string -> string * Q; random_room : string -> string; probe_relay : string -> string -> probe_result;
  push_urls : list string; url_host : string -> option string; push_status : string -> result string Z }.

Record watch_out := WatchOut { verdict : watch_verdict; whosts : list (string * probe_result); wpushes : list (string * probe_result) }.

Section Tick.
Context (i : watch_in).

Definition forced (host : string) : bool := bool_decide (host ∈ force_fail i).

Definition TIMED_OUT : probe_result := Probe false "timeout after 10000ms".

(** The map a tick uses; [JSON.parse] can give one that is not truthy. *)
Definition live_map : option json := match map_fetched i with Ok m => Some m | Err _ => None end.

Definition watch_host (host : string) : result string (string * probe_result) :=
  if forced host then Ok (host, TIMED_OUT) else
  (let! room := match live_map with
                | Some m => if jtruthy (Some m) then owned_room m host (draw i host).1 (draw i host).2 else Ok (Some (random_room i host))
                | None => Ok (Some (random_room i host))
                end in
   Ok (host, match room with Some room => probe_relay i host room | None => Probe true "owns nothing (drained); skipped" end))%res.

Fixpoint watch_all {A B} (f : A -> result string B) (l : list A) : result string (list B) :=
  match l with
  | [] => Ok []
  | a :: rest => (let! b := f a in let! bs := watch_all f rest in Ok (b :: bs))%res
  end.

(** [probePush]: 405 is the healthy answer. *)
Definition probePush (url : string) : result string (string * probe_result) :=
  match url_host i url with
  | None => Err "Invalid URL"%string
  | Some host =>
      Ok (host, if forced host then TIMED_OUT else
                match push_status i url with
                | Ok status => if status =? 405 then Probe true "ok (HTTP 405)" else Probe false "unexpected HTTP status (expected 405)"
                | Err e => Probe false e
                end)
  end.

Definition failed (l : list (string * probe_result)) : list (string * probe_result) := List.filter (fun h => negb (ok h.2)) l.

(** The verdict on the push relays, once every host is fine. *)
Definition push_verdict (pushes : list (string * probe_result)) : watch_verdict :=
  match pushes with
  | push :: _ => if negb (ok push.2) then push_unreachable else if existsb (fun p => negb (ok p.2)) pushes then push_degraded else all_well
  | [] => all_well
  end.

Definition watch_verdict_of (hosts pushes : list (string * probe_result)) : watch_verdict :=
  let controlsOk := existsb (fun c => c) (controls i) in
  let mapErr := negb (is_ok (map_fetched i)) in
  if negb controlsOk then mac_offline
  else if mapErr && (length hosts =? 0)%nat then map_unreachable
  else if (length (failed hosts) =? 0)%nat then push_verdict pushes
  else if (length (failed hosts) =? length hosts)%nat then all_relays_unreachable
  else some_relays_unreachable.

(** [main]; an exception is a [tick-error]. *)
Definition watch_tick : result string watch_out :=
  (let! hostList := host_list live_map (relay_hosts i) in
   let! hosts := watch_all watch_host hostList in
   let! pushes := watch_all probePush (push_urls i) in
   Ok (WatchOut (watch_verdict_of hosts pushes) hosts pushes))%res.

(** The exit code. *)
Definition exit_code : Z := match watch_tick with Ok out => if bool_decide (verdict out = all_well) then 0 else 1 | Err _ => 2 end.
End Tick.

(** ** Lemmas *)

Lemma watch_all_ok {A B} (f : A -> result string B) (l : list A) (bs : list B) :
  watch_all f l = Ok bs <-> Forall2 (fun a b => f a = Ok b) l bs.
Proof.
  revert bs. induction l as [|a l IH]; intros bs; simpl.
  - split; [intros [= <-]; constructor|by intros ->%Forall2_nil_inv_l].
  - rewrite rbind_ok. split.
    + intros (b & Hb & (bs' & Hl & [= <-])%rbind_ok). constructor; [done|by apply IH].
    + intros (b & bs' & Hb & Hl & ->)%Forall2_cons_inv_l. exists b. split; [done|]. apply IH in Hl. by rewrite Hl.
Qed.

Lemma watch_all_total {A B} (f : A -> result string B) (l : list A) :
  (forall a, a ∈ l -> exists b, f a = Ok b) -> exists bs, watch_all f l = Ok bs.
Proof.
  intros Hf. induction l as [|a l IH]; [by exists []|]. destruct (Hf a) as [b Hb]; [by left|].
  destruct IH as [bs Hbs]; [intros x Hx; apply Hf; by right|]. exists (b :: bs). simpl. by rewrite Hb, Hbs.
Qed.

Lemma elem_of_once_each h l seen : h ∈ once_each l seen <-> h ∈ l /\ h ∉ seen.
Proof.
  revert seen. induction l as [|x l IH]; intros seen; simpl; [set_solver|].
  case_bool_decide as Hx; rewrite ?elem_of_cons, IH; [set_solver|]. rewrite elem_of_cons.
  destruct (decide (h = x)) as [->|]; naive_solver.
Qed.

Lemma once_each_nodup l seen : NoDup (once_each l seen).
Proof.
  revert seen. induction l as [|x l IH]; intros seen; simpl; [constructor|].
  case_bool_decide; [done|]. apply NoDup_cons. split; [|done]. rewrite elem_of_once_each. set_solver.
Qed.

Lemma range_hosts_parsed l rs :
  parse_ranges l = Ok rs -> Forall valid_range rs -> range_hosts l = Ok (List.map ShardMap.host rs).
Proof.
  revert rs. induction l as [|r l IH]; intros rs E Hv; simpl in E; [by injection E as <-|].
  apply rbind_ok in E as (x & Ex & (xs & El & [= <-])%rbind_ok). apply Forall_cons in Hv as [Hx Hv].
  simpl. rewrite (IH xs El Hv). simpl. apply validate_range_ok in Hx. unfold parse_range in Ex.
  destruct r; try done. unfold jget. destruct (jinteger (jfind "low" kvs)), (jinteger (jfind "high" kvs)); try done.
  destruct (jstring (jfind "host" kvs)) as [h|]; [|done]. injection Ex as <-. simpl in *.
  unfold validate_range in Hx. simpl in Hx. by destruct (String.eqb h "").
Qed.

(** The room without the check of the prefix. *)
Lemma owned_room_monitor map host p u : PREFIX_RE p = true -> owned_room map host p u = ownedRoomForHost map host p u.
Proof. intros Hp. unfold ownedRoomForHost. by rewrite Hp. Qed.

Lemma failed_none (l : list (string * probe_result)) :
  length (failed l) = 0%nat <-> forall x, x ∈ l -> ok x.2 = true.
Proof.
  unfold failed. induction l as [|x l IH]; simpl; [set_solver|]. destruct (ok x.2) eqn:E; simpl.
  - rewrite IH. set_solver.
  - split; [done|]. intros H. rewrite H in E by by left. done.
Qed.

Lemma failed_all (l : list (string * probe_result)) :
  length (failed l) = length l <-> forall x, x ∈ l -> ok x.2 = false.
Proof.
  unfold failed. induction l as [|x l IH]; simpl; [set_solver|].
  pose proof (List.filter_length_le (fun h : string * probe_result => negb (ok h.2)) l) as Hle. destruct (ok x.2) eqn:E; simpl.
  - split; [lia|]. intros H. rewrite H in E by by left. done.
  - split; [intros [= ?]; set_solver|]. intros H. f_equal. apply IH. set_solver.
Qed.

(** ** Properties *)

Definition online (i : watch_in) : Prop := true ∈ controls i.

(** [h] serves some bucket of the map. *)
Definition serves (m : shard_map) (h : string) : Prop := exists b, hostForBucket m b = Some h.

Lemma push_verdict_spec (up : string -> Prop) (urls : list string) (pushes : list (string * probe_result)) :
  Forall2 (fun url p => ok p.2 = true <-> up url) urls pushes ->
  (push_verdict pushes = all_well <-> forall url, url ∈ urls -> up url)
  /\ (push_verdict pushes = push_unreachable <-> exists url, head urls = Some url /\ ~ up url)
  /\ (push_verdict pushes = push_degraded <->
       exists url rest, urls = url :: rest /\ up url /\ exists down, down ∈ rest /\ ~ up down)
  /\ (push_verdict pushes = all_well \/ push_verdict pushes = push_unreachable \/ push_verdict pushes = push_degraded).
Proof.
  intros [|url p urls' pushes' Hp Hps]; simpl; [set_solver|].
  assert (Hrest : existsb (fun p => negb (ok p.2)) pushes' = false <-> forall url, url ∈ urls' -> up url).
  { clear -Hps. induction Hps as [|u q urls' pushes' Hq _ IH]; simpl; [set_solver|]. destruct (ok q.2); simpl; [set_solver|]. set_solver. }
  assert (Hdown : existsb (fun p => negb (ok p.2)) pushes' = true <-> exists url, url ∈ urls' /\ ~ up url).
  { clear -Hps. induction Hps as [|u q urls' pushes' Hq _ IH]; simpl; [set_solver|]. destruct (ok q.2); simpl.
    - rewrite IH. split; [intros (d & ? & ?); exists d; set_solver|]. intros (d & [->|Hd]%elem_of_cons & Hn); [by destruct Hn; apply Hq|eauto].
    - split; [|done]. intros _. exists u. split; [by left|]. intros Hu. by apply Hq in Hu. }
  assert (E1 : (forall x, x ∈ url :: urls' -> up x) <-> up url /\ existsb (fun p => negb (ok p.2)) pushes' = false).
  { rewrite Hrest. split; [intros H; split; [apply H; by left|intros x Hx; apply H; by right]|].
    intros [Hu H] x [->|Hx]%elem_of_cons; auto. }
  assert (E2 : (exists x, Some url = Some x /\ ~ up x) <-> ~ up url).
  { split; [by intros (x & [= <-] & ?)|]. intros Hn. by exists url. }
  assert (E3 : (exists x rest, url :: urls' = x :: rest /\ up x /\ exists d, d ∈ rest /\ ~ up d)
               <-> up url /\ existsb (fun p => negb (ok p.2)) pushes' = true).
  { rewrite Hdown. split; [by intros (x & rest & [= <- <-] & ?)|]. intros [Hu H]. by exists url, urls'. }
  rewrite E1, E2, E3. clear -Hp. rewrite <-Hp.
  destruct (ok p.2), (existsb _ pushes'); simpl; intuition congruence.
Qed.

(** Bucket 0 has a host. *)
Lemma serves_total m : validateShardMap m = Ok tt -> exists h, serves m h.
Proof.
  intros (_ & _ & Hc)%validate_well_formed. specialize (Hc 0 ltac:(done)). unfold serves, hostForBucket.
  destruct (countb_find (covers 0) (ranges m)) as (r & Hf & _); [lia|]. exists (ShardMap.host r), 0. simpl. by rewrite Hf.
Qed.

(** The probe parked a mac in a room of [h], which the gate of [h] lets in. *)
Definition parked (i : watch_in) (j : json) (m : shard_map) (h : string) : Prop :=
  h ∉ force_fail i /\ exists room b,
    owned_room j h (draw i h).1 (draw i h).2 = Ok (Some room) /\ ROOM_NAME_RE room = true /\ hostForBucket m b = Some h
    /\ ownershipDecision MODE_DISTRIBUTED room (owns_bucket m h) = Admit (Some b) /\ ok (probe_relay i h room) = true.

(** The push relay at [url] gave its healthy answer. *)
Definition push_up (i : watch_in) (url : string) : Prop :=
  push_status i url = Ok 405 /\ forall h, url_host i url = Some h -> h ∉ force_fail i.

Section Fleet.
Context (i : watch_in) (text : string) (j : json) (m : shard_map).
Context (Ej : JSON_parse text = Some j) (Em : parseShardMap text = Ok m) (Hv : validateShardMap m = Ok tt).
Context (Hmap : map_fetched i = Ok j) (Hd : forall h, PREFIX_RE (draw i h).1 = true).
Context (Hurls : forall url, url ∈ push_urls i -> is_Some (url_host i url)).

Lemma serves_owned h : serves m h <-> exists b, b ∈ ownedBuckets m h.
Proof using Hv.
  apply validate_well_formed in Hv as Hw. split; intros [b Hb]; exists b.
  - apply (hostForBucket_owned m b h Hw); [|done]. unfold hostForBucket in Hb. destruct ((b <? 0) || (EXPECTED_BUCKETS <=? b))%bool eqn:E; [done|lia].
  - apply (hostForBucket_owned m b h Hw); [by apply (owned_bucket_bound m h Hv)|done].
Qed.

Lemma map_is_object : jtruthy (Some j) = true.
Proof using Ej Em. generalize Em. unfold parseShardMap. rewrite Ej. clear. by destruct j. Qed.

(** The tick probes each serving host once, and no other. *)
Lemma hosts_of_map : exists hosts, host_list (Some j) (relay_hosts i) = Ok hosts /\ NoDup hosts /\ forall h, h ∈ hosts <-> serves m h.
Proof using Ej Em Hv.
  clear Hmap Hd Hurls. destruct (parsed_ranges text j m Ej Em) as (l & Hf & _ & Hl). apply validate_well_formed in Hv as Hw.
  exists (once_each (List.map ShardMap.host (ranges m)) []). unfold host_list. rewrite map_is_object, Hf. simpl.
  destruct Hw as (_ & Hr & _). rewrite (range_hosts_parsed l _ Hl Hr). split; [done|]. split; [apply once_each_nodup|]. intros h.
  rewrite elem_of_once_each, serves_owned. rewrite Forall_forall in Hr. split.
  - intros [(r & -> & Hin)%list_elem_of_fmap _]. destruct (Hr r Hin) as (_ & Hlo & Hhi). exists (low r).
    apply elem_of_ownedBuckets. exists r. split_and!; [done..|]. apply covers_spec. lia.
  - intros [b (r & Hin & <- & _)%elem_of_ownedBuckets]. split; [|set_solver]. by apply list_elem_of_fmap_2.
Qed.

Lemma watch_host_parked h : serves m h -> exists r, watch_host i h = Ok (h, r) /\ (ok r = true <-> parked i j m h).
Proof using Ej Em Hv Hmap Hd.
  clear Hurls. intros [b0 Hb0]%serves_owned. unfold watch_host, forced, live_map. case_bool_decide as Hforce.
  { exists TIMED_OUT. split; [done|]. split; [done|]. by intros [? _]. }
  rewrite Hmap, map_is_object, (owned_room_monitor _ _ _ _ (Hd h)).
  destruct (owned_room_built text j m h _ Ej Em Hv (Hd h) (draw i h).2) as [[_ E]|(b & Hb & E)]; [set_solver|]. rewrite E. simpl.
  eexists. split; [done|]. destruct (owned_room_admitted m h _ Hv (Hd h) b Hb) as (? & ? & ?). unfold parked.
  rewrite (owned_room_monitor _ _ _ _ (Hd h)), E. split.
  - intros Hok. split; [done|]. by eexists _, b.
  - by intros (_ & room & b' & [= <-] & _ & _ & _ & Hok).
Qed.

Lemma probe_push_up url : url ∈ push_urls i -> exists p, probePush i url = Ok p /\ (ok p.2 = true <-> push_up i url).
Proof using Hurls.
  intros [h Eh]%Hurls. unfold probePush, push_up, forced. rewrite Eh. eexists. split; [done|]. simpl. case_bool_decide as Hforce.
  - split; [done|]. intros [_ H]. by destruct (H h eq_refl).
  - destruct (push_status i url) as [s|e]; [|naive_solver]. destruct (Z.eqb_spec s 405) as [->|]; naive_solver.
Qed.

(** What the two probing loops leave: an outcome per serving host and per push URL. *)
Lemma tick_probes :
  exists hosts pushes, watch_tick i = Ok (WatchOut (watch_verdict_of i hosts pushes) hosts pushes)
    /\ hosts <> []
    /\ (forall h, serves m h -> exists r, (h, r) ∈ hosts /\ (ok r = true <-> parked i j m h))
    /\ (forall x, x ∈ hosts -> serves m x.1 /\ (ok x.2 = true <-> parked i j m x.1))
    /\ Forall2 (fun url p => ok p.2 = true <-> push_up i url) (push_urls i) pushes.
Proof using Ej Em Hv Hmap Hd Hurls.
  destruct hosts_of_map as (names & En & Hnd & Hn).
  destruct (watch_all_total (watch_host i) names) as [hosts Eh]; [intros h Hh%Hn; destruct (watch_host_parked h Hh) as (r & ? & _); by eexists|].
  destruct (watch_all_total (probePush i) (push_urls i)) as [pushes Ep]; [intros u Hu; destruct (probe_push_up u Hu) as (p & ? & _); by eexists|].
  exists hosts, pushes. unfold watch_tick, live_map. rewrite Hmap, En. simpl. rewrite Eh. simpl. rewrite Ep. split; [done|].
  apply watch_all_ok in Eh, Ep.
  assert (Hfor : forall h, serves m h -> exists r, (h, r) ∈ hosts /\ (ok r = true <-> parked i j m h)).
  { intros h Hs. apply Hn in Hs as Hin. apply list_elem_of_lookup in Hin as [k Hk].
    destruct (Forall2_lookup_l _ _ _ _ _ Eh Hk) as (x & Hx & E). destruct (watch_host_parked h Hs) as (r & E' & Hr).
    rewrite E' in E. injection E as <-. exists r. split; [by eapply list_elem_of_lookup_2|done]. }
  split_and!; [|done| |].
  - destruct (serves_total m Hv) as [h Hs]. destruct (Hfor h Hs) as (r & Hin & _). by intros ->; apply elem_of_nil in Hin.
  - intros x [k Hk]%list_elem_of_lookup. destruct (Forall2_lookup_r _ _ _ _ _ Eh Hk) as (h & Hh & E).
    apply list_elem_of_lookup_2, Hn in Hh. destruct (watch_host_parked h Hh) as (r & E' & Hr). rewrite E' in E. by injection E as <-.
  - apply Forall2_same_length_lookup. split; [by eapply Forall2_length|]. intros k u p Hu Hp.
    pose proof (Forall2_lookup_lr _ _ _ _ _ _ Ep Hu Hp) as E. apply list_elem_of_lookup_2, probe_push_up in Hu as (p' & E' & Hup).
    cbv beta in E. rewrite E' in E. by injection E as <-.
Qed.
End Fleet.

(** How many probes failed, and what the hosts did. *)
Lemma parked_counts (i : watch_in) (j : json) (m : shard_map) (hosts : list (string * probe_result)) :
  (forall h, serves m h -> exists r, (h, r) ∈ hosts /\ (ok r = true <-> parked i j m h)) ->
  (forall x, x ∈ hosts -> serves m x.1 /\ (ok x.2 = true <-> parked i j m x.1)) ->
  (length (failed hosts) = 0%nat <-> forall h, serves m h -> parked i j m h)
  /\ (length (failed hosts) = length hosts <-> forall h, serves m h -> ~ parked i j m h)
  /\ (length (failed hosts) <> 0%nat /\ length (failed hosts) <> length hosts <->
       (exists h, serves m h /\ parked i j m h) /\ exists h, serves m h /\ ~ parked i j m h).
Proof.
  intros Hfor Hof.
  assert (Hall : length (failed hosts) = 0%nat <-> forall h, serves m h -> parked i j m h).
  { rewrite failed_none. split; [|by intros H x Hx; apply Hof in Hx as [Hs ->]; apply H].
    intros H h (r & Hin & <-)%Hfor. exact (H _ Hin). }
  assert (Hnone : length (failed hosts) = length hosts <-> forall h, serves m h -> ~ parked i j m h).
  { rewrite failed_all. split.
    + intros H h (r & Hin & <-)%Hfor. specialize (H _ Hin). simpl in H. by rewrite H.
    + intros H x Hx. destruct (Hof x Hx) as [Hs Hk]. apply not_true_is_false. rewrite Hk. by apply H. }
  split; [done|]. split; [done|]. split.
  - intros [H0 H1].
    assert (Hf : exists x, x ∈ hosts /\ ok x.2 = false).
    { unfold failed in H0. destruct (List.filter _ hosts) as [|x l] eqn:El; [done|]. exists x.
      assert (Hin : List.In x (List.filter (fun h : string * probe_result => negb (ok h.2)) hosts)) by (rewrite El; by left).
      apply filter_In in Hin as [Hin Hn]. split; [by apply list_elem_of_In|by apply negb_true_iff]. }
    assert (Hk : exists x, x ∈ hosts /\ ok x.2 = true).
    { clear -H1. unfold failed in H1. induction hosts as [|x l IH]; [done|]. cbn [List.filter] in H1.
      destruct (ok x.2) eqn:Ex; [exists x; split; [by left|done]|]. cbn [negb length] in H1.
      destruct IH as (y & Hy & Ey); [lia|]. exists y. split; [by right|done]. }
    destruct Hf as (x & Hx & Ex), Hk as (y & Hy & Ey). destruct (Hof x Hx) as [Hsx Hkx], (Hof y Hy) as [Hsy Hky].
    split; [exists y.1; split; [done|by apply Hky]|]. exists x.1. split; [done|]. rewrite <-Hkx. by rewrite Ex.
  - intros [(h & Hh & Hk) (h' & Hh' & Hk')]. split; [intros H0; by apply Hk', Hall|intros H1; by apply (proj1 Hnone H1 h)].
Qed.


(** Without a map the tick falls back on the hosts of the environment, and says so
    when there are none. *)
Lemma watch_without_map (i : watch_in) (e : string) (out : watch_out) :
  map_fetched i = Err e -> watch_tick i = Ok out -> (verdict out = map_unreachable <-> online i /\ relay_hosts i = []).
Proof.
  intros Hmap E. unfold watch_tick, live_map in E. rewrite Hmap in E. cbn [host_list rbind] in E.
  apply rbind_ok in E as (hosts & Eh & (pushes & _ & [= <-])%rbind_ok). cbn [verdict].
  apply watch_all_ok, Forall2_length in Eh.
  assert (Hon : existsb (fun c => c) (controls i) = true <-> online i).
  { unfold online. rewrite existsb_exists, list_elem_of_In. naive_solver. }
  assert (Hl : length hosts = 0%nat <-> relay_hosts i = []) by (rewrite <-Eh; by destruct (relay_hosts i)).
  assert (Hp : push_verdict pushes <> map_unreachable) by (unfold push_verdict; by repeat case_match).
  unfold watch_verdict_of. rewrite Hmap. cbn [is_ok negb andb].
  destruct (existsb (fun c => c) (controls i)); cbn [negb]; [|clear -Hon; naive_solver].
  destruct (Nat.eqb_spec (length hosts) 0) as [E0|E0]; [clear -Hon Hl E0; naive_solver|].
  repeat case_match; clear -Hl E0 Hp; naive_solver.
Qed.

(** A map that parses but names no hosts is reported healthy, though no relay was
    probed; the same map not fetched at all is [map_unreachable]. *)
Lemma watch_well_unprobed (i : watch_in) (j : json) :
  map_fetched i = Ok j -> jtruthy (Some j) = true -> jtruthy (jget j "ranges") = false -> online i -> push_urls i = [] ->
  watch_tick i = Ok (WatchOut all_well [] []) /\ exit_code i = 0.
Proof.
  intros Hmap Ht Hr Hon Hp. assert (E : watch_tick i = Ok (WatchOut all_well [] [])).
  { assert (Hf : filter_ranges j = Ok []) by (unfold filter_ranges; destruct (jget j "ranges") as [[]|]; try done; by rewrite Hr).
    unfold watch_tick, live_map, host_list. rewrite Hmap, Ht, Hf, Hp. simpl. unfold watch_verdict_of. rewrite Hmap.
    replace (existsb (fun c => c) (controls i)) with true; [done|]. symmetry. apply existsb_exists. exists true. by split; [apply list_elem_of_In|]. }
  by unfold exit_code; rewrite E.
Qed.

(** *** Two relays, one of which refuses its probe *)

Definition some_watch (refusing : string) : watch_in :=
  {| controls := [false; true]; map_fetched := match JSON_parse served_map with Some j => Ok j | None => Err "bad" end;
     relay_hosts := []; force_fail := []; draw := fun _ => (zeros 60, (1 # 2)%Q); random_room := fun _ => zeros 64;
     probe_relay := fun h _ => if String.eqb h refusing then Probe false "timeout" else Probe true "mac parked";
     push_urls := ["https://push.iterm2.com/"]; url_host := fun _ => Some "push.iterm2.com"; push_status := fun _ => Ok 405 |}%string.


(** ** The probe against the monitor's *)

(** What the monitor's [next] gives for an event; opening gives nothing. *)
Definition reply_of (e : socket_event) : option (result string string) :=
  match e with
  | SOpen => None
  | SMessage t => Some (Ok t)
  | SNoUpgrade _ => Some (Err "no ws upgrade"%string)
  | SError d => Some (Err d)
  | STimeout => Some (Err "timeout"%string)
  end.

Definition run_from (p : probing) (es : list socket_event) : probing := fold_left (fun p e => on_event e p) es p.

(** Only the first outcome counts. *)
Lemma settled_stays es p r : settled p = Some r -> settled (run_from p es) = Some r.
Proof.
  revert p. induction es as [|e es IH]; intros p Hp; [done|]. apply IH. unfold on_event, settle.
  destruct e; rewrite ?Hp; cbn [settled]; try done. destruct (JSON_parse text); [|by rewrite ?Hp].
  destruct (stage p =? 0); [destruct (jstring _)|destruct (jtruthy _)]; cbn [settled]; by rewrite ?Hp.
Qed.

Definition first_reply (es : list socket_event) : result string string := default (Err ""%string) (head (omap reply_of es)).

Ltac now_settled H :=
  match type of H with settled (run_from ?p _) = _ => rewrite (settled_stays _ p _ eq_refl) in H end; by injection H as <-.

Lemma second_reply_settles es frames r :
  settled (run_from (Probing None 1 frames) es) = Some r ->
  ok r = match probe_text (first_reply es) with Ok j => jtruthy (jget j "ok") | Err _ => false end.
Proof.
  revert frames. induction es as [|e es IH]; intros frames H; [done|].
  change (settled (run_from (on_event e (Probing None 1 frames)) es) = Some r) in H.
  destruct e as [|t|st|d|]; cbn [on_event stage settled sent_frames settle] in H; unfold first_reply; cbn; try now_settled H.
  - by apply IH in H.
  - destruct (JSON_parse t) as [msg|]; [|now_settled H]. change (1 =? 0) with false in H.
    destruct (jtruthy (jget msg "ok")); now_settled H.
Qed.

(** The two probes agree: whatever the socket does, the watcher's probe ends well
    exactly when the monitor's handshake does on the same replies. *)
Lemma probe_mirrors_monitor es r :
  settled (probe_run es) = Some r ->
  ok r = ok (probeHandshake (first_reply es) (default (Err ""%string) (omap reply_of es !! 1%nat))).
Proof.
  unfold probe_run, new_probe. generalize (@nil json) as frames. induction es as [|e es IH]; intros frames H; [done|].
  change (settled (run_from (on_event e (Probing None 0 frames)) es) = Some r) in H.
  destruct e as [|t|st|d|]; cbn [on_event stage settled sent_frames settle] in H; unfold first_reply, probeHandshake; cbn; try now_settled H.
  - by apply IH in H.
  - destruct (JSON_parse t) as [msg|]; [|now_settled H]. change (0 =? 0) with true in H. cbv iota in H.
    destruct (jstring (jget msg "nonce")); [|now_settled H]. apply second_reply_settles in H. rewrite H. unfold first_reply.
    destruct (omap reply_of es) as [|x l]; cbn; [done|]. destruct (probe_text x); [|done]. by destruct (jtruthy _).
Qed.
