(* ===== verification/Defenses.v ===== *)
(** The defence probe ([tools/probe-defenses.mjs]) against the room it attacks: the
    tool's connections, its five probes and its verdict, driven into the rooms of file
    RoomSteps, and what it reports about them.

    What the tool sends is handled before it goes on waiting; its clock, the random
    bytes and the answers of the host's gates are arguments. *)

From Stdlib Require Import Ascii.
From stdpp Require Import pretty.
From S2P Require Import Prelude Bytes Crypto Json Transcript Storage RoomState AttestApi Room RoomSteps Metrics MonitorFleet MonitorProbe.

(** ** The tool's effects *)

(** The room under attack, how far into its outputs the tool has listened, the calls
    made so far (they pick the clock's reading and the random bytes), the connections
    and requests made. *)
Record tool := Tool { tworld : world; theard : nat; tcalls : nat; tdials : nat }.

(** An [async] function of the tool: [None] waits forever, [Err] throws. *)
Definition Client (A : Type) : Type := tool -> option (result string A * tool).

Definition cret {A} (a : A) : Client A := fun s => Some (Ok a, s).
Definition cthrow {A} (m : string) : Client A := fun s => Some (Err m, s).
Definition cbind {A B} (m : Client A) (k : A -> Client B) : Client B := fun s =>
  match m s with Some (Ok a, s') => k a s' | Some (Err e, s') => Some (Err e, s') | None => None end.
Definition ccatch {A} (m : Client A) (h : string -> Client A) : Client A := fun s =>
  match m s with Some (Err e, s') => h e s' | r => r end.
Definition cget {A} (f : tool -> A) : Client A := fun s => Some (Ok (f s), s).
Definition cmod (f : tool -> tool) : Client unit := fun s => Some (Ok tt, f s).

Declare Scope client_scope.
Delimit Scope client_scope with client.
Notation "x <- m ;; k" := (cbind m (fun x => k)) (at level 100, m at next level, right associativity) : client_scope.
Notation "m ;;; k" := (cbind m (fun _ => k)) (at level 100, right associativity) : client_scope.
#[local] Open Scope client_scope.

Fixpoint cforeach {A} (l : list A) (f : A -> Client unit) : Client unit :=
  match l with [] => cret tt | x :: l' => f x ;;; cforeach l' f end.

Record report := Report { stopped : bool; detail : string }.

(** ** What a socket hears *)

(** What [JSON.parse] makes of a message ([None]: it throws), or the close. *)
Definition heard : Type := (option json + Z * string)%type.

Definition hears (ws : websocket) (o : output) : option heard :=
  match o with
  | Sent ws' j => if (ws' =? ws)%nat then Some (inl (Some j)) else None
  | Relayed ws' f => if (ws' =? ws)%nat then Some (inl (JSON_parse (payload f))) else None
  | Closed ws' code reason => if (ws' =? ws)%nat then Some (inr (code, reason)) else None
  | _ => None
  end.

(** The first thing the socket hears, and how many outputs that takes. *)
Fixpoint first_heard (ws : websocket) (l : list output) : option (heard * nat) :=
  match l with
  | [] => None
  | o :: l' =>
      match hears ws o with
      | Some h => Some (h, 1%nat)
      | None => '(h, n) ← first_heard ws l'; Some (h, S n)
      end
  end.

(** The close a socket sees. *)
Fixpoint first_close (ws : websocket) (l : list output) : option (Z * string) :=
  match l with
  | [] => None
  | o :: l' => match hears ws o with Some (inr c) => Some c | _ => first_close ws l' end
  end.

Fixpoint reply_to (req : nat) (l : list output) : option (Z * json) :=
  match l with
  | [] => None
  | Replied req' status body :: l' => if (req' =? req)%nat then Some (status, body) else reply_to req l'
  | _ :: l' => reply_to req l'
  end.

Definition outputs (s : tool) : list output := trace (rm (tworld s)).

(** ** JSON texts *)

Definition quote_char (c : ascii) : string :=
  let n := Z.of_nat (nat_of_ascii c) in
  if (n =? 34) || (n =? 92) then String (ascii_of_nat 92) (String c "")
  else if n =? 8 then "\b" else if n =? 9 then "\t" else if n =? 10 then "\n"
  else if n =? 12 then "\f" else if n =? 13 then "\r"
  else if n <? 32 then "\u00" +:+ hex [n]
  else String c "".

(** [JSON.stringify] of a string. *)
Definition JSON_quote (s : string) : string :=
  requote "'" +:+ String.concat "" (map quote_char (String.list_ascii_of_string s)) +:+ requote "'".

Definition hello_frame : frame := Frame false (requote "{'v':1,'role':'mac'}").
Definition proof_frame : frame := Frame false "{}".

(** [JSON.stringify({ challenge, signature: "AAAA" })]; an undefined challenge is left
    out, and one that is no string is not modelled further. *)
Definition delete_body (challenge : option json) : string :=
  match challenge with
  | Some (JStr c) => requote "{'challenge':" +:+ JSON_quote c +:+ requote ",'signature':'AAAA'}"
  | _ => requote "{'signature':'AAAA'}"
  end.

(** ** The probes *)

Section Tool.
Context `{Crypto} `{AppAttest} (env : environment).
(** The status with which the host's gates refuse the n-th connection or request; the
    clock and the random bytes at the n-th call. *)
Context (refuses : nat -> option Z) (clock : nat -> Z) (dice : nat -> bytes).

(** The room handles an event, after its timer where that is due. *)
Definition relay_does (e : event) : Client unit := fun s =>
  let now := clock (tcalls s) in
  let w := default (tworld s) (step env now [] EAlarm (tworld s)) in
  w' ← step env now (dice (tcalls s)) e w;
  Some (Ok tt, Tool w' (theard s) (S (tcalls s)) (tdials s)).

Definition dial : Client nat := fun s => Some (Ok (tdials s), Tool (tworld s) (theard s) (tcalls s) (S (tdials s))).

(** Whoever listens next hears what comes from here on. *)
Definition listen : Client unit := cmod (fun s => Tool (tworld s) (length (outputs s)) (tcalls s) (tdials s)).

Definition freshRoom : Client string := fun s =>
  Some (Ok (hex (dice (tcalls s))), Tool (tworld s) (theard s) (S (tcalls s)) (tdials s)).

Definition openWS (room : string) : Client websocket :=
  ws <- dial ;;
  match refuses ws with
  | Some status => cthrow ("Unexpected server response: " +:+ pretty status)
  | None => relay_does (EUpgrade ws room) ;;; relay_does (EResume 0) ;;; listen ;;; cret ws
  end.

Definition ws_send (ws : websocket) (f : frame) : Client unit := relay_does (EMessage ws f).

Definition nextMessage (ws : websocket) : Client (option json) := fun s =>
  '(h, n) ← first_heard ws (drop (theard s) (outputs s));
  let s' := Tool (tworld s) (theard s + n) (tcalls s) (tdials s) in
  Some (match h with inl m => Ok m | inr (code, reason) => Err ("closed " +:+ pretty code +:+ " " +:+ reason) end, s').

(** [JSON.parse(await nextMessage(ws))] *)
Definition nextJSON (ws : websocket) : Client json :=
  m <- nextMessage ws ;; match m with Some j => cret j | None => cthrow "SyntaxError" end.

(** [onceClose] raced against three seconds. *)
Definition close_heard (ws : websocket) (from : nat) : Client (option (Z * string)) :=
  cget (fun s => first_close ws (drop from (outputs s))).

(** [ws.close()]: the room gets the close frame, then the end of the connection. *)
Definition hang_up (ws : websocket) : Client unit :=
  relay_does (ECloseFrame ws 1005 "") ;;;
  relay_does (EClose ws 1005 "") ;;;
  l <- cget (fun s => callbacks (tworld s)) ;;
  match l with [] => cret tt | _ => relay_does (ECallback 0) end.

Definition admitSocket (room : string) : Client websocket :=
  ws <- openWS room ;;
  ws_send ws hello_frame ;;;
  nextMessage ws ;;;
  ws_send ws proof_frame ;;;
  result <- nextJSON ws ;;
  if jtruthy (jget result "ok") then cret ws
  else cthrow ("admit failed: " +:+ match jget result "error" with Some (JStr e) => e | _ => "undefined" end).

Definition admitOnce (room : string) : Client json :=
  ws <- openWS room ;;
  r <- ccatch (ws_send ws hello_frame ;;; nextMessage ws ;;; ws_send ws proof_frame ;;; nextJSON ws)
         (fun e => cret (json_error e)) ;;
  hang_up ws ;;; cret r.

Fixpoint open_pending (n : nat) (room : string) : Client (list websocket) :=
  match n with
  | O => cret []
  | S n' =>
      o <- ccatch (ws <- openWS room ;; cret [ws]) (fun _ => cret []) ;;
      l <- open_pending n' room ;; cret (o ++ l)
  end.

Definition PENDING : nat := 6.

(** Whether the socket was closed as one too many. *)
Definition evicted (l : list output) (ws : websocket) : bool :=
  match first_close ws l with Some (code, _) => code =? 1008 | None => false end.

Definition probePreAuthCap : Client report :=
  room <- freshRoom ;;
  sockets <- open_pending PENDING room ;;
  l <- cget outputs ;;
  let n := countb (evicted l) sockets in
  cforeach sockets hang_up ;;;
  cret (Report (0 <? n)%nat (pretty n +:+ "/" +:+ pretty PENDING +:+ " pending sockets evicted (1008 too many pending)")).

Fixpoint admission_flood (n : nat) (room : string) (admits : nat) : Client report :=
  match n with
  | O => cret (Report false (pretty admits +:+ " admits, never rate limited"))
  | S n' =>
      r <- admitOnce room ;;
      if match jget r "error" with Some (JStr e) => String.eqb e "rate limited" | _ => false end
      then cret (Report true ("rate limited after " +:+ pretty admits +:+ " admits (cap ~40/window)"))
      else admission_flood n' room (if jtruthy (jget r "ok") then S admits else admits)
  end.

Definition probeAdmissionFlood : Client report := room <- freshRoom ;; admission_flood 60 room 0.

(** The verdict of a probe that waits to be closed. *)
Definition close_report (code : Z) (c : option (Z * string)) (otherwise : string) : report :=
  match c with
  | Some (code', reason) => Report (code' =? code) ("closed " +:+ pretty code' +:+ " " +:+ reason)
  | None => Report false otherwise
  end.

Definition zeros (n : nat) : frame := Frame true (String.concat "" (repeat (String (ascii_of_nat 0) "") n)).

Definition probeOversizedFrame : Client report :=
  room <- freshRoom ;;
  ws <- admitSocket room ;;
  from <- cget (fun s => length (outputs s)) ;;
  ws_send ws (zeros (300 * 1024)) ;;;
  c <- close_heard ws from ;;
  hang_up ws ;;;
  cret (close_report 1009 c "300 KiB frame accepted, socket stayed open").

Definition probeFrameFlood : Client report :=
  room <- freshRoom ;;
  ws <- admitSocket room ;;
  from <- cget (fun s => length (outputs s)) ;;
  cforeach (repeat (zeros 1) 700) (ws_send ws) ;;;
  c <- close_heard ws from ;;
  hang_up ws ;;;
  cret (close_report 1008 c "frame flood accepted, socket stayed open").

(** A POST: the status and the body, which is no JSON when the host refuses. *)
Definition post (path room body : string) : Client (Z * option json) :=
  req <- dial ;;
  match refuses req with
  | Some status => cret (status, None)
  | None =>
      relay_does (EHttp req "POST" path room body) ;;;
      (fun s => '(status, j) ← reply_to req (outputs s); Some (Ok (status, Some j), s))
  end.

Definition probeUnauthorizedDelete : Client report :=
  room <- freshRoom ;;
  ch <- post "/attest/challenge" room "" ;;
  match ch.2 with
  | None => cthrow "SyntaxError"
  | Some ch =>
      res <- post "/delete" room (delete_body (jget ch "challenge")) ;;
      let error := match jget (default (JObj []) res.2) "error" with Some (JStr e) => e | _ => "?" end in
      cret (Report (res.1 =? 403) ("HTTP " +:+ pretty res.1 +:+ " (" +:+ error +:+ ")"))
  end.

(** A probe on its own room; one that throws has not stopped anything. *)
Definition run_probe (p : Client report) : option report :=
  '(r, _) ← p (Tool initial 0 0 0);
  Some (match r with Ok r => r | Err e => Report false ("probe error: " +:+ e) end).
End Tool.

(** What a probe runs under. *)
Record conditions := Conditions { crefuses : nat -> option Z; cclock : nat -> Z; cdice : nat -> bytes }.

Section Main.
Context `{Crypto} `{AppAttest} (env : environment).

Definition probe : Type := (nat -> option Z) -> (nat -> Z) -> (nat -> bytes) -> Client report.

Definition PROBES : list (string * probe) :=
  [("1  Pre-auth socket cap", probePreAuthCap env);
   ("2  Admission flood rate limit", probeAdmissionFlood env);
   ("3a Oversized spliced frame", probeOversizedFrame env);
   ("3b Spliced frame flood", probeFrameFlood env);
   ("4  Unauthorized room delete", probeUnauthorizedDelete env)]%string.

(** [s.padEnd(n)] *)
Definition padEnd (n : Z) (s : string) : string :=
  s +:+ String.concat "" (repeat " " (Z.to_nat (n - utf16_length s))).

Definition report_line (name : string) (r : report) : string :=
  "[" +:+ padEnd 30 name +:+ "] " +:+ padEnd 14 (if stopped r then "STOPPED  ✓" else "GOT THROUGH ✗") +:+ " " +:+ detail r.

(** The probes in turn: the lines printed, and whether all were stopped. *)
Fixpoint run_probes (l : list (string * probe)) (cs : list conditions) : option (list string * bool) :=
  match l, cs with
  | (name, p) :: l', c :: cs' =>
      r ← run_probe (p (crefuses c) (cclock c) (cdice c));
      '(lines, all) ← run_probes l' cs';
      Some (report_line name r :: lines, stopped r && all)
  | _, _ => Some ([], true)
  end.

(** [main]: what is printed after the headline, and the exit code. *)
Definition tool_main (cs : list conditions) : option (list string * Z) :=
  match run_probes PROBES cs with
  | Some (lines, true) => Some (lines ++ ["All defenses held."%string], 0)
  | Some (lines, false) => Some (lines ++ ["Some attacks got through (see above)."%string], 1)
  | None => None
  end.
End Main.

(** ** Lemmas: the text of a deletion *)

(** A character JSON writes as it is. *)
Definition plain (c : ascii) : bool :=
  let n := nat_of_ascii c in (32 <=? n)%nat && negb (n =? 34)%nat && negb (n =? 92)%nat.

Lemma read_string_plain cs : forall fuel acc rest, Forall (fun c => plain c = true) cs -> (length cs < fuel)%nat ->
  read_string fuel acc (cs ++ ascii_of_nat 34 :: rest) = Some (String.string_of_list_ascii (rev acc ++ cs), rest).
Proof.
  induction cs as [|c cs IH]; intros [|fuel] acc rest Hp Hl; simpl in Hl; try lia.
  - cbn [app read_string]. change (is_char 34 (ascii_of_nat 34)) with true. cbv iota. by rewrite app_nil_r.
  - apply Forall_cons in Hp as [Hc Hp]. unfold plain in Hc. apply andb_true_iff in Hc as [Hc H92%negb_true_iff].
    apply andb_true_iff in Hc as [H32%Nat.leb_le H34%negb_true_iff]. cbn [app read_string]. unfold is_char. rewrite H34, H92.
    rewrite (proj2 (Nat.ltb_ge _ _)) by lia. rewrite IH by (done || lia). cbn [rev]. by rewrite <-app_assoc.
Qed.

Lemma quote_plain cs : Forall (fun c => plain c = true) cs ->
  String.list_ascii_of_string (String.concat "" (map quote_char cs)) = cs.
Proof.
  induction 1 as [|c cs Hc _ IH]; [done|].
  assert (Hq : quote_char c = String c "").
  { unfold plain in Hc. apply andb_true_iff in Hc as [Hc H92%negb_true_iff%Nat.eqb_neq].
    apply andb_true_iff in Hc as [H32%Nat.leb_le H34%negb_true_iff%Nat.eqb_neq]. unfold quote_char.
    rewrite !(proj2 (Z.eqb_neq _ _)) by lia. by rewrite (proj2 (Z.ltb_ge _ _)) by lia. }
  destruct cs as [|c' cs]; [cbn [map String.concat]; by rewrite Hq|].
  change (String.list_ascii_of_string (quote_char c +:+ "" +:+ String.concat "" (map quote_char (c' :: cs))) = c :: c' :: cs).
  rewrite Hq. change (c :: String.list_ascii_of_string (String.concat "" (map quote_char (c' :: cs))) = c :: c' :: cs). by rewrite IH.
Qed.

Lemma b64_char_text n : 0 <= n < 64 -> plain (b64_char n) = true.
Proof.
  intros H. rewrite <-(Z2Nat.id n) by lia. assert (Hn : (Z.to_nat n < 64)%nat) by lia. revert Hn. generalize (Z.to_nat n) as k.
  intros k Hk. do 64 (destruct k as [|k]; [vm_compute; reflexivity|]). lia.
Qed.

Lemma b64_plain l : Forall is_byte l -> Forall (fun c => plain c = true) (String.list_ascii_of_string (b64 l)).
Proof.
  intros Hl. unfold b64. rewrite String.list_ascii_of_string_of_list_ascii, btoa_chars_sextets. apply Forall_app. split.
  - apply Forall_map. eapply Forall_impl; [by apply to_sextets_range|]. intros n. apply b64_char_text.
  - apply Forall_replicate. reflexivity.
Qed.

Lemma read_string_value f s l r : read_string (S (length l)) [] l = Some (s, r) ->
  read_value (S f) (ascii_of_nat 34 :: l) = Some (JStr s, r).
Proof. intros E. change (read_value (S f) (ascii_of_nat 34 :: l)) with ('(s, r') ← read_string (S (length l)) [] l; Some (JStr s, r')). by rewrite E. Qed.

Lemma read_member f k l r1 v r3 kvs r4 : read_string (S (length l)) [] l = Some (k, ":"%char :: r1) ->
  read_value f r1 = Some (v, ","%char :: r3) -> read_members f r3 = Some (kvs, r4) ->
  read_members (S f) (ascii_of_nat 34 :: l) = Some ((k, v) :: kvs, r4).
Proof.
  intros E1 E2 E3. cbn [read_members]. change (skip_ws (ascii_of_nat 34 :: l)) with (ascii_of_nat 34 :: l).
  change (is_char 34 (ascii_of_nat 34)) with true. cbv iota. cbn [length]. rewrite E1. cbn [mbind option_bind].
  change (skip_ws (":"%char :: r1)) with (":"%char :: r1). change (is_char 58 ":") with true. cbv iota. rewrite E2. cbn [mbind option_bind].
  change (skip_ws (","%char :: r3)) with (","%char :: r3). change (is_char 44 ",") with true. cbv iota. by rewrite E3.
Qed.

Lemma read_object f kvs l r : read_members f (ascii_of_nat 34 :: l) = Some (kvs, r) ->
  read_value (S f) ("{"%char :: ascii_of_nat 34 :: l) = Some (JObj kvs, r).
Proof.
  intros E. change (read_value (S f) ("{"%char :: ascii_of_nat 34 :: l))
    with ('(kvs, r'') ← read_members f (ascii_of_nat 34 :: l); Some (JObj kvs, r'')). by rewrite E.
Qed.

Lemma delete_body_parses c : Forall (fun c => plain c = true) (String.list_ascii_of_string c) ->
  is_Some (JSON_parse (delete_body (Some (JStr c)))).
Proof.
  intros Hp. unfold JSON_parse, delete_body, JSON_quote.
  pose proof chars_app as Happ. unfold chars in Happ. rewrite !Happ, quote_plain by done. set (cs := String.list_ascii_of_string c) in *.
  set (tail := String.list_ascii_of_string (requote "'signature':'AAAA'}")).
  match goal with |- context [read_value _ ?l] => assert (E : l = "{"%char :: ascii_of_nat 34 :: chars "challenge" ++ ascii_of_nat 34 :: ":"%char
      :: ascii_of_nat 34 :: cs ++ ascii_of_nat 34 :: ","%char :: tail) by (rewrite <-!app_assoc; reflexivity) end.
  rewrite E. clear E. match goal with |- context [read_value ?n _] => assert (Hf : exists f, n = S (S (S (S (S (S f))))))
    by (exists (n - 6)%nat; cbn [length]; lia) end.
  destruct Hf as [f ->]. rewrite (read_object _ [("challenge", JStr (String.string_of_list_ascii cs)); ("signature", JStr "AAAA")]%string _ []);
    [by eexists|].
  eapply (read_member _ "challenge").
  - rewrite read_string_plain; [reflexivity|by repeat constructor|rewrite length_app; lia].
  - apply read_string_value. rewrite read_string_plain; [reflexivity|exact Hp|rewrite length_app; lia].
  - reflexivity.
Qed.
(** ** Lemmas: the room's handlers *)

#[local] Close Scope client_scope.

Ltac eff := unfold deserializeAttachment, serializeAttachment, getWebSockets, sget, sput, step_storage, send, log, ewhen, ebind, eget, emod, eret.

Definition with_alarm (a b : option Z) (s : room) : room := set_alarmAt b (set_storage (RStore (kv (storage s)) a) s).

Lemma ensureAlarm_eff now s : exists a b,
  ensureAlarm now s = (Done tt, with_alarm a b s) /\ (b = alarmAt s \/ b = Some (now + HOUSEKEEPING_INTERVAL_MS)).
Proof.
  destruct s as [so at_ sc cf [k al] aa aw fw q qf tr]. unfold ensureAlarm, sgetAlarm, ssetAlarm, reschedule. eff.
  cbn -[HOUSEKEEPING_INTERVAL_MS]. destruct al as [x|]; cbn -[HOUSEKEEPING_INTERVAL_MS Z.ltb]; [|by eexists _, _; split; [reflexivity|right]].
  destruct (_ <? _); [by eexists _, _; split; [reflexivity|right]|].
  eexists (Some x), aa. by split; [|left].
Qed.

(** The room has no verifier and its timer is not due before [t]. *)
Record calm (t : Z) (s : room) : Prop := {
  calm_open : kv (storage s) !! "verifier"%string = None;
  calm_timer : match alarmAt s with Some a => t < a | None => True end }.

Lemma upgrade_eff now ws name s : ws ∉ sockets s ->
  handleUpgrade now ws name s = (Done (Some (KUpgrade ws name)),
    set_attachments (<[ws := Att SHello None "" name None false now]> (attachments s)) (set_sockets (sockets s ++ [ws]) s)).
Proof.
  intros Hn. unfold handleUpgrade, acceptWebSocket. eff. destruct s as [so at_ sc cf st aa aw fw q qf tr].
  cbn [sockets set_sockets attachments set_attachments] in *. by rewrite decide_False.
Qed.

(** The socket is alone in the room. *)
Definition alone (ws : websocket) (a : attachment) (s : room) : Prop := sockets s = [ws] /\ attachments s !! ws = Some a.

Section Handlers.
Context `{Crypto} `{AppAttest} (env : environment).

Lemma tagged_eff now ws name s t : attachments s !! ws = Some (Att SHello None "" name None false t) ->
  handleUpgrade_resume now ws name s =
    (evictExcessPreAuth ;;; ensureAlarm now ;;; log (LogLifecycle "connect" (Some (roomTag (Some name))) None ""))%eff
      (set_attachments (<[ws := Att SHello None "" name (Some (roomTag (Some name))) false t]> (attachments s)) s).
Proof. intros Ha. unfold handleUpgrade_resume, backfill_tag. eff. by rewrite Ha. Qed.

Lemma few_not_evicted s : (length (pre_auth s) <= MAX_PREAUTH_SOCKETS)%nat -> evictExcessPreAuth s = (Done tt, s).
Proof.
  intros Hl. unfold evictExcessPreAuth. eff. by replace (length (pre_auth s) - MAX_PREAUTH_SOCKETS)%nat with 0%nat by lia.
Qed.

Lemma pre_auth_length s : (length (pre_auth s) <= length (sockets s))%nat.
Proof.
  unfold pre_auth. rewrite merge_sort_Permutation. induction (sockets s) as [|ws l IH]; [done|]. cbn [omap list_omap].
  case_match; cbn [length]; lia.
Qed.

Lemma resume_alone now ws name s t : alone ws (Att SHello None "" name None false t) s ->
  exists a b, handleUpgrade_resume now ws name s = (Done tt,
      push (LogLifecycle "connect" (Some (roomTag (Some name))) None "") (with_alarm a b
        (set_attachments (<[ws := Att SHello None "" name (Some (roomTag (Some name))) false t]> (attachments s)) s)))
    /\ (b = alarmAt s \/ b = Some (now + HOUSEKEEPING_INTERVAL_MS)).
Proof.
  intros [Hs Ha]. rewrite (tagged_eff _ _ _ _ _ Ha). unfold ebind at 1.
  rewrite few_not_evicted by (etransitivity; [apply pre_auth_length|]; cbn [sockets set_attachments]; rewrite Hs; unfold MAX_PREAUTH_SOCKETS; simpl; lia).
  set (s1 := set_attachments _ s). destruct (ensureAlarm_eff now s1) as (a & b & E & Hb). exists a, b. split; [|exact Hb].
  unfold ebind. by rewrite E.
Qed.

Lemma hello_eff now rnd ws s name tg t : attachments s !! ws = Some (Att SHello None "" name tg false t) ->
  webSocketMessage env now rnd ws hello_frame s = (Done None,
    push (Sent ws (JObj [("nonce"%string, JStr (b64 rnd))]))
      (set_attachments (<[ws := Att SChallenged (Some mac) (b64 rnd) name tg false t]> (attachments s)) s)).
Proof.
  intros Ha. unfold webSocketMessage. eff. cbn -[handleHello frame_size]. rewrite Ha. cbn -[handleHello frame_size].
  rewrite (bool_decide_eq_false_2 (SHello = SAdmitted)) by done.
  change (MAX_CONTROL_BYTES <? frame_size hello_frame) with false. cbn -[JSON_parse b64].
  unfold handleHello. destruct (JSON_parse (payload hello_frame)) as [j|] eqn:Ej; [|vm_compute in Ej; discriminate].
  vm_compute in Ej. injection Ej as <-. reflexivity.
Qed.

(** A mac that is alone parks, or is refused by the limiter. *)
Definition parked (ws : websocket) (name : string) (tg : option string) (t : Z) (via : string) (w : window) (s : room) : room :=
  let prev := Att SChallenged (Some mac) "" name tg false t in
  push (Sent ws (JObj json_ok)) (push (admit_line prev mac via false)
    (set_attachments (<[ws := Att SAdmitted (Some mac) "" name tg false t]> (attachments s))
      (set_storage (RStore (<["pairingCycles"%string := VNumber 0]> (kv (storage s))) (Storage.alarm (storage s)))
        (set_admissionWindow w s)))).

Lemma admit_alone now rnd ws via s n name tg t :
  alone ws (Att SChallenged (Some mac) n name tg false t) s -> kv (storage s) !! "verifier"%string = None ->
  admit_socket now rnd ws mac None via s = (Done tt, parked ws name tg t via (admissionWindow s) s).
Proof.
  destruct s as [so at_ sc cf [k al] aa aw fw q qf tr]. intros [Hs Ha] Hk. cbn [sockets attachments storage kv] in *. subst so.
  unfold admit_socket, admit_gate, take_slot, exists_other, parked. eff.
  cbn. rewrite Hk, Ha. cbn. rewrite (bool_decide_eq_true_2 (mac = mac)), !(bool_decide_eq_false_2 (mac = phone)) by done.
  repeat (cbn; rewrite ?Nat.eqb_refl). reflexivity.
Qed.

Lemma proof_eff now rnd ws s n name tg t :
  alone ws (Att SChallenged (Some mac) n name tg false t) s -> kv (storage s) !! "verifier"%string = None ->
  let w := bump_window (admissionWindow s) ADMISSION_WINDOW_MS now in
  exists s', webSocketMessage env now rnd ws proof_frame s = (Done None, s')
    /\ if MAX_ADMISSION_ATTEMPTS <? wcount w then s' = exec (reject ws "rate limited") (set_admissionWindow w s)
       else exists via, s' = parked ws name tg t via w s.
Proof.
  intros [Hs Ha] Hk w. unfold webSocketMessage. eff. cbn -[handleProof frame_size]. rewrite Ha. cbn -[handleProof frame_size].
  rewrite (bool_decide_eq_false_2 (SChallenged = SAdmitted)) by done.
  change (MAX_CONTROL_BYTES <? frame_size proof_frame) with false. cbn -[handleProof].
  unfold handleProof, rateLimited. eff. cbn -[JSON_parse bump_window admit_socket reject].
  fold w. destruct (MAX_ADMISSION_ATTEMPTS <? wcount w).
  { eexists. split; [reflexivity|]. clearbody w. destruct s. cbn in Ha. unfold exec, reject, closeSocket, ws_close. eff. cbn.
    by rewrite Ha. }
  destruct (JSON_parse "{}") as [j|] eqn:Ej; [|vm_compute in Ej; discriminate]. vm_compute in Ej. injection Ej as <-.
  unfold sget. eff. cbn -[admit_socket]. rewrite Hk. cbn -[admit_socket]. rewrite (bool_decide_eq_true_2 (mac = mac)) by done.
  set (s1 := set_storage _ _).
  assert (H1 : s1 = set_admissionWindow w s) by by destruct s.
  assert (Hal : alone ws (Att SChallenged (Some mac) n name tg false t) s1) by (rewrite H1; by split).
  assert (Hk1 : kv (storage s1) !! "verifier"%string = None) by by rewrite H1.
  destruct (attestationRequired env); rewrite (admit_alone _ _ _ _ _ _ _ _ _ Hal Hk1), H1;
    (eexists; split; [reflexivity|]); eexists; destruct s; reflexivity.
Qed.
End Handlers.

(** ** Lemmas: the tool and one socket *)

(** What a socket's admission leaves alone. *)
Record kept (t : Z) (ws : websocket) (r r' : room) : Prop := {
  kept_others : forall x, x <> ws -> attachments r' !! x = attachments r !! x;
  kept_calm : calm t r -> calm t r';
  kept_record : kv (storage r') !! "quota"%string = kv (storage r) !! "quota"%string;
  kept_frames : frameWindow r' = frameWindow r;
  kept_quota : quota r' = quota r /\ quotaFlushedBytes r' = quotaFlushedBytes r }.

Lemma kept_trans t ws a b c : kept t ws a b -> kept t ws b c -> kept t ws a c.
Proof.
  intros [A1 A2 A3 A4 [A5 A6]] [B1 B2 B3 B4 [B5 B6]].
  split; [intros x Hx; by rewrite B1, A1|auto|congruence|congruence|split; congruence].
Qed.

(** A room nobody is in. *)
Record vacant (t : Z) (d : nat) (r : room) : Prop := {
  vacant_empty : sockets r = []; vacant_calm : calm t r; vacant_fresh : forall x, (d <= x)%nat -> attachments r !! x = None }.

Section Client.
Context `{Crypto} `{AppAttest} (env : environment) (refuses : nat -> option Z) (clock : nat -> Z) (dice : nat -> bytes).

(** The host lets everything through, and a probe is over within ten seconds. *)
Definition brisk (span : Z) : Prop := 10000 < clock 0%nat /\ forall n, clock 0%nat <= clock n <= clock 0%nat + span.

Context (Hlets : forall n, refuses n = None) (Hbrisk : brisk 10000).

Notation deadline := (clock 0%nat + 10000).

Lemma does e r l cb h c d w' : calm deadline r ->
  step env (clock c) (dice c) e (World r l cb) = Some w' ->
  relay_does env clock dice e (Tool (World r l cb) h c d) = Some (Ok tt, Tool w' h (S c) d).
Proof.
  intros [_ Hc] E. unfold relay_does. cbn [tcalls tworld theard tdials].
  assert (Ha : step env (clock c) [] EAlarm (World r l cb) = None).
  { cbn [step rm]. destruct (alarmAt r) as [a|]; [|done]. cbn [mbind option_bind].
    destruct (Z.leb_spec a (clock c)); [|done]. destruct Hbrisk as [_ Hb]. specialize (Hb c). lia. }
  rewrite Ha. cbn [default]. by rewrite E.
Qed.

Lemma calm_alarm r a b n : calm deadline r -> b = alarmAt r \/ b = Some (clock n + HOUSEKEEPING_INTERVAL_MS) ->
  calm deadline (with_alarm a b r).
Proof.
  intros [Ho Ht] Hb. split; [exact Ho|]. cbn. destruct Hb as [->| ->]; [exact Ht|].
  destruct Hbrisk as [_ Hb]. specialize (Hb n). unfold HOUSEKEEPING_INTERVAL_MS. lia.
Qed.

Definition greeted (room : string) (t : Z) : attachment :=
  Att SHello None "" room (Some (roomTag (Some room))) false t.

Lemma open_alone room r h c d : vacant deadline d r -> exists r',
  openWS env refuses clock dice room (Tool (World r [] []) h c d)
    = Some (Ok d, Tool (World r' [] []) (length (trace r')) (S (S c)) (S d))
  /\ alone d (greeted room (clock c)) r' /\ kept deadline d r r' /\ admissionWindow r' = admissionWindow r.
Proof.
  intros [He Hc Hf]. set (r1 := set_attachments (<[d := Att SHello None "" room None false (clock c)]> (attachments r)) (set_sockets [d] r)).
  assert (E1 : step env (clock c) (dice c) (EUpgrade d room) (World r [] []) = Some (World r1 [KUpgrade d room] [])).
  { cbn [step rm pending]. rewrite decide_True by (apply Hf; lia). unfold settle. cbn [rm].
    rewrite upgrade_eff by (rewrite He; apply not_elem_of_nil). by rewrite He. }
  assert (Hc1 : calm deadline r1) by (destruct Hc; by split).
  destruct (resume_alone (clock (S c)) d room r1 (clock c)) as (a & b & E2 & Hb); [split; [done|apply lookup_insert_eq]|].
  set (r2 := push _ _) in E2.
  assert (E3 : step env (clock (S c)) (dice (S c)) (EResume 0) (World r1 [KUpgrade d room] []) = Some (World r2 [] [])).
  { cbn [step rm pending lookup list_lookup mbind option_bind]. unfold settle, resume, ebind. cbn [rm]. by rewrite E2. }
  exists r2. split_and!.
  - unfold openWS, cbind, dial. cbn [tdials tworld theard tcalls]. rewrite Hlets.
    rewrite (does _ _ _ _ _ _ _ _ Hc E1), (does _ _ _ _ _ _ _ _ Hc1 E3). done.
  - split; [done|]. unfold r2. cbn [attachments push with_alarm set_alarmAt set_storage set_attachments]. apply lookup_insert_eq.
  - split; [|intros _; destruct (calm_alarm r1 a b (S c) Hc1 Hb) as [X Y]; by split|done..]. intros x Hx. unfold r2, r1.
    cbn [attachments push with_alarm set_alarmAt set_storage set_attachments set_sockets]. by rewrite !lookup_insert_ne.
  - done.
Qed.

Lemma first_heard_skip ws l o l' h : Forall (fun o => hears ws o = None) l -> hears ws o = Some h ->
  first_heard ws (l ++ o :: l') = Some (h, S (length l)).
Proof.
  intros Hl Ho. induction l as [|x l IH]; simpl; [by rewrite Ho|]. apply Forall_cons in Hl as [Hx Hl]. rewrite Hx, (IH Hl). done.
Qed.

Lemma hears_sent ws j : hears ws (Sent ws j) = Some (inl (Some j)).
Proof. simpl. by rewrite Nat.eqb_refl. Qed.

Lemma hears_closed ws code reason : hears ws (Closed ws code reason) = Some (inr (code, reason)).
Proof. simpl. by rewrite Nat.eqb_refl. Qed.

Lemma message_does ws f r a l h c d r' : calm deadline r -> attachments r !! ws = Some a ->
  webSocketMessage env (clock c) (dice c) ws f r = (Done None, r') ->
  ws_send env clock dice ws f (Tool (World r [] l) h c d) = Some (Ok tt, Tool (World r' [] l) h (S c) d).
Proof.
  intros Hc Ha E. apply does; [done|]. cbn [step rm pending]. rewrite Ha, bool_decide_true by done. cbn [busy existsb negb andb].
  unfold settle. cbn [rm callbacks]. by rewrite E.
Qed.

(** The hello, the challenge and the proof. *)
Lemma handshake ws room t r l d c : calm deadline r -> alone ws (greeted room t) r ->
  let w := bump_window (admissionWindow r) ADMISSION_WINDOW_MS (clock (S c)) in
  exists r1 r2 via n,
    ws_send env clock dice ws hello_frame (Tool (World r [] l) (length (trace r)) c d)
      = Some (Ok tt, Tool (World r1 [] l) (length (trace r)) (S c) d)
    /\ nextMessage ws (Tool (World r1 [] l) (length (trace r)) (S c) d)
      = Some (Ok (Some (JObj [("nonce"%string, JStr (b64 (dice c)))])), Tool (World r1 [] l) (length (trace r1)) (S c) d)
    /\ ws_send env clock dice ws proof_frame (Tool (World r1 [] l) (length (trace r1)) (S c) d)
      = Some (Ok tt, Tool (World r2 [] l) (length (trace r1)) (S (S c)) d)
    /\ kept deadline ws r r1 /\ admissionWindow r1 = admissionWindow r
    /\ alone ws (Att SChallenged (Some mac) n room (Some (roomTag (Some room))) false t) r1
    /\ if MAX_ADMISSION_ATTEMPTS <? wcount w then r2 = exec (reject ws "rate limited") (set_admissionWindow w r1)
       else r2 = parked ws room (Some (roomTag (Some room))) t via w r1.
Proof.
  intros Hc [Hs Ha] w. pose proof (hello_eff env (clock c) (dice c) ws r _ _ _ Ha) as E1. set (r1 := push _ _) in E1.
  assert (Hc1 : calm deadline r1) by (destruct Hc; by split).
  assert (Ha1 : attachments r1 !! ws = Some (Att SChallenged (Some mac) (b64 (dice c)) room (Some (roomTag (Some room))) false t))
    by apply lookup_insert_eq.
  destruct (proof_eff env (clock (S c)) (dice (S c)) ws r1 _ _ _ _ (conj Hs Ha1) (calm_open _ _ Hc1)) as (r2 & E2 & H2).
  assert (Hvia : exists via, if MAX_ADMISSION_ATTEMPTS <? wcount w then r2 = exec (reject ws "rate limited") (set_admissionWindow w r1)
       else r2 = parked ws room (Some (roomTag (Some room))) t via w r1).
  { change (admissionWindow r1) with (admissionWindow r) in H2. fold w in H2.
    destruct (MAX_ADMISSION_ATTEMPTS <? wcount w); [by exists ""%string|done]. }
  destruct Hvia as [via Hvia]. exists r1, r2, via, (b64 (dice c)). split_and!; try done.
  - by eapply message_does.
  - unfold nextMessage, outputs. cbn [tworld theard tcalls tdials rm]. change (trace r1) with (trace r ++ [Sent ws (JObj [("nonce"%string, JStr (b64 (dice c)))])]).
    rewrite drop_app_length. cbn [first_heard]. rewrite hears_sent. cbn [mbind option_bind].
    by rewrite length_app.
  - by eapply message_does.
  - split; [|intros _; done|done..]. intros x Hx. unfold r1. cbn. by rewrite lookup_insert_ne.
Qed.

(** Hanging up always works; a socket that was alone leaves the room vacant. *)
Lemma closed_frame_eff ws code reason (r : room) : exists sc cf,
  exec (emod (fun s => set_closeFrameReceived ({[ws]} ∪ closeFrameReceived s) s) ;;; ws_close ws code reason)%eff r
  = push (Closed ws code reason) (set_sockets (filter (fun x => x <> ws) (sockets r)) (set_serverClosed sc (set_closeFrameReceived cf r))).
Proof.
  exists (serverClosed r), ({[ws]} ∪ closeFrameReceived r). unfold exec, ws_close, remove_socket. eff. destruct r. cbn -[union].
  rewrite decide_True by set_solver. reflexivity.
Qed.

Lemma closed_peers_none ws r : sockets r = [] -> closePeerOf ws r = (Done tt, r).
Proof.
  intros Hs. unfold closePeerOf. eff. destruct (attachments r !! ws) as [a|]; [|done]. case_match; [|done]. by rewrite Hs.
Qed.

Lemma hang_up_alone ws r h c d : calm deadline r -> filter (fun x => x <> ws) (sockets r) = [] -> exists r' c',
  hang_up env clock dice ws (Tool (World r [] []) h c d) = Some (Ok tt, Tool (World r' [] []) h c' d)
  /\ sockets r' = [] /\ calm deadline r' /\ attachments r' = attachments r /\ admissionWindow r' = admissionWindow r.
Proof.
  intros Hc Hs. destruct (closed_frame_eff ws 1005 "" r) as (sc & cf & E1). rewrite Hs in E1. set (r1 := push _ _) in E1.
  assert (Hc1 : calm deadline r1) by (destruct Hc; by split).
  unfold hang_up, cbind. rewrite (does (ECloseFrame ws 1005 "") r [] [] h c d (World r1 [] []) Hc) by (cbn [step]; unfold in_room; cbn [rm pending callbacks]; by rewrite E1).
  set (r2 := exec (remove_socket ws) r1). assert (H2 : sockets r2 = []) by done.
  assert (Hc2 : calm deadline r2) by (destruct Hc; by split).
  set (cbs := if decide (ws ∈ serverClosed r2) then [] else [OnClose ws 1005 ""]).
  rewrite (does (EClose ws 1005 "") r1 [] [] h (S c) d (World r2 [] cbs) Hc1) by (cbn [step rm pending callbacks]; done).
  unfold cget. cbn [tworld callbacks]. unfold cbs. destruct (decide (ws ∈ serverClosed r2)); [by eexists r2, _|].
  set (r3 := push (LogDisconnect by_remote (attachments r2 !! ws) (Some 1005) (Some ""%string)) r2).
  assert (H3 : exec (run_callback (OnClose ws 1005 "")) r2 = r3).
  { unfold exec, run_callback, webSocketClose. eff. fold r3. by rewrite closed_peers_none. }
  rewrite (does (ECallback 0) r2 [] [OnClose ws 1005 ""] h (S (S c)) d (World r3 [] []) Hc2)
    by (cbn [step callbacks lookup list_lookup mbind option_bind callback_socket rm pending busy existsb]; by rewrite H3).
  exists r3, (S (S (S c))). split_and!; try done. destruct Hc; by split.
Qed.

Lemma reject_eff ws e (r : room) : exists sc,
  exec (reject ws e) r = push (Closed ws 1008 e) (set_sockets (filter (fun x => x <> ws) (sockets r))
    (set_serverClosed sc (push (LogDisconnect by_relay (attachments r !! ws) (Some 1008) (Some e)) (push (Sent ws (json_error e)) r)))).
Proof.
  unfold exec, reject, closeSocket, ws_close, remove_socket. eff. destruct r. cbn. case_match; eexists; reflexivity.
Qed.

(** What the tool reads once its proof is sent. *)
Lemma answer_heard ws r1 via room tg t w h c d l : h = length (trace r1) ->
  let r2 := parked ws room tg t via w r1 in
  nextJSON ws (Tool (World r2 [] l) h c d) = Some (Ok (JObj json_ok), Tool (World r2 [] l) (length (trace r2)) c d).
Proof.
  intros -> r2. unfold nextJSON, cbind, nextMessage, outputs. cbn [tworld theard tcalls tdials rm].
  set (al := admit_line (Att SChallenged (Some mac) "" room tg false t) mac via false).
  assert (Ht : trace r2 = trace r1 ++ [al; Sent ws (JObj json_ok)]) by (unfold r2, parked; cbn; by rewrite <-app_assoc).
  rewrite Ht, drop_app_length. cbn [first_heard]. rewrite hears_sent. change (hears ws al) with (@None heard). cbn [mbind option_bind].
  by rewrite length_app.
Qed.

Lemma refusal_heard ws r1 w e h c d l : h = length (trace r1) ->
  let r2 := exec (reject ws e) (set_admissionWindow w r1) in exists h',
  nextJSON ws (Tool (World r2 [] l) h c d) = Some (Ok (json_error e), Tool (World r2 [] l) h' c d).
Proof.
  intros -> r2. unfold nextJSON, cbind, nextMessage, outputs. cbn [tworld theard tcalls tdials rm]. unfold r2.
  destruct (reject_eff ws e (set_admissionWindow w r1)) as [sc ->]. cbn [trace push set_sockets set_serverClosed set_admissionWindow].
  rewrite <-!app_assoc, drop_app_length. cbn [app first_heard]. rewrite hears_sent. cbn [mbind option_bind]. by eexists.
Qed.

Lemma parked_alone ws name tg t via w r : alone ws (Att SChallenged (Some mac) "" name tg false t) r \/ sockets r = [ws] ->
  alone ws (Att SAdmitted (Some mac) "" name tg false t) (parked ws name tg t via w r) /\ kept deadline ws r (parked ws name tg t via w r).
Proof.
  intros Hal. assert (Hs : sockets r = [ws]) by (destruct Hal as [[]|]; done). split; [split; [exact Hs|apply lookup_insert_eq]|].
  split; [|intros [X Y]|..]; try done.
  - intros x Hx. cbn. by rewrite lookup_insert_ne.
  - split; [|exact Y]. cbn. by rewrite lookup_insert_ne.
  - cbn. by rewrite lookup_insert_ne.
Qed.

Lemma admitSocket_ok room r h c d : vacant deadline d r ->
  wcount (bump_window (admissionWindow r) ADMISSION_WINDOW_MS (clock (S (S (S c))))) <= MAX_ADMISSION_ATTEMPTS -> exists r' t,
  admitSocket env refuses clock dice room (Tool (World r [] []) h c d)
    = Some (Ok d, Tool (World r' [] []) (length (trace r')) (4 + c) (S d))
  /\ alone d (Att SAdmitted (Some mac) "" room (Some (roomTag (Some room))) false t) r' /\ kept deadline d r r'.
Proof.
  intros Hv Hw. destruct (open_alone room r h c d Hv) as (r1 & E1 & Hal & Hk & Ew).
  pose proof (kept_calm _ _ _ _ Hk (vacant_calm _ _ _ Hv)) as Hc1.
  destruct (handshake d room (clock c) r1 [] (S d) (S (S c)) Hc1 Hal) as (r2 & r3 & via & n & E2 & E3 & E4 & Hk2 & _ & Hal2 & H3).
  rewrite Ew in H3. destruct (Z.ltb_spec MAX_ADMISSION_ATTEMPTS (wcount (bump_window (admissionWindow r) ADMISSION_WINDOW_MS (clock (S (S (S c))))))); [lia|].
  exists r3, (clock c). destruct (parked_alone d room (Some (roomTag (Some room))) (clock c) via
    (bump_window (admissionWindow r) ADMISSION_WINDOW_MS (clock (S (S (S c))))) r2) as [A1 A2]; [right; apply Hal2|].
  rewrite <-H3 in A1, A2. split_and!; [|done|eapply kept_trans; [exact Hk|eapply kept_trans; done]].
  unfold admitSocket, cbind. rewrite E1, E2, E3, E4, H3. rewrite (answer_heard d r2) by done. done.
Qed.

Lemma admitOnce_ok room r h c d : vacant deadline d r ->
  let w := bump_window (admissionWindow r) ADMISSION_WINDOW_MS (clock (S (S (S c)))) in exists r' h' c',
  admitOnce env refuses clock dice room (Tool (World r [] []) h c d)
    = Some (Ok (if MAX_ADMISSION_ATTEMPTS <? wcount w then json_error "rate limited" else JObj json_ok), Tool (World r' [] []) h' c' (S d))
  /\ vacant deadline (S d) r' /\ admissionWindow r' = w.
Proof.
  intros Hv w. destruct (open_alone room r h c d Hv) as (r1 & E1 & Hal & Hk & Ew).
  pose proof (kept_calm _ _ _ _ Hk (vacant_calm _ _ _ Hv)) as Hc1.
  destruct (handshake d room (clock c) r1 [] (S d) (S (S c)) Hc1 Hal) as (r2 & r3 & via & n & E2 & E3 & E4 & Hk2 & _ & Hal2 & H3).
  pose proof (kept_trans _ _ _ _ _ Hk Hk2) as Hk02. pose proof (kept_calm _ _ _ _ Hk02 (vacant_calm _ _ _ Hv)) as Hc2.
  rewrite Ew in H3. fold w in H3.
  assert (Hend : calm deadline r3 /\ filter (fun x => x <> d) (sockets r3) = [] /\ admissionWindow r3 = w
    /\ (forall x, x <> d -> attachments r3 !! x = attachments r2 !! x)).
  { destruct (MAX_ADMISSION_ATTEMPTS <? wcount w); subst r3.
    - destruct (reject_eff d "rate limited" (set_admissionWindow w r2)) as [sc ->]. cbn. rewrite (proj1 Hal2). cbn.
      rewrite decide_False by tauto. split_and!; try done. by destruct Hc2.
    - destruct (parked_alone d room (Some (roomTag (Some room))) (clock c) via w r2) as [[A1 _] A2]; [right; apply Hal2|].
      split_and!; [by apply (kept_calm _ _ _ _ A2)| |done|apply (kept_others _ _ _ _ A2)].
      rewrite A1. cbn. by rewrite decide_False by tauto. }
  destruct Hend as (Hc3 & Hs3 & Hw3 & Ha3). destruct (hang_up_alone d r3 (length (trace r3)) (S (S (S (S c)))) (S d) Hc3 Hs3) as (r4 & c4 & _ & _).
  assert (Hread : exists h3, nextJSON d (Tool (World r3 [] []) (length (trace r2)) (S (S (S (S c)))) (S d))
    = Some (Ok (if MAX_ADMISSION_ATTEMPTS <? wcount w then json_error "rate limited" else JObj json_ok),
            Tool (World r3 [] []) h3 (S (S (S (S c)))) (S d))).
  { destruct (MAX_ADMISSION_ATTEMPTS <? wcount w); rewrite H3;
      [by eapply refusal_heard|eexists; by eapply (answer_heard d r2)]. }
  destruct Hread as [h3 E5]. destruct (hang_up_alone d r3 h3 (S (S (S (S c)))) (S d) Hc3 Hs3) as (r5 & c5 & E6 & S5 & C5 & A5 & W5).
  exists r5, h3, c5. split_and!; [|split; [done|done|]|congruence].
  - unfold admitOnce, ccatch, cbind. rewrite E1, E2, E3, E4, E5, E6. done.
  - intros x Hx. rewrite A5, Ha3 by lia. rewrite (kept_others _ _ _ _ Hk02) by lia. apply Hv. lia.
Qed.

(** The attempts so far, in one window. *)
Definition counted (k : nat) (r : room) : Prop :=
  (k = 0%nat /\ admissionWindow r = Window 0 0)
  \/ exists t, clock 0%nat <= t /\ admissionWindow r = Window t (Z.of_nat k).

Lemma counted_next k r n : counted k r ->
  exists t, clock 0%nat <= t /\ bump_window (admissionWindow r) ADMISSION_WINDOW_MS (clock n) = Window t (Z.of_nat (S k)).
Proof.
  destruct Hbrisk as [H0' Hb]. pose proof (Hb n) as Hn. unfold bump_window, ADMISSION_WINDOW_MS.
  intros [[-> ->]|(t & Ht & ->)]; cbn [wstart wcount].
  - rewrite (proj2 (Z.ltb_lt _ _)) by lia. exists (clock n). by split; [lia|].
  - rewrite (proj2 (Z.ltb_ge _ _)) by lia. exists t. split; [done|]. f_equal. lia.
Qed.

Lemma flood_stopped room n : forall k r h c d, (k + n = 60)%nat -> (k <= 40)%nat -> vacant deadline d r -> counted k r ->
  exists s', admission_flood env refuses clock dice n room k (Tool (World r [] []) h c d)
    = Some (Ok (Report true "rate limited after 40 admits (cap ~40/window)"), s').
Proof.
  induction n as [|n IH]; intros k r h c d Hn Hk Hv Hw; [lia|]. cbn [admission_flood]. unfold cbind.
  destruct (admitOnce_ok room r h c d Hv) as (r1 & h1 & c1 & E & Hv1 & Hw1).
  destruct (counted_next k r (S (S (S c))) Hw) as (t & Ht & Hb). rewrite Hb in E, Hw1. cbn [wcount] in E. rewrite E.
  destruct (decide (k = 40%nat)) as [->|Hne]; [by eexists|].
  rewrite (proj2 (Z.ltb_ge _ _)) by (unfold MAX_ADMISSION_ATTEMPTS; lia). cbn -[admission_flood].
  apply IH; [lia|lia|done|]. right. by exists t.
Qed.

(** ** Lemmas: frames of a lone socket *)

Lemma lone_peers ws (r : room) : Forall (fun x => x = ws) (sockets r) -> closePeerOf ws r = (Done tt, r).
Proof.
  intros Hs. unfold closePeerOf. eff. destruct (attachments r !! ws) as [a|]; [|done]. case_match; [|done].
  generalize (sockets r) Hs. intros l Hl. induction Hl as [|x l -> _ IH]; [done|]. cbn [eforeach]. by rewrite Nat.eqb_refl.
Qed.

Lemma closeSocket_eff ws code reason (r : room) : exists sc, closeSocket ws code reason r = (Done tt,
  push (Closed ws code reason) (set_sockets (filter (fun x => x <> ws) (sockets r))
    (set_serverClosed sc (push (LogDisconnect by_relay (attachments r !! ws) (Some code) (Some reason)) r)))).
Proof.
  unfold closeSocket, ws_close, remove_socket. eff. destruct r. cbn. case_match; eexists; reflexivity.
Qed.

Lemma lone_forward ws a f (r : room) : Forall (fun x => x = ws) (sockets r) -> forward ws a f r = (Done tt, r).
Proof.
  intros Hs. unfold forward. eff. generalize (sockets r) Hs. intros l Hl. induction Hl as [|x l -> _ IH]; [done|].
  cbn [forward_to]. by rewrite Nat.eqb_refl.
Qed.

(** The room closes the lone socket with a code. *)
Definition shut (ws : websocket) (code : Z) (reason : string) (r r' : room) : Prop :=
  sockets r' = [] /\ attachments r' = attachments r /\ (calm deadline r -> calm deadline r')
  /\ trace r' = trace r ++ [LogDisconnect by_relay (attachments r !! ws) (Some code) (Some reason); Closed ws code reason].

Lemma lone_shut ws code reason (r : room) : Forall (fun x => x = ws) (sockets r) -> exists r',
  (closePeerOf ws ;;; closeSocket ws code reason ;;; @eret room (option suspended) None)%eff r = (Done None, r')
  /\ shut ws code reason r r' /\ frameWindow r' = frameWindow r.
Proof.
  intros Hs. destruct (closeSocket_eff ws code reason r) as [sc E]. eexists. split.
  { unfold ebind. rewrite lone_peers by done. rewrite E. reflexivity. }
  split; [|done]. split_and!; cbn; [|done|intros []; by split|by rewrite <-app_assoc].
  generalize (sockets r), Hs. intros l Hl. induction Hl as [|x l -> _ IH]; [done|]. by rewrite filter_cons_False by tauto.
Qed.

Lemma oversized_shut ws now rnd f name tg t (r : room) :
  attachments r !! ws = Some (Att SAdmitted (Some mac) "" name tg false t) -> Forall (fun x => x = ws) (sockets r) ->
  MAX_FRAME_BYTES < frame_size f ->
  exists r', webSocketMessage env now rnd ws f r = (Done None, r') /\ shut ws 1009 "frame too large" r r'.
Proof.
  intros Ha Hs Hf. destruct (lone_shut ws 1009 "frame too large" r Hs) as (r' & E & Hr & _). exists r'. split; [|done].
  rewrite <-E. unfold webSocketMessage, deserializeAttachment. unfold ebind at 1, eget at 1. rewrite Ha. cbn [default state].
  rewrite bool_decide_true by done. by rewrite (proj2 (Z.ltb_lt _ _) Hf).
Qed.

(** [j] frames counted by the limiter, [j] bytes by the quota. *)
Definition paced (j : nat) (r : room) : Prop :=
  (j = 0%nat /\ frameWindow r = Window 0 0) \/ exists t, clock 0%nat <= t /\ frameWindow r = Window t (Z.of_nat j).
Definition charged (j : nat) (r : room) : Prop :=
  (j = 0%nat /\ quota r = None /\ kv (storage r) !! "quota"%string = None)
  \/ exists u, clock 0%nat <= u /\ quota r = Some (Quota u (Z.of_nat j)) /\ quotaFlushedBytes r = 0.

Lemma overQuota_small n j (r : room) : charged j r -> (j <= 500)%nat -> Z.of_nat (S j) <= daily_quota env ->
  exists u, clock 0%nat <= u
    /\ overQuota env (clock n) 1 r = (Done false, set_quota (Some (Quota u (Z.of_nat (S j)))) 0 r).
Proof.
  intros Hc Hj Hq. destruct Hbrisk as [_ Hb]. pose proof (Hb n) as Hn. destruct r as [so at_ sc cf st aa aw fw q qf tr].
  unfold charged in Hc. cbn [quota storage quotaFlushedBytes] in Hc.
  assert (Hl : exists u, clock 0%nat <= u /\ load_quota (clock n) (Room so at_ sc cf st aa aw fw q qf tr)
    = (Done tt, Room so at_ sc cf st aa aw fw (Some (Quota u (Z.of_nat j))) 0 tr)).
  { unfold load_quota. eff. cbn [quota]. destruct Hc as [(-> & -> & Hk)|(u & Hu & -> & ->)]; [|by exists u].
    exists (clock n). split; [lia|]. cbn -[lookup]. rewrite Hk. reflexivity. }
  destruct Hl as (u & Hu & El). exists u. split; [done|].
  unfold overQuota, roll_quota. unfold ebind at 1. rewrite El. eff. cbn -[QUOTA_WINDOW_MS QUOTA_FLUSH_BYTES daily_quota Z.leb Z.ltb Z.add Z.of_nat].
  rewrite (proj2 (Z.leb_gt _ _)) by (unfold QUOTA_WINDOW_MS; lia).
  cbn -[QUOTA_FLUSH_BYTES daily_quota Z.leb Z.ltb Z.add Z.of_nat]. rewrite (proj2 (Z.ltb_ge _ _)) by lia.
  cbn -[QUOTA_FLUSH_BYTES Z.leb Z.add Z.of_nat]. rewrite (proj2 (Z.leb_gt _ _)) by (unfold QUOTA_FLUSH_BYTES; lia).
  cbn -[Z.add Z.of_nat]. replace (Z.of_nat j + 1) with (Z.of_nat (S j)) by lia. reflexivity.
Qed.

(** ** Lemmas: pending sockets *)

(** Hanging up works in any room. *)
Lemma does_any e l r h c d (P : world -> Prop) : (forall r0, exists w', step env (clock c) (dice c) e (World r0 [] l) = Some w' /\ P w') ->
  exists w', relay_does env clock dice e (Tool (World r [] l) h c d) = Some (Ok tt, Tool w' h (S c) d) /\ P w'.
Proof.
  intros He. unfold relay_does. cbn [tcalls tworld theard tdials].
  assert (Ha : exists r0, default (World r [] l) (step env (clock c) [] EAlarm (World r [] l)) = World r0 [] l).
  { cbn [step rm]. destruct (alarmAt r) as [a|]; [|by exists r]. cbn [mbind option_bind]. destruct (a <=? _); [|by exists r].
    unfold in_room. cbn [rm pending callbacks]. by eexists. }
  destruct Ha as [r0 ->]. destruct (He r0) as (w' & E & Hw). exists w'. by rewrite E.
Qed.

Lemma hang_up_any ws r h c d : exists r' c',
  hang_up env clock dice ws (Tool (World r [] []) h c d) = Some (Ok tt, Tool (World r' [] []) h c' d).
Proof.
  unfold hang_up, cbind.
  destruct (does_any (ECloseFrame ws 1005 "") [] r h c d (fun w => exists r', w = World r' [] [])) as (? & -> & r1 & ->);
    [intros r0; eexists; split; [reflexivity|by eexists]|].
  destruct (does_any (EClose ws 1005 "") [] r1 h (S c) d (fun w => exists r', w = World r' [] [] \/ w = World r' [] [OnClose ws 1005 ""]))
    as (? & -> & r2 & Hw); [intros r0; eexists; split; [reflexivity|]; case_match; eexists; by (left + right)|].
  unfold cget. destruct Hw as [->| ->]; cbn [tworld callbacks]; [by eexists _, _|].
  destruct (does_any (ECallback 0) [OnClose ws 1005 ""] r2 h (S (S c)) d (fun w => exists r', w = World r' [] [])) as (? & -> & r3 & ->);
    [intros r0; eexists; split; [reflexivity|by eexists]|]. by eexists _, _.
Qed.

Lemma hang_up_all l : forall r h c d, exists s', cforeach l (hang_up env clock dice) (Tool (World r [] []) h c d) = Some (Ok tt, s').
Proof.
  induction l as [|ws l IH]; intros r h c d; cbn [cforeach]; [by eexists|]. unfold cbind.
  destruct (hang_up_any ws r h c d) as (r1 & c1 & ->). apply IH.
Qed.

Definition waiting (r : room) (ws : websocket) : Prop :=
  exists a, attachments r !! ws = Some a /\ state a <> SAdmitted.

Lemma length_filter_drop (y : nat) l : NoDup l -> y ∈ l -> S (length (filter (fun x => x <> y) l)) = length l.
Proof.
  induction 1 as [|x l Hx Hl IH]; [by intros ?%not_elem_of_nil|]. intros [->|Hy]%elem_of_cons.
  - rewrite filter_cons_False by tauto. cbn [length]. f_equal. clear IH Hl. induction l as [|z l IH]; [done|].
    apply not_elem_of_cons in Hx as [Hz Hx]. rewrite filter_cons_True by done. cbn [length]. by rewrite IH.
  - rewrite filter_cons_True by (intros ->; done). cbn [length]. by rewrite IH.
Qed.

Lemma pre_auth_all r : (forall x, x ∈ sockets r -> waiting r x) ->
  length (pre_auth r) = length (sockets r) /\ forall p, p ∈ pre_auth r -> p.1 ∈ sockets r.
Proof.
  intros Hw. unfold pre_auth. set (f := fun ws => a ← attachments r !! ws; if bool_decide (state a = SAdmitted) then None else Some (ws, a)).
  assert (Hf : forall l, (forall x, x ∈ l -> waiting r x) -> length (omap f l) = length l /\ forall p, p ∈ omap f l -> p.1 ∈ l).
  { induction l as [|x l IH]; intros Hl; [split; [done|by intros p ?%not_elem_of_nil]|].
    destruct (IH (fun y Hy => Hl y (list_elem_of_further _ _ _ Hy))) as [I1 I2]. destruct (Hl x ltac:(left)) as (a & Ea & Hs).
    assert (Ex : f x = Some (x, a)) by (unfold f; rewrite Ea; cbn [mbind option_bind]; by rewrite bool_decide_false).
    cbn [omap list_omap]. rewrite Ex. cbn [length].
    split; [by rewrite I1|]. intros p [->|Hp]%elem_of_cons; [by left|right; auto]. }
  destruct (Hf _ Hw) as [F1 F2]. split; [by rewrite merge_sort_Permutation|]. intros p. rewrite merge_sort_Permutation. apply F2.
Qed.

(** The room after an eviction of [x]. *)
Definition dropped (x : websocket) (sc : gset websocket) (r : room) : room :=
  push (Closed x 1008 "too many pending") (set_sockets (filter (fun y => y <> x) (sockets r)) (set_serverClosed sc
    (push (LogDisconnect by_relay (attachments r !! x) (Some 1008) (Some "too many pending"%string)) r))).

Lemma evict_one r : (forall x, x ∈ sockets r -> waiting r x) -> (length (sockets r) <= 5)%nat ->
  ((length (sockets r) <= 4)%nat /\ evictExcessPreAuth r = (Done tt, r))
  \/ (length (sockets r) = 5%nat /\ exists x sc, x ∈ sockets r /\ evictExcessPreAuth r = (Done tt, dropped x sc r)).
Proof.
  intros Hw Hl. destruct (pre_auth_all r Hw) as [P1 P2]. destruct (decide (length (sockets r) <= 4)%nat) as [H4|H4].
  - left. split; [done|]. apply few_not_evicted. rewrite P1. exact H4.
  - right. split; [lia|]. unfold evictExcessPreAuth, eget. unfold ebind at 1. rewrite P1.
    replace (length (sockets r) - MAX_PREAUTH_SOCKETS)%nat with 1%nat by (unfold MAX_PREAUTH_SOCKETS; lia).
    destruct (pre_auth r) as [|p l] eqn:E; [simpl in P1; lia|]. cbn [take eforeach].
    destruct (closeSocket_eff p.1 1008 "too many pending" r) as [sc Ec]. exists p.1, sc. split; [apply P2; left|].
    unfold ebind. by rewrite Ec.
Qed.

Lemma first_close_app ws l l' x : first_close ws l = Some x -> first_close ws (l ++ l') = Some x.
Proof. induction l as [|o l IH]; [done|]. cbn [first_close app]. destruct (hears ws o) as [[]|]; auto. Qed.

Lemma first_close_none ws l l' : first_close ws l = None -> first_close ws (l ++ l') = first_close ws l'.
Proof. induction l as [|o l IH]; [done|]. cbn [first_close app]. destruct (hears ws o) as [[]|]; auto; done. Qed.

(** After [k] connections: the live sockets wait, and every other one was closed as one
    too many. *)
Record pend (k : nat) (r : room) : Prop := {
  pd_calm : calm deadline r;
  pd_once : NoDup (sockets r);
  pd_live : forall x, x ∈ sockets r -> (x < k)%nat /\ waiting r x;
  pd_fresh : forall x, (k <= x)%nat -> attachments r !! x = None;
  pd_length : length (sockets r) = Nat.min k 4;
  pd_open : forall x, x ∈ sockets r \/ (k <= x)%nat -> first_close x (trace r) = None;
  pd_shut : forall x, (x < k)%nat -> x ∉ sockets r -> first_close x (trace r) = Some (1008, "too many pending"%string) }.

Lemma pend_hello k room r t : pend k r ->
  let r1 := set_attachments (<[k := greeted room t]> (attachments r)) (set_sockets (sockets r ++ [k]) r) in
  (forall x, x ∈ sockets r1 -> (x < S k)%nat /\ waiting r1 x) /\ NoDup (sockets r1) /\ length (sockets r1) = S (Nat.min k 4)
  /\ (forall x, (S k <= x)%nat -> attachments r1 !! x = None) /\ calm deadline r1.
Proof.
  intros [C O L F N _ _] r1. unfold r1. cbn [sockets attachments set_attachments set_sockets]. split_and!.
  - intros x [Hx|Hx]%elem_of_app.
    + destruct (L x Hx) as [Hlt (a & Ea & Hs)]. split; [lia|]. exists a. split; [|done]. cbn. rewrite lookup_insert_ne by lia. exact Ea.
    + apply list_elem_of_singleton in Hx as ->. split; [lia|]. eexists. cbn. rewrite lookup_insert_eq. by split.
  - apply NoDup_app. split_and!; [done| |apply NoDup_singleton]. intros x Hx Hk. apply list_elem_of_singleton in Hk as ->.
    destruct (L k Hx). lia.
  - rewrite length_app, N. simpl. lia.
  - intros x Hx. rewrite lookup_insert_ne by lia. apply F. lia.
  - by destruct C.
Qed.

Lemma pend_next k r r1 r2 o : pend k r -> (k < 6)%nat -> sockets r1 = sockets r ++ [k] -> trace r1 = trace r ->
  (forall x, x ∈ sockets r1 -> (x < S k)%nat /\ waiting r1 x) /\ NoDup (sockets r1) /\ length (sockets r1) = S (Nat.min k 4)
  /\ (forall x, (S k <= x)%nat -> attachments r1 !! x = None) ->
  calm deadline r2 -> attachments r2 = attachments r1 -> (forall x, hears x o = None) ->
  ((length (sockets r1) <= 4)%nat /\ sockets r2 = sockets r1 /\ trace r2 = trace r1 ++ [o]
   \/ length (sockets r1) = 5%nat /\ exists y sc, y ∈ sockets r1 /\ sockets r2 = sockets (dropped y sc r1) /\ trace r2 = trace (dropped y sc r1) ++ [o]) ->
  pend (S k) r2.
Proof.
  intros [_ _ L _ N Op Sh] Hk Es Et (H1 & H2 & H3 & H4) Hc Ea Ho Hcase.
  assert (Hw : forall x, waiting r1 x -> waiting r2 x) by (unfold waiting; by rewrite Ea).
  assert (Hfc : forall x, first_close x [o] = None) by (intros x; cbn; by rewrite Ho).
  assert (Hold : forall x, x ∈ sockets r1 \/ (S k <= x)%nat -> first_close x (trace r1) = None).
  { intros x Hx. rewrite Et. apply Op. rewrite Es, elem_of_app, list_elem_of_singleton in Hx. destruct Hx as [[?| ->]|?]; [auto|right; lia|right; lia]. }
  assert (Hshut : forall x, (x < S k)%nat -> x ∉ sockets r1 -> first_close x (trace r1) = Some (1008, "too many pending"%string)).
  { intros x Hx Hn. rewrite Et. rewrite Es, elem_of_app, list_elem_of_singleton in Hn. apply Sh; [lia|tauto]. }
  destruct Hcase as [(Hl & E1 & E2)|(Hl & y & sc & Hy & E1 & E2)]; split; rewrite ?E1, ?E2, ?Ea; try done.
  - intros x Hx. destruct (H1 x Hx). auto.
  - rewrite H3. rewrite H3 in Hl. lia.
  - intros x Hx. by rewrite first_close_none by auto.
  - intros x Hx Hn. apply first_close_app. auto.
  - by apply NoDup_filter.
  - intros x [_ Hx]%list_elem_of_filter. destruct (H1 x Hx). auto.
  - cbn [sockets dropped push set_sockets]. rewrite H3 in Hl.
    pose proof (length_filter_drop y (sockets r1) H2 Hy). rewrite H3 in *. lia.
  - intros x Hx. cbn [trace dropped push set_sockets set_serverClosed] in *. rewrite <-!app_assoc.
    rewrite first_close_none; [cbn; rewrite (proj2 (Nat.eqb_neq y x)); [by rewrite Ho|]|];
      [intros ->; destruct Hx as [[Hx _]%list_elem_of_filter|Hx]; [done|destruct (H1 x Hy); lia]|].
    apply Hold. destruct Hx as [[_ Hx]%list_elem_of_filter|Hx]; auto.
  - intros x Hx Hn. cbn [trace dropped push set_sockets set_serverClosed sockets] in *. rewrite <-!app_assoc.
    destruct (decide (x = y)) as [->|Hne].
    + rewrite first_close_none by auto. cbn. by rewrite Nat.eqb_refl.
    + apply first_close_app. apply Hshut; [done|]. intros Hin. apply Hn. by apply list_elem_of_filter.
Qed.

Lemma open_pend room k r h c : pend k r -> (k < 6)%nat -> exists r',
  openWS env refuses clock dice room (Tool (World r [] []) h c k)
    = Some (Ok k, Tool (World r' [] []) (length (trace r')) (S (S c)) (S k)) /\ pend (S k) r'.
Proof.
  intros Hp Hk. pose proof Hp as [C _ L F N _ _].
  assert (Hn : k ∉ sockets r) by (intros Hin; destruct (L k Hin); lia).
  set (r0 := set_attachments (<[k := Att SHello None "" room None false (clock c)]> (attachments r)) (set_sockets (sockets r ++ [k]) r)).
  set (r1 := set_attachments (<[k := greeted room (clock c)]> (attachments r)) (set_sockets (sockets r ++ [k]) r)).
  assert (E1 : step env (clock c) (dice c) (EUpgrade k room) (World r [] []) = Some (World r0 [KUpgrade k room] [])).
  { cbn [step rm pending]. rewrite decide_True by (apply F; lia). unfold settle. cbn [rm]. by rewrite upgrade_eff by done. }
  assert (Hc0 : calm deadline r0) by (destruct C; by split).
  destruct (pend_hello k room r (clock c) Hp) as (H1 & H2 & H3 & H4 & Hc1). fold r1 in H1, H2, H3, H4, Hc1.
  set (o := LogLifecycle "connect" (Some (roomTag (Some room))) None "").
  assert (Hev : exists r2, evictExcessPreAuth r1 = (Done tt, r2) /\ calm deadline r2 /\ attachments r2 = attachments r1 /\
    ((length (sockets r1) <= 4)%nat /\ sockets r2 = sockets r1 /\ trace r2 = trace r1
     \/ length (sockets r1) = 5%nat /\ exists y sc, y ∈ sockets r1 /\ sockets r2 = sockets (dropped y sc r1) /\ trace r2 = trace (dropped y sc r1))).
  { destruct (evict_one r1) as [[Hl E]|(Hl & y & sc & Hy & E)]; [by intros x [_ Hx]%H1|rewrite H3; lia| |].
    - exists r1. split; [done|]. split_and!; [done|done|by left].
    - exists (dropped y sc r1). split; [done|]. split; [by destruct Hc1|]. split; [done|]. right. split; [done|]. by exists y, sc. }
  destruct Hev as (r2 & E2 & Hc2 & Ha2 & Hcase). destruct (ensureAlarm_eff (clock (S c)) r2) as (a & b & E3 & Hb).
  set (r3 := push o (with_alarm a b r2)).
  assert (E4 : handleUpgrade_resume (clock (S c)) k room r0 = (Done tt, r3)).
  { rewrite (tagged_eff _ _ _ _ (clock c)) by apply lookup_insert_eq.
    assert (Hr : set_attachments (<[k := Att SHello None "" room (Some (roomTag (Some room))) false (clock c)]> (attachments r0)) r0 = r1)
      by (unfold r0, r1; cbn [attachments set_attachments]; by rewrite insert_insert_eq).
    rewrite Hr. unfold ebind. rewrite E2, E3. done. }
  assert (E5 : step env (clock (S c)) (dice (S c)) (EResume 0) (World r0 [KUpgrade k room] []) = Some (World r3 [] [])).
  { cbn [step rm pending lookup list_lookup mbind option_bind]. unfold settle, resume, ebind. cbn [rm]. by rewrite E4. }
  exists r3. split.
  - unfold openWS, cbind, dial. cbn [tdials tworld theard tcalls]. rewrite Hlets.
    rewrite (does _ _ _ _ _ _ _ _ C E1), (does _ _ _ _ _ _ _ _ Hc0 E5). done.
  - apply (pend_next k r r1 r3 o Hp Hk); try done.
    + destruct (calm_alarm r2 a b (S c) Hc2 Hb) as [X Y]. by split.
    + destruct Hcase as [(Hl & Es & Et)|(Hl & y & sc & Hy & Es & Et)]; [left|right].
      * split_and!; [done|exact Es|]. cbn. by rewrite Et.
      * split; [done|]. exists y, sc. split_and!; [done|exact Es|]. cbn. by rewrite Et.
Qed.

Lemma open_all room n : forall k r h c, pend k r -> (k + n <= 6)%nat -> exists r' h' c',
  open_pending env refuses clock dice n room (Tool (World r [] []) h c k)
    = Some (Ok (seq k n), Tool (World r' [] []) h' c' (k + n)) /\ pend (k + n) r'.
Proof.
  induction n as [|n IH]; intros k r h c Hp Hn; cbn [open_pending seq].
  - exists r, h, c. by rewrite Nat.add_0_r.
  - destruct (open_pend room k r h c Hp ltac:(lia)) as (r1 & E & Hp1).
    destruct (IH (S k) r1 (length (trace r1)) (S (S c)) Hp1 ltac:(lia)) as (r2 & h2 & c2 & E2 & Hp2).
    exists r2, h2, c2. rewrite Nat.add_succ_r. split; [|done]. unfold cbind, ccatch. rewrite E. cbn. by rewrite E2.
Qed.

(** Two of six pending sockets are evicted. *)
Lemma pend_evicted r : pend 6 r -> countb (evicted (trace r)) (seq 0 6) = 2%nat.
Proof.
  intros [_ O L _ N Op Sh]. assert (Hperm : filter (fun x => x ∈ sockets r) (seq 0 6) ≡ₚ sockets r).
  { apply NoDup_Permutation; [apply NoDup_filter, NoDup_seq|done|]. intros x. rewrite list_elem_of_filter, elem_of_seq.
    split; [tauto|]. intros Hx. split; [done|]. destruct (L x Hx). lia. }
  assert (Hsum : forall l : list nat, (forall x, x ∈ l -> (x < 6)%nat) ->
    (countb (evicted (trace r)) l + length (filter (fun x => x ∈ sockets r) l) = length l)%nat).
  { induction l as [|x l IH]; intros Hl; [done|]. specialize (IH (fun y Hy => Hl y (list_elem_of_further _ _ _ Hy))).
    pose proof (Hl x ltac:(left)) as Hx. cbn [countb]. destruct (decide (x ∈ sockets r)) as [Hin|Hin].
    - rewrite filter_cons_True by done. unfold evicted at 1. rewrite Op by auto. cbn [length]. lia.
    - rewrite filter_cons_False by done. unfold evicted at 1. rewrite Sh by done. cbn [length]. change (1008 =? 1008) with true. cbn. lia. }
  specialize (Hsum (seq 0 6) (fun x Hx => proj2 (proj1 (elem_of_seq _ _ _) Hx))). rewrite Hperm, N in Hsum. cbn [length seq Nat.min] in Hsum.
  revert Hsum. cbn [seq]. lia.
Qed.

Context (Hfast : forall n, clock n <= clock 0%nat + 1000).

Lemma paced_next j r n : paced j r ->
  exists t, clock 0%nat <= t /\ bump_window (frameWindow r) FRAME_WINDOW_MS (clock n) = Window t (Z.of_nat (S j)).
Proof.
  destruct Hbrisk as [H0' Hb]. pose proof (Hb n) as Hn. pose proof (Hfast n) as Hn'. unfold bump_window, FRAME_WINDOW_MS.
  intros [[-> ->]|(t & Ht & ->)]; cbn [wstart wcount].
  - rewrite (proj2 (Z.ltb_lt _ _)) by lia. exists (clock n). by split; [lia|].
  - rewrite (proj2 (Z.ltb_ge _ _)) by lia. exists t. split; [done|]. f_equal. lia.
Qed.

(** An admitted mac, alone or already closed. *)
Definition lone_mac (ws : websocket) (r : room) : Prop :=
  calm deadline r /\ (exists name tg t, attachments r !! ws = Some (Att SAdmitted (Some mac) "" name tg false t))
  /\ Forall (fun x => x = ws) (sockets r).

Lemma limited_eff (get_w : room -> window) (set_w : window -> room -> room) max windowMs now (r : room) :
  rateLimited get_w set_w max windowMs now r
  = (Done (max <? wcount (get_w (set_w (bump_window (get_w r) windowMs now) r))), set_w (bump_window (get_w r) windowMs now) r).
Proof. reflexivity. Qed.

Lemma small_frame n rnd ws j r : 500 <= daily_quota env -> lone_mac ws r -> paced j r -> ((j < 500)%nat -> charged j r) ->
  exists r', webSocketMessage env (clock n) rnd ws (zeros 1) r = (Done None, r') /\ lone_mac ws r' /\ paced (S j) r'
  /\ if (500 <=? j)%nat then shut ws 1008 "frame rate exceeded" r r' else trace r' = trace r /\ charged (S j) r'.
Proof.
  intros Hq (Hc & (name & tg & t & Ha) & Hs) Hp Hch. destruct (paced_next j r n Hp) as (t' & Ht' & Hw).
  set (w := Window t' (Z.of_nat (S j))) in *. set (r1 := set_frameWindow w r).
  assert (E1 : webSocketMessage env (clock n) rnd ws (zeros 1) r
    = (if MAX_FRAMES_PER_WINDOW <? Z.of_nat (S j)
       then closePeerOf ws ;;; closeSocket ws 1008 "frame rate exceeded" ;;; eret None
       else over <- overQuota env (clock n) 1 ;;
            if over then eret None else forward ws (Att SAdmitted (Some mac) "" name tg false t) (zeros 1) ;;; eret None)%eff r1).
  { unfold webSocketMessage, deserializeAttachment. unfold ebind at 1, eget at 1. rewrite Ha. cbn [default state].
    rewrite bool_decide_true by done. change (MAX_FRAME_BYTES <? frame_size (zeros 1)) with false. cbn [id state].
    unfold ebind at 1. rewrite limited_eff, Hw. fold r1. change (frameWindow r1) with w. cbn [wcount w].
    change (frame_size (zeros 1)) with 1. by destruct (_ <? _). }
  rewrite E1. assert (Hp1 : forall x, frameWindow x = w -> paced (S j) x) by (intros x Hx; right; by exists t').
  destruct (Nat.leb_spec 500 j) as [Hj|Hj].
  - rewrite (proj2 (Z.ltb_lt _ _)) by (unfold MAX_FRAMES_PER_WINDOW; lia).
    destruct (lone_shut ws 1008 "frame rate exceeded" r1 Hs) as (r' & E2 & (S1 & S2 & S3 & S4) & Hf). exists r'.
    split; [exact E2|]. split; [|split; [by apply Hp1|split_and!; [done|done|intros _; apply S3; by destruct Hc|done]]].
    split; [apply S3; by destruct Hc|]. split; [rewrite S2; by eexists _, _, _|by rewrite S1].
  - rewrite (proj2 (Z.ltb_ge _ _)) by (unfold MAX_FRAMES_PER_WINDOW; lia).
    destruct (overQuota_small n j r1 (Hch Hj)) as (u & Hu & E2); [lia|lia|]. unfold ebind at 1. rewrite E2.
    eexists. split; [unfold ebind; by rewrite lone_forward|]. split; [|split; [by apply Hp1|split; [done|right; by exists u]]].
    split; [by destruct Hc|]. split; [by eexists _, _, _|done].
Qed.

Lemma shut_close ws code reason r r' l : shut ws code reason r r' -> trace r = l -> first_close ws (drop (length l) (trace r')) = Some (code, reason).
Proof. intros (_ & _ & _ & ->) ->. rewrite drop_app_length. cbn [first_close hears]. by rewrite Nat.eqb_refl. Qed.

Lemma shut_more ws code reason r r' n x : shut ws code reason r r' -> (n <= length (trace r))%nat ->
  first_close ws (drop n (trace r)) = Some x -> first_close ws (drop n (trace r')) = Some x.
Proof. intros (_ & _ & _ & ->) Hn Hx. rewrite drop_app_le by done. by apply first_close_app. Qed.

Lemma lone_mac_does n rnd ws r r' h c d : lone_mac ws r -> n = clock c -> rnd = dice c ->
  webSocketMessage env n rnd ws (zeros 1) r = (Done None, r') ->
  ws_send env clock dice ws (zeros 1) (Tool (World r [] []) h c d) = Some (Ok tt, Tool (World r' [] []) h (S c) d).
Proof. intros (Hc & (name & tg & t & Ha) & _) -> -> E. by eapply message_does. Qed.

(** The flood: while the count is within the limit nothing is said; then the socket is
    closed, and stays so. *)
Lemma flood_frames from ws m : 500 <= daily_quota env -> forall j r h c d,
  lone_mac ws r -> paced j r -> ((j < 500)%nat -> charged j r) ->
  (if (500 <? j)%nat then (from <= length (trace r))%nat /\ first_close ws (drop from (trace r)) = Some (1008, "frame rate exceeded"%string)
   else length (trace r) = from) ->
  (500 < j + m)%nat ->
  exists r' c', cforeach (repeat (zeros 1) m) (ws_send env clock dice ws) (Tool (World r [] []) h c d)
      = Some (Ok tt, Tool (World r' [] []) h c' d)
    /\ lone_mac ws r' /\ first_close ws (drop from (trace r')) = Some (1008, "frame rate exceeded"%string).
Proof.
  intros Hq. induction m as [|m IH]; intros j r h c d Hm Hp Hch Ht Hjm.
  - exists r, c. rewrite (proj2 (Nat.ltb_lt _ _)) in Ht by lia. by destruct Ht.
  - destruct (small_frame c (dice c) ws j r Hq Hm Hp Hch) as (r1 & E & Hm1 & Hp1 & Hr1).
    cbn [repeat cforeach]. unfold cbind at 1. rewrite (lone_mac_does _ _ _ _ _ h c d Hm eq_refl eq_refl E).
    apply (IH (S j)); [done|done| | |lia].
    + intros Hj. rewrite (proj2 (Nat.leb_gt _ _)) in Hr1 by lia. apply Hr1.
    + destruct (Nat.leb_spec 500 j) as [Hj|Hj].
      * rewrite (proj2 (Nat.ltb_lt 500 (S j))) by lia. pose proof Hr1 as (_ & _ & _ & Htr). split.
        { rewrite Htr, length_app. destruct (500 <? j)%nat; lia. }
        destruct (Nat.ltb_spec 500 j); [by eapply shut_more; [done|apply Ht|apply Ht]|subst from; by eapply shut_close].
      * rewrite (proj2 (Nat.ltb_ge _ _)) by lia. rewrite (proj2 (Nat.ltb_ge _ _)) in Ht by lia. by rewrite (proj1 Hr1).
Qed.
End Client.

(** ** Lemmas: the probes' verdicts *)

Section Verdicts.
Context `{Crypto} `{AppAttest} (env : environment) (refuses : nat -> option Z) (clock : nat -> Z) (dice : nat -> bytes).
Context (Hlets : forall n, refuses n = None) (Hbrisk : brisk clock 10000).

Lemma initial_vacant d : vacant (clock 0%nat + 10000) d (rm initial).
Proof. split; [done|by split|done]. Qed.

Lemma initial_pend : pend clock 0 (rm initial).
Proof.
  split; try done; [apply NoDup_nil_2|by intros x ?%not_elem_of_nil|intros x Hx; lia].
Qed.

Lemma first_admitted room c : exists r' t,
  admitSocket env refuses clock dice room (Tool initial 0 c 0) = Some (Ok 0%nat, Tool (World r' [] []) (length (trace r')) (4 + c) 1)
  /\ alone 0 (Att SAdmitted (Some mac) "" room (Some (roomTag (Some room))) false t) r'
  /\ kept (clock 0%nat + 10000) 0 (rm initial) r'.
Proof.
  apply (admitSocket_ok env refuses clock dice Hlets Hbrisk room (rm initial) 0 c 0); [apply initial_vacant|].
  unfold bump_window. cbn [rm initial new_room admissionWindow wstart wcount]. destruct (_ <? _); unfold MAX_ADMISSION_ATTEMPTS; simpl; lia.
Qed.

Lemma admitted_lone room t r' : alone 0 (Att SAdmitted (Some mac) "" room (Some (roomTag (Some room))) false t) r' ->
  kept (clock 0%nat + 10000) 0 (rm initial) r' -> lone_mac clock 0 r'.
Proof.
  intros [Hs Ha] Hk. split; [apply (kept_calm _ _ _ _ Hk); by split|]. split; [by eexists _, _, _|]. rewrite Hs. by constructor.
Qed.

Lemma pending_verdict : run_probe (probePreAuthCap env refuses clock dice)
  = Some (Report true "2/6 pending sockets evicted (1008 too many pending)").
Proof.
  unfold run_probe, probePreAuthCap, cbind, freshRoom. cbn [tcalls tworld theard tdials].
  destruct (open_all env refuses clock dice Hlets Hbrisk (hex (dice 0%nat)) 6 0 (rm initial) 0 1 initial_pend ltac:(lia)) as (r & h & c & E & Hp).
  change (World (rm initial) [] []) with initial in E. unfold PENDING. rewrite E. unfold cget, outputs. cbn [tworld rm]. rewrite (pend_evicted clock dice r Hp).
  destruct (hang_up_all env clock dice (seq 0 6) r h c (0 + 6)) as [s' ->]. reflexivity.
Qed.

Lemma admission_verdict : run_probe (probeAdmissionFlood env refuses clock dice)
  = Some (Report true "rate limited after 40 admits (cap ~40/window)").
Proof.
  unfold run_probe, probeAdmissionFlood, cbind, freshRoom. cbn [tcalls tworld theard tdials].
  destruct (flood_stopped env refuses clock dice Hlets Hbrisk (hex (dice 0%nat)) 60 0 (rm initial) 0 1 0) as [s' E];
    [lia|lia|apply initial_vacant|by left|]. change (World (rm initial) [] []) with initial in E. by rewrite E.
Qed.

Lemma zeros_size n : frame_size (zeros n) = Z.of_nat n.
Proof.
  unfold frame_size, zeros. cbn [binary payload]. f_equal. induction n as [|[|n] IH]; [done|done|].
  change (S (String.length (String.concat "" (repeat (String (ascii_of_nat 0) "") (S n)))) = S (S n)). by rewrite IH.
Qed.

Lemma oversized_verdict : run_probe (probeOversizedFrame env refuses clock dice) = Some (Report true "closed 1009 frame too large").
Proof.
  unfold run_probe, probeOversizedFrame, cbind, freshRoom. cbn [tcalls tworld theard tdials].
  destruct (first_admitted (hex (dice 0%nat)) 1) as (r & t & E & Hal & Hk). rewrite E. unfold cget at 1, outputs. cbn [tworld rm].
  destruct (admitted_lone _ _ _ Hal Hk) as (Hc & _ & Hs). set (big := zeros (300 * 1024)).
  assert (Hbig : MAX_FRAME_BYTES < frame_size big) by (unfold big; rewrite zeros_size, Nat2Z.inj_mul; unfold MAX_FRAME_BYTES; simpl; lia).
  clearbody big.
  destruct (oversized_shut env clock dice 0 (clock 5%nat) (dice 5%nat) big _ _ _ r (proj2 Hal) Hs Hbig) as (r1 & E1 & Hshut).
  rewrite (message_does env clock dice Hbrisk _ _ _ _ _ _ _ _ _ Hc (proj2 Hal) E1).
  unfold close_heard, cget, outputs. cbn [tworld rm]. rewrite (shut_close _ _ _ _ _ _ _ Hshut eq_refl).
  destruct (hang_up_any env clock dice 0 r1 (length (trace r)) 6 1) as (r2 & c2 & ->). reflexivity.
Qed.

Lemma flood_verdict : (forall n, clock n <= clock 0%nat + 1000) -> 500 <= daily_quota env ->
  run_probe (probeFrameFlood env refuses clock dice) = Some (Report true "closed 1008 frame rate exceeded").
Proof.
  intros Hfast Hq. unfold run_probe, probeFrameFlood, cbind, freshRoom. cbn [tcalls tworld theard tdials].
  destruct (first_admitted (hex (dice 0%nat)) 1) as (r & t & E & Hal & Hk). rewrite E. unfold cget at 1, outputs. cbn [tworld rm].
  pose proof (admitted_lone _ _ _ Hal Hk) as Hm. destruct Hk as [_ _ K1 K2 [K3 K4]].
  destruct (flood_frames env clock dice Hbrisk Hfast (length (trace r)) 0 700 Hq 0 r (length (trace r)) (4 + 1) 1 Hm) as (r1 & c1 & E1 & Hm1 & Hcl);
    [by left|intros _; by left|done|lia|].
  rewrite E1. unfold close_heard, cget, outputs. cbn [tworld rm]. rewrite Hcl.
  destruct (hang_up_any env clock dice 0 r1 (length (trace r)) c1 1) as (r2 & c2 & ->). reflexivity.
Qed.

Lemma challenge_eff now rnd req : exists a b st,
  handleAttestChallenge now rnd req (rm initial) = (Done None,
    push (Replied req 200 (JObj (json_ok ++ [("challenge"%string, JStr (b64 rnd))]))) (with_alarm a b (set_storage st (rm initial))))
  /\ kv st !! "verifier"%string = None /\ (b = None \/ b = Some (now + HOUSEKEEPING_INTERVAL_MS)).
Proof.
  unfold handleAttestChallenge. unfold ebind at 1.
  assert (E : prune_prefix now "attestchallenge:" (rm initial) = (Done 0, rm initial)) by (vm_compute; reflexivity).
  rewrite E. change (MAX_OUTSTANDING_CHALLENGES <=? 0) with false. cbv iota.
  set (st := RStore (<["attestchallenge:" +:+ b64 rnd := VChallenge (now + ATTEST_CHALLENGE_TTL_MS)]> ∅) None).
  assert (E2 : sput ("attestchallenge:" +:+ b64 rnd) (VChallenge (now + ATTEST_CHALLENGE_TTL_MS)) (rm initial) = (Done tt, set_storage st (rm initial)))
    by reflexivity.
  destruct (ensureAlarm_eff now (set_storage st (rm initial))) as (a & b & E3 & Hb). exists a, b, st.
  split; [|split; [|exact Hb]].
  - cbv zeta. unfold ebind at 1. rewrite E2. unfold ebind at 1. rewrite E3. reflexivity.
  - cbn [kv st]. by rewrite lookup_insert_ne, lookup_empty by discriminate.
Qed.

Lemma unestablished_delete now req room body r : is_Some (JSON_parse body) -> kv (storage r) !! "verifier"%string = None ->
  exists r', handleDelete env now req room body r = (Done None, r') /\ trace r' = trace r ++ [Replied req 403 (json_error "not established")].
Proof.
  intros [j Hj] Hk. unfold handleDelete. rewrite Hj. unfold respond. eff. cbn -[lookup]. rewrite Hk. cbn. by eexists.
Qed.

Lemma delete_verdict : (forall n, Forall is_byte (dice n)) ->
  run_probe (probeUnauthorizedDelete env refuses clock dice) = Some (Report true "HTTP 403 (not established)").
Proof.
  intros Hdice. unfold run_probe, probeUnauthorizedDelete, cbind, freshRoom, post, dial. cbn [tcalls tworld theard tdials].
  destruct (challenge_eff (clock 1%nat) (dice 1%nat) 0) as (a & b & st & E1 & Hk & Hb). set (r1 := push _ _) in E1.
  unfold cbind, dial. cbn [tcalls tworld theard tdials]. rewrite Hlets.
  assert (Hstep1 : step env (clock 1%nat) (dice 1%nat) (EHttp 0 "POST" "/attest/challenge" (hex (dice 0%nat)) "") initial = Some (World r1 [] [])).
  { cbn [step]. unfold settle, handleHttp. cbn -[handleAttestChallenge rm]. by rewrite E1. }
  assert (Hc0 : calm (clock 0%nat + 10000) (rm initial)) by by split.
  rewrite (does env clock dice Hbrisk _ (rm initial) [] [] _ _ _ _ Hc0 Hstep1).
  assert (Hc1 : calm (clock 0%nat + 10000) r1).
  { split; [exact Hk|]. cbn. destruct Hb as [->| ->]; [done|]. destruct Hbrisk as [_ Hbr]. specialize (Hbr 1%nat).
    unfold HOUSEKEEPING_INTERVAL_MS. lia. }
  unfold outputs. cbn [tworld rm]. change (reply_to 0 (trace r1)) with (Some (200, JObj (json_ok ++ [("challenge"%string, JStr (b64 (dice 1%nat)))]))).
  cbn [mbind option_bind snd tdials tcalls theard tworld]. rewrite Hlets.
  change (jget (JObj (json_ok ++ [("challenge"%string, JStr (b64 (dice 1%nat)))])) "challenge") with (Some (JStr (b64 (dice 1%nat)))).
  destruct (unestablished_delete (clock 2%nat) 1 (hex (dice 0%nat)) (delete_body (Some (JStr (b64 (dice 1%nat))))) r1
    (delete_body_parses _ (b64_plain _ (Hdice 1%nat))) Hk) as (r2 & E2 & Ht2).
  set (text := delete_body _) in *. clearbody text.
  assert (Hstep2 : step env (clock 2%nat) (dice 2%nat) (EHttp 1 "POST" "/delete" (hex (dice 0%nat)) text) (World r1 [] []) = Some (World r2 [] [])).
  { cbn [step]. unfold settle, handleHttp. cbn -[handleDelete]. by rewrite E2. }
  rewrite (does env clock dice Hbrisk _ r1 [] [] _ _ _ _ Hc1 Hstep2). cbn [tworld rm]. rewrite Ht2. reflexivity.
Qed.
End Verdicts.

(** ** Properties *)

(** C29: the probe reports the defences of this relay as they are. When the host lets
    its connections through, each probe is over within ten seconds and the frame flood
    within one, and the daily quota allows five hundred bytes, the tool prints that
    every attack is stopped, how, and exits with 0: two of six pending sockets
    evicted, the forty-first admission refused, the oversized frame and the flood
    answered with 1009 and 1008, the deletion with 403. It never waits forever. *)
Theorem defenses_held `{Crypto} `{AppAttest} (env : environment) (cs : list conditions) :
  length cs = 5%nat ->
  Forall (fun c => (forall n, crefuses c n = None) /\ brisk (cclock c) 10000 /\ forall n, Forall is_byte (cdice c n)) cs ->
  (forall c, cs !! 3%nat = Some c -> forall n, cclock c n <= cclock c 0%nat + 1000) ->
  500 <= daily_quota env ->
  tool_main env cs = Some
    (["[1  Pre-auth socket cap        ] STOPPED  ✓     2/6 pending sockets evicted (1008 too many pending)";
      "[2  Admission flood rate limit ] STOPPED  ✓     rate limited after 40 admits (cap ~40/window)";
      "[3a Oversized spliced frame    ] STOPPED  ✓     closed 1009 frame too large";
      "[3b Spliced frame flood        ] STOPPED  ✓     closed 1008 frame rate exceeded";
      "[4  Unauthorized room delete   ] STOPPED  ✓     HTTP 403 (not established)";
      "All defenses held."]%string, 0).
Proof.
  intros Hl Hall Hfast Hq. destruct cs as [|c1 [|c2 [|c3 [|c4 [|c5 [|]]]]]]; try done. specialize (Hfast c4 eq_refl).
  repeat match goal with Hx : Forall _ (_ :: _) |- _ => apply Forall_cons in Hx as [(? & ? & ?) Hx] end.
  unfold tool_main, PROBES. cbn [run_probes].
  rewrite pending_verdict, admission_verdict, oversized_verdict, flood_verdict, delete_verdict by done. reflexivity.
Qed.

(** A host that refuses the connection, as its own limiter does to a tool run too
    often, is reported as an attack that got through. *)
Lemma refusal_reported_as_attack `{Crypto} `{AppAttest} (env : environment) refuses clock dice status :
  refuses 0%nat = Some status ->
  run_probe (probeAdmissionFlood env refuses clock dice)
  = Some (Report false ("probe error: Unexpected server response: " +:+ pretty status)).
Proof.
  intros E. assert (Ha : forall room s, tdials s = 0%nat -> exists s',
    admitOnce env refuses clock dice room s = Some (Err ("Unexpected server response: " +:+ pretty status), s')).
  { intros room [w h c d] Hd. cbn in Hd. subst d. eexists. unfold admitOnce, openWS, cbind, dial. cbn [tdials]. rewrite E. reflexivity. }
  unfold run_probe, probeAdmissionFlood, cbind, freshRoom. generalize 59%nat as n. intros n.
  cbn [tcalls tworld theard tdials]. change (admission_flood env refuses clock dice (S n)) with
    (fun room admits => cbind (admitOnce env refuses clock dice room) (fun r =>
      if match jget r "error" with Some (JStr e) => String.eqb e "rate limited" | _ => false end
      then cret (Report true ("rate limited after " +:+ pretty admits +:+ " admits (cap ~40/window)"))
      else admission_flood env refuses clock dice n room (if jtruthy (jget r "ok") then S admits else admits))).
  cbv beta. unfold cbind. destruct (Ha (hex (dice 0%nat)) (Tool initial 0 1 0) eq_refl) as [s' ->]. reflexivity.
Qed.

(** ** Witnesses *)

#[local] Existing Instance toy_crypto.
#[local] Existing Instance toy_attest.

(** Every call takes so many milliseconds. *)
Definition paced_by (ms : Z) : conditions :=
  Conditions (fun _ => None) (fun n => 1750000000000 + Z.min (Z.of_nat n * ms) 10000) (fun n => [Z.of_nat n mod 256]).
Definition quick : conditions :=
  Conditions (fun _ => None) (fun n => 1750000000000 + Z.min (Z.of_nat n) 1000) (fun n => [Z.of_nat n mod 256]).

Definition default_env : environment := Environment None "https://relay" None None "app" "production" None.

Lemma defenses_held_witness : exists lines,
  tool_main default_env [paced_by 20; paced_by 20; paced_by 20; quick; paced_by 20] = Some (lines, 0)
  /\ length lines = 6%nat.
Proof.
  eexists. split; [apply (defenses_held default_env [paced_by 20; paced_by 20; paced_by 20; quick; paced_by 20])|reflexivity].
  - reflexivity.
  - assert (Hb : forall n : nat, Forall is_byte [Z.of_nat n mod 256]).
    { intros n. constructor; [|constructor]. unfold is_byte. pose proof (Z.mod_pos_bound (Z.of_nat n) 256). lia. }
    repeat (apply Forall_cons; split; [split; [done|split; [split; [done|]|exact Hb]]|]); [..|by constructor];
      intros n; cbn [cclock paced_by quick]; lia.
  - intros c [= <-] n. cbn [cclock quick]. lia.
  - vm_compute. discriminate.
Defined.

(** On a link where an admission takes 420 ms the limiter, which works, is reported
    missing: forty attempts never fall into one of its windows. *)
Example slow_link_gets_through :
  run_probe (probeAdmissionFlood default_env (fun _ => None) (fun n => 1750000000000 + Z.of_nat n * 60) (fun n => [Z.of_nat n mod 256]))
  = Some (Report false "60 admits, never rate limited").
Proof. vm_compute. reflexivity. Qed.
