(* ===== verification/Service.v ===== *)
(** The relay as it runs ([createRelay], [listen] and [close] of [host/server.js]):
    the process of gates, sockets and rooms with what drives it on its own, the shard
    map's poller, the drain ticker, the keepalive sweep and the metrics push, from the
    boot that fetches a first map to the shutdown that waits for the last connection.

    The HTTP server and the WebSocket server are those of Node and [ws]: a server
    that was closed still answers on the connections it has, until they have ended;
    a closed WebSocket server completes no handshake; their [close] callbacks fire
    when the last connection, or the last client, is gone. *)

From Stdlib Require Import QArith.
From S2P Require Import Prelude Bytes ShardGate ShardMap ShardStore ShardFetch RoomState Drain Runtime Host Monitor Metrics HostServer Reshard HostMetrics Process.
#[local] Open Scope Z_scope.

(** ** The relay and its timers *)

Inductive timer := TKeepalive | TPush | TPoll | TDrain.
#[export] Instance timer_eq_dec : EqDecision timer.
Proof. solve_decision. Defined.

(** How far [listen] and [close] are; [Booting n] after [n] fetches without a map. *)
Inductive starting := Booting (attempts : Z) | Binding | Up | StartFailed.
Inductive closing := Running | Draining | Stopping | Closed.

(** The HTTP server: not bound, listening, closed with connections left, ended. *)
Inductive server := Unbound | Listening | Leaving | Ended.

(** The options: [options.shardMapStore] is a store the caller keeps. *)
Record service_config := ServiceConfig {
  v_relay : relay_config; v_mode : mode; v_selfHost : string; v_injected : option store; v_bootMaxRetries : Z;
  v_drainDelayMs : Z; v_evictionRate : Q; v_pushUrl : string; v_pushToken : string }.

(** [armed]: the timers that are set; the fetches and pushes sent and not answered;
    [told]: the sockets closed with 1001. *)
Record life := Life {
  lstart : starting; lclosing : closing; lserver : server; armed : list timer; fetching : nat; pushing : list push_request;
  storage_open : bool; told : list nat }.

(** [vclients] is [wss.clients]. *)
Record service := Service { vlife : life; vstore : store; vdrain : scheduler; vproc : process; vclients : list client }.

(** [shardPoller], [shardDrain] and the push are there. *)
Definition polls (c : service_config) : bool :=
  match v_mode c, v_injected c with MODE_DISTRIBUTED, None => true | _, _ => false end.
Definition drains (c : service_config) : bool := match v_mode c with MODE_DIRECT => false | MODE_DISTRIBUTED => true end.
Definition push_configured (c : service_config) : bool := negb (String.eqb (v_pushUrl c) "") && negb (String.eqb (v_pushToken c) "").

(** After [rehydrate]; without a poller there is no map to wait for. *)
Definition new_service (c : service_config) (ws attest : option buckets) (boot : list (string * option Z)) (now : Z) : service :=
  Service (Life (if polls c then Booting 0 else Binding) Running Unbound [] 0 [] true [])
    (default (new_store (v_selfHost c)) (v_injected c)) (new_scheduler (v_drainDelayMs c) (v_evictionRate c) now)
    (boot_process ws attest boot) [].

(** ** What the timers do *)

(** A counter moves. *)
Definition counted (c : service_config) (e : relay_event) (p : process) : process := default p (proc_step (v_relay c) (VRelay e) p).

(** The poller's callbacks; [err] is the error [onError] is given. *)
Definition on_event (c : service_config) (now : Z) (err : option fetch_error) (s : scheduler * process) (e : poll_event) :
    scheduler * process :=
  match e with
  | OnAdopt _ d => (if drains c then applyShardDiff now d s.1 else s.1, counted c EAdopted s.2)
  | OnError _ => (s.1, counted c (EFetchFailed err) s.2)
  | OnOk _ _ | Log _ => s
  end.

(** A fetch is over. *)
Definition polled (c : service_config) (now : Z) (fetched : result string string) (err : option fetch_error) (s : service) : service :=
  let '(_, events, st) := fetchOnce (vstore s) fetched in
  let '(d, p) := fold_left (on_event c now err) events (vdrain s, vproc s) in
  Service (vlife s) st d p (vclients s).

(** [drainTimer]: [shardDrain.run()]. *)
Definition drain_tick (now : Z) (s : service) : service :=
  let p := vproc s in
  let '(_, rt, d) := Drain.run (vdrain s) now (prt p) in
  Service (vlife s) (vstore s) d (Process (pworld p) (phands p) (psocks p) (pbodies p) (pnext p) rt) (vclients s).

(** [keepaliveTimer]: each terminated client is counted; its ['close'] comes later. *)
Definition keepalive_tick (c : service_config) (s : service) : service :=
  let '(killed, l) := sweepKeepalive (vclients s) in
  Service (vlife s) (vstore s) (vdrain s) (fold_left (fun p _ => counted c ENoPong p) killed (vproc s)) l.

(** The push's timer: the request that goes out. *)
Definition push_sent (c : service_config) (now : Z) (s : service) : list push_request :=
  let r := wrelay (pworld (vproc s)) in
  match (push_once (v_pushUrl c) (v_pushToken c) now
           (push_gauges (Z.of_nat (size (prt (vproc s)))) (v_mode c) (vstore s) (Z.of_nat (drainingCount (vdrain s))) r) (Ok true) r).1 with
  | Some q => [q]
  | None => []
  end.

(** ** Booting and closing *)

Definition set_life (f : life -> life) (s : service) : service := Service (f (vlife s)) (vstore s) (vdrain s) (vproc s) (vclients s).

(** [poller.start(...)], then the port is bound. *)
Definition start_binding (l : life) : life :=
  Life Binding (lclosing l) (lserver l) (TPoll :: filter (fun t => t <> TPoll) (armed l)) (fetching l) (pushing l) (storage_open l) (told l).

(** A fetch of [bootstrapShardMap]. *)
Definition after_boot_fetch (c : service_config) (attempts : Z) (s : service) : service :=
  if hasMap (vstore s) then set_life start_binding s
  else set_life (fun l => Life (if v_bootMaxRetries c <=? attempts + 1 then StartFailed else Booting (attempts + 1))
                            (lclosing l) (lserver l) (armed l) (fetching l) (pushing l) (storage_open l) (told l)) s.

(** The port is bound, or not: [startKeepalive], the first push, [startDrainTicker]. *)
Definition bound (c : service_config) (ok : bool) (now : Z) (s : service) : service :=
  set_life (fun l =>
    if ok then
      Life Up (lclosing l) Listening
        (armed l ++ [TKeepalive] ++ (if push_configured c then [TPush] else []) ++ (if drains c then [TDrain] else []))
        (fetching l) (pushing l ++ push_sent c now s) (storage_open l) (told l)
    else Life StartFailed (lclosing l) (lserver l) (armed l) (fetching l) (pushing l) (storage_open l) (told l)) s.

(** [close()] to its first [await]: the timers cleared, every client closed with
    1001, the WebSocket server closed. *)
Definition close_sockets (p : process) : process :=
  Process (pworld p) (phands p) (psocks p) (pbodies p) (pnext p)
    (fold_left (fun rt x => delete_socket x.2 x.1 rt) (psocks p) (prt p)).

Definition begin_close (s : service) : service :=
  Service (Life (lstart (vlife s)) Draining (lserver (vlife s)) [] (fetching (vlife s)) (pushing (vlife s)) (storage_open (vlife s))
             (told (vlife s) ++ List.map cws (vclients s)))
    (vstore s) (vdrain s) (close_sockets (vproc s)) (vclients s).

(** [wss.close]'s callback, then [httpServer.close]. *)
Definition drained (l : life) : life :=
  Life (lstart l) Stopping (match lserver l with Listening => Leaving | o => o end) (armed l) (fetching l) (pushing l) (storage_open l) (told l).

(** [httpServer.close]'s callback: [runtime.shutdown()], [backend.close()]. *)
Definition finish_close (s : service) : service :=
  let p := vproc s in let l := vlife s in
  Service (Life (lstart l) Closed (match lserver l with Leaving => Ended | o => o end) (armed l) (fetching l) (pushing l) false (told l))
    (vstore s) (vdrain s) (Process (pworld p) (phands p) (psocks p) (pbodies p) (pnext p) (shutdown (prt p))) (vclients s).

(** ** Events *)

Inductive service_event : Type :=
| SBootFetch (now : Z) (fetched : result string string) (err : option fetch_error)
| SBound (ok : bool) (now : Z)
| SKeepalive
| SPush (now : Z)
| SPushed (i : nat) (delivered : result string bool)
| SPoll
| SPolled (now : Z) (fetched : result string string) (err : option fetch_error)
| SDrain (now : Z)
| SPong (ws : nat)
| SUpgrade (now : Z) (h : headers) (remote : option string)
| SOpened (i : nat) (persisted : option Z)
| SRequest (now : Z) (q : http_request)
| SGone (i : nat) (lived : Q)
| SRest (e : proc_event)
| SClose
| SDrained
| SFinished.

(** What else happens to handshakes, bodies, counters and rooms. *)
Definition rest (e : proc_event) : bool :=
  match e with
  | VAborted _ | VBody _ _ | VBodyLost _ => true
  | VRelay (EReply _) | VRelay (EServerClose _ _) | VRelay EFetchRetried | VRelay EException => true
  | VRuntime RShutdown => false
  | VRuntime _ => true
  | _ => false
  end.

(** A connection can carry a request. *)
Definition answers (s : server) : bool := match s with Listening | Leaving => true | Unbound | Ended => false end.
Definition is_armed (t : timer) (s : service) : bool := bool_decide (t ∈ armed (vlife s)).

Definition serve (c : service_config) (e : proc_event) (clients : list client) (s : service) : option service :=
  p ← proc_step (v_relay c) e (vproc s); Some (Service (vlife s) (vstore s) (vdrain s) p clients).

Definition service_step (c : service_config) (e : service_event) (s : service) : option service :=
  let l := vlife s in
  match e with
  | SBootFetch now fetched err =>
      match lstart l with Booting n => Some (after_boot_fetch c n (polled c now fetched err s)) | _ => None end
  | SBound ok now => match lstart l with Binding => Some (bound c ok now s) | _ => None end
  | SKeepalive => if is_armed TKeepalive s then Some (keepalive_tick c s) else None
  | SPush now =>
      if is_armed TPush s then
        Some (set_life (fun l => Life (lstart l) (lclosing l) (lserver l) (armed l) (fetching l) (pushing l ++ push_sent c now s)
                                   (storage_open l) (told l)) s)
      else None
  | SPushed i delivered =>
      q ← pushing l !! i;
      Some (Service (Life (lstart l) (lclosing l) (lserver l) (armed l) (fetching l) (delete i (pushing l)) (storage_open l) (told l))
              (vstore s) (vdrain s) (counted c (EPush (push_url q) (push_token q) (push_ts q) [] delivered) (vproc s)) (vclients s))
  | SPoll =>
      if is_armed TPoll s then
        Some (set_life (fun l => Life (lstart l) (lclosing l) (lserver l) (armed l) (S (fetching l)) (pushing l) (storage_open l) (told l)) s)
      else None
  | SPolled now fetched err =>
      match fetching l with
      | S n => Some (polled c now fetched err
                 (set_life (fun l => Life (lstart l) (lclosing l) (lserver l) (armed l) n (pushing l) (storage_open l) (told l)) s))
      | O => None
      end
  | SDrain now => if is_armed TDrain s then Some (drain_tick now s) else None
  | SPong ws => Some (Service l (vstore s) (vdrain s) (vproc s) (alive_step (vclients s, []) (KPong ws)).1)
  | SUpgrade now h remote =>
      if answers (lserver l) then serve c (VUpgrade now h remote (v_mode c) (vstore s)) (vclients s) s else None
  | SOpened i persisted =>
      match lclosing l with
      | Running => serve c (VOpened i persisted) (alive_step (vclients s, []) (KOpen (pnext (vproc s)))).1 s
      | _ => None
      end
  | SRequest now q => if answers (lserver l) then serve c (VRequest now (v_mode c) (vstore s) q) (vclients s) s else None
  | SGone i lived =>
      '(ws, _) ← psocks (vproc s) !! i; serve c (VClosed i lived) (alive_step (vclients s, []) (KClosed ws)).1 s
  | SRest e => if rest e then serve c e (vclients s) s else None
  | SClose => match lclosing l with Running => Some (begin_close s) | _ => None end
  | SDrained =>
      match lclosing l, psocks (vproc s) with Draining, [] => Some (set_life drained s) | _, _ => None end
  | SFinished =>
      match lclosing l, under_way (vproc s) with Stopping, [] => Some (finish_close s) | _, _ => None end
  end.

Fixpoint service_run (c : service_config) (es : list service_event) (s : service) : option service :=
  match es with [] => Some s | e :: es' => s' ← service_step c e s; service_run c es' s' end.

(** At most [k] handshakes and bodies under way at any time of a run. *)
Fixpoint service_narrow (c : service_config) (k : nat) (es : list service_event) (s : service) : bool :=
  (length (under_way (vproc s)) <=? k)%nat
  && match es with [] => true | e :: es' => match service_step c e s with Some s' => service_narrow c k es' s' | None => true end end.

(** ** Lemmas: what each driver leaves alone *)

Lemma close_room_fewer rt name : fewer rt (Drain.evict rt name).
Proof.
  change (fewer rt (closeRoom name rt).2). unfold closeRoom. destruct (registered rt name) as [id|]; [|apply fewer_refl].
  cbn [snd]. generalize (live_context rt id). intros l. revert rt. induction l as [|ws l IH]; intros rt; [apply fewer_refl|].
  eapply fewer_trans; [|apply IH]. unfold delete_socket. in_place.
Qed.

Lemma drain_rooms_fewer ids : forall (p : pass runtime) done_, fewer (Drain.world p) (Drain.world (drain_rooms p done_ ids).2).
Proof.
  induction ids as [|id ids IH]; intros p done_; cbn [drain_rooms]; [apply fewer_refl|]. case_bool_decide; [apply IH|].
  destruct (negb _); [apply fewer_refl|]. eapply fewer_trans; [apply (close_room_fewer _ id)|exact (IH (Pass _ _ _) _)].
Qed.

Lemma drain_buckets_fewer t l : forall p : pass runtime, fewer (Drain.world p) (Drain.world (drain_buckets t p l).2).
Proof.
  induction l as [|[b ep] l IH]; intros p; cbn [drain_buckets]; [apply fewer_refl|]. destruct (t <? deadline ep).
  - pose proof (IH p) as Hp. by destruct (drain_buckets t p l).
  - pose proof (drain_rooms_fewer (liveRooms (Drain.world p) b) p (evicted ep)) as Hp. destruct (drain_rooms _ _ _) as [[[] d] p'] eqn:E; [done|].
    eapply fewer_trans; [exact Hp|apply IH].
Qed.

Lemma drain_run_fewer s now rt : fewer rt (Drain.run s now rt).1.2.
Proof.
  unfold Drain.run. pose proof (drain_buckets_fewer now (draining s) (Pass rt (accrue s now) [])) as H.
  by destruct (drain_buckets _ _ _).
Qed.

Lemma close_sockets_fewer (l : list (nat * nat)) : forall rt, fewer rt (fold_left (fun rt x => delete_socket x.2 x.1 rt) l rt).
Proof.
  induction l as [|x l IH]; intros rt; [apply fewer_refl|]. cbn [fold_left]. eapply fewer_trans; [|apply IH]. unfold delete_socket. in_place.
Qed.

(** A deleted socket stays off its context's list. *)
Lemma delete_socket_clears id ws rt : ws ∉ live_context (delete_socket id ws rt) id.
Proof.
  unfold delete_socket, on_context, live_context. destruct (contexts rt !! id) as [x|] eqn:E; [|rewrite E; apply not_elem_of_nil].
  cbn [set_context contexts]. rewrite lookup_insert_eq. cbn [csockets]. by intros [? _]%list_elem_of_filter.
Qed.

Lemma close_sockets_live (l : list (nat * nat)) : forall rt id ws, (ws, id) ∈ l ->
  ws ∉ live_context (fold_left (fun rt x => delete_socket x.2 x.1 rt) l rt) id.
Proof.
  induction l as [|[ws0 id0] l IH]; intros rt id ws Hin; [by apply not_elem_of_nil in Hin|]. cbn [fold_left fst snd].
  apply elem_of_cons in Hin as [[= -> ->]|Hin]; [|by apply IH]. intros H. apply (delete_socket_clears id0 ws0 rt).
  eapply elem_of_sublist; [exact H|apply close_sockets_fewer].
Qed.

(** The sockets, the operations under way and the rooms of a process. *)
Definition same_but_counts (p p' : process) : Prop :=
  psocks p' = psocks p /\ phands p' = phands p /\ pbodies p' = pbodies p /\ pnext p' = pnext p /\ prt p' = prt p.

Lemma counted_same c e p : same_but_counts p (counted c e p).
Proof.
  unfold counted. destruct (proc_step _ _ _) as [p'|] eqn:E; [|by split_and!]. cbn [proc_step] in E. destruct (only_counts e); [|done].
  destruct (relay_step _ _ _) as [[o w]|]; [|done]. simpl in E. by injection E as <-.
Qed.

Lemma same_trans p1 p2 p3 : same_but_counts p1 p2 -> same_but_counts p2 p3 -> same_but_counts p1 p3.
Proof. unfold same_but_counts. intros (? & ? & ? & ? & ?) (? & ? & ? & ? & ?). split_and!; congruence. Qed.

Lemma counted_ok c k booted e p : proc_ok (v_relay c) k booted p -> proc_ok (v_relay c) k booted (counted c e p).
Proof.
  intros Hok. unfold counted. destruct (proc_step _ _ _) as [p'|] eqn:E; [|done]. by eapply lesser_proc_ok; [|exact E|].
Qed.

Lemma on_events_same c now err es : forall d p, same_but_counts p (fold_left (on_event c now err) es (d, p)).2.
Proof.
  induction es as [|e es IH]; intros d p; [by split_and!|]. cbn [fold_left].
  destruct e; cbn [on_event fst snd]; try apply IH; (eapply same_trans; [apply counted_same|apply IH]).
Qed.

Lemma on_events_ok c k booted now err es : forall d p, proc_ok (v_relay c) k booted p ->
  proc_ok (v_relay c) k booted (fold_left (on_event c now err) es (d, p)).2.
Proof.
  induction es as [|e es IH]; intros d p Hok; [done|]. cbn [fold_left]. destruct e; cbn [on_event fst snd]; apply IH; try done; by apply counted_ok.
Qed.

(** A poll moves the store, the scheduler and the counters. *)
Lemma polled_same c now fetched err s : let s' := polled c now fetched err s in
  same_but_counts (vproc s) (vproc s') /\ vlife s' = vlife s /\ vclients s' = vclients s /\ vstore s' = poll (vstore s) fetched.
Proof.
  cbv zeta. unfold polled, poll. destruct (fetchOnce (vstore s) fetched) as [[r es] st].
  pose proof (on_events_same c now err es (vdrain s) (vproc s)) as H. destruct (fold_left _ es _) as [d p]. by split_and!.
Qed.

Lemma polled_ok c k booted now fetched err s : proc_ok (v_relay c) k booted (vproc s) ->
  proc_ok (v_relay c) k booted (vproc (polled c now fetched err s)).
Proof.
  intros Hok. unfold polled. destruct (fetchOnce (vstore s) fetched) as [[r es] st].
  pose proof (on_events_ok c k booted now err es (vdrain s) (vproc s) Hok) as H. by destruct (fold_left _ es _) as [d p].
Qed.

Lemma poll_hasMap s fetched : hasMap s = true -> hasMap (poll s fetched) = true.
Proof.
  unfold poll, fetchOnce. intros Hm. destruct fetched as [text|e]; [|done]. destruct (rbind _ _) as [m|e]; [|done].
  destruct (applyFetched s m) as [a s'] eqn:E. cbn [snd]. unfold applyFetched in E. destruct (held s) eqn:Eh; [destruct (_ <=? _)|];
    injection E as <- <-; try done.
Qed.

Lemma keepalive_same c (l : list nat) : forall p, same_but_counts p (fold_left (fun p _ => counted c ENoPong p) l p).
Proof. induction l as [|x l IH]; intros p; [by split_and!|]. cbn [fold_left]. eapply same_trans; [apply counted_same|apply IH]. Qed.

Lemma keepalive_ok c k booted (l : list nat) : forall p, proc_ok (v_relay c) k booted p ->
  proc_ok (v_relay c) k booted (fold_left (fun p _ => counted c ENoPong p) l p).
Proof. induction l as [|x l IH]; intros p Hok; [done|]. cbn [fold_left]. by apply IH, counted_ok. Qed.

Lemma same_fewer p p' : same_but_counts p p' -> under_way p' = under_way p /\ psocks p' = psocks p /\ fewer (prt p) (prt p').
Proof. intros (E1 & E2 & E3 & _ & E4). unfold under_way. rewrite E2, E3, E4. split_and!; [done|done|apply fewer_refl]. Qed.

(** A step is one of the process, or adds nothing to it. *)
Lemma service_step_process c e s s' : service_step c e s = Some s' ->
  (exists pe clients, serve c pe clients s = Some s'
     /\ match pe with
        | VUpgrade _ _ _ m st | VRequest _ m st _ => answers (lserver (vlife s)) = true /\ m = v_mode c /\ st = vstore s
        | VOpened _ _ => lclosing (vlife s) = Running
        | VRuntime RShutdown => False
        | _ => True
        end)
  \/ (under_way (vproc s') = under_way (vproc s) /\ psocks (vproc s') = psocks (vproc s) /\ fewer (prt (vproc s)) (prt (vproc s'))).
Proof.
  intros E. destruct e as [now fetched err|ok now| |now|i dv| |now fetched err|now|ws|now h remote|i pr|now q|i lived|e| | |]; cbn [service_step] in E.
  - destruct (lstart (vlife s)); try done. injection E as <-. right. destruct (polled_same c now fetched err s) as (H & _).
    apply same_fewer in H. unfold after_boot_fetch. by destruct (hasMap _).
  - destruct (lstart (vlife s)); try done. injection E as <-. right. split_and!; [done|done|apply fewer_refl].
  - destruct (is_armed _ _); [|done]. injection E as <-. right. unfold keepalive_tick. destruct (sweepKeepalive _) as [killed l].
    apply same_fewer, keepalive_same.
  - destruct (is_armed _ _); [|done]. injection E as <-. right. split_and!; [done|done|apply fewer_refl].
  - destruct (pushing (vlife s) !! i) as [q|]; [|done]. cbn [mbind option_bind] in E. injection E as <-. right. apply same_fewer, counted_same.
  - destruct (is_armed _ _); [|done]. injection E as <-. right. split_and!; [done|done|apply fewer_refl].
  - destruct (fetching (vlife s)) as [|n]; [done|]. injection E as <-. right. apply same_fewer.
    match goal with |- context [polled c now fetched err ?s0] => destruct (polled_same c now fetched err s0) as (H & _) end. exact H.
  - destruct (is_armed _ _); [|done]. injection E as <-. right. unfold drain_tick.
    pose proof (drain_run_fewer (vdrain s) now (prt (vproc s))) as Hf. destruct (Drain.run _ _ _) as [[ids rt] d]. by split_and!.
  - injection E as <-. right. split_and!; [done|done|apply fewer_refl].
  - destruct (answers _) eqn:Ea; [|done]. left. by eexists _, _.
  - destruct (lclosing (vlife s)) eqn:Ec; try done. left. eexists (VOpened i pr), _. by split.
  - destruct (answers _) eqn:Ea; [|done]. left. by eexists _, _.
  - destruct (psocks (vproc s) !! i) as [[ws id]|]; [|done]. left. eexists (VClosed i lived), _. by split.
  - destruct (rest e) eqn:Er; [|done]. left. exists e, (vclients s). split; [done|].
    destruct e as [| | | | | | |e|e]; try done. by destruct e.
  - destruct (lclosing (vlife s)); try done. injection E as <-. right. split_and!; [done|done|apply close_sockets_fewer].
  - destruct (lclosing (vlife s)); try done. destruct (psocks (vproc s)) eqn:Ep; [|done]. injection E as <-. right.
    split_and!; [done|done|apply fewer_refl].
  - destruct (lclosing (vlife s)); try done. destruct (under_way (vproc s)) eqn:Eu; [|done]. injection E as <-. right.
    split_and!; [done|done|by apply (rstep_fewer RShutdown)].
Qed.

(** More operations under way only loosen the bounds. *)
Lemma proc_ok_mono cfg k k' booted p : (k <= k')%nat -> proc_ok cfg k booted p -> proc_ok cfg k' booted p.
Proof.
  intros Hk [D O Hh Hs F W N L LN T I R]. split; try done.
  - unfold total_bound in *. lia.
  - intros ip. specialize (I ip). unfold ip_bound in *. lia.
  - unfold room_bound in *. lia.
Qed.

(** What a step of the process does to the open sockets. *)
Lemma proc_step_socks cfg e p p' : proc_step cfg e p = Some p' ->
  match e with
  | VOpened _ _ => exists id, psocks p' = psocks p ++ [(pnext p, id)]
  | VClosed i _ => is_Some (psocks p !! i) /\ psocks p' = delete i (psocks p)
  | _ => psocks p' = psocks p
  end.
Proof.
  destruct e as [now h remote m s|i persisted|i|i lived|now m s q|i persisted|i|e|e]; cbn [proc_step]; intros E.
  - destruct (relay_step _ _ _) as [[o w]|]; [|done]. simpl in E. by injection E as <-.
  - destruct (phands p !! i); [|done]. cbn [mbind option_bind] in E. destruct (relay_step _ _ _) as [[o w]|]; [|done].
    cbn [mbind option_bind] in E. destruct (rrun _ _); [|done]. simpl in E. injection E as <-. by eexists.
  - destruct (phands p !! i); [|done]. cbn [mbind option_bind] in E. destruct (relay_step _ _ _) as [[o w]|]; [|done]. simpl in E. by injection E as <-.
  - destruct (psocks p !! i) as [[ws id]|]; [|done]. cbn [mbind option_bind] in E. destruct (relay_step _ _ _) as [[o w]|]; [|done].
    cbn [mbind option_bind] in E. destruct (rstep _ _); [|done]. simpl in E. injection E as <-. split; [by eexists|done].
  - destruct (relay_step _ _ _) as [[o w]|]; [|done]. simpl in E. by injection E as <-.
  - destruct (pbodies p !! i); [|done]. cbn [mbind option_bind] in E. destruct (rstep _ _); [|done]. simpl in E. by injection E as <-.
  - destruct (pbodies p !! i); [|done]. simpl in E. by injection E as <-.
  - destruct (only_counts e); [|done]. destruct (relay_step _ _ _) as [[o w]|]; [|done]. simpl in E. by injection E as <-.
  - destruct (adds_nothing e); [|done]. destruct (rstep _ _); [|done]. simpl in E. by injection E as <-.
Qed.

Lemma filter_one (l : list nat) : forall i x, NoDup l -> l !! i = Some x -> List.filter (fun y => negb (Nat.eqb y x)) l = delete i l.
Proof.
  induction l as [|y l IH]; [by intros [] ???|]. intros i x [Hy Hl]%NoDup_cons E. destruct i as [|i]; cbn [List.filter lookup list_lookup] in *.
  - injection E as ->. rewrite Nat.eqb_refl. cbn [negb]. change (delete 0%nat (x :: l)) with l. clear IH Hl.
    induction l as [|z l IH]; [done|]. apply not_elem_of_cons in Hy as [Hz Hy]. cbn [List.filter].
    rewrite (proj2 (Nat.eqb_neq z x)) by congruence. cbn [negb]. by rewrite IH.
  - destruct (Nat.eqb_spec y x) as [->|]; [by apply list_elem_of_lookup_2 in E|]. cbn [negb].
    change (delete (S i) (y :: l)) with (y :: delete i l). by rewrite (IH i x).
Qed.

Section Invariant.
Context (c : service_config) (booted : Z).

Definition timer_expected (t : timer) : bool :=
  match t with TKeepalive => true | TPush => push_configured c | TPoll => polls c | TDrain => drains c end.

Record service_ok (k : nat) (s : service) : Prop := {
  so_proc : proc_ok (v_relay c) k booted (vproc s);
  so_clients : List.map cws (vclients s) = List.map fst (psocks (vproc s));
  so_map : polls c = true -> lstart (vlife s) = Binding \/ lserver (vlife s) <> Unbound -> hasMap (vstore s) = true;
  so_timers : forall t, t ∈ armed (vlife s) -> timer_expected t = true;
  so_boot : forall n, lstart (vlife s) = Booting n -> polls c = true;
  so_up : lstart (vlife s) = Up -> lserver (vlife s) <> Unbound;
  so_server : match lclosing (vlife s) with Running | Draining => lserver (vlife s) = Unbound \/ lserver (vlife s) = Listening | _ => True end;
  so_open : lclosing (vlife s) = Running -> told (vlife s) = [] /\ storage_open (vlife s) = true }.

Lemma service_ok_mono k k' s : (k <= k')%nat -> service_ok k s -> service_ok k' s.
Proof. intros Hk []. split; try done. by eapply proc_ok_mono. Qed.

(** The process steps; [clients] follow its sockets. *)
Lemma serve_ok k e clients s s' : service_ok k s -> serve c e clients s = Some s' -> (length (under_way (vproc s')) <= k)%nat ->
  (forall p', proc_step (v_relay c) e (vproc s) = Some p' -> List.map cws clients = List.map fst (psocks p')) -> service_ok k s'.
Proof.
  intros [P C M T B U V R]. unfold serve. destruct (proc_step _ _ _) as [p'|] eqn:E; [|done]. cbn [mbind option_bind].
  intros [= <-] Hk Hc. split; cbn [vproc vclients vlife vstore] in *; try done; [by eapply proc_step_ok|by apply Hc].
Qed.

(** Nothing but the life changes. *)
Lemma life_ok k f s : service_ok k s -> 
  (polls c = true -> lstart (f (vlife s)) = Binding \/ lserver (f (vlife s)) <> Unbound -> hasMap (vstore s) = true) ->
  (forall t, t ∈ armed (f (vlife s)) -> timer_expected t = true) ->
  (forall n, lstart (f (vlife s)) = Booting n -> polls c = true) ->
  (lstart (f (vlife s)) = Up -> lserver (f (vlife s)) <> Unbound) ->
  match lclosing (f (vlife s)) with Running | Draining => lserver (f (vlife s)) = Unbound \/ lserver (f (vlife s)) = Listening | _ => True end ->
  (lclosing (f (vlife s)) = Running -> told (f (vlife s)) = [] /\ storage_open (f (vlife s)) = true) ->
  service_ok k (set_life f s).
Proof. intros [P C M T B U V R] HM HT HB HU HV HR. split; by cbn [vproc vclients vlife vstore set_life]. Qed.

Lemma polled_service_ok k now fetched err s : service_ok k s -> service_ok k (polled c now fetched err s).
Proof.
  intros [P C M T B U V R]. pose proof (polled_ok c k booted now fetched err s P) as P'. destruct (polled_same c now fetched err s) as ((Es & Eh & Eb & En & Er) & El & Ec & Et).
  split; rewrite ?El, ?Ec, ?Et, ?Es; try done. intros Hp Hl. apply poll_hasMap. by apply M.
Qed.

Lemma keepalive_service_ok k s : service_ok k s -> service_ok k (keepalive_tick c s).
Proof.
  intros [P C M T B U V R]. unfold keepalive_tick. destruct (sweepKeepalive (vclients s)) as [killed l] eqn:E.
  pose proof (keepalive_ok c k booted killed _ P) as P'. destruct (keepalive_same c killed (vproc s)) as (Es & _). split; cbn [vproc vclients vlife vstore]; try done.
  rewrite Es, <-C. unfold sweepKeepalive in E. injection E as _ <-. rewrite map_map. done.
Qed.

(** Rooms and sockets only go. *)
Lemma rooms_service_ok k l d cl rt' s : service_ok k s -> fewer (prt (vproc s)) rt' -> cl = vclients s ->
  let p := vproc s in let f := fun _ => l in
  service_ok k (set_life f s) ->
  service_ok k (Service l (vstore s) d (Process (pworld p) (phands p) (psocks p) (pbodies p) (pnext p) rt') cl).
Proof.
  intros [P C M T B U V R] Hf -> p f [P' C' M' T' B' U' V' R']. split; cbn [vproc vclients vlife vstore set_life] in *; try done.
  by apply fewer_proc_ok; try done; apply P.
Qed.

(** The clients follow the sockets. *)
Lemma opened_clients k s i persisted p' : service_ok k s -> proc_step (v_relay c) (VOpened i persisted) (vproc s) = Some p' ->
  List.map cws (alive_step (vclients s, []) (KOpen (pnext (vproc s)))).1 = List.map fst (psocks p').
Proof.
  intros Hok E. destruct (proc_step_socks _ _ _ _ E) as [id ->]. cbn [alive_step fst]. rewrite !map_app, (so_clients _ _ Hok). done.
Qed.

Lemma gone_clients k s i lived ws id p' : service_ok k s -> psocks (vproc s) !! i = Some (ws, id) ->
  proc_step (v_relay c) (VClosed i lived) (vproc s) = Some p' ->
  List.map cws (alive_step (vclients s, []) (KClosed ws)).1 = List.map fst (psocks p').
Proof.
  intros Hok Ei E. destruct (proc_step_socks _ _ _ _ E) as [_ ->]. cbn [alive_step fst].
  assert (Hf : forall l : list client, List.map cws (List.filter (fun x => negb (Nat.eqb (cws x) ws)) l)
                 = List.filter (fun y => negb (Nat.eqb y ws)) (List.map cws l)).
  { induction l as [|x l IH]; [done|]. cbn [List.filter List.map]. destruct (negb _); cbn [List.map]; by rewrite IH. }
  rewrite Hf, (so_clients _ _ Hok), (filter_one _ i ws); [|apply (p_distinct _ _ _ _ (so_proc _ _ Hok))|].
  - change (@List.map) with (@fmap list list_fmap). symmetry. apply (list_fmap_delete fst).
  - change (List.map fst (psocks (vproc s))) with (fst <$> psocks (vproc s)). by rewrite list_lookup_fmap, Ei.
Qed.

Lemma sent_only_life k s l : service_ok k s -> lstart l = lstart (vlife s) -> lclosing l = lclosing (vlife s) ->
  lserver l = lserver (vlife s) -> armed l = armed (vlife s) -> told l = told (vlife s) -> storage_open l = storage_open (vlife s) ->
  service_ok k (set_life (fun _ => l) s).
Proof. intros [P C M T B U V R] E1 E2 E3 E4 E5 E6. split; cbn [vproc vclients vlife vstore set_life]; by rewrite ?E1, ?E2, ?E3, ?E4, ?E5, ?E6. Qed.

(** A fetch of the boot, and the port. *)
Lemma boot_fetch_ok k s n : service_ok k s -> lstart (vlife s) = Booting n -> polls c = true -> service_ok k (after_boot_fetch c n s).
Proof.
  intros Hok El Hp. pose proof Hok as [P C M T B U V R]. unfold after_boot_fetch. destruct (hasMap (vstore s)) eqn:Em.
  - apply life_ok; cbn [start_binding lstart lserver armed lclosing told storage_open]; try done.
    intros t [->|[_ Ht]%list_elem_of_filter]%elem_of_cons; [done|by apply T].
  - apply life_ok; cbn [lstart lserver armed lclosing told storage_open]; try done.
    + intros _ [Hs|Hs]; [by destruct (_ <=? _)|]. discriminate M; auto.
    + by destruct (_ <=? _).
Qed.

Lemma bound_ok k s ok now : service_ok k s -> lstart (vlife s) = Binding -> service_ok k (bound c ok now s).
Proof.
  intros Hok El. pose proof Hok as [P C M T B U V R]. unfold bound. destruct ok; apply life_ok; cbn [lstart lserver armed lclosing told storage_open]; try done.
  - intros Hp _. apply M; auto.
  - intros t. rewrite !elem_of_app. intros [Ht|[Ht|[Ht|Ht]]]; [by apply T| | |].
    + by apply list_elem_of_singleton in Ht as ->.
    + destruct (push_configured c) eqn:E; [|by apply not_elem_of_nil in Ht]. by apply list_elem_of_singleton in Ht as ->.
    + destruct (drains c) eqn:E; [|by apply not_elem_of_nil in Ht]. by apply list_elem_of_singleton in Ht as ->.
  - destruct (lclosing (vlife s)); auto.
  - intros Hp [?|?]; [done|]. apply M; auto.
Qed.

Lemma service_step_ok k e s s' : service_step c e s = Some s' -> service_ok k s -> (length (under_way (vproc s')) <= k)%nat -> service_ok k s'.
Proof.
  intros E Hok Hk. pose proof Hok as [P C M T B U V R].
  destruct e as [now fetched err|ok now| |now|i dv| |now fetched err|now|ws|now h remote|i pr|now q|i lived|e| | |]; cbn [service_step] in E.
  - destruct (lstart (vlife s)) as [n| | |] eqn:El; try done. injection E as <-. specialize (B n eq_refl) as Hb.
    pose proof (polled_service_ok k now fetched err s Hok) as Hp. apply boot_fetch_ok; [done| |done].
    destruct (polled_same c now fetched err s) as (_ & El' & _). by rewrite El'.
  - destruct (lstart (vlife s)) eqn:El; try done. injection E as <-. by apply bound_ok.
  - destruct (is_armed _ _); [|done]. injection E as <-. by apply keepalive_service_ok.
  - destruct (is_armed _ _); [|done]. injection E as <-. by apply sent_only_life.
  - destruct (pushing (vlife s) !! i) as [q|]; [|done]. cbn [mbind option_bind] in E. injection E as <-.
    split; cbn [vproc vclients vlife vstore lstart lserver armed lclosing told storage_open]; try done. by apply counted_ok.
  - destruct (is_armed _ _); [|done]. injection E as <-. by apply sent_only_life.
  - destruct (fetching (vlife s)) as [|n]; [done|]. injection E as <-. apply polled_service_ok. by apply sent_only_life.
  - destruct (is_armed _ _); [|done]. injection E as <-. unfold drain_tick. pose proof (drain_run_fewer (vdrain s) now (prt (vproc s))) as Hf.
    destruct (Drain.run _ _ _) as [[ids rt] d]. eapply rooms_service_ok; [exact Hok|exact Hf|done|]. by apply sent_only_life.
  - injection E as <-. split; cbn [vproc vclients vlife vstore]; try done. rewrite <-C. cbn [alive_step fst]. rewrite map_map.
    apply map_ext. intros x. by destruct (Nat.eqb_spec (cws x) ws).
  - destruct (answers _); [|done]. eapply serve_ok; [exact Hok|exact E|exact Hk|]. intros p' Ep. by rewrite (proc_step_socks _ _ _ _ Ep).
  - destruct (lclosing (vlife s)); try done. eapply serve_ok; [exact Hok|exact E|exact Hk|]. intros p' Ep. by eapply opened_clients.
  - destruct (answers _); [|done]. eapply serve_ok; [exact Hok|exact E|exact Hk|]. intros p' Ep. by rewrite (proc_step_socks _ _ _ _ Ep).
  - destruct (psocks (vproc s) !! i) as [[ws id]|] eqn:Ei; [|done]. cbn [mbind option_bind] in E.
    eapply serve_ok; [exact Hok|exact E|exact Hk|]. intros p' Ep. by eapply gone_clients.
  - destruct (rest e) eqn:Er; [|done]. eapply serve_ok; [exact Hok|exact E|exact Hk|]. intros p' Ep.
    pose proof (proc_step_socks _ _ _ _ Ep) as Hs. destruct e; try done; by rewrite Hs.
  - destruct (lclosing (vlife s)) eqn:Ec; try done. injection E as <-. unfold begin_close, close_sockets.
    eapply rooms_service_ok; [exact Hok|apply close_sockets_fewer|done|]. apply life_ok; cbn [lstart lserver armed lclosing told storage_open]; try done.
    by intros t ?%not_elem_of_nil.
  - destruct (lclosing (vlife s)) eqn:Ec; try done. destruct (psocks (vproc s)); [|done]. injection E as <-.
    apply life_ok; cbn [drained lstart lserver armed lclosing told storage_open]; try done.
    + intros Hp Hl. apply M; [done|]. destruct Hl as [?|Hl]; [by left|]. right. by destruct (lserver (vlife s)).
    + intros Hu%U. by destruct (lserver (vlife s)).
  - destruct (lclosing (vlife s)) eqn:Ec; try done. destruct (under_way (vproc s)); [|done]. injection E as <-. unfold finish_close.
    eapply rooms_service_ok; [exact Hok|apply (rstep_fewer RShutdown); done|done|].
    apply life_ok; cbn [lstart lserver armed lclosing told storage_open]; try done.
    + intros Hp Hl. apply M; [done|]. destruct Hl as [?|Hl]; [by left|]. right. by destruct (lserver (vlife s)).
    + intros Hu%U. by destruct (lserver (vlife s)).
Qed.

Lemma service_narrow_now k es s : service_narrow c k es s = true -> (length (under_way (vproc s)) <= k)%nat.
Proof. destruct es; cbn [service_narrow]; intros [H _]%andb_true_iff; by apply Nat.leb_le in H. Qed.

Lemma service_run_ok k es : forall s s', service_run c es s = Some s' -> service_narrow c k es s = true -> service_ok k s -> service_ok k s'.
Proof.
  induction es as [|e es IH]; intros s s' E Hn Hok; cbn [service_run] in E; [by injection E as <-|].
  destruct (service_step c e s) as [s1|] eqn:E1; [|done]. cbn [service_narrow] in Hn. rewrite E1 in Hn.
  apply andb_true_iff in Hn as [_ Hn]. cbn [mbind option_bind] in E. eapply IH; [exact E|exact Hn|].
  eapply service_step_ok; [exact E1|done|by eapply service_narrow_now].
Qed.

(** Without a bound that is given in advance. *)
Definition sound (s : service) : Prop := exists k, service_ok k s.

Lemma sound_step e s s' : service_step c e s = Some s' -> sound s -> sound s'.
Proof.
  intros E [k Hok]. exists (k `max` length (under_way (vproc s')))%nat. eapply service_step_ok; [exact E| |lia].
  eapply service_ok_mono; [|exact Hok]. lia.
Qed.

Lemma sound_run es : forall s s', service_run c es s = Some s' -> sound s -> sound s'.
Proof.
  induction es as [|e es IH]; intros s s' E Hs; cbn [service_run] in E; [by injection E as <-|].
  destruct (service_step c e s) as [s1|] eqn:E1; [|done]. cbn [mbind option_bind] in E. eapply IH; [exact E|by eapply sound_step].
Qed.
End Invariant.

Lemma new_service_ok c k ws attest boot now :
  service_ok c (Z.of_nat (Runtime.size (rehydrate boot new_runtime))) k (new_service c ws attest boot now).
Proof.
  pose proof (boot_proc_ok (v_relay c) k ws attest boot) as Hb.
  split; cbn [new_service vproc vclients vlife vstore lstart lserver armed lclosing]; try done.
  - intros Hp. rewrite Hp. by intros [?|?].
  - by intros t ?%not_elem_of_nil.
  - intros n. by destruct (polls c).
  - by destruct (polls c).
  - by left.
Qed.

(** ** Lemmas: who is let in *)

(** In distributed mode the gate lets in the rooms of owned buckets. *)
Lemma let_in_owned m s room k : m = MODE_DISTRIBUTED -> ownershipGate m s room = Admit k ->
  exists b, bucketForRoomName room = Some b /\ b ∈ owned s.
Proof.
  intros -> Hg. destruct (gate_admits (Box s (new_scheduler 0 1 0) new_runtime) room k Hg) as (b & _ & Hb & Ho). by exists b.
Qed.

Lemma upgrade_gated cfg now h remote m s has n w w' :
  relay_step cfg (EUpgrade now h remote m s has n) w = Some (OUpgrade Upgraded, w') ->
  exists k, ownershipGate m s (default ""%string (hget h ROOM_HEADER)) = Admit k.
Proof.
  cbn [relay_step]. unfold upgrade. set (ip := default "undefined"%string _).
  destruct (handleUpgrade _ _ _ _ _ _ _ _) as [v h'] eqn:E. intros [= -> _].
  unfold handleUpgrade in E. destruct (entryReject h); [done|]. destruct (ownershipGate m s _) as [k|]; [by exists k|done].
Qed.

Lemma request_gated cfg now g has n q r room path h b r' :
  handleRequest cfg now g has n q r = (AToRoom room path h b, r') -> exists k, g room = Admit k.
Proof.
  unfold handleRequest. destruct (hr_path q) as [pa|]; [|done]. destruct (String.eqb pa "/metrics"); [by destruct (isLocalScrape _ _)|].
  destruct (entryReject _); [done|]. cbv zeta. destruct (g _) as [k|] eqn:Eg; [|done].
  destruct (if starts_with "/attest" pa then _ else _) as [[] r2]; [done|].
  destruct (negb (has _) && (maxRooms (rupgrade cfg) <=? n)); [done|].
  destruct (declared_too_large _); [done|]. destruct (readBody _ _ _ _ _); [|done|done]. intros [= <- _ _ _ _]. by exists k.
Qed.

Lemma elem_of_kept {A} (x : A) i l l' : x ∈ delete i l ++ l' -> x ∈ l ++ l'.
Proof. rewrite !elem_of_app. intros [Hx|?]; [|by right]. left. eapply elem_of_sublist; [exact Hx|apply sublist_delete]. Qed.

(** What comes under way went through the gate. *)
Lemma entered cfg e p p' n : proc_step cfg e p = Some p' -> n ∈ under_way p' ->
  n ∈ under_way p \/ match e with VUpgrade _ _ _ m s | VRequest _ m s _ => exists k, ownershipGate m s n = Admit k | _ => False end.
Proof.
  unfold under_way. destruct e as [now h remote m s|i persisted|i|i lived|now m s q|i persisted|i|e|e]; cbn [proc_step]; intros E Hn.
  - destruct (relay_step _ _ _) as [[o w]|] eqn:Ew; [|done]. simpl in E. injection E as <-. cbn [phands pbodies] in Hn.
    destruct o as [[]| | | | |]; try by left. rewrite !elem_of_app in Hn. rewrite elem_of_app.
    destruct Hn as [[Hn|Hn]|Hn]; [by auto| |by auto]. apply list_elem_of_singleton in Hn as ->. right. by eapply upgrade_gated.
  - destruct (phands p !! i); [|done]. cbn [mbind option_bind] in E. destruct (relay_step _ _ _) as [[o w]|]; [|done].
    cbn [mbind option_bind] in E. destruct (rrun _ _); [|done]. simpl in E. injection E as <-. left. by eapply elem_of_kept.
  - destruct (phands p !! i); [|done]. cbn [mbind option_bind] in E. destruct (relay_step _ _ _) as [[o w]|]; [|done]. simpl in E.
    injection E as <-. left. by eapply elem_of_kept.
  - destruct (psocks p !! i) as [[ws id]|]; [|done]. cbn [mbind option_bind] in E. destruct (relay_step _ _ _) as [[o w]|]; [|done].
    cbn [mbind option_bind] in E. destruct (rstep _ _); [|done]. simpl in E. injection E as <-. by left.
  - destruct (relay_step _ _ _) as [[o w]|] eqn:Ew; [|done]. simpl in E. injection E as <-. cbn [phands pbodies] in Hn.
    destruct o as [|?|?|a|?|]; try by left. destruct a as [| | |room pa hd b]; try by left.
    rewrite !elem_of_app in Hn. rewrite elem_of_app. destruct Hn as [Hn|[Hn|Hn]]; [by auto..|].
    apply list_elem_of_singleton in Hn as ->. right. cbn [relay_step] in Ew.
    destruct (handleRequest _ _ _ _ _ _ _) as [a' r'] eqn:Ea. injection Ew as -> _. by eapply request_gated.
  - destruct (pbodies p !! i); [|done]. cbn [mbind option_bind] in E. destruct (rstep _ _); [|done]. simpl in E. injection E as <-.
    cbn [phands pbodies] in Hn. rewrite elem_of_app in Hn. rewrite elem_of_app. left. destruct Hn as [?|Hn]; [by left|right].
    eapply elem_of_sublist; [exact Hn|apply sublist_delete].
  - destruct (pbodies p !! i); [|done]. simpl in E. injection E as <-.
    cbn [phands pbodies] in Hn. rewrite elem_of_app in Hn. rewrite elem_of_app. left. destruct Hn as [?|Hn]; [by left|right].
    eapply elem_of_sublist; [exact Hn|apply sublist_delete].
  - destruct (only_counts e); [|done]. destruct (relay_step _ _ _) as [[o w]|]; [|done]. simpl in E. injection E as <-. by left.
  - destruct (adds_nothing e); [|done]. destruct (rstep _ _); [|done]. simpl in E. injection E as <-. by left.
Qed.

Lemma service_entered c e s s' n : service_step c e s = Some s' -> n ∈ under_way (vproc s') ->
  n ∈ under_way (vproc s) \/ (answers (lserver (vlife s)) = true /\ exists d, ownershipGate (v_mode c) (vstore s) n = Admit d).
Proof.
  intros E Hn. destruct (service_step_process _ _ _ _ E) as [(pe & cl & Es & Hg)|(Eu & _)]; [|left; by rewrite <-Eu].
  unfold serve in Es. destruct (proc_step _ _ _) as [p'|] eqn:Ep; [|done]. cbn [mbind option_bind] in Es. injection Es as <-. cbn [vproc] in Hn.
  destruct (entered _ _ _ _ _ Ep Hn) as [?|Hd]; [by left|right]. destruct pe; try done; destruct Hg as (Ha & -> & ->); by split.
Qed.

(** ** Lemmas: shutting down *)

Lemma closed_keep id f rt : closed (on_context id f rt) = closed rt.
Proof. unfold on_context. by destruct (contexts rt !! id). Qed.

Lemma closed_maybeEvict id rt : closed (maybeEvict id rt) = closed rt.
Proof.
  unfold maybeEvict, Runtime.evict. destruct (contexts rt !! id) as [x|]; [|done]. destruct (_idle x); [|done]. by destruct (bool_decide _).
Qed.

(** A runtime that was shut down stays so. *)
Lemma rstep_closed e rt rt' : rstep e rt = Some rt' -> closed rt = true -> closed rt' = true.
Proof.
  intros E Hc. destruct e as [name pr|id|id ws|id at_|id ws|id ws|id ws|id ws|id again|]; cbn [rstep] in E;
    try (destruct (contexts rt !! id) as [x|]; [|done]); cbn [mbind option_bind] in E.
  - unfold Runtime.get in E. destruct (registered rt name); injection E as <-; unfold pin; by rewrite closed_keep.
  - destruct (0 <? _); [|done]. injection E as <-. unfold unpin. by rewrite closed_maybeEvict, closed_keep.
  - destruct (_ && _); [|done]. injection E as <-. unfold acceptWebSocket. by rewrite closed_keep.
  - destruct (0 <? _); [|done]. injection E as <-. unfold _reschedule. by rewrite Hc.
  - destruct (decide _); [|done]. injection E as <-. unfold pin. by rewrite closed_keep.
  - destruct (_ && _); [|done]. injection E as <-. unfold pin. by rewrite closed_keep.
  - injection E as <-. unfold delete_socket. by rewrite closed_keep.
  - injection E as <-. unfold socket_gone, delete_socket. by rewrite closed_maybeEvict, closed_keep.
  - destruct (calarm x); [|done]. injection E as <-. unfold _fire. by rewrite Hc.
  - by injection E as <-.
Qed.

(** What a step of the process does to the rooms. *)
Lemma proc_step_rooms cfg e p p' : proc_step cfg e p = Some p' ->
  match e with
  | VOpened _ _ => True
  | VBody i _ => is_Some (pbodies p !! i) /\ (once (prt p) -> forall id, sublist (live_context (prt p') id) (live_context (prt p) id))
  | _ => fewer (prt p) (prt p') /\ (closed (prt p) = true -> closed (prt p') = true)
  end.
Proof.
  destruct e as [now h remote m s|i persisted|i|i lived|now m s q|i persisted|i|e|e]; cbn [proc_step]; intros E; [|done|..].
  - destruct (relay_step _ _ _) as [[o w]|]; [|done]. simpl in E. injection E as <-. split; [apply fewer_refl|done].
  - destruct (phands p !! i); [|done]. cbn [mbind option_bind] in E. destruct (relay_step _ _ _) as [[o w]|]; [|done]. simpl in E.
    injection E as <-. split; [apply fewer_refl|done].
  - destruct (psocks p !! i) as [[ws id]|]; [|done]. cbn [mbind option_bind] in E. destruct (relay_step _ _ _) as [[o w]|]; [|done].
    cbn [mbind option_bind] in E. destruct (rstep (RGone id ws) _) as [rt'|] eqn:Er; [|done]. simpl in E. injection E as <-.
    split; [cbn [rstep] in Er; injection Er as <-; apply gone_fewer|by eapply rstep_closed].
  - destruct (relay_step _ _ _) as [[o w]|]; [|done]. simpl in E. injection E as <-. split; [apply fewer_refl|done].
  - destruct (pbodies p !! i) as [name|]; [|done]. cbn [mbind option_bind] in E. split; [by eexists|]. intros Ho.
    destruct (begin_once name persisted (prt p) Ho) as (rt1 & E1 & _ & _ & Hl & _). rewrite E1 in E. simpl in E. by injection E as <-.
  - destruct (pbodies p !! i); [|done]. simpl in E. injection E as <-. split; [apply fewer_refl|done].
  - destruct (only_counts e); [|done]. destruct (relay_step _ _ _) as [[o w]|]; [|done]. simpl in E. injection E as <-. split; [apply fewer_refl|done].
  - destruct (adds_nothing e) eqn:Ha; [|done]. destruct (rstep e _) as [rt'|] eqn:Er; [|done]. simpl in E. injection E as <-.
    split; [by eapply rstep_fewer|by eapply rstep_closed].
Qed.

Section Closing.
Context (c : service_config) (booted : Z).

(** Since [close()]: [ts] are the sockets it closed. *)
Record closing_ok (ts : list nat) (s : service) : Prop := {
  cl_up : lstart (vlife s) = Up;
  cl_timers : armed (vlife s) = [];
  cl_told : told (vlife s) = ts;
  cl_socks : sublist (List.map fst (psocks (vproc s))) ts;
  cl_live : forall id, live_context (prt (vproc s)) id = [];
  cl_stage : match lclosing (vlife s) with
             | Running => False
             | Draining => lserver (vlife s) = Listening /\ storage_open (vlife s) = true
             | Stopping => lserver (vlife s) = Leaving /\ storage_open (vlife s) = true /\ psocks (vproc s) = []
             | Closed => lserver (vlife s) = Ended /\ storage_open (vlife s) = false /\ psocks (vproc s) = [] /\ under_way (vproc s) = []
                         /\ rooms (prt (vproc s)) = [] /\ closed (prt (vproc s)) = true
             end }.

Lemma rooms_nil rt rt' : fewer rt rt' -> rooms rt = [] -> rooms rt' = [].
Proof. intros Hf E. apply sublist_nil_r. rewrite <-E. apply Hf. Qed.

(** A step of the process under a closing host. *)
Lemma closing_serve ts pe clients s s' : once (prt (vproc s)) -> closing_ok ts s -> serve c pe clients s = Some s' ->
  match pe with VUpgrade _ _ _ _ _ | VRequest _ _ _ _ => answers (lserver (vlife s)) = true | VOpened _ _ => False | _ => True end ->
  closing_ok ts s'.
Proof.
  intros Ho [U A T S L G] Es Hg. unfold serve in Es. destruct (proc_step _ _ _) as [p'|] eqn:Ep; [|done].
  cbn [mbind option_bind] in Es. injection Es as <-.
  pose proof (proc_step_socks _ _ _ _ Ep) as Hs. pose proof (proc_step_rooms _ _ _ _ Ep) as Hr.
  assert (Hsub : sublist (psocks p') (psocks (vproc s))).
  { destruct pe; try done; try (by rewrite Hs). destruct Hs as [_ ->]. apply sublist_delete. }
  assert (Hnil : psocks (vproc s) = [] -> psocks p' = []) by (intros E; rewrite E in Hsub; by apply sublist_nil_r).
  split; cbn [vlife vproc]; try done.
  - etransitivity; [|exact S]. by apply (fmap_sublist fst).
  - intros id. apply sublist_nil_r. rewrite <-(L id). destruct pe; try done; try (exact (fewer_live _ _ (proj1 Hr) id)). by apply Hr.
  - destruct (lclosing (vlife s)) eqn:Ec; [done|done| |].
    + destruct G as (? & ? & ?). split_and!; auto.
    + destruct G as (Ge & Gs & Gp & Gu & Gr & Gc). split_and!; try done; [by apply Hnil| | |].
      * destruct (under_way p') as [|n l] eqn:Eu; [done|]. assert (Hn : n ∈ under_way p') by (rewrite Eu; by left).
        destruct (entered _ _ _ _ _ Ep Hn) as [H|H]; [rewrite Gu in H; by apply not_elem_of_nil in H|].
        rewrite Ge in Hg. by destruct pe.
      * destruct pe; try done; try (by apply (rooms_nil _ _ (proj1 Hr))). destruct Hr as [[x Hx] _].
        unfold under_way in Gu. apply app_eq_nil in Gu as [_ Gu]. by rewrite Gu in Hx.
      * destruct pe; try done; try (by apply (proj2 Hr)). destruct Hr as [[x Hx] _].
        unfold under_way in Gu. apply app_eq_nil in Gu as [_ Gu]. by rewrite Gu in Hx.
Qed.

(** The counters, the store and the scheduler do not matter. *)
Lemma closing_same ts st d p' cl l s : same_but_counts (vproc s) p' -> lstart l = lstart (vlife s) -> lclosing l = lclosing (vlife s) ->
  lserver l = lserver (vlife s) -> armed l = armed (vlife s) -> storage_open l = storage_open (vlife s) -> told l = told (vlife s) ->
  closing_ok ts s -> closing_ok ts (Service l st d p' cl).
Proof.
  intros (E1 & E2 & E3 & _ & E4) L1 L2 L3 L4 L5 L6 [U A T S L G].
  split; unfold under_way in *; cbn [vlife vproc]; by rewrite ?E1, ?E2, ?E3, ?E4, ?L1, ?L2, ?L3, ?L4, ?L5, ?L6.
Qed.

Lemma closing_step ts e s s' : sound c booted s -> closing_ok ts s -> service_step c e s = Some s' -> closing_ok ts s'.
Proof.
  intros [k Hok] Hcl E. pose proof Hcl as [U A T S L G]. pose proof (p_once _ _ _ _ (so_proc _ _ _ _ Hok)) as Ho.
  assert (Harm : forall t, is_armed t s = false) by (intros t; unfold is_armed; by rewrite A).
  destruct e as [now fetched err|ok now| |now|i dv| |now fetched err|now|ws|now h remote|i pr|now q|i lived|e| | |]; cbn [service_step] in E;
    rewrite ?U, ?Harm in E; try done.
  - destruct (pushing (vlife s) !! i) as [q|]; [|done]. cbn [mbind option_bind] in E. injection E as <-.
    apply (closing_same ts _ _ _ _ _ s); [apply counted_same|done..].
  - destruct (fetching (vlife s)) as [|n]; [done|]. injection E as <-.
    match goal with |- closing_ok _ (polled c now fetched err ?s0) => destruct (polled_same c now fetched err s0) as (H & El & _);
      destruct (polled c now fetched err s0) as [l st d p cl] end. cbn [vlife vproc] in *. subst l.
    apply (closing_same ts _ _ _ _ _ s); [exact H|done..].
  - injection E as <-. apply (closing_same ts _ _ _ _ _ s); [by split_and!|done..].
  - destruct (answers _) eqn:Ea; [|done]. by eapply closing_serve; [..|exact E|exact Ea].
  - by destruct (lclosing (vlife s)).
  - destruct (answers _) eqn:Ea; [|done]. by eapply closing_serve; [..|exact E|exact Ea].
  - destruct (psocks (vproc s) !! i) as [[ws id]|]; [|done]. by eapply closing_serve; [..|exact E|].
  - destruct (rest e) eqn:Er; [|done]. eapply closing_serve; [done|done|exact E|]. by destruct e.
  - by destruct (lclosing (vlife s)).
  - destruct (lclosing (vlife s)) eqn:Ec; try done. destruct (psocks (vproc s)) eqn:Ep; [|done]. injection E as <-.
    destruct G as [Gs Go]. split; cbn [set_life drained vlife vproc lstart armed told lclosing lserver storage_open]; try done; [by rewrite Ep|].
    by rewrite Gs.
  - destruct (lclosing (vlife s)) eqn:Ec; try done. destruct (under_way (vproc s)) eqn:Eu; [|done]. injection E as <-.
    destruct G as (Gs & Go & Gp). split; cbn [finish_close vlife vproc lstart armed told lclosing lserver storage_open]; try done.
    rewrite Gs. by split_and!.
Qed.

Lemma closing_run ts es : forall s s', sound c booted s -> closing_ok ts s -> service_run c es s = Some s' -> closing_ok ts s'.
Proof.
  induction es as [|e es IH]; intros s s' Hs Hc E; cbn [service_run] in E; [by injection E as <-|].
  destruct (service_step c e s) as [s1|] eqn:E1; [|done]. cbn [mbind option_bind] in E.
  eapply IH; [by eapply sound_step|by eapply closing_step|exact E].
Qed.

Lemma begin_close_ok s s' : sound c booted s -> lstart (vlife s) = Up ->
  service_step c SClose s = Some s' -> closing_ok (List.map fst (psocks (vproc s))) s'.
Proof.
  intros [k Hok] Hu. pose proof Hok as [P C M T B U V R]. cbn [service_step]. destruct (lclosing (vlife s)) eqn:Ec; try done. destruct (R eq_refl) as [Ht Hst]. intros [= <-].
  split; cbn [begin_close close_sockets vlife vproc psocks prt lstart armed told lclosing lserver storage_open]; try done.
  - by rewrite Ht, C.
  - intros id. destruct (live_context _ id) as [|ws l] eqn:El; [done|]. exfalso.
    assert (Hw : ws ∈ live_context (fold_left (fun rt x => delete_socket x.2 x.1 rt) (psocks (vproc s)) (prt (vproc s))) id) by (rewrite El; by left).
    assert (Hin : (ws, id) ∈ psocks (vproc s)).
    { apply (p_live _ _ _ _ P). eapply elem_of_sublist; [exact Hw|apply close_sockets_fewer]. }
    by apply (close_sockets_live _ (prt (vproc s)) _ _ Hin).
  - split; [|done]. destruct V as [V|V]; [by apply U in Hu|done].
Qed.
End Closing.

(** ** Lemmas: the shutdown completes *)

(** What is left once every client, handshake and body is gone. *)
Definition finish_plan (s : service) : list service_event :=
  repeat (SRest (VAborted 0)) (length (phands (vproc s))) ++ repeat (SRest (VBodyLost 0)) (length (pbodies (vproc s))) ++ [SFinished].

Definition close_plan (s : service) : list service_event :=
  match lclosing (vlife s) with
  | Running | Closed => []
  | Draining => repeat (SGone 0 0) (length (psocks (vproc s))) ++ [SDrained] ++ finish_plan s
  | Stopping => finish_plan s
  end.

Lemma service_run_app c l1 : forall l2 s, service_run c (l1 ++ l2) s = (s' ← service_run c l1 s; service_run c l2 s').
Proof.
  induction l1 as [|e l1 IH]; intros l2 s; [done|]. cbn [app service_run]. destruct (service_step c e s); [|done]. apply IH.
Qed.

Section Completing.
Context (c : service_config) (booted : Z).

(** One socket, handshake or body goes. *)
Lemma gone_one s : sound c booted s -> psocks (vproc s) <> [] -> exists s', service_step c (SGone 0 0) s = Some s'
  /\ vlife s' = vlife s /\ psocks (vproc s') = delete 0%nat (psocks (vproc s))
  /\ phands (vproc s') = phands (vproc s) /\ pbodies (vproc s') = pbodies (vproc s).
Proof.
  intros [k Hok] Hne. assert (Hen : proc_enabled (VClosed 0 0) (vproc s) = true) by (cbn; by destruct (psocks (vproc s))).
  destruct (proc_progress _ _ _ _ _ (so_proc _ _ _ _ Hok) Hen) as [p' Ep]. cbn [service_step]. cbn [proc_step] in Ep.
  destruct (psocks (vproc s) !! 0%nat) as [[ws id]|] eqn:Ei; [|done]. cbn [mbind option_bind]. unfold serve. cbn [proc_step]. rewrite Ei.
  cbn [mbind option_bind] in *. destruct (relay_step _ _ _) as [[o w]|]; [|done]. cbn [mbind option_bind] in *.
  destruct (rstep _ _) as [rt'|]; [|done]. cbn [mbind option_bind] in *. injection Ep as <-. by eexists.
Qed.

Lemma aborted_one s : sound c booted s -> phands (vproc s) <> [] -> exists s', service_step c (SRest (VAborted 0)) s = Some s'
  /\ vlife s' = vlife s /\ psocks (vproc s') = psocks (vproc s)
  /\ phands (vproc s') = delete 0%nat (phands (vproc s)) /\ pbodies (vproc s') = pbodies (vproc s).
Proof.
  intros [k Hok] Hne. assert (Hen : proc_enabled (VAborted 0) (vproc s) = true) by (cbn; by destruct (phands (vproc s))).
  destruct (proc_progress _ _ _ _ _ (so_proc _ _ _ _ Hok) Hen) as [p' Ep]. cbn [service_step rest]. unfold serve. rewrite Ep.
  cbn [proc_step] in Ep. destruct (phands (vproc s) !! 0%nat); [|done]. cbn [mbind option_bind] in *.
  destruct (relay_step _ _ _) as [[o w]|]; [|done]. cbn [mbind option_bind] in Ep. injection Ep as <-. by eexists.
Qed.

Lemma lost_one s : pbodies (vproc s) <> [] -> exists s', service_step c (SRest (VBodyLost 0)) s = Some s'
  /\ vlife s' = vlife s /\ psocks (vproc s') = psocks (vproc s)
  /\ phands (vproc s') = phands (vproc s) /\ pbodies (vproc s') = delete 0%nat (pbodies (vproc s)).
Proof.
  intros Hne. cbn [service_step rest]. unfold serve. cbn [proc_step]. destruct (pbodies (vproc s)) as [|x l] eqn:E; [done|].
  cbn [lookup list_lookup mbind option_bind]. eexists. split; [done|]. cbn [vlife vproc psocks phands pbodies]. by split_and!.
Qed.

(** All of them go. *)
Lemma gone_all n : forall s, sound c booted s -> length (psocks (vproc s)) = n -> exists s', service_run c (repeat (SGone 0 0) n) s = Some s'
  /\ vlife s' = vlife s /\ psocks (vproc s') = [] /\ phands (vproc s') = phands (vproc s) /\ pbodies (vproc s') = pbodies (vproc s).
Proof.
  induction n as [|n IH]; intros s Hs Hn; cbn [repeat service_run]; [exists s; split_and!; try done; by apply length_zero_iff_nil|].
  destruct (gone_one s Hs) as (s1 & E & El & Ep & Eh & Eb); [by destruct (psocks (vproc s))|]. rewrite E.
  destruct (IH s1 (sound_step _ _ _ _ _ E Hs)) as (s' & E' & El' & Ep' & Eh' & Eb').
  - rewrite Ep. destruct (psocks (vproc s)); [done|]. simpl in *. lia.
  - exists s'. split_and!; [exact E'|congruence..].
Qed.

Lemma aborted_all n : forall s, sound c booted s -> length (phands (vproc s)) = n -> exists s', service_run c (repeat (SRest (VAborted 0)) n) s = Some s'
  /\ vlife s' = vlife s /\ psocks (vproc s') = psocks (vproc s) /\ phands (vproc s') = [] /\ pbodies (vproc s') = pbodies (vproc s).
Proof.
  induction n as [|n IH]; intros s Hs Hn; cbn [repeat service_run]; [exists s; split_and!; try done; by apply length_zero_iff_nil|].
  destruct (aborted_one s Hs) as (s1 & E & El & Ep & Eh & Eb); [by destruct (phands (vproc s))|]. rewrite E.
  destruct (IH s1 (sound_step _ _ _ _ _ E Hs)) as (s' & E' & El' & Ep' & Eh' & Eb').
  - rewrite Eh. destruct (phands (vproc s)); [done|]. simpl in *. lia.
  - exists s'. split_and!; [exact E'|congruence..].
Qed.

Lemma lost_all n : forall s, length (pbodies (vproc s)) = n -> exists s', service_run c (repeat (SRest (VBodyLost 0)) n) s = Some s'
  /\ vlife s' = vlife s /\ psocks (vproc s') = psocks (vproc s) /\ phands (vproc s') = phands (vproc s) /\ pbodies (vproc s') = [].
Proof.
  induction n as [|n IH]; intros s Hn; cbn [repeat service_run]; [exists s; split_and!; try done; by apply length_zero_iff_nil|].
  destruct (lost_one s) as (s1 & E & El & Ep & Eh & Eb); [by destruct (pbodies (vproc s))|]. rewrite E.
  destruct (IH s1) as (s' & E' & El' & Ep' & Eh' & Eb').
  - rewrite Eb. destruct (pbodies (vproc s)); [done|]. simpl in *. lia.
  - exists s'. split_and!; [exact E'|congruence..].
Qed.

Lemma finish_runs s : sound c booted s -> lclosing (vlife s) = Stopping ->
  exists s', service_run c (finish_plan s) s = Some s' /\ lclosing (vlife s') = Closed.
Proof.
  intros Hs Hc. unfold finish_plan. destruct (aborted_all _ s Hs eq_refl) as (s1 & E1 & L1 & P1 & H1 & B1).
  destruct (lost_all (length (pbodies (vproc s))) s1) as (s2 & E2 & L2 & P2 & H2 & B2); [by rewrite B1|].
  rewrite service_run_app, E1. cbn [mbind option_bind]. rewrite service_run_app, E2. cbn [mbind option_bind service_run service_step].
  rewrite L2, L1, Hc. unfold under_way. rewrite H2, H1, B2. cbn [app mbind option_bind]. by eexists.
Qed.

Lemma close_runs ts s : sound c booted s -> closing_ok ts s ->
  exists s', service_run c (close_plan s) s = Some s' /\ lclosing (vlife s') = Closed.
Proof.
  intros Hs [U A T S L G]. unfold close_plan. destruct (lclosing (vlife s)) eqn:Ec; [done| | |by exists s].
  - destruct (gone_all _ s Hs eq_refl) as (s1 & E1 & L1 & P1 & H1 & B1). rewrite service_run_app, E1. cbn [mbind option_bind app service_run].
    assert (Ed : service_step c SDrained s1 = Some (set_life drained s1)) by (cbn [service_step]; by rewrite L1, Ec, P1).
    rewrite Ed. cbn [mbind option_bind]. replace (finish_plan s) with (finish_plan (set_life drained s1)).
    + apply finish_runs; [|done]. eapply sound_step; [exact Ed|]. by eapply sound_run.
    + unfold finish_plan, set_life. cbn [vproc]. by rewrite H1, B1.
  - by apply finish_runs.
Qed.
End Completing.

(** ** Properties *)

(** C23: what holds of the running relay. From the boot, in every order of fetches of
    the map, polls, drain passes, keepalive sweeps, pushes, upgrades, requests, frames,
    closes and room events, and of a shutdown begun at any point: the caps hold up to
    the [k] operations under way, whatever the timers do to the rooms; nothing is
    answered before a first map was adopted; what comes under way came through the
    gate, in distributed mode in a bucket owned by the map held then; the keepalive
    sweep watches exactly the open sockets; and the only timers set are those of the
    options. *)
Theorem service_holds (c : service_config) (k : nat) (ws attest : option buckets) (boot : list (string * option Z)) (now : Z)
    (es : list service_event) (s : service) :
  service_run c es (new_service c ws attest boot now) = Some s ->
  service_narrow c k es (new_service c ws attest boot now) = true ->
  within_caps (v_relay c) k (Z.of_nat (Runtime.size (rehydrate boot new_runtime))) (vproc s)
  /\ (polls c = true -> answers (lserver (vlife s)) = true -> hasMap (vstore s) = true)
  /\ (forall e s' room, service_step c e s = Some s' -> room ∈ under_way (vproc s') -> room ∉ under_way (vproc s) ->
        answers (lserver (vlife s)) = true
        /\ (v_mode c = MODE_DISTRIBUTED -> exists b, bucketForRoomName room = Some b /\ b ∈ owned (vstore s)))
  /\ List.map cws (vclients s) = List.map fst (psocks (vproc s))
  /\ (forall t, t ∈ armed (vlife s) -> timer_expected c t = true).
Proof.
  intros E Hn. pose proof (service_run_ok _ _ _ _ _ _ E Hn (new_service_ok c k ws attest boot now)) as [P C M T B U V R].
  split_and!; [by apply caps_of_ok| | |done|done].
  - intros Hp Ha. apply M; [done|]. right. by destruct (lserver (vlife s)).
  - intros e s' room Es Hin Hout. destruct (service_entered _ _ _ _ _ Es Hin) as [?|[Ha [d Hd]]]; [done|]. split; [done|].
    intros Hm. by eapply let_in_owned.
Qed.

(** C24: the shutdown is clean, and completes. Once [close()] begins on a relay that is
    up, in every order of what follows: every socket open then is closed with 1001 and
    nobody else joins; no room routes to any socket and no timer of the host is set,
    from then on; the storage stays open while a socket, a handshake or a request's
    body is left, and when it closes none is, no room is resident, and no alarm that
    still fires does anything; and as soon as the clients, handshakes and bodies are
    gone the shutdown ends. *)
Theorem shutdown_clean (c : service_config) (ws attest : option buckets) (boot : list (string * option Z)) (now : Z)
    (es1 es2 : list service_event) (s1 s2 s3 : service) :
  service_run c es1 (new_service c ws attest boot now) = Some s1 -> lstart (vlife s1) = Up ->
  service_step c SClose s1 = Some s2 -> service_run c es2 s2 = Some s3 ->
  told (vlife s3) = List.map fst (psocks (vproc s1))
  /\ sublist (List.map fst (psocks (vproc s3))) (told (vlife s3))
  /\ (forall id, live_context (prt (vproc s3)) id = [])
  /\ armed (vlife s3) = []
  /\ (psocks (vproc s3) <> [] \/ under_way (vproc s3) <> [] -> storage_open (vlife s3) = true)
  /\ (storage_open (vlife s3) = false -> lclosing (vlife s3) = Closed /\ rooms (prt (vproc s3)) = []
        /\ totalSockets (rhost (wrelay (pworld (vproc s3)))) = 0
        /\ forall id again rt, rstep (RFire id again) (prt (vproc s3)) = Some rt -> rt = prt (vproc s3))
  /\ exists s4, service_run c (close_plan s3) s3 = Some s4 /\ lclosing (vlife s4) = Closed /\ storage_open (vlife s4) = false.
Proof.
  intros E1 Hu E2 E3. set (booted := Z.of_nat (Runtime.size (rehydrate boot new_runtime))).
  assert (S1 : sound c booted s1) by (eapply sound_run; [exact E1|exists 0%nat; apply new_service_ok]).
  pose proof (sound_step _ _ _ _ _ E2 S1) as S2. pose proof (sound_run _ _ _ _ _ E3 S2) as S3.
  pose proof (closing_run c booted _ es2 s2 s3 S2 (begin_close_ok c booted s1 s2 S1 Hu E2) E3) as C3.
  destruct (close_runs c booted _ s3 S3 C3) as (s4 & E4 & H4). pose proof (closing_run c booted _ _ _ _ S3 C3 E4) as C4.
  pose proof C3 as [U A T S L G]. split_and!; try done.
  - by rewrite T.
  - intros Hne. destruct (lclosing (vlife s3)); [done|by destruct G|by destruct G as (? & ? & ?)|].
    destruct G as (_ & _ & Gp & Gu & _). rewrite Gp, Gu in Hne. by destruct Hne.
  - intros Hst. destruct (lclosing (vlife s3)); [done|destruct G; congruence|destruct G as (? & ? & ?); congruence|].
    destruct G as (_ & _ & Gp & _ & Gr & Gc). split_and!; [done|done| |].
    + destruct S3 as [k Hok]. destruct (caps_of_ok _ _ _ _ (so_proc _ _ _ _ Hok)) as (-> & _). by rewrite Gp.
    + intros id again rt. cbn [rstep]. destruct (contexts _ !! id) as [x|]; [|done]. cbn [mbind option_bind]. destruct (calarm x); [|done].
      unfold _fire. rewrite Gc. by intros [= <-].
  - exists s4. destruct C4 as [_ _ _ _ _ G4]. rewrite H4 in G4. destruct G4 as (_ & G4 & _). by split_and!.
Qed.

(** *** A shutdown before the boot is over *)

Definition direct_service : service_config :=
  ServiceConfig some_relay_config MODE_DIRECT "" None 60 20000 1 "" "".

Definition new_direct : service := new_service direct_service (Some []) None [] 0.

(** [close] does not stop a [listen] that is still under way: the port is bound and
    the timers are set after the storage was closed. The executable exits first. *)
Lemma closed_before_bound :
  exists s, service_run direct_service [SClose; SDrained; SFinished; SBound true 5] new_direct = Some s
    /\ lclosing (vlife s) = Closed /\ storage_open (vlife s) = false
    /\ lserver (vlife s) = Listening /\ armed (vlife s) = [TKeepalive].
Proof. eexists. split; [vm_compute; reflexivity|]. by split_and!. Qed.

(** ** Witnesses *)

Definition fleet_service : service_config :=
  ServiceConfig some_relay_config MODE_DISTRIBUTED "a.example" None 60 20000 1 "https://push.example" "token".

Definition new_fleet : service := new_service fleet_service (Some []) None [] 0.

(** A fetch that fails and one that brings the map; then a socket, and the bucket
    moves away. *)
Definition fleet_run : list service_event :=
  [SBootFetch 0 (Err "down"%string) None; SBootFetch 10 (Ok first_map) None; SBound true 20; SPushed 0 (Ok true);
   SUpgrade 30 room_headers (Some "a"%string); SOpened 0 None; SPoll; SPolled 100 (Ok next_map) None; SKeepalive;
   SDrain 20100; SDrain 21100; SUpgrade 21200 room_headers (Some "a"%string)].

Lemma service_holds_witness :
  exists s, service_run fleet_service fleet_run new_fleet = Some s /\ service_narrow fleet_service 1 fleet_run new_fleet = true
    /\ live_sockets (prt (vproc s)) = [] /\ List.map cws (vclients s) = [0%nat] /\ under_way (vproc s) = []
    /\ List.map cws (vclients s) = List.map fst (psocks (vproc s)).
Proof.
  assert (Hc : match service_run fleet_service fleet_run new_fleet with
               | Some s => (live_sockets (prt (vproc s)), List.map cws (vclients s), under_way (vproc s))
               | None => ([1%nat], [], []) end = ([], [0%nat], [])) by (vm_compute; reflexivity).
  destruct (service_run fleet_service fleet_run new_fleet) as [s|] eqn:E; [|discriminate]. injection Hc as H1 H2 H3.
  assert (Hn : service_narrow fleet_service 1 fleet_run new_fleet = true) by (vm_compute; reflexivity).
  exists s. split; [done|]. split; [exact Hn|]. split; [done|]. split; [done|]. split; [done|].
  exact (proj1 (proj2 (proj2 (proj2 (service_holds fleet_service 1 (Some []) None [] 0 fleet_run s E Hn))))).
Defined.

(** Two sockets and a body are open when the shutdown begins; one of them goes. *)
Definition serving : list service_event :=
  [SBound true 5; SUpgrade 10 room_headers (Some "a"%string); SOpened 0 (Some 50); SUpgrade 11 room_headers (Some "b"%string); SOpened 0 None].
Definition leaving : list service_event := [SUpgrade 12 room_headers (Some "c"%string); SGone 0 1; SRest (VRuntime (RFire 0 (Some 99)))].

Lemma shutdown_clean_witness :
  exists s1 s2 s3, service_run direct_service serving new_direct = Some s1 /\ service_step direct_service SClose s1 = Some s2
    /\ service_run direct_service leaving s2 = Some s3 /\ told (vlife s3) = [0; 1]%nat
    /\ length (psocks (vproc s3)) = 1%nat /\ length (phands (vproc s3)) = 1%nat
    /\ exists s4, service_run direct_service (close_plan s3) s3 = Some s4 /\ lclosing (vlife s4) = Closed /\ storage_open (vlife s4) = false.
Proof.
  assert (Hc : match service_run direct_service serving new_direct with
               | Some s1 =>
                   match service_step direct_service SClose s1 with
                   | Some s2 => match service_run direct_service leaving s2 with
                                | Some s3 => (List.map fst (psocks (vproc s1)), length (psocks (vproc s3)), length (phands (vproc s3)))
                                | None => ([], 0%nat, 0%nat) end
                   | None => ([], 0%nat, 0%nat) end
               | None => ([], 0%nat, 0%nat) end = ([0; 1]%nat, 1%nat, 1%nat)) by (vm_compute; reflexivity).
  destruct (service_run direct_service serving new_direct) as [s1|] eqn:E1; [|discriminate].
  destruct (service_step direct_service SClose s1) as [s2|] eqn:E2; [|discriminate].
  destruct (service_run direct_service leaving s2) as [s3|] eqn:E3; [|discriminate]. injection Hc as H1 H2 H3.
  assert (Hu : lstart (vlife s1) = Up).
  { assert (Hl : match service_run direct_service serving new_direct with Some s => lstart (vlife s) | None => Binding end = Up)
      by (vm_compute; reflexivity). by rewrite E1 in Hl. }
  destruct (shutdown_clean direct_service (Some []) None [] 0 serving leaving s1 s2 s3 E1 Hu E2 E3) as (Ht & _ & _ & _ & _ & _ & Hd).
  exists s1, s2, s3. rewrite Ht. by split_and!.
Defined.
