(* ===== verification/DashDb.v ===== *)
(** The dashboard's database and the two collectors that write to it
    ([DashboardDB] of [dashboard/db.js], [startCollector] of [dashboard/collector.js],
    [listen] of [dashboard/server.js]): one table for the relay, one for the push
    relay, in one file, with the page's requests read in between.

    The fetch of a tick is suspended; what follows it, the insert and the prune, is
    one step. *)

From Stdlib Require Import QArith Ascii Sorted.
From S2P Require Import Prelude Bytes Crypto Json Monitor Metrics DashParse DashStore DashSeries DashServer.
#[local] Open Scope Z_scope.

(** ** The database *)

Record dashboard_db := DashboardDB { samples : table; push_samples : table }.

(** The constructor, over the tables the file has. *)
Definition open_db (on_disk : option table * option table) : dashboard_db :=
  DashboardDB (open_table COLUMNS on_disk.1) (open_table PUSH_COLUMNS on_disk.2).

Definition db_insert (ts : Z) (snapshot : row) (db : dashboard_db) : dashboard_db :=
  DashboardDB (insert COLUMNS ts snapshot (samples db)) (push_samples db).
Definition db_range (fromMs toMs : Z) (db : dashboard_db) : list (Z * row) := range fromMs toMs (samples db).
Definition db_latest (db : dashboard_db) : option (Z * row) := latest (samples db).
Definition db_prune (cutoffMs : Z) (db : dashboard_db) : Z * dashboard_db :=
  let '(n, t) := prune cutoffMs (samples db) in (n, DashboardDB t (push_samples db)).

Definition insertPush (ts : Z) (snapshot : row) (db : dashboard_db) : dashboard_db :=
  DashboardDB (samples db) (insert PUSH_COLUMNS ts snapshot (push_samples db)).
Definition rangePush (fromMs toMs : Z) (db : dashboard_db) : list (Z * row) := range fromMs toMs (push_samples db).
Definition latestPush (db : dashboard_db) : option (Z * row) := latest (push_samples db).
Definition prunePush (cutoffMs : Z) (db : dashboard_db) : Z * dashboard_db :=
  let '(n, t) := prune cutoffMs (push_samples db) in (n, DashboardDB (samples db) t).

(** ** The collectors *)

(** What [startCollector] is given to parse, insert and prune with. *)
Record sink := Sink { s_parse : string -> row; s_insert : Z -> row -> dashboard_db -> dashboard_db;
                      s_prune : Z -> dashboard_db -> Z * dashboard_db }.

Inductive producer := Relay | PushRelay.
#[export] Instance producer_eq_dec : EqDecision producer.
Proof. solve_decision. Defined.

Definition sink_of (p : producer) : sink :=
  match p with
  | Relay => Sink parseMetrics db_insert db_prune
  | PushRelay => Sink parsePushMetrics insertPush prunePush
  end.

(** The database, and each collector's [pruneAccum]. *)
Record dashboard := Dashboard { dash_db : dashboard_db; accum_of : producer -> Z }.

Definition new_dashboard (on_disk : option table * option table) : dashboard := Dashboard (open_db on_disk) (fun _ => 0).

Section Dashboard.
Context (intervalMs retentionMs : Z).

(** A collector's tick, once its page is read or failed. *)
Definition collector_tick (p : producer) (s : scrape) (d : dashboard) : dashboard :=
  let k := sink_of p in
  let db := match page s with Ok text => s_insert k (read_at s) (s_parse k text) (dash_db d) | Err _ => dash_db d end in
  let acc := accum_of d p + intervalMs in
  let set_acc (a : Z) := fun q => if decide (q = p) then a else accum_of d q in
  if HOUR <=? acc then Dashboard (s_prune k (done_at s - retentionMs) db).2 (set_acc 0) else Dashboard db (set_acc acc).

Definition dash_run (l : list (producer * scrape)) (d : dashboard) : dashboard := fold_left (fun d x => collector_tick x.1 x.2 d) l d.
End Dashboard.

(** The page's data, from the database. *)
Definition serve_data (cfg : dash_config) (nowMs : Z) (range_param : option string) (d : dashboard) : result string payload :=
  handleData cfg nowMs range_param (samples (dash_db d)) (push_samples (dash_db d)).

(** ** Lemmas: each collector has its table *)

Definition cols_of (p : producer) : list string := match p with Relay => COLUMNS | PushRelay => PUSH_COLUMNS end.
Definition table_of (p : producer) (db : dashboard_db) : table := match p with Relay => samples db | PushRelay => push_samples db end.
Definition range_of (p : producer) : Z -> Z -> dashboard_db -> list (Z * row) := match p with Relay => db_range | PushRelay => rangePush end.
Definition latest_of (p : producer) : dashboard_db -> option (Z * row) := match p with Relay => db_latest | PushRelay => latestPush end.

(** The scrapes of one producer. *)
Definition own (p : producer) (l : list (producer * scrape)) : list scrape :=
  omap (fun x => if decide (x.1 = p) then Some x.2 else None) l.

(** One collector, as if it were alone. *)
Definition alone (p : producer) (d : dashboard) : collector := Collector (table_of p (dash_db d)) (accum_of d p).

Lemma tick_own i r p s d : alone p (collector_tick i r p s d) = tick i r (s_parse (sink_of p)) (cols_of p) s (alone p d).
Proof.
  unfold collector_tick, tick, alone. destruct p; cbn [sink_of s_parse s_insert s_prune cols_of cdb pruneAccum table_of];
    destruct (page s); destruct (HOUR <=? _); cbn [dash_db accum_of]; by rewrite decide_True.
Qed.

Lemma tick_other i r p q s d : p <> q -> alone q (collector_tick i r p s d) = alone q d.
Proof.
  intros Hne. unfold collector_tick, alone. destruct p, q; try done; cbn [sink_of s_parse s_insert s_prune table_of];
    destruct (page s); destruct (HOUR <=? _); cbn [dash_db accum_of]; by rewrite decide_False.
Qed.

(** A collector's table is what its own scrapes make of it. *)
Lemma run_own i r p l : forall d, alone p (dash_run i r l d) = collect i r (s_parse (sink_of p)) (cols_of p) (own p l) (alone p d).
Proof.
  induction l as [|[q s] l IH]; intros d; [done|]. unfold dash_run in *. cbn [fold_left fst snd]. rewrite IH.
  unfold own. cbn [omap list_omap fst snd]. destruct (decide (q = p)) as [->|Hne].
  - unfold collect. cbn [fold_left]. by rewrite tick_own.
  - by rewrite tick_other.
Qed.

Lemma alone_new p : alone p (new_dashboard (None, None)) = Collector (open_table (cols_of p) None) 0.
Proof. unfold alone, new_dashboard, open_db. by destruct p. Qed.

(** The relay's part of the data comes from the relay's table. *)
Lemma relay_part cfg nowMs rp d d' shown shown' : samples (dash_db d) = samples (dash_db d') ->
  serve_data cfg nowMs rp d = Ok shown -> serve_data cfg nowMs rp d' = Ok shown' ->
  pl_window shown = pl_window shown' /\ pl_tiles shown = pl_tiles shown' /\ pl_alerts shown = pl_alerts shown' /\ pl_series shown = pl_series shown'.
Proof.
  unfold serve_data, handleData. intros ->.
  destruct (if String.eqb (metricsUrl cfg) "" then _ else _) as [base|]; [|done]. cbn [rbind].
  destruct (String.eqb (pushMetricsUrl cfg) ""); [intros [= <-] [= <-]; done|].
  generalize (buildPush match span_of rp with Some _ => range (nowMs - default 0 (span_of rp)) nowMs (push_samples (dash_db d)) | None => [] end
    (latest (push_samples (dash_db d))) (nowMs - default 0 (span_of rp)) nowMs match span_of rp with Some ms => buckets_for cfg ms | None => 0%nat end nowMs).
  intros [pp|]; [|done]. cbn [rbind]. intros [= <-].
  match goal with |- rbind ?x _ = _ -> _ => destruct x as [pp'|]; [|done] end. cbn [rbind]. by intros [= <-].
Qed.

(** ** Property *)

(** C33: two producers share the database and neither sees the other. However the
    ticks of the two collectors interleave, whatever scrapes fail: over a window
    within the retention time each table's [range] gives exactly its own producer's
    scrapes that worked there, each once and in order, [latest] is the last of them,
    and nothing older than the retention time stays longer than an hour's worth of
    its own ticks; and the relay's part of the page's data is the same whatever the
    push relay's scrapes did. *)
Theorem histories_exact (intervalMs retentionMs gap : Z) (l : list (producer * scrape)) :
  0 < intervalMs -> 0 <= retentionMs -> 0 <= gap ->
  let db := dash_db (dash_run intervalMs retentionMs l (new_dashboard (None, None))) in
  (forall p k s, own p l = k ++ [s] -> clock (k ++ [s]) -> paced gap (k ++ [s]) ->
     let rows := scraped (s_parse (sink_of p)) (cols_of p) (open_table (cols_of p) None) (k ++ [s]) in
     (forall fromMs toMs, done_at s - retentionMs <= fromMs ->
        range_of p fromMs toMs db = List.filter (fun r => in_window fromMs toMs r.1) rows)
     /\ (forall r, last rows = Some r -> done_at s - retentionMs <= r.1 -> latest_of p db = Some r)
     /\ (forall r, r ∈ sorted_rows (table_of p db) -> r ∈ rows /\ (done_at s - retentionMs - r.1) * intervalMs <= HOUR * gap))
  /\ (forall l' cfg nowMs range_param shown shown', own Relay l' = own Relay l ->
        serve_data cfg nowMs range_param (dash_run intervalMs retentionMs l (new_dashboard (None, None))) = Ok shown ->
        serve_data cfg nowMs range_param (dash_run intervalMs retentionMs l' (new_dashboard (None, None))) = Ok shown' ->
        pl_window shown = pl_window shown' /\ pl_tiles shown = pl_tiles shown' /\ pl_alerts shown = pl_alerts shown' /\ pl_series shown = pl_series shown').
Proof.
  intros Hi Hr Hg db. split.
  - intros p k s Ho Hc Hp rows.
    assert (Ht : table_of p db = cdb (collect intervalMs retentionMs (s_parse (sink_of p)) (cols_of p) (k ++ [s])
                                        (Collector (open_table (cols_of p) None) 0))).
    { pose proof (run_own intervalMs retentionMs p l (new_dashboard (None, None))) as Hrun. rewrite Ho in Hrun.
      rewrite alone_new in Hrun. exact (f_equal cdb Hrun). }
    destruct (history_exact intervalMs retentionMs gap (s_parse (sink_of p)) (cols_of p) k s Hi Hr Hg Hc Hp) as (H1 & H2 & H3).
    rewrite <-Ht in H1, H2, H3. split_and!; [|destruct p; exact H2|exact H3]. destruct p; exact H1.
  - intros l' cfg nowMs rp shown shown' Ho E E'. eapply relay_part; [|exact E|exact E'].
    pose proof (run_own intervalMs retentionMs Relay l (new_dashboard (None, None))) as H1.
    pose proof (run_own intervalMs retentionMs Relay l' (new_dashboard (None, None))) as H2. rewrite Ho, <-H1 in H2.
    symmetry. exact (f_equal cdb H2).
Qed.

(** ** Witness *)

(** The relay is scraped while the push relay is down half of the time. *)
Definition push_page (n : string) : result string string := Ok ("pushrelay_push_total " +:+ n).
Definition some_ticks : list (producer * scrape) :=
  [(Relay, Scrape 0 1 (page_of "3")); (PushRelay, Scrape 5 6 (push_page "40"));
   (PushRelay, Scrape 1800004 1800005 (Err "scrape HTTP 502"%string)); (Relay, Scrape 1800000 1800006 (page_of "4"));
   (Relay, Scrape 3600000 3600001 (Err "scrape HTTP 502"%string)); (PushRelay, Scrape 3600004 3600005 (push_page "41"))].

Lemma some_ticks_paced : paced 1800006 [Scrape 5 6 (push_page "40"); Scrape 1800004 1800005 (Err "scrape HTTP 502"%string); Scrape 3600004 3600005 (push_page "41")].
Proof.
  split; [|repeat constructor; simpl; lia]. intros l1 s s' l2 E.
  do 2 (destruct l1 as [|? l1]; [cbn in E; injection E as <- <- <-; simpl; lia|injection E as _ E]).
  apply (f_equal (@length _)) in E. rewrite length_app in E. simpl in E. lia.
Qed.

Lemma histories_exact_witness :
  let db := dash_db (dash_run 1800000 3600000 some_ticks (new_dashboard (None, None))) in
  own Relay some_ticks = [Scrape 0 1 (page_of "3"); Scrape 1800000 1800006 (page_of "4"); Scrape 3600000 3600001 (Err "scrape HTTP 502"%string)]
  /\ (fun r => r.1) <$> db_range 0 3600005 db = [0; 1800000]
  /\ (fun r => r.1) <$> rangePush 5 3600005 db = [5; 3600004]
  /\ rangePush 5 3600005 db
     = List.filter (fun r => in_window 5 3600005 r.1)
         (scraped parsePushMetrics PUSH_COLUMNS (open_table PUSH_COLUMNS None)
            [Scrape 5 6 (push_page "40"); Scrape 1800004 1800005 (Err "scrape HTTP 502"%string); Scrape 3600004 3600005 (push_page "41")]).
Proof.
  split; [reflexivity|]. split; [by vm_compute|]. split; [by vm_compute|].
  refine (proj1 (proj1 (histories_exact 1800000 3600000 1800006 some_ticks _ _ _) PushRelay
    [Scrape 5 6 (push_page "40"); Scrape 1800004 1800005 (Err "scrape HTTP 502"%string)] (Scrape 3600004 3600005 (push_page "41")) _ _ _) 5 3600005 _);
    [lia..|reflexivity| |apply some_ticks_paced|simpl; lia].
  split; repeat constructor; simpl; lia.
Defined.
