(* ===== verification/DashShell.v ===== *)
(** The dashboard's page as it runs in the browser ([dashboard/page.js]): its markup,
    the elements the script writes to, the range buttons, the loads that are under way
    and what their answers show, the half-minute timer, and the pointer over a chart.

    An element the script looks up and does not find makes the step fail. The page's
    style is left out. *)

From Stdlib Require Import QArith Ascii.
From S2P Require Import Prelude Bytes Json Monitor MonitorPush Metrics Html DashParse DashStore DashSeries DashServer DashPage.
#[local] Open Scope Z_scope.

(** ** The markup *)

Definition BODY : string := requote "<header>
  <h1>iTerm2 Relay</h1>
  <span class='sub' id='freshness'>loading…</span>
  <span class='spacer'></span>
  <div class='ranges' id='ranges' role='group' aria-label='Time range'></div>
</header>
<main>
  <div id='health' hidden></div>
  <div class='tiles' id='tiles'></div>
  <div class='charts' id='charts'></div>
  <div class='section' id='push-section' hidden>Push relay<span class='stale' id='push-stale'></span></div>
  <div class='tiles' id='push-tiles' hidden></div>
  <div class='charts' id='push-charts' hidden></div>
</main>
<footer id='foot'></footer>
<div class='tt' id='tt'></div>
".

(** What an element shows. *)
Inductive content :=
| Blank
| Words (text color : string)
| Buttons (l : list (string * bool))           (* label, [aria-pressed] *)
| Health (h : string * string * list (bool * finding))
| Tiles (l : list tile)
| Charts (l : list chart_view).

Record element := Element { hidden : bool; inside : content }.

(** The document: its title, its heading, its elements by id. *)
Record document := Document { d_title : string; d_h1 : string; by_id : gmap string element }.

Definition attr (name : string) (l : list attribute) : option string := snd <$> List.find (fun a => String.eqb a.1 name) l.

(** The ids of the markup, each with whether its element is hidden. *)
Definition ids_of (ts : list token) : list (string * bool) :=
  omap (fun t => match t with
                 | Open _ attrs => (fun i => (i, bool_decide (is_Some (attr "hidden" attrs)))) <$> attr "id" attrs
                 | _ => None end) ts.

Definition parsed : list token := default [] (tokens_of BODY).

Definition new_document : document :=
  Document "iTerm2 Relay Dashboard" "iTerm2 Relay" (list_to_map ((fun x => (x.1, Element x.2 Blank)) <$> ids_of parsed)).

(** [document.getElementById(id)], and what is done to the element. *)
Definition edit (id : string) (f : element -> element) (d : document) : option document :=
  e ← by_id d !! id; Some (Document (d_title d) (d_h1 d) (<[id := f e]> (by_id d))).

Definition set_hidden (b : bool) (e : element) : element := Element b (inside e).
Definition put (c : content) (e : element) : element := Element (hidden e) c.

(** ** Ranges *)

Definition RANGES : list string := ["1h"; "6h"; "24h"; "7d"; "30d"]%string.

Definition renderRanges (curRange : string) : document -> option document :=
  edit "ranges" (put (Buttons (List.map (fun r => (r, String.eqb r curRange)) RANGES))).

(** [localStorage.getItem("range") || "24h"] *)
Definition first_range (stored : option string) : string :=
  match stored with Some s => if String.eqb s "" then "24h"%string else s | None => "24h"%string end.

(** ** Loads *)

Definition alarming (stale : bool) : string := if stale then "var(--critical)" else "var(--muted)".

Section Shown.
Context (locale : Q -> string) (fixed : Z -> Q -> string) (plain : Q -> string).

Definition renderPushSection (t0 t1 : Z) (push : option push_payload) (d : document) : option document :=
  match push with
  | None =>
      d ← edit "push-section" (set_hidden true) d; d ← edit "push-tiles" (set_hidden true) d; edit "push-charts" (set_hidden true) d
  | Some q =>
      d ← edit "push-section" (set_hidden false) d; d ← edit "push-tiles" (set_hidden false) d; d ← edit "push-charts" (set_hidden false) d;
      d ← edit "push-stale" (put (Words ("· " +:+ freshness plain (p_tiles q)) (alarming (is_stale (p_tiles q))))) d;
      d ← edit "push-tiles" (put (Tiles (fillTiles (PUSH_TILES locale fixed plain (p_reasons q)) (p_tiles q)))) d;
      edit "push-charts" (put (Charts (List.map (chart_of t0 t1 (p_series q)) (PUSH_CHARTS locale fixed plain)))) d
  end.

Definition foot_text (buckets : string) : string :=
  "Reset-aware rates from " +:+ buckets +:+ " buckets. Loopback scrape of /metrics; zero PII. Auto-refreshes every 30s.".

(** A window that is not numbers comes as [null]s. *)
Definition window_of (p : payload) : Z * Z * string :=
  match pl_window p with Some (t0, t1, n) => (t0, t1, plain (inject_Z (Z.of_nat n))) | None => (0, 0, "null"%string) end.

(** The relay's half: hidden, or its health, tiles and charts. *)
Definition renderRelay (t0 t1 : Z) (p : payload) (d : document) : option document :=
  let relayOn := bool_decide (is_Some (pl_tiles p)) in
  d ← edit "health" (set_hidden (negb relayOn)) d; d ← edit "tiles" (set_hidden (negb relayOn)) d;
  d ← edit "charts" (set_hidden (negb relayOn)) d;
  let d := Document (if relayOn then "iTerm2 Relay Dashboard" else "iTerm2 Push Relay Dashboard")
             (if relayOn then "iTerm2 Relay" else "iTerm2 Push Relay") (by_id d) in
  match pl_tiles p with
  | Some t =>
      d ← edit "health" (fun _ => Element false (Health (renderHealth plain (pl_alerts p)))) d;
      d ← edit "tiles" (put (Tiles (fillTiles (TILES locale plain) t))) d;
      edit "charts" (put (Charts (List.map (chart_of t0 t1 (default [] (pl_series p))) (CHARTS locale fixed)))) d
  | None => Some d
  end.

(** The tiles that say how old the data is. *)
Definition fresh_tiles (p : payload) : tiles :=
  match pl_tiles p, pl_push p with Some t, _ => t | None, Some q => p_tiles q | None, None => [] end.

(** The body of [load]'s [try], from the answer's data on. *)
Definition show (p : payload) (d : document) : option document :=
  let '(t0, t1, buckets) := window_of p in
  d ← renderRelay t0 t1 p d;
  d ← renderPushSection t0 t1 (pl_push p) d;
  d ← edit "freshness" (put (Words (freshness plain (fresh_tiles p)) (alarming (is_stale (fresh_tiles p))))) d;
  edit "foot" (put (Words (foot_text buckets) "")) d.

(** The [catch]: the color stays. *)
Definition show_error (message : string) : document -> option document :=
  edit "freshness" (fun e => put (Words ("load error: " +:+ message) (match inside e with Words _ c => c | _ => "" end)) e).

(** ** The page as it runs *)

(** What came of a load: the data, another status, or an exception. *)
Inductive answer := Answered (p : payload) | BadStatus (status : string) | Broken (message : string).

(** [stored] is [localStorage]'s range; [inflight] the ranges of the loads under way,
    in the order they were asked for; [shown] the range of the last data shown. *)
Record client := Client { curRange : string; stored : option string; inflight : list string; doc : document; shown : option string }.

Inductive client_event := CPress (range : string) | CTimer | CAnswer (i : nat) (a : answer).

(** [load()] to its [await] *)
Definition ask (c : client) : client := Client (curRange c) (stored c) (inflight c ++ [curRange c]) (doc c) (shown c).

Definition boot_client (stored : option string) : option client :=
  let cur := first_range stored in
  d ← renderRanges cur new_document; Some (ask (Client cur stored [] d None)).

Definition answered (range : string) (a : answer) (c : client) : option client :=
  match a with
  | Answered p => d ← show p (doc c); Some (Client (curRange c) (stored c) (inflight c) d (Some range))
  | BadStatus s => d ← show_error ("HTTP " +:+ s) (doc c); Some (Client (curRange c) (stored c) (inflight c) d (shown c))
  | Broken m => d ← show_error m (doc c); Some (Client (curRange c) (stored c) (inflight c) d (shown c))
  end.

Definition client_step (e : client_event) (c : client) : option client :=
  match e with
  | CPress r => d ← renderRanges r (doc c); Some (ask (Client r (Some r) (inflight c) d (shown c)))
  | CTimer => Some (ask c)
  | CAnswer i a =>
      r ← inflight c !! i; answered r a (Client (curRange c) (stored c) (delete i (inflight c)) (doc c) (shown c))
  end.

Fixpoint client_run (l : list client_event) (c : client) : option client :=
  match l with [] => Some c | e :: l' => c' ← client_step e c; client_run l' c' end.
End Shown.

(** ** The pointer *)

(** The crosshair, a dot per line, and the tooltip: its time, its rows, its place. *)
Record pointer := Pointer { cross : option Q; dots : list (option (Q * Q)); tip : option (Z * list string * (Q * Q)) }.

Section Hover.
Context (t0 t1 : Z) (spec : chart_spec) (points : chart) (extras : list (string * chart)).

Definition lines_of : list (option string * chart) := (clabel spec, points) :: List.map (fun e => (Some e.1, e.2)) extras.
Definition value_at (ch : chart) (i : nat) : option Q := p ← ch !! i; pv p.

(** A row of the tooltip: the label where there are several lines, and the value. *)
Definition row_text (l : option string * chart) (v : Q) : string :=
  (if (1 <? length lines_of)%nat then default "undefined"%string l.1 +:+ " " else "") +:+ cfmt spec v.

Definition onMove (left width clientX clientY innerWidth : Q) (s : pointer) : pointer :=
  let relX := ((clientX - left) / width)%Q in
  match hover t0 t1 points (List.map snd extras) relX with
  | None => s
  | Some (bi, b) =>
      let bx := x_of t0 t1 (inject_Z (pt b)) in
      let vmax := vmax_of (pctAxis spec) (List.map snd lines_of) in
      Pointer (Some bx) (List.map (fun l => (fun v => (bx, y_of vmax v)) <$> value_at l.2 bi) lines_of)
        (Some (pt b, omap (fun l => row_text l <$> value_at l.2 bi) lines_of,
               (if Qle_bool (innerWidth - 160) (clientX + 12) then innerWidth - 160 else clientX + 12, clientY + 12)%Q))
  end.

Definition onLeave (s : pointer) : pointer := Pointer None (List.map (fun _ => None) (dots s)) None.
End Hover.

(** ** Lemmas: the elements *)

(** What the script looks up. *)
Definition LOOKED_UP : list string :=
  ["ranges"; "health"; "tiles"; "charts"; "push-section"; "push-tiles"; "push-charts"; "push-stale"; "tt"; "freshness"; "foot"]%string.

Definition complete (d : document) : Prop := forall id, id ∈ LOOKED_UP -> is_Some (by_id d !! id).

(** The markup is well formed, with one heading and each id once, those of the script
    among them. *)
Lemma page_has_its_elements :
  tokens_of BODY = Some parsed
  /\ NoDup (List.map fst (ids_of parsed))
  /\ countb (fun t => match t with Open "h1" _ => true | _ => false end) parsed = 1%nat
  /\ complete new_document.
Proof.
  assert (Ht : tokens_of BODY = Some parsed) by (vm_compute; reflexivity).
  assert (Hids : NoDup (List.map fst (ids_of parsed))) by (apply (bool_decide_unpack _); by vm_compute).
  assert (Hc : forallb (fun id => bool_decide (is_Some (by_id new_document !! id))) LOOKED_UP = true) by (vm_compute; reflexivity).
  split; [exact Ht|]. split; [exact Hids|]. split; [by vm_compute|]. intros id Hin. rewrite forallb_forall in Hc.
  apply list_elem_of_In in Hin. by apply Hc, bool_decide_eq_true in Hin.
Qed.

Lemma edit_complete id f d : complete d -> id ∈ LOOKED_UP ->
  exists e, by_id d !! id = Some e /\ edit id f d = Some (Document (d_title d) (d_h1 d) (<[id := f e]> (by_id d)))
    /\ complete (Document (d_title d) (d_h1 d) (<[id := f e]> (by_id d))).
Proof.
  intros Hd Hin. destruct (Hd id Hin) as [e He]. exists e. unfold edit. rewrite He. split; [done|]. split; [done|].
  intros j Hj. cbn [by_id]. destruct (decide (id = j)) as [<-|]; [rewrite lookup_insert_eq; by eexists|rewrite lookup_insert_ne by done; auto].
Qed.

(** An edit of an element the script knows goes through. *)
Ltac edit_goes :=
  match goal with
  | Hc : complete ?d |- context [edit ?id ?f ?d] =>
      let e := fresh "e" in let He := fresh "He" in let E := fresh "E" in let Hc' := fresh "Hc" in
      destruct (edit_complete id f d Hc) as (e & He & E & Hc'); [unfold LOOKED_UP; member|]; rewrite E; clear E Hc;
      cbn [mbind option_bind d_title d_h1 by_id] in *
  end.

(** Looking into a document after some edits. *)
Ltac looked_up := repeat first [rewrite lookup_insert_eq | rewrite lookup_insert_ne by done]; try done.

Section Shows.
Context (locale : Q -> string) (fixed : Z -> Q -> string) (plain : Q -> string).

Definition is_hidden (id : string) (d : document) : Prop := exists c, by_id d !! id = Some (Element true c).
Definition shows (id : string) (c : content) (d : document) : Prop := by_id d !! id = Some (Element false c).

(** The document shows a page: the halves that are there, the others hidden. *)
Record displays (g : page) (d : document) : Prop := {
  ds_heading : d_h1 d = g_title g;
  ds_relay : match g_health g with
             | Some h => shows "health" (Health h) d /\ shows "tiles" (Tiles (g_tiles g)) d /\ shows "charts" (Charts (g_charts g)) d
             | None => is_hidden "health" d /\ is_hidden "tiles" d /\ is_hidden "charts" d
             end;
  ds_push : match g_push g with
            | Some (ts, cs, s) => shows "push-tiles" (Tiles ts) d /\ shows "push-charts" (Charts cs) d
                                  /\ exists color b c, by_id d !! "push-stale" = Some (Element b (Words s color)) /\ by_id d !! "push-section" = Some (Element false c)
            | None => is_hidden "push-section" d /\ is_hidden "push-tiles" d /\ is_hidden "push-charts" d
            end;
  ds_fresh : exists b, by_id d !! "freshness" = Some (Element b (Words (g_freshness g) (alarming (g_stale g)))) }.

(** What an answer's data puts on the page. *)
Definition page_of_payload (p : payload) : page :=
  load locale fixed plain (window_of plain p).1.1 (window_of plain p).1.2 p.

(** A payload of the server: charts with the tiles. *)
Definition whole (p : payload) : Prop := is_Some (pl_tiles p) <-> is_Some (pl_series p).

Lemma renderPushSection_shows t0 t1 push d : complete d -> exists d', renderPushSection locale fixed plain t0 t1 push d = Some d' /\ complete d'
  /\ d_h1 d' = d_h1 d /\ (forall id, id ∉ ["push-section"; "push-tiles"; "push-charts"; "push-stale"]%string -> by_id d' !! id = by_id d !! id)
  /\ match push with
     | Some q => shows "push-tiles" (Tiles (fillTiles (PUSH_TILES locale fixed plain (p_reasons q)) (p_tiles q))) d'
         /\ shows "push-charts" (Charts (List.map (chart_of t0 t1 (p_series q)) (PUSH_CHARTS locale fixed plain))) d'
         /\ exists color b c, by_id d' !! "push-stale" = Some (Element b (Words ("· " +:+ freshness plain (p_tiles q)) color))
            /\ by_id d' !! "push-section" = Some (Element false c)
     | None => is_hidden "push-section" d' /\ is_hidden "push-tiles" d' /\ is_hidden "push-charts" d'
     end.
Proof.
  intros Hd. unfold renderPushSection. destruct push as [q|].
  - do 6 edit_goes. eexists. split; [reflexivity|]. split; [done|]. split; [done|]. cbn [by_id]. split.
    + intros id Hid. rewrite !not_elem_of_cons in Hid. destruct_and! Hid. by rewrite !lookup_insert_ne by done.
    + unfold shows. cbn [by_id]. simplify_map_eq. split; [done|]. split; [done|]. by eexists _, _, _.
  - do 3 edit_goes. eexists. split; [reflexivity|]. split; [done|]. split; [done|]. cbn [by_id]. split.
    + intros id Hid. rewrite !not_elem_of_cons in Hid. destruct_and! Hid. by rewrite !lookup_insert_ne by done.
    + unfold is_hidden. cbn [by_id]. simplify_map_eq. split_and!; by eexists.
Qed.

Lemma renderRelay_shows t0 t1 p d : complete d -> exists d', renderRelay locale fixed plain t0 t1 p d = Some d' /\ complete d'
  /\ d_h1 d' = (if bool_decide (is_Some (pl_tiles p)) then "iTerm2 Relay"%string else "iTerm2 Push Relay"%string)
  /\ (forall id, id ∉ ["health"; "tiles"; "charts"]%string -> by_id d' !! id = by_id d !! id)
  /\ match pl_tiles p with
     | Some t => shows "health" (Health (renderHealth plain (pl_alerts p))) d' /\ shows "tiles" (Tiles (fillTiles (TILES locale plain) t)) d'
         /\ shows "charts" (Charts (List.map (chart_of t0 t1 (default [] (pl_series p))) (CHARTS locale fixed))) d'
     | None => is_hidden "health" d' /\ is_hidden "tiles" d' /\ is_hidden "charts" d'
     end.
Proof.
  intros Hd. unfold renderRelay. do 3 edit_goes. destruct (pl_tiles p) as [t|]; cbn [negb].
  - match goal with Hc : complete _ |- context [edit "health" _ ?x] => set (d3 := x); assert (complete d3) by exact Hc; clear Hc end.
    do 3 edit_goes. eexists. split; [reflexivity|]. split; [done|]. split; [done|]. cbn [by_id]. split.
    + intros id Hid. rewrite !not_elem_of_cons in Hid. destruct_and! Hid. unfold d3. cbn [by_id]. by rewrite !lookup_insert_ne by done.
    + unfold shows, d3 in *. cbn [by_id] in *. simplify_map_eq. done.
  - eexists. split; [reflexivity|]. split; [done|]. split; [done|]. cbn [by_id]. split.
    + intros id Hid. rewrite !not_elem_of_cons in Hid. destruct_and! Hid. by rewrite !lookup_insert_ne by done.
    + unfold is_hidden. cbn [by_id]. simplify_map_eq. split_and!; by eexists.
Qed.

(** The data of an answer is shown as the page that was specified. *)
Lemma show_displays p d : whole p -> complete d -> exists d', show locale fixed plain p d = Some d' /\ complete d'
  /\ displays (page_of_payload p) d' /\ by_id d' !! "ranges"%string = by_id d !! "ranges"%string.
Proof.
  intros Hw Hd. unfold show, page_of_payload. destruct (window_of plain p) as [[t0 t1] buckets]. cbn [fst snd].
  destruct (renderRelay_shows t0 t1 p d Hd) as (d1 & -> & H1 & Ht1 & Ho1 & Hs1). cbn [mbind option_bind].
  destruct (renderPushSection_shows t0 t1 (pl_push p) d1 H1) as (d2 & -> & H2 & Ht2 & Ho2 & Hs2). cbn [mbind option_bind].
  edit_goes. edit_goes. eexists. split; [reflexivity|]. split; [done|].
  assert (Hin : forall id, id <> "freshness"%string -> id <> "foot"%string ->
    by_id d2 !! id = <["foot":=put (Words (foot_text buckets) "") e0]> (<["freshness":=put
      (Words (freshness plain (fresh_tiles p)) (alarming (is_stale (fresh_tiles p)))) e]> (by_id d2)) !! id)
    by (intros id ? ?; by rewrite !lookup_insert_ne by done).
  split; [split|]; unfold shows, is_hidden, load in *; cbn [by_id d_h1 d_title g_title g_health g_tiles g_charts g_push g_freshness g_stale] in *.
  - rewrite Ht2, Ht1. by destruct (pl_tiles p).
  - destruct (pl_tiles p) as [t|] eqn:Et; rewrite <-!Hin, !Ho2 by (done || (intros Hid; repeat (apply elem_of_cons in Hid as [?|Hid]; [done|]); by apply not_elem_of_nil in Hid)).
    + destruct (pl_series p) as [sr|] eqn:Es; [done|]. destruct Hw as [Hw _]. rewrite Et, Es in Hw. by destruct Hw.
    + done.
  - destruct (pl_push p) as [q|]; cbn [fmap option_fmap option_map]; by rewrite <-!Hin by done.
  - eexists. rewrite lookup_insert_ne, lookup_insert_eq by done. unfold put, fresh_tiles. reflexivity.
  - rewrite <-Hin, Ho2, Ho1 by (done || (intros Hid; repeat (apply elem_of_cons in Hid as [?|Hid]; [done|]); by apply not_elem_of_nil in Hid)). done.
Qed.

(** ** Lemmas: the page as it runs *)

Definition buttons (cur : string) : content := Buttons (List.map (fun r => (r, String.eqb r cur)) RANGES).

(** What holds while the page runs. *)
Record client_ok (c : client) : Prop := {
  co_complete : complete (doc c);
  co_buttons : by_id (doc c) !! "ranges"%string = Some (Element false (buttons (curRange c))) }.

(** Answers come in the order the loads were asked for. *)
Definition in_order (e : client_event) : Prop := match e with CAnswer i _ => i = 0%nat | _ => True end.
Definition whole_answer (e : client_event) : Prop := match e with CAnswer _ (Answered p) => whole p | _ => True end.
Definition possible (e : client_event) (c : client) : Prop := match e with CAnswer i _ => (i < length (inflight c))%nat | _ => True end.

Lemma renderRanges_ok r d e0 : complete d -> by_id d !! "ranges"%string = Some e0 -> hidden e0 = false ->
  exists d', renderRanges r d = Some d' /\ complete d' /\ by_id d' !! "ranges"%string = Some (Element false (buttons r)).
Proof.
  intros Hd E Hh. unfold renderRanges. edit_goes. eexists. split; [reflexivity|]. split; [done|]. cbn [by_id]. rewrite lookup_insert_eq.
  rewrite He in E. injection E as ->. unfold put. by rewrite Hh.
Qed.

Lemma show_error_ok m d : complete d -> exists d', show_error m d = Some d' /\ complete d'
  /\ forall id, id <> "freshness"%string -> by_id d' !! id = by_id d !! id.
Proof.
  intros Hd. unfold show_error. edit_goes. eexists. split; [reflexivity|]. split; [done|]. cbn [by_id]. intros id Hid. by rewrite lookup_insert_ne.
Qed.

Lemma client_step_ok e c : client_ok c -> whole_answer e -> possible e c ->
  exists c', client_step locale fixed plain e c = Some c' /\ client_ok c'.
Proof.
  intros [Hc Hb] Hw Hp. destruct e as [r| |i a]; cbn [client_step].
  - destruct (renderRanges_ok r (doc c) _ Hc Hb eq_refl) as (d & -> & Hd & Eb). eexists. split; [done|]. by split.
  - eexists. split; [done|]. by split.
  - destruct (lookup_lt_is_Some_2 _ _ Hp) as [r ->]. cbn [mbind option_bind]. destruct a as [p|s|m]; cbn [answered doc].
    + destruct (show_displays p (doc c) Hw Hc) as (d & -> & Hd & _ & Er). eexists. split; [done|]. split; cbn [doc curRange]; [done|congruence].
    + destruct (show_error_ok ("HTTP " +:+ s) (doc c) Hc) as (d & -> & Hd & Er). eexists. split; [done|]. split; cbn [doc curRange]; [done|by rewrite Er].
    + destruct (show_error_ok m (doc c) Hc) as (d & -> & Hd & Er). eexists. split; [done|]. split; cbn [doc curRange]; [done|by rewrite Er].
Qed.

Lemma boot_client_ok st : exists c, boot_client st = Some c /\ client_ok c /\ inflight c = [first_range st] /\ curRange c = first_range st /\ stored c = st.
Proof.
  destruct page_has_its_elements as (_ & _ & _ & Hc). unfold boot_client.
  assert (Hr : by_id new_document !! "ranges"%string = Some (Element false Blank)) by (vm_compute; reflexivity).
  destruct (renderRanges_ok (first_range st) new_document _ Hc Hr eq_refl) as (d & -> & Hd & Eb). eexists. split; [reflexivity|]. split; [split; [exact Hd|exact Eb]|split_and!; reflexivity].
Qed.

Lemma client_run_ok l : forall c c', client_run locale fixed plain l c = Some c' -> Forall whole_answer l -> client_ok c -> client_ok c'.
Proof.
  induction l as [|e l IH]; intros c c' E Hw Hok; cbn [client_run] in E; [by injection E as <-|]. apply Forall_cons in Hw as [Hw Hl].
  destruct (client_step locale fixed plain e c) as [c1|] eqn:E1; [|done]. cbn [mbind option_bind] in E.
  assert (Hp : possible e c).
  { destruct e; try done. cbn [client_step possible] in *. destruct (inflight c !! i) eqn:Ei; [|done]. by apply lookup_lt_Some in Ei. }
  destruct (client_step_ok e c Hok Hw Hp) as (c2 & E2 & H2). rewrite E1 in E2. injection E2 as ->. by eapply IH.
Qed.

(** The latest load is for the pressed range. *)
Definition latest_current (c : client) : Prop := inflight c = [] \/ last (inflight c) = Some (curRange c).

Lemma answered_life r a c c' : answered locale fixed plain r a c = Some c' ->
  curRange c' = curRange c /\ inflight c' = inflight c /\ shown c' = match a with Answered _ => Some r | _ => shown c end.
Proof.
  destruct a as [p|s|m]; cbn [answered]; [destruct (show _ _ _ _ _)|destruct (show_error _ _)|destruct (show_error _ _)]; try done;
    by intros [= <-].
Qed.

Lemma in_order_step e c c' : client_step locale fixed plain e c = Some c' -> in_order e -> latest_current c ->
  latest_current c' /\ (match e with CAnswer _ (Answered _) => inflight c' = [] -> shown c' = Some (curRange c') | _ => True end).
Proof.
  intros E Ho Hl. destruct e as [r| |i a]; cbn [client_step] in E.
  - destruct (renderRanges _ _); [|done]. injection E as <-. split; [|done]. right. apply last_snoc.
  - injection E as <-. split; [|done]. right. apply last_snoc.
  - cbn in Ho. subst i. destruct (inflight c) as [|r l] eqn:Ei; [done|]. cbn [lookup list_lookup mbind option_bind] in E.
    apply answered_life in E as (Ec & Ei' & Es). cbn [curRange inflight shown] in *. change (delete 0%nat (r :: l)) with l in Ei'.
    destruct Hl as [Hl|Hl]; [congruence|]. rewrite Ei in Hl. split.
    + unfold latest_current. rewrite Ei', Ec. destruct l as [|x l]; [by left|right]. exact Hl.
    + destruct a; try done. intros Hn. rewrite Es, Ec. subst l. rewrite Hn in Hl. exact Hl.
Qed.

Lemma in_order_run l : forall c c', client_run locale fixed plain l c = Some c' -> Forall in_order l -> latest_current c -> latest_current c'.
Proof.
  induction l as [|e l IH]; intros c c' E Ho Hl; cbn [client_run] in E; [by injection E as <-|]. apply Forall_cons in Ho as [He Ho].
  destruct (client_step locale fixed plain e c) as [c1|] eqn:E1; [|done]. cbn [mbind option_bind] in E.
  eapply IH; [exact E|done|by eapply in_order_step].
Qed.

Lemma failed_load r a c c' id : match a with Answered _ => False | _ => True end -> answered locale fixed plain r a c = Some c' ->
  complete (doc c) -> id <> "freshness"%string -> by_id (doc c') !! id = by_id (doc c) !! id.
Proof.
  intros Ha E Hc Hid. destruct a as [p|s|m]; [destruct Ha|..]; cbn [answered] in E.
  - destruct (show_error_ok ("HTTP " +:+ s) (doc c) Hc) as (d & Ed & _ & Hs). rewrite Ed in E. injection E as <-. exact (Hs id Hid).
  - destruct (show_error_ok m (doc c) Hc) as (d & Ed & _ & Hs). rewrite Ed in E. injection E as <-. exact (Hs id Hid).
Qed.

(** *** The range a press chooses *)

(** The buttons pressed, in order. *)
Definition presses (l : list client_event) : list string := omap (fun e => match e with CPress r => Some r | _ => None end) l.

(** A step only asks for the current range, and only a press changes that. *)
Definition follows (e : client_event) (c c' : client) : Prop :=
  match e with
  | CPress r => curRange c' = r /\ stored c' = Some r /\ inflight c' = inflight c ++ [r]
      /\ by_id (doc c') = <["ranges"%string := Element false (Buttons (List.map (fun x => (x, bool_decide (x = r))) RANGES))]> (by_id (doc c))
  | CTimer => curRange c' = curRange c /\ stored c' = stored c /\ inflight c' = inflight c ++ [curRange c] /\ doc c' = doc c
  | CAnswer i _ => curRange c' = curRange c /\ stored c' = stored c /\ inflight c' = delete i (inflight c)
  end.

Lemma answered_stored r a c c' : answered locale fixed plain r a c = Some c' -> stored c' = stored c.
Proof.
  destruct a as [p|s|m]; cbn [answered]; [destruct (show _ _ _ _ _)|destruct (show_error _ _)|destruct (show_error _ _)]; try done;
    by intros [= <-].
Qed.

Lemma buttons_pressed r : buttons r = Buttons (List.map (fun x => (x, bool_decide (x = r))) RANGES).
Proof. unfold buttons. f_equal. apply map_ext. intros x. f_equal. destruct (String.eqb_spec x r); by case_bool_decide. Qed.

Lemma step_follows e c c' : client_ok c -> client_step locale fixed plain e c = Some c' -> follows e c c'.
Proof.
  intros [Hc Hb] E. destruct e as [r| |i a]; cbn [client_step follows] in *.
  - unfold renderRanges, edit in E. rewrite Hb in E. injection E as <-. split_and!; [done..|]. cbn [ask doc by_id put hidden].
    by rewrite <-buttons_pressed.
  - by injection E as <-.
  - destruct (inflight c !! i) as [r|] eqn:Ei; [|done]. cbn [mbind option_bind] in E. pose proof (answered_stored _ _ _ _ E) as Hs.
    by apply answered_life in E as (-> & -> & _).
Qed.

Lemma run_follows l : forall c c', client_run locale fixed plain l c = Some c' -> Forall whole_answer l -> client_ok c ->
  curRange c' = default (curRange c) (last (presses l)) /\ stored c' = match last (presses l) with Some r => Some r | None => stored c end.
Proof.
  induction l as [|e l IH]; intros c c' E Hw Hok; cbn [client_run] in E; [by injection E as <-|].
  destruct (client_step locale fixed plain e c) as [c1|] eqn:E1; [|done]. cbn [mbind option_bind] in E.
  assert (Hok1 : client_ok c1).
  { eapply (client_run_ok [e]); [cbn [client_run]; by rewrite E1|by apply Forall_cons in Hw as [? _]; repeat constructor|done]. }
  apply (step_follows _ _ _ Hok) in E1. apply Forall_cons in Hw as [_ Hw]. destruct (IH c1 c' E Hw Hok1) as [-> ->].
  assert (Hl : forall r, last (r :: presses l) = Some (default r (last (presses l)))).
  { intros r. rewrite last_cons. by destruct (last (presses l)). }
  destruct e as [r| |i a]; cbn [follows presses omap list_omap] in *; fold (presses l).
  - destruct E1 as (-> & -> & _). rewrite Hl. split; [done|]. by destruct (last (presses l)).
  - by destruct E1 as (-> & -> & _).
  - by destruct E1 as (-> & -> & _).
Qed.

(** The server sends charts with the tiles. *)
Lemma handleData_whole cfg nowMs range_param relay push p : handleData cfg nowMs range_param relay push = Ok p -> whole p.
Proof.
  unfold handleData, whole. intros E.
  destruct (String.eqb (metricsUrl cfg) "") eqn:Em.
  - destruct (String.eqb (pushMetricsUrl cfg) ""); [injection E as <-; cbn; split; by intros [? ?]|].
    destruct (buildPush _ _ _ _ _ _); [|discriminate E]. injection E as <-. cbn. split; by intros [? ?].
  - destruct (buildDashboard _ _ _ _ _ _ _ _) as [d|]; [|discriminate E].
    destruct (String.eqb (pushMetricsUrl cfg) ""); [injection E as <-; cbn; split; by eexists|].
    destruct (buildPush _ _ _ _ _ _); [|discriminate E]. injection E as <-. cbn. split; by eexists.
Qed.

(** ** Property *)

End Shows.

(** *** A late answer *)

Definition no_text : Q -> string := fun _ => ""%string.

(** A host that has neither relay nor push data. *)
Definition empty_payload : payload := Payload (Some (0, 60000, 1%nat)) None [] None None.

(** Loads are not ordered: the answer for the old range can come after the new one's,
    and stays shown under the new button until the next load. *)
Lemma late_answer_shows_the_old_range :
  exists c0 c, boot_client (Some "1h"%string) = Some c0
    /\ client_run no_text (fun _ => no_text) no_text
         [CPress "7d"%string; CAnswer 1 (Answered empty_payload); CAnswer 0 (Answered empty_payload)] c0 = Some c
    /\ curRange c = "7d"%string /\ inflight c = [] /\ shown c = Some "1h"%string.
Proof.
  assert (Hc : match boot_client (Some "1h"%string) with
               | Some c0 => match client_run no_text (fun _ => no_text) no_text
                    [CPress "7d"%string; CAnswer 1 (Answered empty_payload); CAnswer 0 (Answered empty_payload)] c0 with
                   | Some c => Some (curRange c, inflight c, shown c) | None => None end
               | None => None end = Some ("7d"%string, [], Some "1h"%string)) by (vm_compute; reflexivity).
  destruct (boot_client (Some "1h"%string)) as [c0|]; [|discriminate Hc].
  destruct (client_run _ _ _ _ c0) as [c|] eqn:E; [|discriminate Hc]. injection Hc as H1 H2 H3. exists c0, c. by split_and!.
Qed.

(** A stored range that is none of the buttons is asked for, and none is pressed. *)
Lemma unknown_range_presses_nothing :
  exists c, boot_client (Some "90d"%string) = Some c /\ inflight c = ["90d"%string]
    /\ buttons (curRange c) = Buttons (List.map (fun r => (r, false)) RANGES) /\ span_of (Some "90d"%string) = span_of (Some "24h"%string).
Proof.
  destruct (boot_client_ok (Some "90d"%string)) as (c & Ec & _ & Hi & Hr & _). exists c. rewrite Hr. by split_and!.
Qed.

(** ** The pointer's readings *)

Lemma draw_grows t0 t1 vmax ch : forall s x, x ∈ drawn s -> x ∈ drawn (fold_left (draw_point t0 t1 vmax) ch s).
Proof.
  induction ch as [|p ch IH]; intros s x Hx; [done|]. cbn [fold_left]. apply IH. unfold draw_point. destruct (pv p); [|done].
  destruct (down s); cbn [drawn]; apply elem_of_app; by left.
Qed.

(** A slot with a value is a point of the line that is drawn. *)
Lemma drawn_at t0 t1 vmax ch i p v : ch !! i = Some p -> pv p = Some v ->
  M (x_of t0 t1 (inject_Z (pt p))) (y_of vmax v) ∈ drawn (draw t0 t1 vmax ch)
  \/ L (x_of t0 t1 (inject_Z (pt p))) (y_of vmax v) ∈ drawn (draw t0 t1 vmax ch).
Proof.
  intros Ei Ev. unfold draw. rewrite <-(take_drop_middle ch i p Ei), fold_left_app. cbn [fold_left].
  set (s := fold_left _ (take i ch) _). destruct (down s) eqn:Ed; [right|left]; apply draw_grows; unfold draw_point; rewrite Ev, Ed;
    cbn [drawn]; apply elem_of_app; right; by left.
Qed.

(** Over a chart whose lines share their slots the pointer marks, on every line with
    a value at the slot it shows, a point of that line as drawn, and lists exactly
    those lines' values; leaving hides all of it. *)
Lemma pointer_reads_the_lines t0 t1 spec points extras left width cx cy iw s i b :
  let lines := lines_of spec points extras in
  let vmax := vmax_of (pctAxis spec) (List.map snd lines) in
  hover t0 t1 points (List.map snd extras) ((cx - left) / width)%Q = Some (i, b) ->
  (forall l p, l ∈ lines -> l.2 !! i = Some p -> pt p = pt b) ->
  let s' := onMove t0 t1 spec points extras left width cx cy iw s in
  cross s' = Some (x_of t0 t1 (inject_Z (pt b)))
  /\ (forall j l, lines !! j = Some l ->
        match value_at l.2 i with
        | Some v => exists x y, dots s' !! j = Some (Some (x, y)) /\ (M x y ∈ drawn (draw t0 t1 vmax l.2) \/ L x y ∈ drawn (draw t0 t1 vmax l.2))
        | None => dots s' !! j = Some None
        end)
  /\ (exists place, tip s' = Some (pt b, omap (fun l => row_text spec points extras l <$> value_at l.2 i) lines, place))
  /\ onLeave s' = Pointer None (List.map (fun _ => None) lines) None.
Proof.
  intros lines vmax Hh Hs s'. subst s'. unfold onMove. rewrite Hh. cbn [cross dots tip]. split; [done|]. split; [|split; [by eexists|]].
  - intros j l Hj. assert (Hl : l ∈ lines) by by eapply list_elem_of_lookup_2.
    change (@List.map) with (@fmap list list_fmap). rewrite list_lookup_fmap. fold lines. rewrite Hj. cbn [fmap option_fmap option_map].
    destruct (value_at l.2 i) as [v|] eqn:Ev; cbn [fmap option_fmap option_map]; [|reflexivity].
    unfold value_at in Ev. destruct (l.2 !! i) as [p|] eqn:Ei; [|discriminate Ev]. cbn [mbind option_bind] in Ev.
    eexists _, _. split; [reflexivity|]. rewrite <-(Hs l p Hl Ei). by eapply drawn_at.
  - unfold onLeave. cbn [dots]. by rewrite map_map.
Qed.

(** ** Witness *)

