(* ===== verification/HostWire.v ===== *)
(** What the relay writes to a connection whose upgrade it refuses ([abortUpgrade],
    [reject] and the refusals of [handleUpgrade], [host/server.js]), and a reader of
    HTTP/1.1 responses to hold it against.

    A text is its UTF-8 bytes. *)

From Stdlib Require Import Ascii.
From stdpp Require Import pretty.
From S2P Require Import Prelude Bytes Json Monitor MonitorPush ShardGate ShardMap ShardStore Runtime Host Metrics HostServer.
#[local] Open Scope Z_scope.

(** ** The refusal *)

Definition STATUS_TEXT (status : Z) : option string :=
  if status =? 400 then Some "Bad Request"%string
  else if status =? 403 then Some "Forbidden"%string
  else if status =? 421 then Some "Misdirected Request"%string
  else if status =? 429 then Some "Too Many Requests"%string
  else if status =? 500 then Some "Internal Server Error"%string
  else if status =? 503 then Some "Service Unavailable"%string else None.

Definition crlf : string := String (ascii_of_nat 13) (String (ascii_of_nat 10) "").

(** The bytes of [abortUpgrade]; the connection is destroyed after them. *)
Definition abortUpgrade (status : Z) (message : string) : string :=
  "HTTP/1.1 " +:+ pretty status +:+ " " +:+ default "Error"%string (STATUS_TEXT status) +:+ crlf
  +:+ "Connection: close" +:+ crlf
  +:+ "Content-Type: text/plain" +:+ crlf
  +:+ "Content-Length: " +:+ pretty (Z.of_nat (String.length message)) +:+ crlf +:+ crlf
  +:+ message.

(** The status and the message each refusal of [handleUpgrade] is written with. *)
Definition refusal (h : headers) (v : verdict) : option (Z * string) :=
  match v with
  | Upgraded => None
  | Misdirected s => Some (s, "misdirected"%string)
  | Rejected s reason =>
      Some (s, if String.eqb reason "gate" then match entryReject h with Some rej => message rej | None => "" end
               else if String.eqb reason "rate_limited" then "rate limited"
               else if String.eqb reason "ip_cap" then "too many connections" else "capacity")%string
  end.

(** What goes out on the connection. *)
Definition written (h : headers) (v : verdict) : string :=
  match refusal h v with Some (s, m) => abortUpgrade s m | None => ""%string end.

(** ** A reader of responses *)

Definition is_cr (c : ascii) : bool := is_char 13 c.

(** A line, to its CR LF. *)
Fixpoint read_line (l : list ascii) : option (list ascii * list ascii) :=
  match l with
  | c :: l' =>
      if is_cr c then match l' with d :: l'' => if is_char 10 d then Some ([], l'') else None | [] => None end
      else '(a, r) ← read_line l'; Some (c :: a, r)
  | [] => None
  end.

(** A header field: the name to its colon, one space, the value. *)
Fixpoint read_field (l : list ascii) (name : list ascii) : option (string * string) :=
  match l with
  | c :: l' =>
      if is_char 58 c then match l' with d :: v => if is_char 32 d then Some (text_of name, text_of v) else None | [] => None end
      else read_field l' (name ++ [c])
  | [] => None
  end.

(** The fields, to the empty line; [fuel] is the length of the text. *)
Fixpoint read_fields (fuel : nat) (l : list ascii) : option (list (string * string) * list ascii) :=
  match fuel with
  | O => None
  | S fuel =>
      '(a, r) ← read_line l;
      match a with
      | [] => Some ([], r)
      | _ => f ← read_field a []; '(fs, body) ← read_fields fuel r; Some (f :: fs, body)
      end
  end.

Definition read_number (l : list ascii) : option (Z * list ascii) :=
  match read_digits l 0 0 with (n, k, r) => if k =? 0 then None else Some (n, r) end.

(** A response with a body of the length it announces. *)
Record response := Response { r_status : Z; r_reason : string; r_fields : list (string * string); r_body : string }.

Definition read_response (text : string) : option response :=
  '(a, r) ← read_line (chars text);
  a ← drop_prefix "HTTP/1.1 " a;
  '(status, reason) ← read_number a;
  reason ← drop_prefix " " reason;
  '(fields, body) ← read_fields (length r) r;
  len ← snd <$> List.find (fun f => String.eqb f.1 "Content-Length") fields;
  match read_number (chars len) with
  | Some (n, []) => if n =? Z.of_nat (length body) then Some (Response status (text_of reason) fields (text_of body)) else None
  | _ => None
  end.

(** ** Lemmas: reading back *)

Definition no_cr (s : string) : Prop := Forall (fun c => is_cr c = false) (chars s).

Lemma read_line_app s rest : no_cr s -> read_line (chars s ++ chars crlf ++ rest) = Some (chars s, rest).
Proof.
  unfold no_cr. induction (chars s) as [|c l IH]; intros Hs; [reflexivity|]. apply Forall_cons in Hs as [Hc Hl].
  change ((c :: l) ++ chars crlf ++ rest) with (c :: (l ++ chars crlf ++ rest)). cbn [read_line]. rewrite Hc, (IH Hl). reflexivity.
Qed.

Lemma no_cr_app s t : no_cr s -> no_cr t -> no_cr (s +:+ t).
Proof. unfold no_cr. intros. rewrite chars_app. by apply Forall_app. Qed.

Lemma pretty_no_cr (z : Z) : no_cr (pretty z).
Proof.
  destruct (pretty_solid z) as [H _]. eapply Forall_impl; [exact H|]. intros c Hc. unfold is_cr, is_char. unfold is_js_space in Hc.
  destruct (Nat.eqb_spec (nat_of_ascii c) 13) as [E|]; [|done]. by rewrite E in Hc.
Qed.

(** A decimal number, up to what is no digit. *)
Lemma read_number_pretty (z : Z) rest : 0 <= z -> match rest with c :: _ => digit_value c = None | [] => True end ->
  read_number (chars (pretty z) ++ rest) = Some (z, rest).
Proof.
  intros Hz Hr. unfold read_number.
  assert (Hend : forall n k, read_digits rest n k = (n, k, rest)) by (intros n k; destruct rest as [|c l]; [done|]; cbn [read_digits]; by rewrite Hr).
  destruct z as [|p|p]; [|..|lia].
  - change (chars (pretty 0)) with ["0"%char]. cbn [app read_digits]. change (digit_value "0"%char) with (Some 0). cbn iota. by rewrite Hend.
  - destruct (pretty_digits (Npos p) ltac:(lia)) as (c & l & _ & Hp & _ & Hread). change (pretty (Z.pos p)) with (pretty_N_go (Npos p) "").
    rewrite Hp. change (chars "") with (@nil ascii). rewrite app_nil_r, Hread, Hend, Z.mul_0_l, !Z.add_0_l.
    replace (Z.of_nat (length (c :: l)) =? 0) with false by (symmetry; apply Z.eqb_neq; simpl; lia). done.
Qed.

(** The fields' text, as [abortUpgrade] lays it out. *)
Lemma read_fields_end fuel rest : read_fields (S fuel) (chars crlf ++ rest) = Some ([], rest).
Proof. reflexivity. Qed.

Lemma read_fields_line fuel line f rest : no_cr line -> line <> ""%string -> read_field (chars line) [] = Some f ->
  read_fields (S fuel) (chars line ++ chars crlf ++ rest) = ('(fs, body) ← read_fields fuel rest; Some (f :: fs, body)).
Proof.
  intros Hl Hne Hf. cbn [read_fields]. rewrite (read_line_app _ _ Hl). cbn [mbind option_bind].
  destruct (chars line) as [|c l] eqn:E; [by destruct line|]. by rewrite Hf.
Qed.

Lemma read_field_at name value : Forall (fun c => is_char 58 c = false) (chars name) -> forall acc,
  read_field (chars name ++ chars ": " ++ chars value) acc = Some (text_of (acc ++ chars name), value).
Proof.
  induction 1 as [|c l Hc _ IH]; intros acc.
  - cbn. by rewrite app_nil_r, text_of_chars.
  - cbn [app read_field]. rewrite Hc, IH. by rewrite <-app_assoc.
Qed.

Lemma chars_length s : length (chars s) = String.length s.
Proof. induction s as [|c s IH]; [done|]. cbn. by rewrite <-IH. Qed.

Lemma phrase_no_cr status : no_cr (default "Error"%string (STATUS_TEXT status)).
Proof. unfold STATUS_TEXT. repeat (destruct (status =? _); [by repeat constructor|]). by repeat constructor. Qed.

(** The text in the lines the reader sees. *)
Lemma abort_lines status message :
  chars (abortUpgrade status message)
  = chars ("HTTP/1.1 " +:+ pretty status +:+ " " +:+ default "Error"%string (STATUS_TEXT status)) ++ chars crlf
    ++ chars "Connection: close" ++ chars crlf ++ chars "Content-Type: text/plain" ++ chars crlf
    ++ chars ("Content-Length: " +:+ pretty (Z.of_nat (String.length message))) ++ chars crlf ++ chars crlf ++ chars message.
Proof. unfold abortUpgrade. by rewrite !chars_app, <-!app_assoc. Qed.

(** What a reader of HTTP/1.1 finds in a refusal. *)
Lemma abort_read (status : Z) (message : string) : 0 <= status ->
  read_response (abortUpgrade status message)
  = Some (Response status (default "Error"%string (STATUS_TEXT status))
      [("Connection", "close"); ("Content-Type", "text/plain"); ("Content-Length", pretty (Z.of_nat (String.length message)))]%string message).
Proof.
  intros Hs. set (n := Z.of_nat (String.length message)). unfold read_response. rewrite abort_lines. fold n.
  rewrite read_line_app; [|repeat apply no_cr_app; try apply pretty_no_cr; try apply phrase_no_cr; by repeat constructor].
  cbn [mbind option_bind]. rewrite !chars_app, drop_prefix_app. cbn [mbind option_bind].
  rewrite read_number_pretty; [|done|reflexivity]. cbn [mbind option_bind]. rewrite drop_prefix_app. cbn [mbind option_bind].
  set (body := chars "Connection: close" ++ _).
  assert (Hf : exists k, length body = S (S (S (S k)))) by (unfold body; by eexists). destruct Hf as [k ->]. unfold body.
  rewrite (read_fields_line _ "Connection: close" ("Connection", "close")%string) by (done || by repeat constructor).
  rewrite (read_fields_line _ "Content-Type: text/plain" ("Content-Type", "text/plain")%string) by (done || by repeat constructor).
  rewrite <-chars_app, (read_fields_line _ ("Content-Length: " +:+ pretty n) ("Content-Length"%string, pretty n)).
  2: { apply no_cr_app; [by repeat constructor|apply pretty_no_cr]. }
  2: { done. }
  2: { apply (read_field_at "Content-Length" (pretty n)). by repeat constructor. }
  rewrite read_fields_end. cbn [mbind option_bind List.find String.eqb Ascii.eqb Bool.eqb fst snd fmap option_fmap option_map].
  pose proof (read_number_pretty n [] ltac:(lia) I) as Hn. rewrite app_nil_r in Hn. rewrite Hn.
  unfold n. rewrite chars_length, Z.eqb_refl. by rewrite !text_of_chars.
Qed.

(** ** Theorem *)

Definition known_phrase (s : Z) : bool := match STATUS_TEXT s with Some _ => true | None => false end.

(** A refused upgrade is answered with a response that can be read. Whatever the
    gates decide, every refusal of [handleUpgrade] is written as an HTTP/1.1 response
    from which a reader gets back the decided status, a phrase of its own, that the
    connection closes, and exactly the message, which is the gate's, the limiter's or
    the cap's; and nothing is written where the upgrade goes through. *)
Theorem refusals_readable (cfg : host_config) (now : Z) (hdrs : headers) (ip : string) (m : mode) (st : store)
    (has_room : string -> bool) (size : Z) (h : host) :
  let v := (handleUpgrade cfg now hdrs ip (ownershipGate m st) has_room size h).1 in
  match v with
  | Upgraded => written hdrs v = ""%string
  | Misdirected s => s = 421 /\ exists fs, read_response (written hdrs v) = Some (Response 421 "Misdirected Request" fs "misdirected")
  | Rejected s reason => known_phrase s = true /\ s <> 421
      /\ exists fs msg, read_response (written hdrs v) = Some (Response s (default ""%string (STATUS_TEXT s)) fs msg)
         /\ List.find (fun f => String.eqb f.1 "Connection") fs = Some ("Connection", "close")%string
         /\ (s, reason, msg) ∈ [(403, "gate", "forbidden"); (400, "gate", "bad room"); (429, "rate_limited", "rate limited");
                                (429, "ip_cap", "too many connections"); (503, "total_cap", "capacity"); (503, "room_cap", "capacity")]%string
  end.
Proof.
  intros v. subst v. unfold written. unfold handleUpgrade.
  destruct (entryReject hdrs) as [rej|] eqn:Er.
  { cbn [fst refusal String.eqb Ascii.eqb Bool.eqb]. rewrite Er.
    assert (Hrej : rej = Rejection 403 "forbidden" \/ rej = Rejection 400 "bad room").
    { unfold entryReject in Er. repeat case_match; simplify_eq; auto. }
    destruct Hrej as [-> | ->]; cbn [status message]; (split; [done|]; split; [done|]; eexists _, _; split; [by apply abort_read|]; split; [done|]; member). }
  destruct (ownershipGate m st _) as [k|s r bk] eqn:Eg.
  - destruct (wsOver _ _ _ _) as [[] h1]; cbn [fst refusal String.eqb Ascii.eqb Bool.eqb].
    { split; [done|]; split; [done|]; eexists _, _; split; [by apply abort_read|]; split; [done|]; member. }
    destruct (_ <=? sockets_of _ _); cbn [fst refusal String.eqb Ascii.eqb Bool.eqb].
    { split; [done|]; split; [done|]; eexists _, _; split; [by apply abort_read|]; split; [done|]; member. }
    destruct (_ <=? totalSockets _); cbn [fst refusal String.eqb Ascii.eqb Bool.eqb].
    { split; [done|]; split; [done|]; eexists _, _; split; [by apply abort_read|]; split; [done|]; member. }
    destruct (_ && _); cbn [fst refusal String.eqb Ascii.eqb Bool.eqb]; [|done].
    split; [done|]; split; [done|]; eexists _, _; split; [by apply abort_read|]; split; [done|]; member.
  - assert (Hs : s = 421).
    { unfold ownershipGate, ownershipDecision in Eg. destruct m; [done|]. repeat case_match; by simplify_eq. }
    subst s. cbn [fst refusal]. split; [done|]. eexists. by apply abort_read.
Qed.
