(* ===== verification/MonitorMain.v ===== *)
(** The monitor as it runs ([main] of [monitor/src/server.js]): the analysis ticks and
    the pulls of metrics, each on its timer and each suspended while it fetches,
    scrapes and probes, over one store that pushes write to as well.

    A tick reads the kept state when it starts and writes it when it ends; in between
    it reads each host's snapshot at some time of its own. Disk errors are left out. *)

From Stdlib Require Import QArith Qround Sorted.
From S2P Require Import Prelude Bytes Json Monitor MonitorFleet MonitorPush MonitorCore MonitorPaging MonitorServer.
#[local] Open Scope Z_scope.

(** ** Settings *)

(** [Number(env[k] || d)], where it is finite. *)
Definition env_number (e : env) (k : string) (d : Q) : option Q :=
  match e !! k with
  | Some v => if String.eqb v "" then Some d else if bool_decide (trim v = []) then Some 0%Q else finite_number v
  | None => Some d
  end.

Definition intervalMs (e : env) : option Q := env_number e "MONITOR_INTERVAL_MS" 300000.
Definition pullMs (e : env) : option Q := env_number e "RELAY_PULL_MS" 60000.

(** The delay Node's timers take for it: 1 for what is no number, is less than 1, or
    does not fit 31 bits. *)
Definition timer_delay (q : option Q) : Z :=
  match q with Some d => if Qle_bool 1 d && Qle_bool d (inject_Z (2 ^ 31 - 1)) then Qfloor d else 1 | None => 1 end.

(** [!!env.RELAY_PULL_URL_TEMPLATE] *)
Definition pulls_metrics (e : env) : bool := bool_decide (is_Some (env_text e "RELAY_PULL_URL_TEMPLATE")).

(** ** The process *)

(** A tick under way: its time, the state it read, the snapshots that were stored
    while it ran, the first ones first. *)
Record analysis := Analysis { a_now : Z; a_read : option monitor_state; a_seen : list (gmap string latest_doc) }.

(** A pull under way: its time, the hosts to fall back on, the hosts once the map is
    fetched with those not answered yet, and whether the first tick waits for it. *)
Record pull := Pull { p_now : Z; p_last : list string; p_hosts : option (list string * list string); p_first : bool }.

(** [completed] is what the ticks that ended did, in their order. *)
Record monitor := MkMonitor {
  kept : option monitor_state; shown : option health; latest_docs : gmap string latest_doc; pulledHosts : list string;
  timers : bool; pulls : list pull; analyses : list analysis; completed : list (tick_in * tick) }.

Inductive main_event :=
| MTick (now : Z)                                    (* the tick's timer *)
| MTickEnd (i : nat) (d : deps) (read_when : string -> nat)
| MPull (now : Z)                                    (* the pull's timer *)
| MPullMap (i : nat) (fetched : result string json)
| MPulled (i j : nat) (text : result string string)
| MPullEnd (i : nat) (now : Z)
| MPush (key : string) (doc : latest_doc)
| MStop.

(** A snapshot is stored: every tick under way may read it. *)
Definition store_doc (key : string) (doc : latest_doc) (s : monitor) : monitor :=
  let m := <[key := doc]> (latest_docs s) in
  MkMonitor (kept s) (shown s) m (pulledHosts s) (timers s) (pulls s)
    (List.map (fun a => Analysis (a_now a) (a_read a) (a_seen a ++ [m])) (analyses s)) (completed s).

(** What a tick read for a key. *)
Definition read_doc (a : analysis) (read_when : string -> nat) (key : string) : option latest_doc :=
  m ← match a_seen a !! read_when key with Some m => Some m | None => head (a_seen a) end; m !! key.

Definition start_tick (now : Z) (s : monitor) : monitor :=
  MkMonitor (kept s) (shown s) (latest_docs s) (pulledHosts s) (timers s) (pulls s)
    (analyses s ++ [Analysis now (kept s) [latest_docs s]]) (completed s).

Definition set_pulls (l : list pull) (s : monitor) : monitor :=
  MkMonitor (kept s) (shown s) (latest_docs s) (pulledHosts s) (timers s) l (analyses s) (completed s).

(** After [server.listen]: a first pull and then a tick, or a tick at once. *)
Definition start_main (e : env) (now : Z) (kept0 : option monitor_state) (docs0 : gmap string latest_doc) : monitor :=
  let s := MkMonitor kept0 None docs0 [] true [] [] [] in
  if pulls_metrics e then set_pulls [Pull now [] None true] s else start_tick now s.

Definition end_tick (e : env) (i : nat) (d : deps) (read_when : string -> nat) (a : analysis) (s : monitor) : monitor :=
  let input := TickIn (a_now a) d (read_doc a read_when) in
  let rest := delete i (analyses s) in
  match run e (a_now a) false d (tlatest input) (a_read a) with
  | Ok t => MkMonitor (tstate t) (Some (thealth t)) (latest_docs s) (pulledHosts s) (timers s) (pulls s) rest (completed s ++ [(input, t)])
  | Err _ => MkMonitor (kept s) (shown s) (latest_docs s) (pulledHosts s) (timers s) (pulls s) rest (completed s)
  end.

(** A scrape's answer as the snapshot of its host. *)
Definition pulled_doc (now : Z) (text : result string string) : result string latest_doc :=
  (let! t := text in let! out := parseRelayMetrics t in Ok (Latest now (snapshot_json out)))%res.

(** The hosts of a pull, once the map is there or not. *)
Definition hosts_of_pull (e : env) (fetched : result string json) (last : list string) : list string :=
  if is_fleet e then match fetched with Ok j => match mapHosts j with Ok l => l | Err _ => last end | Err _ => last end else last.

Definition main_step (e : env) (ev : main_event) (s : monitor) : option monitor :=
  match ev with
  | MTick now => if timers s then Some (start_tick now s) else None
  | MTickEnd i d read_when => a ← analyses s !! i; Some (end_tick e i d read_when a s)
  | MPull now => if timers s && pulls_metrics e then Some (set_pulls (pulls s ++ [Pull now (pulledHosts s) None false]) s) else None
  | MPullMap i fetched =>
      p ← pulls s !! i;
      match p_hosts p with
      | None => let hs := hosts_of_pull e fetched (p_last p) in
                Some (set_pulls (<[i := Pull (p_now p) (p_last p) (Some (hs, hs)) (p_first p)]> (pulls s)) s)
      | Some _ => None
      end
  | MPulled i j text =>
      p ← pulls s !! i; '(hs, todo) ← p_hosts p; h ← todo !! j;
      let s := set_pulls (<[i := Pull (p_now p) (p_last p) (Some (hs, delete j todo)) (p_first p)]> (pulls s)) s in
      Some match pulled_doc (p_now p) text with Ok doc => store_doc (latestKeyFor h) doc s | Err _ => s end
  | MPullEnd i now =>
      p ← pulls s !! i;
      match p_hosts p with
      | Some (hs, []) =>
          let s := MkMonitor (kept s) (shown s) (latest_docs s) hs (timers s) (delete i (pulls s)) (analyses s) (completed s) in
          Some (if p_first p then start_tick now s else s)
      | _ => None
      end
  | MPush key doc => Some (store_doc key doc s)
  | MStop => Some (MkMonitor (kept s) (shown s) (latest_docs s) (pulledHosts s) false (pulls s) (analyses s) (completed s))
  end.

Fixpoint main_run (e : env) (l : list main_event) (s : monitor) : option monitor :=
  match l with [] => Some s | ev :: l' => s' ← main_step e ev s; main_run e l' s' end.

(** At most one tick at a time. *)
Fixpoint apart (e : env) (l : list main_event) (s : monitor) : bool :=
  (length (analyses s) <=? 1)%nat
  && match l with [] => true | ev :: l' => match main_step e ev s with Some s' => apart e l' s' | None => true end end.

(** The times its ticks start at, as the events have them. *)
Definition clock_of (ev : main_event) : option Z :=
  match ev with MTick now | MPullEnd _ now => Some now | _ => None end.

(** ** What the process does is what its ticks do *)

#[local] Arguments run : simpl never.
#[local] Arguments parseConfig : simpl never.

Lemma ticks_app e l1 l2 st :
  ticks e (l1 ++ l2) st
  = ticks e l1 st ++ ticks e l2 (match last (ticks e l1 st) with Some p => tstate p.2 | None => st end).
Proof.
  revert st. induction l1 as [|i l1 IH]; intros st; [done|]. cbn [app ticks].
  destruct (run _ _ _ _ _ st) as [t|err]; [|done]. rewrite IH. cbn [app]. do 2 f_equal.
  rewrite last_cons. by destruct (last _).
Qed.

(** A tick at a time: the state kept is the one the last tick left, the tick under
    way has read it, and the ticks that ended are a run of ticks, in their order. *)
Record in_step (e : env) (kept0 : option monitor_state) (now : Z) (s : monitor) : Prop := InStep {
  is_run : completed s = ticks e (List.map fst (completed s)) kept0;
  has_kept : kept s = match last (completed s) with Some p => tstate p.2 | None => kept0 end;
  reads_kept : Forall (fun a => a_read a = kept s) (analyses s);
  in_order : StronglySorted Z.le ((fun p => tnow p.1) <$> completed s);
  ends_before : forall t, t = now \/ t ∈ a_now <$> analyses s -> Forall (fun p => tnow p.1 <= t) (completed s);
  starts_before : Forall (fun a => a_now a <= now) (analyses s) }.

Section InStep.
Context (e : env) (kept0 : option monitor_state).

(** Steps that leave the ticks alone. *)
Lemma in_step_other now now' s s' :
  in_step e kept0 now s -> now <= now' -> completed s' = completed s -> kept s' = kept s ->
  (fun a => (a_now a, a_read a)) <$> analyses s' = (fun a => (a_now a, a_read a)) <$> analyses s ->
  in_step e kept0 now' s'.
Proof.
  intros [H1 H2 H3 H4 H5 H6] Hn Hc Hk Ha.
  assert (En : a_now <$> analyses s' = a_now <$> analyses s).
  { change a_now with (fst ∘ (fun a => (a_now a, a_read a))). by rewrite !list_fmap_compose, Ha. }
  assert (Er : a_read <$> analyses s' = a_read <$> analyses s).
  { change a_read with (snd ∘ (fun a => (a_now a, a_read a))). by rewrite !list_fmap_compose, Ha. }
  split; rewrite ?Hc, ?Hk; [done|done| |done| |].
  - change (Forall ((fun r => r = kept s) ∘ a_read) (analyses s')). rewrite <-Forall_fmap, Er. by apply Forall_fmap.
  - rewrite En. intros t [->|Ht]; [|by apply H5; right].
    eapply Forall_impl; [apply (H5 now); by left|]. intros p Hp. simpl in Hp. lia.
  - change (Forall ((fun t => t <= now') ∘ a_now) (analyses s')). rewrite <-Forall_fmap, En. apply Forall_fmap.
    eapply Forall_impl; [exact H6|]. intros a Hp. simpl in *. lia.
Qed.

Lemma in_step_start now now' s : in_step e kept0 now s -> now <= now' -> in_step e kept0 now' (start_tick now' s).
Proof.
  intros H Hn. destruct (in_step_other now now' s s H Hn eq_refl eq_refl eq_refl) as [H1 H2 H3 H4 H5 H6].
  split; cbn [completed kept analyses start_tick]; [done|done| |done| |].
  - apply Forall_app. split; [done|]. by apply Forall_singleton.
  - rewrite fmap_app. intros t [->|[Ht|Ht%list_elem_of_singleton]%elem_of_app]; [| |simpl in Ht; subst t]; apply H5; auto.
  - apply Forall_app. split; [done|]. by apply Forall_singleton.
Qed.

Lemma in_step_end now s i d w a :
  in_step e kept0 now s -> analyses s !! i = Some a -> (length (analyses s) <= 1)%nat -> in_step e kept0 now (end_tick e i d w a s).
Proof.
  intros [H1 H2 H3 H4 H5 H6] Ha Hl.
  assert (Es : analyses s = [a] /\ i = O) by (destruct (analyses s) as [|b [|]], i; simplify_eq/=; by (done || lia)).
  destruct Es as [Es ->]. rewrite Es in H3, H5, H6.
  apply List.Forall_inv in H3, H6. simpl in H3, H6. unfold end_tick. rewrite Es. cbn [delete list_delete].
  destruct (run _ _ _ _ _ (a_read a)) as [t|err] eqn:Er; (split; cbn [completed kept analyses]; [|  |constructor| | |constructor]).
  - rewrite List.map_app, ticks_app, <-H1, <-H2, <-H3. cbn [List.map ticks fst]. cbn [tnow tdeps tlatest] in *. by rewrite Er.
  - by rewrite last_snoc.
  - rewrite fmap_app. apply StronglySorted_app_2; [|done|by repeat constructor].
    intros x y Hx ->%list_elem_of_singleton. assert (Hf : Forall (fun p => tnow p.1 <= a_now a) (completed s)) by (apply H5; right; by left).
    rewrite Forall_forall in Hf. apply list_elem_of_fmap in Hx as (p & -> & Hp). by apply Hf.
  - intros u [->|[]%elem_of_nil]. apply Forall_app. split; [apply H5; by left|]. by apply Forall_singleton.
  - done.
  - done.
  - done.
  - intros u [->|[]%elem_of_nil]. apply H5. by left.
Qed.

Lemma in_step_step now ev s s' :
  in_step e kept0 now s -> (length (analyses s) <= 1)%nat -> main_step e ev s = Some s' -> now <= default now (clock_of ev) ->
  in_step e kept0 (default now (clock_of ev)) s'.
Proof.
  intros H Hl E Hn. destruct ev as [n|i d w|n|i f|i j t|i n|k doc|]; cbn [main_step clock_of default] in *.
  - destruct (timers s); [|done]. injection E as <-. by eapply in_step_start.
  - destruct (analyses s !! i) as [a|] eqn:Ea; [|done]. injection E as <-. by apply in_step_end.
  - destruct (_ && _); [|done]. injection E as <-. by eapply in_step_other.
  - destruct (pulls s !! i) as [p|]; [|done]. simpl in E. destruct (p_hosts p); [done|]. injection E as <-. by eapply in_step_other.
  - destruct (pulls s !! i) as [p|]; [|done]. simpl in E. destruct (p_hosts p) as [[hs todo]|]; [|done]. simpl in E.
    destruct (todo !! j) as [h|]; [|done]. injection E as <-.
    destruct (pulled_doc _ _); (eapply in_step_other; [exact H|done..| ]); cbn [analyses store_doc set_pulls]; [|done].
    change (List.map ?f ?l) with (f <$> l). by rewrite <-list_fmap_compose.
  - destruct (pulls s !! i) as [p|]; [|done]. simpl in E. destruct (p_hosts p) as [[hs [|h todo]]|]; [|done..]. injection E as <-.
    destruct (p_first p); [eapply in_step_start; [|exact Hn]|]; (eapply in_step_other; [exact H|done..]).
  - injection E as <-. eapply in_step_other; [exact H|done..|]. cbn [analyses store_doc].
    change (List.map ?f ?l) with (f <$> l). by rewrite <-list_fmap_compose.
  - injection E as <-. by eapply in_step_other.
Qed.

Lemma in_step_run now l s s' :
  in_step e kept0 now s -> apart e l s = true -> StronglySorted Z.le (now :: omap clock_of l) -> main_run e l s = Some s' ->
  exists now', in_step e kept0 now' s'.
Proof.
  revert now s. induction l as [|ev l IH]; intros now s H Ha Hs E; cbn [main_run apart] in *; [injection E as <-; eauto|].
  apply andb_true_iff in Ha as [Hl%Nat.leb_le Ha]. destruct (main_step e ev s) as [s1|] eqn:Es; [|done].
  assert (Hd : now <= default now (clock_of ev) /\ StronglySorted Z.le (default now (clock_of ev) :: omap clock_of l)).
  { cbn [omap list_omap] in Hs. destruct (clock_of ev) as [n|]; simpl; [|by split]. inversion Hs as [|? ? Hs' Hf]; subst.
    split; [by inversion Hf|done]. }
  eapply (IH (default now (clock_of ev))); [|done|apply Hd|exact E]. eapply in_step_step; [exact H|done|exact Es|apply Hd].
Qed.

Lemma in_step_main now docs0 : in_step e kept0 now (start_main e now kept0 docs0).
Proof.
  assert (H : in_step e kept0 now (MkMonitor kept0 None docs0 [] true [] [] [])).
  { split; [done|done|constructor|constructor|intros; constructor|constructor]. }
  unfold start_main. destruct (pulls_metrics e); [by eapply in_step_other|by eapply in_step_start].
Qed.
End InStep.

(** While no tick starts before the one before it has ended, whatever the pulls and
    the pushes do meanwhile, the ticks that ended are a run of [ticks], in time: what
    is proved of those holds of the process. *)
Lemma process_runs_ticks (e : env) (now : Z) (kept0 : option monitor_state) (docs0 : gmap string latest_doc)
    (l : list main_event) (s : monitor) :
  main_run e l (start_main e now kept0 docs0) = Some s -> apart e l (start_main e now kept0 docs0) = true ->
  StronglySorted Z.le (now :: omap clock_of l) ->
  completed s = ticks e (List.map fst (completed s)) kept0 /\ StronglySorted Z.le ((fun p => tnow p.1) <$> completed s)
  /\ kept s = match last (completed s) with Some p => tstate p.2 | None => kept0 end.
Proof.
  intros E Ha Hs. by destruct (in_step_run e kept0 now l _ s (in_step_main e kept0 now docs0) Ha Hs E) as (now' & []).
Qed.

Lemma with_past_times past l : (fun x => tnow x.1.1) <$> with_past past l = (fun p => tnow p.1) <$> l.
Proof. revert past. induction l as [|p l IH]; intros past; [done|]. cbn [with_past fmap list_fmap]. f_equal. apply IH. Qed.

(** Nothing keeps the timer from starting a tick before the last one has ended: the
    two read the same state, and mail the same alert well within its cooldown. *)
Definition overlapping_ticks : list main_event :=
  let d := silent_deps (Ok (JObj [("ranges", JArr [JObj [("host", JStr "r1.example")]])]%string)) (Ok tt) in
  [MTickEnd 0 d (fun _ => O); MTick 300000; MTick 600000; MTickEnd 0 d (fun _ => O); MTickEnd 0 d (fun _ => O)].

Definition mails_of (l : list main_event) : option (list (Z * list string)) :=
  s ← main_run silent_env l (start_main silent_env 0 None ∅);
  Some (List.map (fun p => (tnow p.1, keys (mail_of p))) (completed s)).

Lemma overlapping_ticks_mail_twice :
  mails_of overlapping_ticks
  = Some [(0, []); (300000, [down_key "r1.example"]); (600000, [down_key "r1.example"])]
  /\ apart silent_env overlapping_ticks (start_main silent_env 0 None ∅) = false
  /\ qlt (inject_Z 300000) (cooldownMs (parseConfig silent_env)) = true.
Proof. by vm_compute. Qed.

(** One tick at a time, the second of them is within the cooldown and mails nothing. *)
Lemma apart_ticks_mail_once :
  exists l, mails_of l = Some [(0, []); (300000, [down_key "r1.example"]); (600000, [])]
    /\ apart silent_env l (start_main silent_env 0 None ∅) = true.
Proof.
  pose (d := silent_deps (Ok (JObj [("ranges", JArr [JObj [("host", JStr "r1.example")]])]%string)) (Ok tt)).
  exists [MTickEnd 0 d (fun _ => O); MTick 300000; MTickEnd 0 d (fun _ => O); MTick 600000; MTickEnd 0 d (fun _ => O)].
  by vm_compute.
Qed.

(** ** Pull mode *)

(** What a host answers to the scrape [pullRelays] makes of it. *)
Definition scraped (e : env) (scrape : string -> option string -> result string string) (h : string) : result string string :=
  scrape (replace_host (default ""%string (e !! "RELAY_PULL_URL_TEMPLATE"%string)) h)
    ((fun b => "Basic " +:+ b64 (utf8 b)) <$> env_text e "RELAY_PULL_BASIC_AUTH").

(** A pull alone is [pullRelays]: at the start, with the map fetched and every host
    answering in its turn, the first tick starts when the pull has ended, and reads
    the snapshots [pullRelays] writes. *)
Definition first_pull (e : env) (fetched : result string json) (scrape : string -> option string -> result string string)
    (now' : Z) : list main_event :=
  MPullMap 0 fetched :: List.map (fun h => MPulled 0 0 (scraped e scrape h)) (hosts_of_pull e fetched []) ++ [MPullEnd 0 now'].

Definition stored (l : list (string * latest_doc)) (m : gmap string latest_doc) : gmap string latest_doc :=
  fold_left (fun m p => <[p.1 := p.2]> m) l m.

(** The snapshots a pull writes for these hosts, as the answers have them. *)
Definition writes_of (e : env) (now : Z) (scrape : string -> option string -> result string string) (hs : list string)
    : list (string * latest_doc) :=
  omap (fun h => match pulled_doc now (scraped e scrape h) with Ok doc => Some (latestKeyFor h, doc) | Err _ => None end) hs.

Lemma pullRelays_writes e now fetched scrape last :
  (pullRelays e now fetched scrape last).2 = writes_of e now scrape (hosts_of_pull e fetched last)
  /\ pull_hosts (pullRelays e now fetched scrape last).1 = hosts_of_pull e fetched last.
Proof.
  split; [|done]. unfold pullRelays. cbn [snd]. fold (hosts_of_pull e fetched last). unfold writes_of.
  induction (hosts_of_pull e fetched last) as [|h hs IH]; [done|]. cbn [omap list_omap]. rewrite IH. unfold pulled_doc, scraped.
  destruct (scrape _ _) as [text|err]; [|done]. simpl. by destruct (parseRelayMetrics text).
Qed.

Lemma pull_in_turn e now now' scrape hs todo kept0 shown0 docs0 hs0 done :
  main_run e (List.map (fun h => MPulled 0 0 (scraped e scrape h)) todo ++ [MPullEnd 0 now'])
    (MkMonitor kept0 shown0 docs0 hs0 true [Pull now [] (Some (hs, todo)) true] [] done)
  = let docs := stored (writes_of e now scrape todo) docs0 in
    Some (MkMonitor kept0 shown0 docs hs true [] [Analysis now' kept0 [docs]] done).
Proof.
  revert docs0. induction todo as [|h todo IH]; intros docs0; [done|].
  cbn [List.map app main_run main_step pulls lookup list_lookup mbind option_bind p_hosts p_now]. cbn [delete list_delete].
  unfold writes_of. cbn [omap list_omap]. destruct (pulled_doc now (scraped e scrape h)) as [doc|err]; cbn; apply IH.
Qed.

Lemma first_pull_then_tick e now kept0 docs0 fetched scrape now' :
  pulls_metrics e = true ->
  let '(out, writes) := pullRelays e now fetched scrape [] in
  main_run e (first_pull e fetched scrape now') (start_main e now kept0 docs0)
  = Some (MkMonitor kept0 None (stored writes docs0) (pull_hosts out) true []
      [Analysis now' kept0 [stored writes docs0]] []).
Proof.
  intros Hp. destruct (pullRelays e now fetched scrape []) as [out writes] eqn:E.
  destruct (pullRelays_writes e now fetched scrape []) as [E1 E2]. rewrite E in E1, E2. simpl in E1, E2.
  rewrite E1, E2. unfold start_main, first_pull. rewrite Hp. cbn [main_run main_step set_pulls pulls lookup list_lookup mbind option_bind].
  cbn [p_hosts p_last p_now p_first]. apply pull_in_turn.
Qed.

(** ** The timers *)

(** An interval that is no number, or is given with its unit, is a timer of 1 ms. *)
Lemma interval_with_unit : List.map (fun v => timer_delay (intervalMs {[ "MONITOR_INTERVAL_MS"%string := v ]}))
    ["300000"; "5m"; "300_000"; "0"; "-1"; "3000000000"; ""]%string = [300000; 1; 1; 1; 1; 1; 300000]
  /\ timer_delay (intervalMs ∅) = 300000 /\ timer_delay (pullMs ∅) = 60000.
Proof. by vm_compute. Qed.

(** C26: The monitor that runs is a dead man's switch for every relay of the fleet.
    Started with no state kept and whatever snapshots it finds, in every order of its
    timers, of the pulls' maps and answers, of pushes and of ticks' ends, with
    whatever map, probe and mail failures, and as long as no tick starts before the
    one before it has ended: (1) a mail says that a host stopped reporting only if it
    has been without a fresh snapshot for ALERT_FAIL_STREAK watched ticks in a row;
    (2) whenever it has, and the tick's mail did not fail, a mail saying so went out
    less than a cooldown before, the host being down ever since; (3) two such mails
    in one outage are a cooldown apart; and the state kept is the last tick's. *)
Theorem silent_relay_is_mailed (e : env) (now : Z) (docs0 : gmap string latest_doc) (l : list main_event) (s : monitor)
    (h : string) :
  is_fleet e = true -> h ∉ label <$> pushRelaysFromEnv e ->
  main_run e l (start_main e now None docs0) = Some s -> apart e l (start_main e now None docs0) = true ->
  StronglySorted Z.le (now :: omap clock_of l) ->
  dead_mans_switch e h (with_past [] (completed s))
  /\ kept s = match last (completed s) with Some p => tstate p.2 | None => None end.
Proof.
  intros Hf Hh E Ha Hs. destruct (process_runs_ticks e now None docs0 l s E Ha Hs) as (Hc & Ho & Hk). split; [|done].
  apply (silent_host_is_mailed e (List.map fst (completed s)) h _ Hf Hh); [by rewrite <-Hc|]. by rewrite with_past_times.
Qed.

(** A relay the process pulls every minute, which answers once and then no more; a
    tick every five minutes, pulls that answer while a tick is under way, and a push
    for another key. *)
Definition pull_env : env :=
  <["RELAY_PULL_URL_TEMPLATE" := "https://{host}/metrics"]> (<["STALE_MINUTES" := "4"]> silent_env).

Definition one_host : result string json := Ok (JObj [("ranges", JArr [JObj [("host", JStr "r1.example")]])]%string).

Definition pulled_once : list main_event :=
  let d := silent_deps one_host (Ok tt) in
  [MPullMap 0 one_host; MPulled 0 0 (Ok "relay_sockets 1"%string); MPullEnd 0 50; MPull 60000; MTickEnd 0 d (fun _ => O);
   MPullMap 0 one_host; MPush "latest.other"%string (Latest 70000 JNull); MPulled 0 0 (Err "HTTP 502"%string); MPullEnd 0 61000;
   MTick 300000; MTickEnd 0 d (fun _ => O); MTick 600000; MPull 660000; MTickEnd 0 d (fun _ => 3)%nat].

Lemma silent_relay_is_mailed_witness :
  exists s, main_run pull_env pulled_once (start_main pull_env 0 None ∅) = Some s
  /\ List.map (fun p => (tnow p.1, keys (mail_of p))) (completed s)
     = [(50, []); (300000, []); (600000, [down_key "r1.example"])]
  /\ (exists x, with_past [] (completed s) !! 2%nat = Some x /\ enough pull_env "r1.example" x).
Proof.
  destruct (main_run pull_env pulled_once (start_main pull_env 0 None ∅)) as [s|] eqn:E; [|by vm_compute in E].
  exists s. split; [done|].
  assert (Hh : "r1.example"%string ∉ label <$> pushRelaysFromEnv pull_env).
  { intros Hin. apply list_elem_of_In in Hin. vm_compute in Hin. done. }
  destruct (silent_relay_is_mailed pull_env 0 ∅ pulled_once s "r1.example" eq_refl Hh E) as [(H1 & _ & _) _].
  - by vm_compute.
  - vm_compute. repeat constructor; done.
  - vm_compute in E. injection E as <-. split; [by vm_compute|].
    eexists. split; [reflexivity|]. apply H1; [by right; right; left|by left].
Defined.
